(** * pygmi.raster.cooper: visibility sweep, vertical derivative, tilt angle,
    directional derivative, derivative ratio and taper

    A shallow embedding of the numerical routines of
    [src/pygmi/raster/cooper.py] and the properties stated about them.

    Conventions of the embedding.
    - Python integers are [Z]; list and array indices follow Python's rules
      (a negative index counts from the end, an index out of range raises).
    - A raised exception is [None] in the [option] monad.
    - The floating point cells of the visibility grid are exact rationals
      [Q]; the visibility counts are integers [Z]; quantities that go through
      [sqrt], [cos] or [arctan] are real numbers [R].
    - The cells of the vertical derivative and of the tilt angles are real
      numbers [R]: rounding, infinities and NaN are not modelled.
    - A numpy array is a record holding its shape and its rows.
    - Where a function writes into an array of its caller, the arrays are
      kept in a store, by address ([Mem]). *)

From Stdlib Require Import ZArith QArith Qminmax Reals Lra Lia.
From Stdlib Require Lqa.
From stdpp Require Import base option list numbers.

(** ** Python and numpy primitives *)

Module Py.

(** [for x in xs: body], threading the loop state and stopping at the first
    exception. *)
Fixpoint for_ {S X : Type} (xs : list X) (body : X → S → option S) (s : S)
  : option S :=
  match xs with
  | [] => Some s
  | x :: xs' => s' ← body x s; for_ xs' body s'
  end.

(** [range(lo, hi)] *)
Definition range (lo hi : Z) : list Z := seqZ lo (hi - lo).

(** [range(hi, lo, -1)]: hi, hi-1, ..., lo+1 *)
Definition range_down (hi lo : Z) : list Z := reverse (seqZ (lo + 1) (hi - lo)).

(** An index into a sequence of length [n]: a negative index counts from the
    end, and an index outside [-n, n) raises [IndexError]. *)
Definition norm (n : nat) (i : Z) : option nat :=
  if (0 <=? i)%Z then
    if (i <? Z.of_nat n)%Z then Some (Z.to_nat i) else None
  else
    if (- Z.of_nat n <=? i)%Z then Some (Z.to_nat (Z.of_nat n + i)) else None.

(** [l[i]] *)
Definition index {A : Type} (l : list A) (i : Z) : option A :=
  k ← norm (length l) i; l !! k.

(** [l[i] = v] *)
Definition assign {A : Type} (l : list A) (i : Z) (v : A) : option (list A) :=
  k ← norm (length l) i; Some (<[k:=v]> l).

(** Bound of a slice, [start] or [stop], clipped as Python does. *)
Definition clip (n : nat) (i : Z) : nat :=
  if (0 <=? i)%Z then Nat.min n (Z.to_nat i)
  else Z.to_nat (Z.of_nat n + i).

(** [l[start:stop]] *)
Definition slice {A : Type} (l : list A) (start stop : Z) : list A :=
  let a := clip (length l) start in
  let b := clip (length l) stop in
  take (b - a) (drop a l).

End Py.

(** A two-dimensional numpy array: its shape and its rows. *)
Module Np.

Record ndarray (A : Type) : Type := mk {
  nrows : nat;
  ncols : nat;
  cells : list (list A)
}.
Arguments mk {A} _ _ _.
Arguments nrows {A} _.
Arguments ncols {A} _.
Arguments cells {A} _.

(** The rows agree with the shape. *)
Definition wf {A : Type} (a : ndarray A) : Prop :=
  length (cells a) = nrows a ∧ Forall (λ r, length r = ncols a) (cells a).

Definition shape {A : Type} (a : ndarray A) : Z * Z :=
  (Z.of_nat (nrows a), Z.of_nat (ncols a)).

(** [np.zeros([nr, nc])], for any fill value; a negative dimension raises. *)
Definition full {A : Type} (nr nc : Z) (x : A) : ndarray A :=
  mk (Z.to_nat nr) (Z.to_nat nc) (replicate (Z.to_nat nr) (replicate (Z.to_nat nc) x)).

(** The cell in row [r] and column [c], counted from 0. *)
Definition lookup2 {A : Type} (a : ndarray A) (r c : nat) : option A :=
  row ← cells a !! r; row !! c.

(** [a[i, j]] *)
Definition get {A : Type} (a : ndarray A) (i j : Z) : option A :=
  r ← Py.norm (nrows a) i;
  c ← Py.norm (ncols a) j;
  lookup2 a r c.

(** The cell [a[i, j]] exists and satisfies [Q]. *)
Definition sat {A : Type} (Q : A → Prop) (a : ndarray A) (i j : Z) : Prop :=
  ∃ v, get a i j = Some v ∧ Q v.

(** Two arrays of one shape. *)
Definition same_shape {A B : Type} (a : ndarray A) (b : ndarray B) : Prop :=
  nrows a = nrows b ∧ ncols a = ncols b.

(** [a[i, j] = v] *)
Definition set {A : Type} (a : ndarray A) (i j : Z) (v : A) : option (ndarray A) :=
  r ← Py.norm (nrows a) i;
  c ← Py.norm (ncols a) j;
  Some (mk (nrows a) (ncols a) (alter (<[c:=v]>) r (cells a))).

(** [a[start:stop, j]]: a stretch of column [j] *)
Definition col_slice {A : Type} (a : ndarray A) (start stop j : Z) : option (list A) :=
  c ← Py.norm (ncols a) j;
  mapM (λ row : list A, row !! c) (Py.slice (cells a) start stop).

(** [a[i, start:stop]]: a stretch of row [i] *)
Definition row_slice {A : Type} (a : ndarray A) (i start stop : Z) : option (list A) :=
  r ← Py.norm (nrows a) i;
  row ← cells a !! r;
  Some (Py.slice row start stop).

(** [a[r0:r1, c0:c1]] *)
Definition slice2 {A : Type} (a : ndarray A) (r0 r1 c0 c1 : Z) : ndarray A :=
  mk (Py.clip (nrows a) r1 - Py.clip (nrows a) r0)
     (Py.clip (ncols a) c1 - Py.clip (ncols a) c0)
     ((λ row, Py.slice row c0 c1) <$> Py.slice (cells a) r0 r1).

(** Elementwise arithmetic on one array, and on two arrays of one shape. *)
Definition map {A B : Type} (f : A → B) (a : ndarray A) : ndarray B :=
  mk (nrows a) (ncols a) ((λ row : list A, f <$> row) <$> cells a).

Definition zip_with {A B C : Type} (f : A → B → C) (a : ndarray A) (b : ndarray B)
  : ndarray C :=
  mk (nrows a) (ncols a) (base.zip_with (base.zip_with f) (cells a) (cells b)).

(** A masked array: the underlying values and the mask ([true] = no data). *)
Record marray (A : Type) : Type := mkma {
  data : ndarray A;
  mask : ndarray bool
}.
Arguments mkma {A} _ _.
Arguments data {A} _.
Arguments mask {A} _.

Definition wfma {A : Type} (m : marray A) : Prop :=
  wf (data m) ∧ wf (mask m) ∧
  nrows (mask m) = nrows (data m) ∧ ncols (mask m) = ncols (data m).

(** The values of the cells that are not masked, in row-major order. *)
Definition compressed {A : Type} (m : marray A) : list A :=
  mjoin (base.zip_with
            (λ (row : list A) (mrow : list bool),
               fst <$> filter (λ p : A * bool, p.2 = false) (zip row mrow))
            (cells (data m)) (cells (mask m))).

(** An array without its outer [w] rows and columns on every side. *)
Definition trim {A : Type} (w : nat) (a : ndarray A) : ndarray A :=
  mk (nrows a - 2 * w) (ncols a - 2 * w)
     ((λ row, take (ncols a - 2 * w) (drop w row))
        <$> take (nrows a - 2 * w) (drop w (cells a))).

(** [values[mask] = x] *)
Definition fill {A : Type} (values : ndarray A) (msk : ndarray bool) (x : A)
  : ndarray A :=
  zip_with (λ v (b : bool), if b then x else v) values msk.

End Np.


(** ** The visibility engine *)

(** One step of a horizon sweep: the loop body shared by [__visible1] and
    [__visible2].  The state is [(num, thetamax)]; the step is counted, and
    the horizon raised, when [theta >= thetamax]. *)
Definition sweep_step (st : Z * Q) (theta : Q) : Z * Q :=
  if Qle_bool (snd st) theta then ((fst st + 1)%Z, theta) else st.

(** [__visible1(dat, nr, cp, dh)], cooper.py lines 419-433. *)
Definition __visible1 (dat : list Q) (nr cp : Z) (dh : Q) : option Z :=
  if (cp <? nr - 1)%Z && (0 <? length dat)%nat then
    let cpn := (cp - 1)%Z in
    a ← Py.index dat (cpn + 1);
    b ← Py.index dat cpn;
    let thetamax := (a - b - dh)%Q in
    st ← Py.for_ (Py.range (cpn + 2) nr)
          (λ i st,
             x ← Py.index dat i;
             c ← Py.index dat cpn;
             Some (sweep_step st ((x - c - dh) / inject_Z (i - cpn))%Q))
          (2%Z, thetamax);
    Some (fst st)
  else Some 1%Z.

(** [__visible2(dat, cp, dh)], cooper.py lines 436-449. *)
Definition __visible2 (dat : list Q) (cp : Z) (dh : Q) : option Z :=
  if (2 <? cp)%Z && (0 <? length dat)%nat then
    let cpn := (cp - 1)%Z in
    a ← Py.index dat (cpn - 1);
    b ← Py.index dat cpn;
    let thetamax := (a - b - dh)%Q in
    st ← Py.for_ (Py.range_down (cpn - 2) (-1))
          (λ i st,
             x ← Py.index dat i;
             c ← Py.index dat cpn;
             Some (sweep_step st ((x - c - dh) / inject_Z (cpn - i))%Q))
          (1%Z, thetamax);
    Some (fst st)
  else Some 0%Z.

(** The eight directional count arrays of [visibility2d]. *)
Record counts : Type := mkcounts {
  vn : Np.ndarray Z; vs : Np.ndarray Z;
  ve : Np.ndarray Z; vw : Np.ndarray Z;
  vd1 : Np.ndarray Z; vd2 : Np.ndarray Z;
  vd3 : Np.ndarray Z; vd4 : Np.ndarray Z
}.

(** The eight arrays are well formed and have the shape of [d]. *)
Definition counts_like {T : Type} (c : counts) (d : Np.ndarray T) : Prop :=
  (Np.wf (vn c) ∧ Np.same_shape (vn c) d) ∧ (Np.wf (vs c) ∧ Np.same_shape (vs c) d)
  ∧ (Np.wf (ve c) ∧ Np.same_shape (ve c) d) ∧ (Np.wf (vw c) ∧ Np.same_shape (vw c) d)
  ∧ (Np.wf (vd1 c) ∧ Np.same_shape (vd1 c) d) ∧ (Np.wf (vd2 c) ∧ Np.same_shape (vd2 c) d)
  ∧ (Np.wf (vd3 c) ∧ Np.same_shape (vd3 c) d) ∧ (Np.wf (vd4 c) ∧ Np.same_shape (vd4 c) d).

(** cooper.py lines 365-369, the pass over the columns. *)
Definition columns_pass (data : Np.ndarray Q) (nr nc wsize w2 : Z) (dh : Q)
    (st : Np.ndarray Z * Np.ndarray Z) : option (Np.ndarray Z * Np.ndarray Z) :=
  Py.for_ (Py.range 0 nc) (λ j,
    Py.for_ (Py.range w2 (nr - w2)) (λ i '(vn, vs),
      dtmp ← Np.col_slice data (i - w2) (i + w2 + 1) j;
      n ← __visible1 dtmp wsize (w2 + 1) dh;
      vn ← Np.set vn i j n;
      s ← __visible2 dtmp (w2 + 1) dh;
      vs ← Np.set vs i j s;
      Some (vn, vs))) st.

(** cooper.py lines 371-375, the pass over the rows. *)
Definition rows_pass (data : Np.ndarray Q) (nr nc wsize w2 : Z) (dh : Q)
    (st : Np.ndarray Z * Np.ndarray Z) : option (Np.ndarray Z * Np.ndarray Z) :=
  Py.for_ (Py.range w2 (nc - w2)) (λ j,
    Py.for_ (Py.range 0 nr) (λ i '(ve, vw),
      dtmp ← Np.row_slice data i (j - w2) (j + w2 + 1);
      e ← __visible1 dtmp wsize (w2 + 1) dh;
      ve ← Np.set ve i j e;
      w ← __visible2 dtmp (w2 + 1) dh;
      vw ← Np.set vw i j w;
      Some (ve, vw))) st.

(** [dtmp = np.zeros(wsize)] followed by
    [for k in range(wsize): dtmp[k] = data[i0 + di*k, j0 + k]]. *)
Definition diagonal (data : Np.ndarray Q) (wsize i0 di j0 : Z) : option (list Q) :=
  Py.for_ (Py.range 0 wsize) (λ k dtmp,
    x ← Np.get data (i0 + di * k) (j0 + k);
    Py.assign dtmp k x) (replicate (Z.to_nat wsize) 0%Q).

(** cooper.py lines 377-388, the pass over the two diagonals. *)
Definition diagonals_pass (data : Np.ndarray Q) (nr nc wsize w2 : Z) (dh : Q)
    (st : Np.ndarray Z * Np.ndarray Z * Np.ndarray Z * Np.ndarray Z)
  : option (Np.ndarray Z * Np.ndarray Z * Np.ndarray Z * Np.ndarray Z) :=
  Py.for_ (Py.range w2 (nc - w2)) (λ j,
    Py.for_ (Py.range w2 (nr - w2)) (λ i '(vd1, vd2, vd3, vd4),
      dtmp ← diagonal data wsize (i - w2) 1 (j - w2);
      a ← __visible1 dtmp wsize (w2 + 1) dh;
      vd1 ← Np.set vd1 i j a;
      b ← __visible2 dtmp (w2 + 1) dh;
      vd2 ← Np.set vd2 i j b;
      dtmp ← diagonal data wsize (i + w2) (-1) (j - w2);
      c ← __visible1 dtmp wsize (w2 + 1) dh;
      vd3 ← Np.set vd3 i j c;
      d ← __visible2 dtmp (w2 + 1) dh;
      vd4 ← Np.set vd4 i j d;
      Some (vd1, vd2, vd3, vd4))) st.

(** cooper.py lines 351-358 and 365-388: the eight count arrays, from the
    filled grid. *)
Definition sweeps (data : Np.ndarray Q) (nr nc wsize w2 : Z) (dh : Q) : option counts :=
  let z := Np.full nr nc 0%Z in
  '(vn, vs) ← columns_pass data nr nc wsize w2 dh (z, z);
  '(ve, vw) ← rows_pass data nr nc wsize w2 dh (z, z);
  '(vd1, vd2, vd3, vd4) ← diagonals_pass data nr nc wsize w2 dh (z, z, z, z);
  Some (mkcounts vn vs ve vw vd1 vd2 vd3 vd4).

(** [data.mean()] of a masked array: the mean of the cells that are not
    masked.  With every cell masked numpy returns the masked constant, whose
    payload is 0. *)
Definition ma_mean (m : Np.marray Q) : Q :=
  match Np.compressed m with
  | [] => 0%Q
  | xs => (foldr Qplus 0 xs / inject_Z (Z.of_nat (length xs)))%Q
  end.

Definition Rsum (xs : list R) : R := foldr Rplus 0%R xs.

(** [np.std(xs, ddof=1)] *)
Definition std_ddof1 (xs : list R) : R :=
  let n := INR (length xs) in
  let mean := (Rsum xs / n)%R in
  sqrt (Rsum ((λ x, (x - mean) * (x - mean))%R <$> xs) / (n - 1)).

(** The eight directional counts of cell [(i, j)]:
    [[vn[i, j], vs[i, j], ve[i, j], vw[i, j], vd1[i, j], vd2[i, j],
      vd3[i, j], vd4[i, j]]]. *)
Definition directional (c : counts) (i j : Z) : option (list Z) :=
  a1 ← Np.get (vn c) i j;
  a2 ← Np.get (vs c) i j;
  a3 ← Np.get (ve c) i j;
  a4 ← Np.get (vw c) i j;
  a5 ← Np.get (vd1 c) i j;
  a6 ← Np.get (vd2 c) i j;
  a7 ← Np.get (vd3 c) i j;
  a8 ← Np.get (vd4 c) i j;
  Some [a1; a2; a3; a4; a5; a6; a7; a8].

(** cooper.py lines 393-397. *)
Definition std_pass (c : counts) (nr nc : Z) (vstd : Np.ndarray R)
  : option (Np.ndarray R) :=
  Py.for_ (Py.range 0 nc) (λ j,
    Py.for_ (Py.range 0 nr) (λ i vstd,
      xs ← directional c i j;
      Np.set vstd i j (std_ddof1 (IZR <$> xs)))) vstd.

(** cooper.py line 390 *)
Definition total (c : counts) : Np.ndarray Z :=
  let add := Np.zip_with Z.add in
  add (add (add (add (add (add (add (vn c) (vs c)) (ve c)) (vw c)) (vd1 c)) (vd2 c))
      (vd3 c)) (vd4 c).

(** cooper.py lines 401-406 *)
Definition resultant (c : counts) : Np.ndarray R :=
  let add := Np.zip_with Rplus in
  let sub := Np.zip_with Rminus in
  let mul := Np.zip_with Rmult in
  let times (a : Np.ndarray Z) (x : R) := Np.map (λ v, IZR v * x)%R a in
  let real := Np.map IZR in
  let dtr := (PI / 180)%R in
  let c45 := cos (45 * dtr) in
  let s45 := sin (45 * dtr) in
  let vsumx :=
    sub (add (sub (add (sub (real (ve c)) (real (vw c))) (times (vd1 c) c45))
                  (times (vd2 c) c45)) (times (vd3 c) c45)) (times (vd4 c) c45) in
  let vsumy :=
    add (sub (sub (add (sub (real (vn c)) (real (vs c))) (times (vd1 c) s45))
                  (times (vd2 c) s45)) (times (vd3 c) s45)) (times (vd4 c) s45) in
  Np.map sqrt (add (mul vsumx vsumx) (mul vsumy vsumy)).

(** [a = np.ma.array(a); a.mask = msk].  Only the case that arises for a
    half-width of at least one is modelled, a mask of the array's own shape;
    any other mask is treated as a failure. *)
Definition with_mask {A : Type} (a : Np.ndarray A) (msk : Np.ndarray bool)
  : option (Np.marray A) :=
  if decide (Np.shape msk = Np.shape a) then Some (Np.mkma a msk) else None.

(** The three results of [visibility2d]. *)
Record visibility : Type := mkvisibility {
  vtot : Np.marray Z;
  vstd : Np.marray R;
  vsum : Np.marray R
}.

(** [visibility2d(data, wsize, dh)], cooper.py lines 325-416, with
    [piter = iter].

    [data = data.data] is a view of the caller's buffer, not a copy, so the
    assignment [data[mask] = mean] writes into the caller's array.  The second
    component of the result is the content of that buffer when the call
    returns. *)
Definition visibility2d (m : Np.marray Q) (wsize : Z) (dh : Q)
  : option (visibility * Np.ndarray Q) :=
  let nr := Z.of_nat (Np.nrows (Np.data m)) in
  let nc := Z.of_nat (Np.ncols (Np.data m)) in
  let wsize := Z.abs wsize in
  let w2 := (wsize / 2)%Z in
  let mask := Np.mask m in
  let mean := ma_mean m in
  let data := Np.fill (Np.data m) mask mean in
  c ← sweeps data nr nc wsize w2 dh;
  let vtot := Np.slice2 (total c) w2 (nr - w2) w2 (nc - w2) in
  vstd ← std_pass c nr nc (Np.full nr nc 0%R);
  let vstd := Np.slice2 vstd w2 (nr - w2) w2 (nc - w2) in
  let vsum := Np.slice2 (resultant c) w2 (nr - w2) w2 (nc - w2) in
  let omask := Np.slice2 mask w2 (- w2) w2 (- w2) in
  vtot ← with_mask vtot omask;
  vstd ← with_mask vstd omask;
  vsum ← with_mask vsum omask;
  Some (mkvisibility vtot vstd vsum, data).

(** The largest counts the sweeps return on a window of half-width [w]:
    every step of the ray for [w >= 2], and 1 and 0 on a window of three
    cells, where the sweeps do not run. *)
Definition max_visible2 (w : Z) : Z := if (w =? 1)%Z then 0%Z else w.
Definition max_visible1 (w : Z) : Z := (max_visible2 w + 1)%Z.

(** A masked array with no cell masked. *)
Definition unmasked {A : Type} (a : Np.ndarray A) : Np.marray A :=
  Np.mkma a (Np.full (Z.of_nat (Np.nrows a)) (Z.of_nat (Np.ncols a)) false).

(** The 7 x 7 grid of constant slope, [value[i][j] = i]. *)
Definition ramp7 : Np.ndarray Q :=
  Np.mk 7 7 ((λ i, replicate 7 (inject_Z i)) <$> seqZ 0 7).

(** A 3 x 3 grid of zeros whose centre cell holds 100 and is masked. *)
Definition masked_centre : Np.marray Q :=
  Np.mkma (Np.mk 3 3 [[0; 0; 0]; [0; 100; 0]; [0; 0; 0]]%Q)
          (Np.mk 3 3 [[false; false; false]; [false; true; false]; [false; false; false]]).

(** *** The arrays of the caller

    [visibility2d] writes into an array that it did not allocate.  To say
    which one, the arrays of a run are kept in a store, by address: the
    buffers of values and the buffers of masks.  A masked array is a pair of
    addresses. *)
Module Mem.

Record store : Type := mkstore {
  values : list (Np.ndarray Q);
  masks : list (Np.ndarray bool)
}.

Record masked : Type := mkmasked {
  data_at : nat;
  mask_at : nat
}.

(** The masked array at [a]. *)
Definition read (h : store) (a : masked) : option (Np.marray Q) :=
  d ← values h !! data_at a;
  k ← masks h !! mask_at a;
  Some (Np.mkma d k).

(** An assignment through a view of the buffer of values at [l]. *)
Definition write (h : store) (l : nat) (d : Np.ndarray Q) : store :=
  mkstore (<[l := d]> (values h)) (masks h).

(** [copy.deepcopy] of a masked array: two new buffers, which hold the
    cells of the old ones. *)
Definition deepcopy (h : store) (a : masked) : option (store * masked) :=
  m ← read h a;
  Some (mkstore (values h ++ [Np.data m]) (masks h ++ [Np.mask m]),
        mkmasked (length (values h)) (length (masks h))).

End Mem.

(** [visibility2d(data, wsize, dh)] called on the masked array at [a],
    cooper.py lines 360-363: [np.ma.getmaskarray(data)] is the mask at [a],
    [data.data] is a view of the values at [a], and [data[mask] = mean]
    writes that buffer.  The three arrays the function returns are new, and
    no other line writes an array. *)
Definition visibility2d_call (h : Mem.store) (a : Mem.masked) (wsize : Z) (dh : Q)
  : option (visibility * Mem.store) :=
  m ← Mem.read h a;
  '(r, buf) ← visibility2d m wsize dh;
  Some (r, Mem.write h (Mem.data_at a) buf).

(** One band of [Visibility2d.settings], cooper.py lines 300-307: the raster
    is deep-copied, and [visibility2d] runs on the copy with the observer at
    [dh * std / 100].  [std] stands for [data[i].data.std()], the standard
    deviation of the cells of the copy that are not masked: a square root,
    which the code rounds and the rationals do not hold. *)
Definition settings_band (std : Np.marray Q → Q) (h : Mem.store) (a : Mem.masked)
    (wsize : Z) (dh : Q) : option (visibility * Mem.store) :=
  '(h, b) ← Mem.deepcopy h a;
  m ← Mem.read h b;
  visibility2d_call h b wsize (dh * std m / 100).

(** *** The horizon criterion, stated on the angles of one ray *)

(** [dat[i]] where the index is known to be in range. *)
Definition cell (dat : list Q) (i : Z) : Q := default 0%Q (Py.index dat i).

(** The elevation angle of the step at offset [i] from the centre [c], on the
    ray towards higher indices and on the ray towards lower indices. *)
Definition theta_up (dat : list Q) (c : Z) (dh : Q) (i : Z) : Q :=
  ((cell dat (c + i) - cell dat c - dh) / inject_Z i)%Q.
Definition theta_down (dat : list Q) (c : Z) (dh : Q) (i : Z) : Q :=
  ((cell dat (c - i) - cell dat c - dh) / inject_Z i)%Q.

(** The angles of the steps 1..w of a ray, nearest step first. *)
Definition angles (theta : Z → Q) (w : Z) : list Q := theta <$> seqZ 1 w.

(** The maximum of a list of angles, recomputed from scratch. *)
Definition list_max (l : list Q) : option Q :=
  foldr (λ x acc, Some (from_option (Qmax x) x acc)) None l.

(** An angle is at or above the maximum of the angles of the closer steps. *)
Definition above_all (closer : list Q) (t : Q) : bool :=
  match list_max closer with
  | None => true
  | Some m => Qle_bool m t
  end.

(** The flag of every step of a ray: visible when its angle is at or above
    the maximum over all closer steps. *)
Definition visible_flags (thetas : list Q) : list bool :=
  imap (λ k t, above_all (take k thetas) t) thetas.

Definition count_true (bs : list bool) : Z :=
  foldr (λ (b : bool) n, ((if b then 1 else 0) + n)%Z) 0%Z bs.

(** The count of a naive re-scan of a ray. *)
Definition naive_count (thetas : list Q) : Z := count_true (visible_flags thetas).

(** ** The vertical derivative *)

(** Complex numbers, as numpy's [complex128] without rounding. *)
Module Cx.

Definition complex : Type := R * R.
Definition zero : complex := (0%R, 0%R).
Definition of_real (x : R) : complex := (x, 0%R).
Definition re (z : complex) : R := fst z.
Definition add (a b : complex) : complex := (fst a + fst b, snd a + snd b)%R.
Definition mul (a b : complex) : complex :=
  (fst a * fst b - snd a * snd b, fst a * snd b + snd a * fst b)%R.

(** A complex number times a float. *)
Definition scale (a : complex) (x : R) : complex := (fst a * x, snd a * x)%R.

(** [exp(1j * t)] *)
Definition expi (t : R) : complex := (cos t, sin t).

Definition sum (l : list complex) : complex := foldr add zero l.

End Cx.

(** [np.zeros]-like construction of an array from its cells. *)
Definition tabulate {A : Type} (nr nc : nat) (f : nat → nat → A) : Np.ndarray A :=
  Np.mk nr nc ((λ i, (λ j, f i j) <$> seq 0 nc) <$> seq 0 nr).

(** The two-dimensional discrete Fourier transform:
    [F[k, l] = sum over m, n of a[m, n] * exp(sign * 2 pi i (k m / M + l n / N))]. *)
Definition dft2 (sign : R) (a : Np.ndarray Cx.complex) : Np.ndarray Cx.complex :=
  let M := Np.nrows a in
  let N := Np.ncols a in
  tabulate M N (λ k l,
    Cx.sum ((λ m,
      Cx.sum ((λ n,
        Cx.mul (default Cx.zero (Np.lookup2 a m n))
               (Cx.expi (sign * (2 * PI)
                         * (INR k * INR m / INR M + INR l * INR n / INR N))))
        <$> seq 0 N)) <$> seq 0 M)).

(** [np.fft.fft2] and [np.fft.ifft2] *)
Definition fft2 (a : Np.ndarray Cx.complex) : Np.ndarray Cx.complex := dft2 (-1) a.
Definition ifft2 (a : Np.ndarray Cx.complex) : Np.ndarray Cx.complex :=
  Np.map (λ z, Cx.scale z (/ (INR (Np.nrows a) * INR (Np.ncols a)))) (dft2 1 a).

(** [np.roll(l, s)] for [0 <= s <= len(l)], and [np.fft.fftshift] along one
    axis and along both. *)
Definition roll {A : Type} (l : list A) (s : nat) : list A :=
  drop (length l - s) l ++ take (length l - s) l.
Definition fftshift1 {A : Type} (l : list A) : list A := roll l (length l / 2).
Definition fftshift {A : Type} (a : Np.ndarray A) : Np.ndarray A :=
  Np.mk (Np.nrows a) (Np.ncols a) (fftshift1 (fftshift1 <$> Np.cells a)).

(** [np.pad(l, [before, after], 'edge')] along one axis: a negative width
    raises, and so does extending an empty axis. *)
Definition pad_edge1 {A : Type} (l : list A) (before after : Z) : option (list A) :=
  if (before <? 0)%Z || (after <? 0)%Z then None
  else
    match l with
    | [] => if (before =? 0)%Z && (after =? 0)%Z then Some [] else None
    | x :: _ =>
        Some (replicate (Z.to_nat before) x ++ l
              ++ replicate (Z.to_nat after) (List.last l x))
    end.

(** [np.pad(a, [[rb, ra], [cb, ca]], 'edge')] *)
Definition pad_edge {A : Type} (a : Np.ndarray A) (rb ra cb ca : Z)
  : option (Np.ndarray A) :=
  rows ← pad_edge1 (Np.cells a) rb ra;
  rows ← mapM (λ row : list A, pad_edge1 row cb ca) rows;
  Some (Np.mk (Np.nrows a + Z.to_nat rb + Z.to_nat ra)
              (Np.ncols a + Z.to_nat cb + Z.to_nat ca) rows).

(** Sorting, for the median. *)
Fixpoint insert_sorted (x : R) (l : list R) : list R :=
  match l with
  | [] => [x]
  | y :: l' => if Rle_dec x y then x :: l else y :: insert_sorted x l'
  end.
Definition sort (l : list R) : list R := foldr insert_sorted [] l.

(** [np.ma.median]: the median of the cells that are not masked, the masked
    constant ([None]) when there is none. *)
Definition ma_median (m : Np.marray R) : option R :=
  let s := sort (Np.compressed m) in
  let n := length s in
  if (n =? 0)%nat then None
  else if Nat.even n then Some ((nth (n / 2 - 1) s 0 + nth (n / 2) s 0) / 2)%R
  else Some (nth (n / 2) s 0%R).

(** cooper.py lines 651-653: [z = data - median], with 0 in the masked
    cells. *)
Definition centred (m : Np.marray R) : Np.ndarray R :=
  match ma_median m with
  | None => Np.map (λ _, 0%R) (Np.data m)
  | Some med => Np.zip_with (λ v (b : bool), if b then 0%R else (v - med)%R)
                            (Np.data m) (Np.mask m)
  end.

(** [nextpow2(n)], cooper.py lines 640-643: [ceil(log2(n))].  For [n = 0]
    numpy's [log2] is minus infinity, here [None].  The logarithm is taken
    exact: the code takes it in double precision, which gives the same
    ceiling as long as [n] is far below [2^49] (at [n = 2^49 + 1] the
    double nearest to [log2 n] is 49); the sizes of arrays are. *)
Definition nextpow2 (n : Z) : option Z :=
  if (0 <? n)%Z then Some (Z.log2_up n) else None.

(** [int(2**nextpow2(nmax))]; 2 to the power minus infinity is 0. *)
Definition pow2 (m : option Z) : Z :=
  match m with
  | Some k => (2 ^ k)%Z
  | None => 0%Z
  end.

(** The radial frequency of bin [(i, j)], cooper.py lines 673-679. *)
Definition weight (npts : Z) (wn : R) (i j : Z) : R :=
  let cx := (IZR npts / 2 + 1)%R in
  let cy := cx in
  let freqx := ((IZR i + 1 - cx) * wn)%R in
  let freqy := ((IZR j + 1 - cy) * wn)%R in
  sqrt (freqx * freqx + freqy * freqy).

(** The weighting loop, cooper.py lines 675-680.  [fz] starts as the array
    the name was bound to on line 670, the spectrum before the shift; [f] is
    the shifted copy. *)
Definition weighting (f fz : Np.ndarray Cx.complex) (npts : Z) (wn : R)
  : option (Np.ndarray Cx.complex) :=
  Py.for_ (Py.range 0 npts) (λ i,
    Py.for_ (Py.range 0 npts) (λ j fz,
      x ← Np.get f i j;
      Np.set fz i j (Cx.scale x (weight npts wn i j)))) fz.

(** cooper.py lines 649-664: the field without its median, padded to a
    square of side [npts]. *)
Definition padded (m : Np.marray R) (npts : Z) : option (Np.ndarray R) :=
  let nr := Z.of_nat (Np.nrows (Np.data m)) in
  let nc := Z.of_nat (Np.ncols (Np.data m)) in
  let z := centred m in
  let cdiff := ((npts - nc) / 2)%Z in
  let rdiff := ((npts - nr) / 2)%Z in
  let cdiff2 := (npts - cdiff - nc)%Z in
  let rdiff2 := (npts - rdiff - nr)%Z in
  pad_edge z rdiff rdiff2 cdiff cdiff2.

(** cooper.py lines 669-680: the weighted spectrum, before it is shifted
    back.  [xint] is the integer sample interval; with [xint * (npts - 1) = 0]
    the division of line 671 raises [ZeroDivisionError]. *)
Definition filtered (data1 : Np.ndarray R) (npts xint : Z)
  : option (Np.ndarray Cx.complex) :=
  let f := fft2 (Np.map Cx.of_real data1) in
  let fz := f in
  if (xint * (npts - 1) =? 0)%Z then None
  else
    let wn := (2 * PI / IZR (xint * (npts - 1)))%R in
    let f := fftshift f in
    weighting f fz npts wn.

(** [vertical(data, npts, xint)], cooper.py lines 646-685; [npts = None] is
    the default. *)
Definition vertical (m : Np.marray R) (npts : option Z) (xint : Z)
  : option (Np.ndarray R) :=
  let nr := Z.of_nat (Np.nrows (Np.data m)) in
  let nc := Z.of_nat (Np.ncols (Np.data m)) in
  let npts :=
    match npts with
    | Some n => n
    | None => let nmax := Z.max nr nc in pow2 (nextpow2 nmax)
    end in
  let cdiff := ((npts - nc) / 2)%Z in
  let rdiff := ((npts - nr) / 2)%Z in
  data1 ← padded m npts;
  fz ← filtered data1 npts xint;
  let fz := fftshift fz in
  let fzinv := ifft2 fz in
  Some (Np.map Cx.re (Np.slice2 fzinv rdiff (nr + rdiff) cdiff (nc + cdiff))).

(** ** The tilt angles *)

#[local] Instance R_inhabited : Inhabited R := populate 0%R.

(** [numpy.ma] arithmetic, cell by cell.  A cell of a masked array is the
    value stored under it and its mask bit; an operation keeps, in a cell it
    masks, the value of its first operand. *)
Module Ma.

Definition cell : Type := (R * bool)%type.

Definition cells (m : Np.marray R) : Np.ndarray cell :=
  Np.zip_with pair (Np.data m) (Np.mask m).
Definition of_cells (a : Np.ndarray cell) : Np.marray R :=
  Np.mkma (Np.map fst a) (Np.map snd a).

(** [np.finfo(float).tiny], the tolerance of the safe division. *)
Definition tiny : R := (/ 2 ^ 1022)%R.

(** [add], [subtract], [multiply]: masked where an operand is. *)
Definition binary (f : R → R → R) (x y : cell) : cell :=
  let m := x.2 || y.2 in
  (if m then x.1 else f x.1 y.1, m).

(** The domain of [true_divide]: [abs(a) * tiny >= abs(b)]. *)
Definition unsafe (a b : R) : bool :=
  if Rle_dec (Rabs b) (Rabs a * tiny) then true else false.

(** [true_divide]: masked where an operand is, and where the division is
    not safe. *)
Definition true_divide (x y : cell) : cell :=
  let m := x.2 || y.2 || unsafe x.1 y.1 in
  (if m then x.1 else (x.1 / y.1)%R, m).

(** A function without a domain, such as [np.ma.arctan]. *)
Definition unary (f : R → R) (x : cell) : cell :=
  (if x.2 then x.1 else f x.1, x.2).

(** [np.ma.sqrt]: masked where the argument is, and where it is negative. *)
Definition sqrt (x : cell) : cell :=
  let m := x.2 || (if Rlt_dec x.1 0 then true else false) in
  (if m then x.1 else R_sqrt.sqrt x.1, m).

(** The operations on arrays, and with a scalar as second operand. *)
Definition lift1 (f : cell → cell) (a : Np.marray R) : Np.marray R :=
  of_cells (Np.map f (cells a)).
Definition lift2 (f : cell → cell → cell) (a b : Np.marray R) : Np.marray R :=
  of_cells (Np.zip_with f (cells a) (cells b)).
Definition scalar (f : cell → cell → cell) (a : Np.marray R) (c : R) : Np.marray R :=
  lift1 (λ x, f x (c, false)) a.

(** [a.min()] and [a.max()] over the cells that are not masked; the masked
    constant ([None]) when there is none. *)
Definition extreme (f : R → R → R) (m : Np.marray R) : option R :=
  match Np.compressed m with
  | [] => None
  | x :: l => Some (foldr f x l)
  end.

End Ma.

(** [np.gradient] along one axis, with unit spacing: central differences
    inside, one-sided differences at the two ends; fewer than two elements
    raise [ValueError]. *)
Definition gradient1 {X : Type} `{Inhabited X} (sub : X → X → X) (div : X → R → X)
    (l : list X) : option (list X) :=
  let n := length l in
  if (n <? 2)%nat then None
  else Some ((λ i : nat,
                if (i =? 0)%nat then div (sub (l !!! 1%nat) (l !!! 0%nat)) 1%R
                else if (i =? n - 1)%nat
                     then div (sub (l !!! (n - 1)%nat) (l !!! (n - 2)%nat)) 1%R
                     else div (sub (l !!! (i + 1)%nat) (l !!! (i - 1)%nat)) 2%R)
               <$> seq 0 n).

(** [np.gradient(a)]: the derivative along the rows (axis 0), then along
    the columns (axis 1). *)
Definition gradient {X : Type} `{Inhabited X} (sub : X → X → X) (div : X → R → X)
    (a : Np.ndarray X) : option (Np.ndarray X * Np.ndarray X) :=
  d0 ← gradient1 (base.zip_with sub) (λ row c, (λ x, div x c) <$> row) (Np.cells a);
  d1 ← mapM (gradient1 sub div) (Np.cells a);
  Some (Np.mk (Np.nrows a) (Np.ncols a) d0, Np.mk (Np.nrows a) (Np.ncols a) d1).

(** On a masked array the differences and the divisions are those of
    [numpy.ma]. *)
Definition ma_gradient (m : Np.marray R) : option (Np.marray R * Np.marray R) :=
  d ← gradient (Ma.binary Rminus) (λ x c, Ma.true_divide x (c, false)) (Ma.cells m);
  Some (Ma.of_cells d.1, Ma.of_cells d.2).

(** [a[i, j]], and 0 outside the array. *)
Definition at0 (a : Np.ndarray R) (i j : Z) : R :=
  if (0 <=? i)%Z && (0 <=? j)%Z
  then default 0%R (Np.lookup2 a (Z.to_nat i) (Z.to_nat j))
  else 0%R.

(** [scipy.signal.convolve2d(a, se, mode)] with the kernel
    [se = np.ones((s, s))/(s*s)]: cell [(m, n)] of the result is the sum over
    the kernel of [a[m + off - j, n + off - k] * se[j, k]], with
    [off = s - 1] for ['valid'] and [off = (s - 1) // 2] for ['same']. *)
Definition convolve (a : Np.ndarray R) (s off : Z) (nr nc : nat) : Np.ndarray R :=
  tabulate nr nc (λ m n,
    Rsum ((λ j,
      Rsum ((λ k, (at0 a (Z.of_nat m + off - j) (Z.of_nat n + off - k)
                   * (1 / IZR (s * s)))%R) <$> seqZ 0 s)) <$> seqZ 0 s)).

(** ['valid']: only the cells whose window lies inside the array.  A kernel
    larger than the array is outside this model. *)
Definition convolve2d_valid (a : Np.ndarray R) (s : Z) : option (Np.ndarray R) :=
  let nr := Z.of_nat (Np.nrows a) in
  let nc := Z.of_nat (Np.ncols a) in
  if (s <=? nr)%Z && (s <=? nc)%Z
  then Some (convolve a s (s - 1) (Z.to_nat (nr - s + 1)) (Z.to_nat (nc - s + 1)))
  else None.

(** ['same']: the shape of the array, zeros around it. *)
Definition convolve2d_same (a : Np.ndarray R) (s : Z) : Np.ndarray R :=
  convolve a s ((s - 1) / 2) (Np.nrows a) (Np.ncols a).

(** The five results of [tilt1]. *)
Record tilts : Type := mktilts {
  t1 : Np.marray R;
  th : Np.marray R;
  t2 : Np.marray R;
  ta : Np.marray R;
  tdx : Np.marray R
}.

(** cooper.py lines 582-593: the masked cells take the mid-range value
    [dm], and the grid is smoothed when [s > 0].  The grid holds finite
    numbers, so lines 586-587 change nothing.  With every cell masked [dm]
    is the masked constant, which stores 0. *)
Definition smoothed (m : Np.marray R) (s : Z) : option (Np.marray R) :=
  let dm :=
    match Ma.extreme Rmin m, Ma.extreme Rmax m with
    | Some dmin, Some dmax => (0.5 * (dmin + dmax))%R
    | _, _ => 0%R
    end in
  let data := Np.mkma (Np.fill (Np.data m) (Np.mask m) dm) (Np.mask m) in
  if (0 <? s)%Z then
    data2 ← convolve2d_valid (Np.data data) s;
    mask ← convolve2d_valid (Np.map (λ b : bool, if b then 1%R else 0%R) (Np.mask data)) s;
    Some (Np.mkma data2 (Np.map (λ x, if Req_dec_T x 0 then false else true) mask))
  else Some data.

Section tilt.

(** [np.real(np.arctanh(np.nan_to_num(x) + (0+0j)))], line 607: the
    hyperbolic arctangent on the complex plane is not modelled. *)
Variable arctanh_re : Np.marray R → Np.marray R.

(** cooper.py lines 595-625: the angles, each with the mask its own
    computation gives it. *)
Definition tilt_angles (m : Np.marray R) (azi : R) (s : Z) : option tilts :=
  data ← smoothed m s;
  let nr := Z.of_nat (Np.nrows (Np.data data)) in
  let nc := Z.of_nat (Np.ncols (Np.data data)) in
  let dtr := (PI / 180.0)%R in
  let azi := (azi * dtr)%R in
  d ← ma_gradient data;
  let dy := d.1 in
  let dx := d.2 in
  let mul := Ma.binary Rmult in
  let add := Ma.binary Rplus in
  let dxtot := Ma.lift1 Ma.sqrt (Ma.lift2 add (Ma.lift2 mul dx dx) (Ma.lift2 mul dy dy)) in
  let nmax := Z.max nr nc in
  let npts := pow2 (nextpow2 nmax) in
  dz ← vertical data (Some npts) 1;
  let t1 := Ma.lift1 (Ma.unary atan) (Ma.lift2 Ma.true_divide (unmasked dz) dxtot) in
  let th := arctanh_re (Ma.lift2 Ma.true_divide (unmasked dz) dxtot) in
  let tdx :=
    Ma.lift1 (Ma.unary atan)
      (Ma.lift2 Ma.true_divide dxtot (unmasked (Np.map Rabs dz))) in
  let dx1 :=
    Ma.lift2 add (Ma.scalar mul dx (cos azi)) (Ma.scalar mul dy (sin azi)) in
  let dx2 :=
    Ma.lift2 add (Ma.scalar mul dx (cos (azi + PI / 2)))
                 (Ma.scalar mul dy (sin (azi + PI / 2))) in
  let dxz :=
    Ma.lift1 Ma.sqrt
      (Ma.lift2 add (Ma.lift2 mul dx2 dx2) (unmasked (Np.zip_with Rmult dz dz))) in
  let ta := Ma.lift1 (Ma.unary atan) (Ma.lift2 Ma.true_divide dx1 dxz) in
  let s := if (s <? 3)%Z then 3%Z else s in
  let ts := convolve2d_same (Np.data t1) s in
  ds ← gradient Rminus Rdiv ts;
  let dxs := ds.1 in
  let dys := ds.2 in
  dzs ← vertical (unmasked ts) (Some npts) 1;
  let dxtots :=
    Ma.lift1 Ma.sqrt
      (unmasked (Np.zip_with Rplus (Np.zip_with Rmult dxs dxs)
                                   (Np.zip_with Rmult dys dys))) in
  let t2 := Ma.lift1 (Ma.unary atan) (Ma.lift2 Ma.true_divide (unmasked dzs) dxtots) in
  Some (mktilts t1 th t2 ta tdx).

(** [tilt1(data, azi, s)], cooper.py lines 555-637: lines 629-635 give [th]
    and [t2] the mask of [t1], in place of their own. *)
Definition tilt1 (m : Np.marray R) (azi : R) (s : Z) : option tilts :=
  r ← tilt_angles m azi s;
  let mask := Np.mask (t1 r) in
  Some (mktilts (t1 r)
                (Np.mkma (Np.data (th r)) mask)
                (Np.mkma (Np.data (t2 r)) mask)
                (ta r) (tdx r)).

End tilt.

(** Every cell that is not masked lies in the open interval
    [(-pi/2, pi/2)]. *)
Definition within_quarter_turn (a : Np.marray R) : Prop :=
  ∀ (i j : nat) (v : R),
    Np.lookup2 (Np.data a) i j = Some v → Np.lookup2 (Np.mask a) i j = Some false →
    (- PI / 2 < v < PI / 2)%R.

(** A masked array of the shape of the grid [d]. *)
Definition like (d a : Np.marray R) : Prop :=
  Np.wfma a ∧ Np.same_shape (Np.data a) (Np.data d).

(** Two rows under one mask row: where the mask is off, the second row is
    the first plus [c]. *)
Definition row_shifted (c : R) (r1 r2 : list R) (mr : list bool) : Prop :=
  length r2 = length r1 ∧ length mr = length r1
  ∧ ∀ (j : nat) (v : R), mr !! j = Some false → r1 !! j = Some v → r2 !! j = Some (v + c)%R.

(** Every cell of an array satisfies [P]. *)
Definition all_cells {A : Type} (P : A → Prop) (a : Np.ndarray A) : Prop :=
  ∀ (i j : nat) (v : A), Np.lookup2 a i j = Some v → P v.

(** ** The directional derivative and the derivative ratio *)

(** A plain numpy ufunc applied to masked arrays, as the operators [-a] and
    [abs(a)] and the call [np.arctan2(a, b)] do: the function is computed on
    the values of every cell, masked or not, and the result is masked where
    an operand is. *)
Definition ufunc1 (f : R → R) (x : Ma.cell) : Ma.cell := (f x.1, x.2).
Definition ufunc2 (f : R → R → R) (x y : Ma.cell) : Ma.cell := (f x.1 y.1, x.2 || y.2).

(** [a ** order], that is [np.ma.power], with a natural number as exponent:
    a masked cell keeps its value.  A negative exponent, which makes the
    power of 0 infinite, is outside the model. *)
Definition ma_power (order : nat) (x : Ma.cell) : Ma.cell :=
  (if x.2 then x.1 else x.1 ^ order, x.2)%R.

(** [np.deg2rad] *)
Definition deg2rad (x : R) : R := (x * (PI / 180))%R.

(** [np.arctan2(y, x)] on finite numbers: the angle of the point [(x, y)],
    in the half-open interval from [-pi] to [pi]. *)
Definition arctan2 (y x : R) : R :=
  if Rlt_dec 0 x then atan (y / x)
  else if Rlt_dec x 0 then
    if Rle_dec 0 y then (atan (y / x) + PI)%R else (atan (y / x) - PI)%R
  else if Rlt_dec 0 y then (PI / 2)%R
  else if Rlt_dec y 0 then (- PI / 2)%R
  else 0%R.

(** [-dy*np.sin(azi)-dx*np.cos(azi)], with [azi] in radians: cooper.py
    lines 188, 215 and 219. *)
Definition directed (dx dy : Np.marray R) (azi : R) : Np.marray R :=
  Ma.lift2 (Ma.binary Rminus)
    (Ma.scalar (Ma.binary Rmult) (Ma.lift1 (ufunc1 Ropp) dy) (sin azi))
    (Ma.scalar (Ma.binary Rmult) dx (cos azi)).

(** [gradients(data, azi)], cooper.py lines 167-190.  [dx] is the
    derivative along the rows (axis 0) and [dy] the derivative along the
    columns (axis 1). *)
Definition gradients (m : Np.marray R) (azi : R) : option (Np.marray R) :=
  let azi := deg2rad azi in
  d ← ma_gradient m;
  let dx := d.1 in
  let dy := d.2 in
  let dt1 := directed dx dy azi in
  Some dt1.

(** [derivative_ratio(data, azi, order)], cooper.py lines 193-223.  The
    conversion of line 220 changes nothing on real numbers. *)
Definition derivative_ratio (m : Np.marray R) (azi : R) (order : nat)
  : option (Np.marray R) :=
  let azi := deg2rad azi in
  d ← ma_gradient m;
  let dx := d.1 in
  let dy := d.2 in
  let dt1 := directed dx dy azi in
  let dt2 := directed dx dy (azi + PI / 2) in
  let dr :=
    Ma.lift2 (ufunc2 arctan2) dt1 (Ma.lift1 (ma_power order) (Ma.lift1 (ufunc1 Rabs) dt2)) in
  Some dr.

(** A cell that is masked, or holds 0. *)
Definition masked_or_zero (c : Ma.cell) : Prop := c.2 = true ∨ c.1 = 0%R.

(** ** The taper *)

(** [g.mean()] of an array of floats.  The mean of an array without cells,
    NaN in numpy, is outside the model. *)
Definition np_mean (g : Np.ndarray R) : R :=
  (Rsum (mjoin (Np.cells g)) / INR (Np.nrows g * Np.ncols g))%R.

(** [gf[r0:r1, c0:c1] = v]: the bounds are clipped as slices are, and [v] is
    broadcast to the shape of the target, each of its dimensions being that
    of the target or 1; another shape raises [ValueError]. *)
Definition assign_block (gf v : Np.ndarray R) (r0 r1 c0 c1 : Z)
  : option (Np.ndarray R) :=
  let ra := Py.clip (Np.nrows gf) r0 in
  let rb := Py.clip (Np.nrows gf) r1 in
  let ca := Py.clip (Np.ncols gf) c0 in
  let cb := Py.clip (Np.ncols gf) c1 in
  let tr := (rb - ra)%nat in
  let tc := (cb - ca)%nat in
  if ((Np.nrows v =? tr)%nat || (Np.nrows v =? 1)%nat)
     && ((Np.ncols v =? tc)%nat || (Np.ncols v =? 1)%nat)
  then
    Some (Np.mk (Np.nrows gf) (Np.ncols gf)
            (imap (λ i row,
               imap (λ j x,
                 if (ra <=? i)%nat && (i <? ra + tr)%nat
                    && (ca <=? j)%nat && (j <? ca + tc)%nat
                 then default 0%R
                        (Np.lookup2 v (if (Np.nrows v =? 1)%nat then 0 else i - ra)%nat
                                      (if (Np.ncols v =? 1)%nat then 0 else j - ca)%nat)
                 else x) row) (Np.cells gf)))
  else None.

(** [__taper2d(g, npts, c, r, cdiff, rdiff)], cooper.py lines 688-758, on an
    array of floats.  No line of the module calls it. *)
Definition __taper2d (g : Np.ndarray R) (npts c r cdiff rdiff : Z)
  : option (Np.ndarray R) :=
  let npts2 := (npts - 1)%Z in
  let gm := np_mean g in
  if (npts <? 0)%Z then None
  else
    let gf := Np.full npts npts 0%R in
    gf ← assign_block gf (Np.map (λ v, (v - gm)%R) g)
                      rdiff (rdiff + r) cdiff (cdiff + c);
    Py.for_ (Py.range 0 cdiff) (λ i gf,
      let tmp := ((1 + sin (- PI / 2 + IZR i * PI / IZR cdiff)) * 0.5)%R in
      Py.for_ (Py.range rdiff (rdiff + r)) (λ j gf,
        x ← Np.get gf i j;
        gf ← Np.set gf i j (x * tmp)%R;
        y ← Np.get gf (npts2 - i) j;
        Np.set gf (npts2 - i) j (y * tmp)%R) gf) gf.

(** ** Relations between two grids *)

(** The height [x'] is the height [x] rescaled by [a] and raised by [c]. *)
Definition affine (a c : Q) (x x' : Q) : Prop := (x' == a * x + c)%Q.

(** Two arrays of one shape whose cells are related one by one. *)
Definition cells_rel {A B : Type} (R : A → B → Prop)
    (x : Np.ndarray A) (y : Np.ndarray B) : Prop :=
  Np.nrows x = Np.nrows y ∧ Np.ncols x = Np.ncols y
  ∧ Forall2 (Forall2 R) (Np.cells x) (Np.cells y).

(** Two states of a horizon sweep: the same count, and the horizon
    rescaled by [a]. *)
Definition sweep_rel (a : Q) (st st' : Z * Q) : Prop :=
  fst st' = fst st ∧ (snd st' == a * snd st)%Q.

(** Two states of a horizon sweep after [k] steps beyond the first, the
    second with the observer [delta] higher: it has counted at least as many
    steps, and its horizon is lower by at least [delta / (k + 1)]. *)
Definition sweep_raised (delta : Q) (k : nat) (st st' : Z * Q) : Prop :=
  (fst st ≤ fst st')%Z ∧ (snd st' <= snd st - delta / inject_Z (Z.of_nat k + 1))%Q.

(** The eight count arrays of one run are, cell by cell, at most those of
    another. *)
Definition counts_le (c c' : counts) : Prop :=
  cells_rel Z.le (vn c) (vn c') ∧ cells_rel Z.le (vs c) (vs c')
  ∧ cells_rel Z.le (ve c) (ve c') ∧ cells_rel Z.le (vw c) (vw c')
  ∧ cells_rel Z.le (vd1 c) (vd1 c') ∧ cells_rel Z.le (vd2 c) (vd2 c')
  ∧ cells_rel Z.le (vd3 c) (vd3 c') ∧ cells_rel Z.le (vd4 c) (vd4 c').

(** A grid of whole heights, none of them masked, as [visibility2d] reads
    it; and the grids whose heights are at most [bound] in absolute
    value. *)
Definition heights (d : Np.ndarray Z) : Np.marray Q := unmasked (Np.map inject_Z d).
Definition within (bound : Z) (d : Np.ndarray Z) : Prop :=
  Forall (Forall (λ z : Z, (Z.abs z ≤ bound)%Z)) (Np.cells d).

(** The complex number [z'] is [z] times the real [c]; the real [v'] is [v]
    times [c]. *)
Definition scaled (c : R) (z z' : Cx.complex) : Prop := z' = Cx.scale z c.
Definition scaled_re (c : R) (v v' : R) : Prop := v' = (v * c)%R.

(** ** A grid of stripes

    The grid of [k] equal rows [[a0, a1, a2, a3]], and the 2 x 4 grid of
    stripes [[9, 0, -9, 0]], with no masked cell. *)
Definition striped (k : nat) (a0 a1 a2 a3 : R) : Np.ndarray R :=
  Np.mk k 4 (replicate k [a0; a1; a2; a3]).
Definition stripes : Np.marray R := unmasked (striped 2 9 0 (-9) 0).

(** [exp(1j * q * pi / 2)] for an integer [q]: 1, i, -1 or -i. *)
Definition quarter (r : Z) : Cx.complex :=
  match r with
  | 0%Z => (1, 0)%R
  | 1%Z => (0, 1)%R
  | 2%Z => (-1, 0)%R
  | _ => (0, -1)%R
  end.
Definition quarter_turns (q : Z) : Cx.complex := quarter (q mod 4).

(** * Properties *)

(** ** Loops, ranges, indices and slices *)

Section py_facts.
Context {S X A : Type}.
Implicit Types (l : list A) (i a b : Z) (k : nat).

(** A loop whose body never raises, keeps the state [Good] and finishes the
    item it visits, where finished items stay finished ([Keep]), returns a
    state in which every item is finished. *)
Lemma for_done (Good : S → Prop) (Keep : S → S → Prop) (Done : X → S → Prop)
    (body : X → S → option S) (xs : list X) :
  (∀ s, Keep s s) →
  (∀ s1 s2 s3, Keep s1 s2 → Keep s2 s3 → Keep s1 s3) →
  (∀ x s s', Done x s → Keep s s' → Done x s') →
  (∀ x s, x ∈ xs → Good s →
          ∃ s', body x s = Some s' ∧ Good s' ∧ Keep s s' ∧ Done x s') →
  ∀ s, Good s →
       ∃ s', Py.for_ xs body s = Some s' ∧ Good s' ∧ Keep s s'
             ∧ ∀ x, x ∈ xs → Done x s'.
Proof.
  intros Hrefl Htrans Hkeep.
  induction xs as [|x xs IH]; intros Hbody s Hs; simpl.
  - exists s. repeat split; [done..|]. by intros x Hx%elem_of_nil.
  - destruct (Hbody x s) as (s1 & -> & Hs1 & Hk1 & Hd1); [left | done |].
    simpl. destruct (IH (λ x' s' Hin, Hbody x' s' (list_elem_of_further _ _ _ Hin)) s1 Hs1)
      as (s2 & -> & Hs2 & Hk2 & Hd2).
    exists s2. repeat split; [done|by eapply Htrans|].
    intros y [->|Hy]%elem_of_cons; [by eapply Hkeep | by apply Hd2].
Qed.

(** A loop whose body is a pure state update is a left fold. *)
Lemma for_pure (body : X → S → option S) (g : S → X → S) (xs : list X) :
  ∀ s, (∀ x s', x ∈ xs → body x s' = Some (g s' x)) →
       Py.for_ xs body s = Some (foldl g s xs).
Proof.
  induction xs as [|x xs IH]; intros s Hb; simpl; [done|].
  rewrite Hb by left. simpl. apply IH. intros; apply Hb. by right.
Qed.

Lemma norm_nonneg (n : nat) i :
  (0 ≤ i < Z.of_nat n)%Z → Py.norm n i = Some (Z.to_nat i).
Proof.
  intros. unfold Py.norm.
  rewrite (proj2 (Z.leb_le _ _)) by lia. by rewrite (proj2 (Z.ltb_lt _ _)) by lia.
Qed.

Lemma norm_lt (n : nat) i k : Py.norm n i = Some k → (k < n)%nat.
Proof.
  unfold Py.norm. repeat case_match; intros; simplify_eq; lia.
Qed.

Lemma index_nonneg l i :
  (0 ≤ i < Z.of_nat (length l))%Z → Py.index l i = l !! Z.to_nat i.
Proof. intros. unfold Py.index. by rewrite norm_nonneg. Qed.

Lemma index_is_Some l i :
  (0 ≤ i < Z.of_nat (length l))%Z → is_Some (Py.index l i).
Proof. intros. rewrite index_nonneg by done. apply lookup_lt_is_Some. lia. Qed.

Lemma elem_of_range (lo hi i : Z) : i ∈ Py.range lo hi ↔ (lo ≤ i < hi)%Z.
Proof. unfold Py.range. rewrite elem_of_seqZ. lia. Qed.

Lemma elem_of_range_down (hi lo i : Z) : i ∈ Py.range_down hi lo ↔ (lo < i ≤ hi)%Z.
Proof. unfold Py.range_down. rewrite elem_of_reverse, elem_of_seqZ. lia. Qed.

Lemma length_slice_nonneg l a b :
  (0 ≤ a ≤ b)%Z → (b ≤ Z.of_nat (length l))%Z →
  length (Py.slice l a b) = Z.to_nat (b - a).
Proof.
  intros Ha Hb. unfold Py.slice, Py.clip.
  rewrite !(proj2 (Z.leb_le _ _)) by lia.
  rewrite length_take, length_drop. lia.
Qed.

Lemma lookup_slice_nonneg l a b k :
  (0 ≤ a ≤ b)%Z → (b ≤ Z.of_nat (length l))%Z → (Z.of_nat k < b - a)%Z →
  Py.slice l a b !! k = l !! (Z.to_nat a + k)%nat.
Proof.
  intros Ha Hb Hk. unfold Py.slice, Py.clip.
  rewrite !(proj2 (Z.leb_le _ _)) by lia.
  rewrite lookup_take_lt by lia. rewrite lookup_drop. f_equal. lia.
Qed.

End py_facts.

(** ** The horizon sweep *)

Lemma cell_index (dat : list Q) (i : Z) :
  (0 ≤ i < Z.of_nat (length dat))%Z → Py.index dat i = Some (cell dat i).
Proof.
  intros Hi. unfold cell. by destruct (index_is_Some dat i Hi) as [x ->].
Qed.

Lemma list_max_le (l : list Q) (m t : Q) :
  list_max l = Some m → ((m <= t)%Q ↔ ∀ x, x ∈ l → (x <= t)%Q).
Proof.
  revert m. induction l as [|x l IH]; intros m; simpl; [done|].
  intros [= <-]. destruct (list_max l) as [m'|] eqn:Hm; simpl.
  - rewrite Q.max_lub_iff, (IH m' eq_refl). split.
    + intros [Hx Hl] y [->|Hy]%elem_of_cons; auto.
    + intros H. split; [apply H; left | intros y Hy; apply H; by right].
  - destruct l; [|done]. split.
    + by intros Hx y [->|Hy%elem_of_nil]%elem_of_cons.
    + intros H. apply H. left.
Qed.

(** An angle is flagged exactly when no closer angle exceeds it. *)
Lemma above_all_spec (closer : list Q) (t : Q) :
  above_all closer t = true ↔ ∀ x, x ∈ closer → (x <= t)%Q.
Proof.
  unfold above_all. destruct (list_max closer) as [m|] eqn:Hm.
  - rewrite Qle_bool_iff. by apply list_max_le.
  - destruct closer; [|done]. split; [|done]. by intros _ x Hx%elem_of_nil.
Qed.

Lemma sweep_step_fst_snd (st : Z * Q) (t : Q) :
  sweep_step st t = if Qle_bool (snd st) t then ((fst st + 1)%Z, t) else st.
Proof. done. Qed.

(** The streaming sweep counts what the re-scan flags.  [seen] holds the
    angles already passed; the horizon [snd st] stands for their maximum. *)
Lemma sweep_fold_count (rest : list Q) :
  ∀ (seen : list Q) (st : Z * Q),
    (∀ t, Qle_bool (snd st) t = above_all seen t) →
    fst (foldl sweep_step st rest)
    = (fst st + count_true (imap (λ k t, above_all (seen ++ take k rest) t) rest))%Z.
Proof.
  induction rest as [|x rest IH]; intros seen st Hst; simpl; [lia|].
  rewrite app_nil_r.
  rewrite (IH (seen ++ [x]) (sweep_step st x)).
  - rewrite (imap_ext (λ k t, above_all ((seen ++ [x]) ++ take k rest) t)
                      ((λ k t, above_all (seen ++ take k (x :: rest)) t) ∘ Datatypes.S) rest).
    2:{ intros k t _. simpl. by rewrite <- app_assoc. }
    rewrite sweep_step_fst_snd, Hst.
    destruct (above_all seen x); simpl; lia.
  - intros t. rewrite sweep_step_fst_snd.
    apply eq_true_iff_eq. rewrite above_all_spec.
    destruct (Qle_bool (snd st) x) eqn:Hx; simpl.
    + rewrite Qle_bool_iff. rewrite Qle_bool_iff in Hx. split.
      * intros Ht y [Hy|Hy%list_elem_of_singleton]%elem_of_app; [|by subst y].
        apply Qle_trans with x; [|done]. apply Qle_trans with (snd st); [|done].
        revert y Hy. apply above_all_spec. rewrite <- Hst.
        apply Qle_bool_iff, Qle_refl.
      * intros H. apply H, elem_of_app. right. by apply list_elem_of_singleton.
    + rewrite Hst, above_all_spec. split.
      * intros H y [Hy|Hy%list_elem_of_singleton]%elem_of_app; [by apply H|].
        subst y. apply Qlt_le_weak, Qlt_le_trans with (snd st).
        -- apply Qnot_le_lt. intros Hle%Qle_bool_iff. congruence.
        -- apply Qle_bool_iff. rewrite Hst. by apply above_all_spec.
      * intros H y Hy. apply H, elem_of_app. by left.
Qed.

Lemma count_true_cons (b : bool) (bs : list bool) :
  count_true (b :: bs) = ((if b then 1 else 0) + count_true bs)%Z.
Proof. done. Qed.

(** A sweep that starts on the first angle of a ray, already counted. *)
Lemma sweep_from_first (n0 : Z) (t0 t1 : Q) (rest : list Q) :
  (t0 == t1)%Q →
  fst (foldl sweep_step (n0, t0) rest) = (n0 - 1 + naive_count (t1 :: rest))%Z.
Proof.
  intros Heq. rewrite (sweep_fold_count rest [t1]).
  - unfold naive_count, visible_flags.
    change (imap _ (t1 :: rest))
      with (above_all [] t1 :: imap (λ k t, above_all ([t1] ++ take k rest) t) rest).
    rewrite count_true_cons. change (above_all [] t1) with true. cbn [fst]. lia.
  - intros t. simpl. unfold above_all. simpl. by rewrite Heq.
Qed.

Lemma range_shift (f : Z → Q) (c lo hi : Z) :
  (λ i, f (i - c)%Z) <$> Py.range (c + lo) (c + hi) = f <$> seqZ lo (hi - lo).
Proof.
  unfold Py.range. replace (c + hi - (c + lo))%Z with (hi - lo)%Z by lia.
  rewrite <- (fmap_add_seqZ c lo), <- list_fmap_compose.
  apply list_fmap_ext. intros _ x _. simpl. f_equal. lia.
Qed.

Lemma range_down_mirror (f : Z → Q) (c : Z) :
  (λ i, f (c - i)%Z) <$> Py.range_down (c - 2) (-1) = f <$> seqZ 2 (c - 1).
Proof.
  unfold Py.range_down.
  apply list_eq. intros k. rewrite !list_lookup_fmap.
  destruct (decide (Z.of_nat k < c - 1)%Z) as [Hk|Hk].
  - rewrite reverse_lookup by (rewrite length_seqZ; lia).
    rewrite length_seqZ, !lookup_seqZ_lt by lia. simpl. do 2 f_equal. lia.
  - rewrite (lookup_seqZ_ge _ _ k) by lia.
    rewrite lookup_ge_None_2; [done|]. rewrite length_reverse, length_seqZ. lia.
Qed.

(** What [__visible1] returns when its sweep runs. *)
Lemma visible1_sweeps (dat : list Q) (nr cp : Z) (dh : Q) :
  (1 ≤ cp)%Z → (cp < nr - 1)%Z → (nr ≤ Z.of_nat (length dat))%Z →
  __visible1 dat nr cp dh
  = Some (1 + naive_count (angles (theta_up dat (cp - 1) dh) (nr - cp)))%Z.
Proof.
  intros Hcp Hnr Hlen. unfold __visible1.
  rewrite (proj2 (Z.ltb_lt _ _) Hnr), (proj2 (Nat.ltb_lt _ _)) by lia. simpl.
  rewrite !cell_index by lia. simpl.
  rewrite (for_pure _ (λ st i, sweep_step st (theta_up dat (cp - 1) dh (i - (cp - 1))))).
  2:{ intros i st Hi%elem_of_range. rewrite !cell_index by lia. simpl.
      unfold theta_up. by replace (cp - 1 + (i - (cp - 1)))%Z with i by lia. }
  simpl. f_equal.
  rewrite <- (foldl_fmap sweep_step _ _ (λ i, theta_up dat (cp - 1) dh (i - (cp - 1)))).
  replace nr with (cp - 1 + (nr - cp + 1))%Z at 1 by lia.
  rewrite range_shift.
  unfold angles. rewrite (seqZ_cons 1) by lia. rewrite fmap_cons.
  replace (nr - cp + 1 - 2)%Z with (Z.pred (nr - cp)) by lia.
  rewrite (sweep_from_first 2 _ (theta_up dat (cp - 1) dh 1));
    [change (Z.succ 1) with 2%Z; lia|].
  unfold theta_up. simpl. unfold Qdiv. simpl.
  replace (cp - 1 + 1)%Z with cp by lia. rewrite Qmult_1_r. reflexivity.
Qed.

(** What [__visible2] returns when its sweep runs. *)
Lemma visible2_sweeps (dat : list Q) (cp : Z) (dh : Q) :
  (3 ≤ cp)%Z → (cp ≤ Z.of_nat (length dat))%Z →
  __visible2 dat cp dh
  = Some (naive_count (angles (theta_down dat (cp - 1) dh) (cp - 1))).
Proof.
  intros Hcp Hlen. unfold __visible2.
  rewrite (proj2 (Z.ltb_lt _ _)), (proj2 (Nat.ltb_lt _ _)) by lia. simpl.
  rewrite !cell_index by lia. simpl.
  rewrite (for_pure _ (λ st i, sweep_step st (theta_down dat (cp - 1) dh (cp - 1 - i)))).
  2:{ intros i st Hi%elem_of_range_down. rewrite !cell_index by lia. simpl.
      unfold theta_down. by replace (cp - 1 - (cp - 1 - i))%Z with i by lia. }
  simpl. f_equal.
  rewrite <- (foldl_fmap sweep_step _ _ (λ i, theta_down dat (cp - 1) dh (cp - 1 - i))).
  rewrite (range_down_mirror (theta_down dat (cp - 1) dh) (cp - 1)).
  unfold angles. rewrite (seqZ_cons 1) by lia. rewrite fmap_cons.
  replace (Z.pred (cp - 1)) with (cp - 1 - 1)%Z by lia.
  rewrite (sweep_from_first 1 _ (theta_down dat (cp - 1) dh 1));
    [change (Z.succ 1) with 2%Z; lia|].
  unfold theta_down. unfold Qdiv. simpl. rewrite Qmult_1_r. reflexivity.
Qed.

(** The flag of a step, read off the angle sequence. *)
Lemma visible_flags_spec (thetas : list Q) (k : nat) (t : Q) :
  thetas !! k = Some t →
  (visible_flags thetas !! k = Some true
   ↔ ∀ j u, (j < k)%nat → thetas !! j = Some u → (u <= t)%Q).
Proof.
  intros Hk. unfold visible_flags. rewrite list_lookup_imap, Hk. simpl.
  split.
  - intros [= H] j u Hj Hu. revert H. rewrite above_all_spec. intros H. apply H.
    apply list_elem_of_lookup. exists j. by rewrite lookup_take_lt.
  - intros H. f_equal. apply above_all_spec.
    intros x [j [Hx Hj]%lookup_take_Some]%list_elem_of_lookup. by apply (H j).
Qed.

(** Both sweeps on a window of [2w+1] cells, [w >= 2]. *)
Lemma visible_on_window (dat : list Q) (w : Z) (dh : Q) :
  (2 ≤ w)%Z →
  Z.of_nat (length dat) = (2 * w + 1)%Z →
  __visible1 dat (2 * w + 1) (w + 1) dh
  = Some (1 + naive_count (angles (theta_up dat w dh) w))%Z
  ∧ __visible2 dat (w + 1) dh
    = Some (naive_count (angles (theta_down dat w dh) w)).
Proof.
  intros Hw Hlen. split.
  - rewrite visible1_sweeps by lia.
    by replace (w + 1 - 1)%Z with w by lia; replace (2 * w + 1 - (w + 1))%Z with w by lia.
  - rewrite visible2_sweeps by lia.
    by replace (w + 1 - 1)%Z with w by lia.
Qed.

(** C1, as amended.  On a window of half-width [w >= 2] (an odd window of at
    least five cells) the step at offset [i] of a ray is counted exactly when
    its angle is at or above the angles of all closer steps, ties included:
    [__visible2] returns the count of a naive re-scan of the ray towards lower
    indices, and [__visible1] returns one more than the count of a naive
    re-scan of the ray towards higher indices. *)
Theorem visible_counts_match_rescan (dat : list Q) (w : Z) (dh : Q) :
  (2 ≤ w)%Z →
  Z.of_nat (length dat) = (2 * w + 1)%Z →
  __visible1 dat (2 * w + 1) (w + 1) dh
  = Some (1 + naive_count (angles (theta_up dat w dh) w))%Z
  ∧ __visible2 dat (w + 1) dh
    = Some (naive_count (angles (theta_down dat w dh) w))
  ∧ ∀ thetas k t,
      thetas !! k = Some t →
      (visible_flags thetas !! k = Some true
       ↔ ∀ j u, (j < k)%nat → thetas !! j = Some u → (u <= t)%Q).
Proof.
  intros Hw Hlen.
  destruct (visible_on_window dat w dh Hw Hlen) as [H1 H2].
  split; [done|]. split; [done|]. apply visible_flags_spec.
Qed.

Lemma visible_counts_match_rescan_witness :
  let dat := inject_Z <$> [0; 1; 2; 3; 5; 3; 10]%Z in
  (2 ≤ 3)%Z ∧ Z.of_nat (length dat) = (2 * 3 + 1)%Z
  ∧ __visible1 dat (2 * 3 + 1) (3 + 1) 0
    = Some (1 + naive_count (angles (theta_up dat 3 0) 3))%Z
  ∧ __visible2 dat (3 + 1) 0 = Some (naive_count (angles (theta_down dat 3 0) 3)).
Proof.
  intros dat.
  split; [lia|]. split; [reflexivity|].
  pose proof (visible_counts_match_rescan dat 3 0 ltac:(lia) eq_refl) as (H1 & H2 & _).
  exact (conj H1 H2).
Defined.

(** C1 as stated fails on a window of three cells: the only step of the ray
    meets the criterion, there being no closer step, and the re-scan counts
    it, but [__visible2] returns 0 and [__visible1] returns 1 whatever the
    data. *)
Lemma visible_window3_not_rescan :
  visible_flags (angles (theta_down [0; 0; 0]%Q 1 0) 1) = [true]
  ∧ naive_count (angles (theta_down [0; 0; 0]%Q 1 0) 1) = 1%Z
  ∧ __visible2 [0; 0; 0]%Q (1 + 1) 0 = Some 0%Z
  ∧ __visible2 [0; 0; 0]%Q (1 + 1) 0
    ≠ Some (naive_count (angles (theta_down [0; 0; 0]%Q 1 0) 1))
  ∧ __visible1 [0; 0; 0]%Q (2 * 1 + 1) (1 + 1) 0
    ≠ Some (1 + naive_count (angles (theta_up [0; 0; 0]%Q 1 0) 1))%Z.
Proof. vm_compute. repeat split; congruence. Qed.

(** ** Arrays *)

Section np_facts.
Context {A : Type}.
Implicit Types (a : Np.ndarray A) (r c : nat) (i j : Z).

Lemma wf_full (nr nc : Z) (x : A) : Np.wf (Np.full nr nc x).
Proof.
  split; simpl; [by rewrite length_replicate|].
  apply Forall_replicate. by rewrite length_replicate.
Qed.

Lemma lookup2_full (nr nc : Z) (x : A) r c v :
  Np.lookup2 (Np.full nr nc x) r c = Some v → v = x.
Proof.
  unfold Np.lookup2, Np.full. simpl. intros H.
  apply bind_Some in H as (row & [-> _]%lookup_replicate & H).
  by apply lookup_replicate in H as [-> _].
Qed.

Lemma lookup2_lt a r c v :
  Np.wf a → Np.lookup2 a r c = Some v → (r < Np.nrows a)%nat ∧ (c < Np.ncols a)%nat.
Proof.
  intros [Hr Hc] H. apply bind_Some in H as (row & Hrow & H).
  split; [rewrite <- Hr; by eapply lookup_lt_Some|].
  rewrite Forall_lookup in Hc. rewrite <- (Hc _ _ Hrow). by eapply lookup_lt_Some.
Qed.

Lemma lookup2_is_Some a r c :
  Np.wf a → (r < Np.nrows a)%nat → (c < Np.ncols a)%nat → is_Some (Np.lookup2 a r c).
Proof.
  intros [Hr Hc] Hlr Hlc. unfold Np.lookup2.
  destruct (lookup_lt_is_Some_2 (Np.cells a) r) as [row Hrow]; [lia|].
  rewrite Hrow. simpl. apply lookup_lt_is_Some.
  rewrite Forall_lookup in Hc. by rewrite (Hc _ _ Hrow).
Qed.

Lemma get_nonneg a i j :
  (0 ≤ i < Z.of_nat (Np.nrows a))%Z → (0 ≤ j < Z.of_nat (Np.ncols a))%Z →
  Np.get a i j = Np.lookup2 a (Z.to_nat i) (Z.to_nat j).
Proof. intros. unfold Np.get. by rewrite !norm_nonneg. Qed.

Lemma get_is_Some a i j :
  Np.wf a → (0 ≤ i < Z.of_nat (Np.nrows a))%Z → (0 ≤ j < Z.of_nat (Np.ncols a))%Z →
  is_Some (Np.get a i j).
Proof. intros. rewrite get_nonneg by done. apply lookup2_is_Some; [done|lia..]. Qed.

(** An assignment in range succeeds, keeps the shape, and changes the one
    cell. *)
Lemma set_spec a i j (v : A) :
  Np.wf a → (0 ≤ i < Z.of_nat (Np.nrows a))%Z → (0 ≤ j < Z.of_nat (Np.ncols a))%Z →
  ∃ a', Np.set a i j v = Some a' ∧ Np.wf a'
        ∧ Np.nrows a' = Np.nrows a ∧ Np.ncols a' = Np.ncols a
        ∧ ∀ r c, Np.lookup2 a' r c
                 = if decide (r = Z.to_nat i ∧ c = Z.to_nat j) then Some v
                   else Np.lookup2 a r c.
Proof.
  intros [Hr Hc] Hi Hj. unfold Np.set. rewrite !norm_nonneg by done. simpl.
  eexists. split; [done|]. split; [|split; [done|split; [done|]]].
  - split; simpl; [by rewrite length_alter|].
    rewrite Forall_lookup. intros k row Hk.
    destruct (decide (k = Z.to_nat i)) as [->|Hne].
    + rewrite list_lookup_alter_eq in Hk.
      apply fmap_Some in Hk as (row' & Hrow' & ->). rewrite length_insert.
      rewrite Forall_lookup in Hc. by eapply Hc.
    + rewrite list_lookup_alter_ne in Hk by done.
      rewrite Forall_lookup in Hc. by eapply Hc.
  - intros r c. unfold Np.lookup2. simpl.
    destruct (decide (r = Z.to_nat i)) as [->|Hne].
    + rewrite list_lookup_alter_eq.
      destruct (lookup_lt_is_Some_2 (Np.cells a) (Z.to_nat i)) as [row Hrow]; [lia|].
      rewrite Hrow. simpl.
      destruct (decide (c = Z.to_nat j)) as [->|Hnc].
      * rewrite decide_True by done. apply list_lookup_insert_eq.
        rewrite Forall_lookup in Hc. rewrite (Hc _ _ Hrow). lia.
      * rewrite decide_False by (by intros [_ ?]). by rewrite list_lookup_insert_ne.
    + rewrite list_lookup_alter_ne by done. by rewrite decide_False by (by intros [? _]).
Qed.

(** A stretch of a column, inside the array. *)
Lemma col_slice_spec a (start stop j : Z) :
  Np.wf a → (0 ≤ start ≤ stop)%Z → (stop ≤ Z.of_nat (Np.nrows a))%Z →
  (0 ≤ j < Z.of_nat (Np.ncols a))%Z →
  ∃ l, Np.col_slice a start stop j = Some l
       ∧ length l = Z.to_nat (stop - start)
       ∧ ∀ x, x ∈ l → ∃ r c, Np.lookup2 a r c = Some x.
Proof.
  intros Hwf Hs Hstop Hj. unfold Np.col_slice. rewrite norm_nonneg by done. simpl.
  destruct Hwf as [Hr Hc].
  destruct (mapM (λ row : list A, row !! Z.to_nat j) (Py.slice (Np.cells a) start stop))
    as [l|] eqn:Hm.
  - exists l. split; [done|]. apply mapM_Some in Hm. split.
    + apply Forall2_length in Hm as <-. apply length_slice_nonneg; lia.
    + intros x [k Hk]%list_elem_of_lookup.
      destruct (Forall2_lookup_r _ _ _ _ _ Hm Hk) as (row & Hrow & Hx).
      unfold Py.slice in Hrow. apply lookup_take_Some in Hrow as [Hrow _].
      rewrite lookup_drop in Hrow.
      eexists _, (Z.to_nat j). unfold Np.lookup2. by rewrite Hrow.
  - exfalso. apply mapM_None in Hm.
    apply Exists_exists in Hm as (row & Hin & Hnone).
    unfold Py.slice in Hin. apply list_elem_of_In in Hin.
    apply elem_of_take in Hin as (k & Hk & _).
    rewrite lookup_drop in Hk. rewrite Forall_lookup in Hc.
    apply lookup_ge_None in Hnone. rewrite (Hc _ _ Hk) in Hnone. lia.
Qed.

(** A stretch of a row, inside the array. *)
Lemma row_slice_spec a (i start stop : Z) :
  Np.wf a → (0 ≤ start ≤ stop)%Z → (stop ≤ Z.of_nat (Np.ncols a))%Z →
  (0 ≤ i < Z.of_nat (Np.nrows a))%Z →
  ∃ l, Np.row_slice a i start stop = Some l
       ∧ length l = Z.to_nat (stop - start)
       ∧ ∀ x, x ∈ l → ∃ r c, Np.lookup2 a r c = Some x.
Proof.
  intros [Hr Hc] Hs Hstop Hi. unfold Np.row_slice. rewrite norm_nonneg by done. simpl.
  destruct (lookup_lt_is_Some_2 (Np.cells a) (Z.to_nat i)) as [row Hrow]; [lia|].
  rewrite Hrow. simpl. eexists. split; [done|].
  rewrite Forall_lookup in Hc. pose proof (Hc _ _ Hrow) as Hlen. split.
  - apply length_slice_nonneg; lia.
  - intros x Hx. unfold Py.slice in Hx.
    apply elem_of_take in Hx as (k & Hk & _). rewrite lookup_drop in Hk.
    eexists (Z.to_nat i), _. unfold Np.lookup2. by rewrite Hrow.
Qed.

End np_facts.

Section write_facts.
Context {A B : Type}.
Implicit Types (a : Np.ndarray A) (b : Np.ndarray B) (i j : Z).

(** Writing a cell, in range, of an array of the shape of [b]: the cell now
    holds the value, a property [Q i j] of it included, and what held of the
    other cells still holds. *)
Lemma write_ok (Q : Z → Z → A → Prop) a b i j (v : A) :
  Np.wf a → Np.same_shape a b →
  (0 ≤ i < Z.of_nat (Np.nrows b))%Z → (0 ≤ j < Z.of_nat (Np.ncols b))%Z →
  Q i j v →
  ∃ a', Np.set a i j v = Some a' ∧ Np.wf a' ∧ Np.same_shape a' b
        ∧ Np.sat (Q i j) a' i j
        ∧ ∀ i' j', (0 ≤ i')%Z → (0 ≤ j')%Z →
                   Np.sat (Q i' j') a i' j' → Np.sat (Q i' j') a' i' j'.
Proof.
  intros Hwf [Hnr Hnc] Hi Hj HQ.
  destruct (set_spec a i j v Hwf) as (a' & Hset & Hwf' & Hnr' & Hnc' & Hl); [lia..|].
  exists a'. split; [done|]. split; [done|]. split; [split; congruence|].
  split.
  - exists v. split; [|done]. rewrite get_nonneg by lia.
    by rewrite Hl, decide_True.
  - intros i' j' Hi' Hj' (u & Hu & HQu). unfold Np.sat, Np.get in *.
    rewrite Hnr', Hnc'.
    apply bind_Some in Hu as (r & Hr & Hu). apply bind_Some in Hu as (c & Hc & Hu).
    rewrite Hr, Hc. simpl. rewrite Hl.
    case_decide as Heq; [|by eauto].
    exists v. split; [done|].
    unfold Py.norm in Hr, Hc.
    rewrite (proj2 (Z.leb_le _ _) Hi') in Hr. rewrite (proj2 (Z.leb_le _ _) Hj') in Hc.
    repeat case_match; simplify_eq. destruct Heq as [Hri Hcj].
    apply Z2Nat.inj in Hri; [|lia..]. apply Z2Nat.inj in Hcj; [|lia..]. by subst.
Qed.

End write_facts.

(** On a window of three cells neither sweep runs. *)
Lemma visible_window3 (dat : list Q) (dh : Q) :
  __visible1 dat 3 2 dh = Some 1%Z ∧ __visible2 dat 2 dh = Some 0%Z.
Proof. done. Qed.

(** On a full odd window both counts are returned. *)
Lemma visible_total (dat : list Q) (w : Z) (dh : Q) :
  (1 ≤ w)%Z → length dat = Z.to_nat (2 * w + 1) →
  ∃ n s, __visible1 dat (2 * w + 1) (w + 1) dh = Some n
         ∧ __visible2 dat (w + 1) dh = Some s.
Proof.
  intros Hw Hlen. destruct (decide (w = 1%Z)) as [->|Hne].
  - exists 1%Z, 0%Z. apply visible_window3.
  - destruct (visible_on_window dat w dh) as (H1 & H2); [lia..|].
    eauto.
Qed.

(** [loop_done Good Keep Done Hrefl Htrans H] states [for_done] for the loop
    of the goal. *)
Ltac loop_done Good Keep Done Hrefl Htrans H :=
  cbv beta;
  lazymatch goal with
  | |- context [Py.for_ ?xs ?body _] =>
      pose proof (for_done Good Keep Done body xs Hrefl Htrans) as H
  end.

Ltac bind_step := cbn [mbind option_bind].

(** ** The three passes of [visibility2d]

    The facts of this section hold for any property [P1] of the counts of
    [__visible1] and [P2] of the counts of [__visible2] that the windows of
    the grid guarantee. *)

Section sweep_facts.
Variables (data : Np.ndarray Q) (w : Z) (dh : Q) (P1 P2 : Z → Prop).
Hypothesis Hwf : Np.wf data.
Hypothesis Hw : (1 ≤ w)%Z.
Hypothesis Hvis : ∀ dtmp : list Q,
  length dtmp = Z.to_nat (2 * w + 1) →
  (∀ x, x ∈ dtmp → ∃ r c, Np.lookup2 data r c = Some x) →
  ∃ n s, __visible1 dtmp (2 * w + 1) (w + 1) dh = Some n ∧ P1 n
         ∧ __visible2 dtmp (w + 1) dh = Some s ∧ P2 s.

Local Notation "'nr'" := (Z.of_nat (Np.nrows data)).
Local Notation "'nc'" := (Z.of_nat (Np.ncols data)).
Local Notation "'good' a" := (Np.wf a ∧ Np.same_shape a data) (at level 10, a at level 9).
Local Notation "'wsize'" := (2 * w + 1)%Z.

Lemma diagonal_spec (i0 di j0 : Z) :
  (∀ k, (0 ≤ k < wsize)%Z → (0 ≤ i0 + di * k < nr)%Z ∧ (0 ≤ j0 + k < nc)%Z) →
  ∃ l, diagonal data wsize i0 di j0 = Some l
       ∧ length l = Z.to_nat wsize
       ∧ ∀ x, x ∈ l → ∃ r c, Np.lookup2 data r c = Some x.
Proof.
  intros Hin. unfold diagonal.
  pose (is_cell := λ x : Q, ∃ r c, Np.lookup2 data r c = Some x).
  pose (done := λ (k : nat) (l : list Q), ∃ x, l !! k = Some x ∧ is_cell x).
  destruct (for_done (λ l : list Q, length l = Z.to_nat wsize)
              (λ l l', ∀ k, done k l → done k l')
              (λ (k : Z) l, done (Z.to_nat k) l)
              (λ k dtmp, x ← Np.get data (i0 + di * k) (j0 + k); Py.assign dtmp k x)
              (Py.range 0 wsize)) with (s := replicate (Z.to_nat wsize) 0%Q)
    as (l & Hl & Hlen & _ & Hdone); [done|by eauto|by eauto| |by rewrite length_replicate|].
  - intros k l Hk%elem_of_range Hlen.
    destruct (Hin k) as [Hi Hj]; [lia|].
    destruct (get_is_Some data (i0 + di * k) (j0 + k) Hwf Hi Hj) as [x Hx].
    rewrite Hx. simpl. unfold Py.assign. rewrite norm_nonneg by lia. simpl.
    eexists. split; [done|]. split; [by rewrite length_insert|].
    assert (is_cell x) as Hcell.
    { rewrite get_nonneg in Hx by done. by eexists _, _. }
    split.
    + intros k' (y & Hy & Hcy). unfold done.
      destruct (decide (k' = Z.to_nat k)) as [->|Hne].
      * exists x. split; [|done]. apply list_lookup_insert_eq. lia.
      * exists y. by rewrite list_lookup_insert_ne.
    + exists x. split; [|done]. apply list_lookup_insert_eq. lia.
  - exists l. split; [done|]. split; [done|].
    intros x [k Hk]%list_elem_of_lookup.
    destruct (Hdone (Z.of_nat k)) as (y & Hy & Hcy).
    + apply elem_of_range. apply lookup_lt_Some in Hk. lia.
    + rewrite Nat2Z.id in Hy. by simplify_eq.
Qed.

(** One window: both counts are computed and stored. *)
Lemma pair_step {T : Type} (dtmp : list Q) (an as_ : Np.ndarray Z) (i j : Z)
    (K : Np.ndarray Z → Np.ndarray Z → option T) :
  length dtmp = Z.to_nat wsize →
  (∀ x, x ∈ dtmp → ∃ r c, Np.lookup2 data r c = Some x) →
  good an → good as_ → (0 ≤ i < nr)%Z → (0 ≤ j < nc)%Z →
  ∃ an' as',
    (n ← __visible1 dtmp wsize (w + 1) dh;
     vn ← Np.set an i j n;
     s ← __visible2 dtmp (w + 1) dh;
     vs ← Np.set as_ i j s;
     K vn vs) = K an' as'
    ∧ good an' ∧ good as'
    ∧ Np.sat P1 an' i j ∧ Np.sat P2 as' i j
    ∧ ∀ i' j', (0 ≤ i')%Z → (0 ≤ j')%Z →
               (Np.sat P1 an i' j' → Np.sat P1 an' i' j')
               ∧ (Np.sat P2 as_ i' j' → Np.sat P2 as' i' j').
Proof.
  intros Hlen Hcells Hga Hgb Hi Hj.
  destruct (Hvis dtmp Hlen Hcells) as (n & s0 & -> & Hn & -> & Hs0).
  bind_step.
  destruct (write_ok (λ _ _, P1) an data i j n) as (an' & -> & Hwa & Hsa & Hsat & Hka);
    [tauto|tauto|lia|lia|done|].
  destruct (write_ok (λ _ _, P2) as_ data i j s0) as (as' & -> & Hwb & Hsb & Hsatb & Hkb);
    [tauto|tauto|lia|lia|done|].
  bind_step. exists an', as'.
  split; [done|]. split; [done|]. split; [done|]. split; [done|]. split; [done|].
  intros i' j' Hi' Hj'. split; [by apply Hka | by apply Hkb].
Qed.

Local Notation "'Good2' s" := (good (fst s) ∧ good (snd s)) (at level 10, s at level 9).
Local Notation "'Keep2' s s'" :=
  (∀ i j, (0 ≤ i)%Z → (0 ≤ j)%Z →
          (Np.sat P1 (fst s) i j → Np.sat P1 (fst s') i j)
          ∧ (Np.sat P2 (snd s) i j → Np.sat P2 (snd s') i j))
  (at level 10, s at level 9, s' at level 9).
Local Notation "'Done2' s i j" := (Np.sat P1 (fst s) i j ∧ Np.sat P2 (snd s) i j)
  (at level 10, s at level 9, i at level 9, j at level 9).

Lemma keep2_refl (s : Np.ndarray Z * Np.ndarray Z) : Keep2 s s.
Proof. by intros i j _ _. Qed.

Lemma keep2_trans (s1 s2 s3 : Np.ndarray Z * Np.ndarray Z) :
  Keep2 s1 s2 → Keep2 s2 s3 → Keep2 s1 s3.
Proof.
  intros H12 H23 i j Hi Hj.
  destruct (H12 i j Hi Hj), (H23 i j Hi Hj). split; auto.
Qed.

Lemma columns_pass_spec (st : Np.ndarray Z * Np.ndarray Z) :
  Good2 st →
  ∃ st', columns_pass data nr nc wsize w dh st = Some st'
    ∧ Good2 st'
    ∧ ∀ i j, (w ≤ i < nr - w)%Z → (0 ≤ j < nc)%Z → Done2 st' i j.
Proof.
  intros Hg. unfold columns_pass.
  loop_done (λ s : Np.ndarray Z * Np.ndarray Z, Good2 s)
    (λ s s' : Np.ndarray Z * Np.ndarray Z, Keep2 s s')
    (λ (j : Z) (s : Np.ndarray Z * Np.ndarray Z), (0 ≤ j)%Z →
       ∀ i, (w ≤ i < nr - w)%Z → Done2 s i j)
    keep2_refl keep2_trans Hloop.
  destruct Hloop with (s := st) as (st' & Hfor & Hg' & _ & Hdone).
  - intros j s s' Hd Hk Hj i Hi. destruct (Hd Hj i Hi) as [H1 H2].
    destruct (Hk i j) as [K1 K2]; [lia..|]. split; auto.
  - intros j s Hj%elem_of_range Hs.
    loop_done (λ s : Np.ndarray Z * Np.ndarray Z, Good2 s)
      (λ s s' : Np.ndarray Z * Np.ndarray Z, Keep2 s s')
      (λ (i : Z) (s : Np.ndarray Z * Np.ndarray Z), (0 ≤ i)%Z → Done2 s i j)
      keep2_refl keep2_trans Hinner.
    destruct Hinner with (s := s) as (s' & Hfor & Hgood & Hkeep & Hdone); [| |exact Hs|].
    + intros i s1 s2 Hd Hk Hi. destruct (Hd Hi) as [H1 H2].
      destruct (Hk i j) as [K1 K2]; [lia..|]. split; auto.
    + intros i [an as_] Hi%elem_of_range [Hga Hgb]. simpl in Hga, Hgb.
      destruct (col_slice_spec data (i - w) (i + w + 1) j) as (dtmp & -> & Hlen & Hcells);
        [done|lia..|].
      bind_step.
      destruct (pair_step dtmp an as_ i j (λ a b, Some (a, b)))
        as (an' & as' & -> & Hga' & Hgb' & H1 & H2 & Hk);
        [rewrite Hlen; f_equal; lia|done..|lia|lia|].
      exists (an', as'). split; [done|]. split; [done|]. split; [exact Hk|done].
    + exists s'. split; [exact Hfor|]. split; [done|]. split; [done|].
      intros _ i Hi. apply Hdone; [apply elem_of_range|]; lia.
  - done.
  - exists st'. split; [done|]. split; [done|].
    intros i j Hi Hj. apply (Hdone j); [apply elem_of_range|..]; lia.
Qed.

Lemma rows_pass_spec (st : Np.ndarray Z * Np.ndarray Z) :
  Good2 st →
  ∃ st', rows_pass data nr nc wsize w dh st = Some st'
    ∧ Good2 st'
    ∧ ∀ i j, (0 ≤ i < nr)%Z → (w ≤ j < nc - w)%Z → Done2 st' i j.
Proof.
  intros Hg. unfold rows_pass.
  loop_done (λ s : Np.ndarray Z * Np.ndarray Z, Good2 s)
    (λ s s' : Np.ndarray Z * Np.ndarray Z, Keep2 s s')
    (λ (j : Z) (s : Np.ndarray Z * Np.ndarray Z), (0 ≤ j)%Z →
       ∀ i, (0 ≤ i < nr)%Z → Done2 s i j)
    keep2_refl keep2_trans Hloop.
  destruct Hloop with (s := st) as (st' & Hfor & Hg' & _ & Hdone).
  - intros j s s' Hd Hk Hj i Hi. destruct (Hd Hj i Hi) as [H1 H2].
    destruct (Hk i j) as [K1 K2]; [lia..|]. split; auto.
  - intros j s Hj%elem_of_range Hs.
    loop_done (λ s : Np.ndarray Z * Np.ndarray Z, Good2 s)
      (λ s s' : Np.ndarray Z * Np.ndarray Z, Keep2 s s')
      (λ (i : Z) (s : Np.ndarray Z * Np.ndarray Z), (0 ≤ i)%Z → Done2 s i j)
      keep2_refl keep2_trans Hinner.
    destruct Hinner with (s := s) as (s' & Hfor & Hgood & Hkeep & Hdone); [| |exact Hs|].
    + intros i s1 s2 Hd Hk Hi. destruct (Hd Hi) as [H1 H2].
      destruct (Hk i j) as [K1 K2]; [lia..|]. split; auto.
    + intros i [an as_] Hi%elem_of_range [Hga Hgb]. simpl in Hga, Hgb.
      destruct (row_slice_spec data i (j - w) (j + w + 1)) as (dtmp & -> & Hlen & Hcells);
        [done|lia..|].
      bind_step.
      destruct (pair_step dtmp an as_ i j (λ a b, Some (a, b)))
        as (an' & as' & -> & Hga' & Hgb' & H1 & H2 & Hk);
        [rewrite Hlen; f_equal; lia|done..|lia|lia|].
      exists (an', as'). split; [done|]. split; [done|]. split; [exact Hk|done].
    + exists s'. split; [exact Hfor|]. split; [done|]. split; [done|].
      intros _ i Hi. apply Hdone; [apply elem_of_range|]; lia.
  - done.
  - exists st'. split; [done|]. split; [done|].
    intros i j Hi Hj. apply (Hdone j); [apply elem_of_range|..]; lia.
Qed.

Local Notation "'Good4' s" :=
  (Good2 (fst (fst s)) ∧ good (snd (fst s)) ∧ good (snd s)) (at level 10, s at level 9).
Local Notation "'Keep4' s s'" :=
  (∀ i j, (0 ≤ i)%Z → (0 ≤ j)%Z →
          ((Np.sat P1 (fst (fst (fst s))) i j → Np.sat P1 (fst (fst (fst s'))) i j)
           ∧ (Np.sat P2 (snd (fst (fst s))) i j → Np.sat P2 (snd (fst (fst s'))) i j))
          ∧ (Np.sat P1 (snd (fst s)) i j → Np.sat P1 (snd (fst s')) i j)
          ∧ (Np.sat P2 (snd s) i j → Np.sat P2 (snd s') i j))
  (at level 10, s at level 9, s' at level 9).
Local Notation "'Done4' s i j" :=
  (Done2 (fst (fst s)) i j ∧ Np.sat P1 (snd (fst s)) i j ∧ Np.sat P2 (snd s) i j)
  (at level 10, s at level 9, i at level 9, j at level 9).
Local Notation "'state4'" :=
  (Np.ndarray Z * Np.ndarray Z * Np.ndarray Z * Np.ndarray Z)%type (only parsing).

Lemma keep4_refl (s : state4) : Keep4 s s.
Proof. by intros i j _ _. Qed.

Lemma keep4_trans (s1 s2 s3 : state4) : Keep4 s1 s2 → Keep4 s2 s3 → Keep4 s1 s3.
Proof.
  intros H12 H23 i j Hi Hj.
  destruct (H12 i j Hi Hj) as ([? ?] & ? & ?), (H23 i j Hi Hj) as ([? ?] & ? & ?).
  repeat split; auto.
Qed.

Lemma done4_keep (s s' : state4) (i j : Z) :
  (0 ≤ i)%Z → (0 ≤ j)%Z → Done4 s i j → Keep4 s s' → Done4 s' i j.
Proof.
  intros Hi Hj ([? ?] & ? & ?) Hk. destruct (Hk i j Hi Hj) as ([? ?] & ? & ?).
  repeat split; auto.
Qed.

Lemma diagonals_pass_spec (st : state4) :
  Good4 st →
  ∃ st', diagonals_pass data nr nc wsize w dh st = Some st'
    ∧ Good4 st'
    ∧ ∀ i j, (w ≤ i < nr - w)%Z → (w ≤ j < nc - w)%Z → Done4 st' i j.
Proof.
  intros Hg. unfold diagonals_pass.
  loop_done (λ s : state4, Good4 s) (λ s s' : state4, Keep4 s s')
    (λ (j : Z) (s : state4), (0 ≤ j)%Z → ∀ i, (w ≤ i < nr - w)%Z → Done4 s i j)
    keep4_refl keep4_trans Hloop.
  destruct Hloop with (s := st) as (st' & Hfor & Hg' & _ & Hdone).
  - intros j s s' Hd Hk Hj i Hi. apply (done4_keep s s'); [lia|done|by apply Hd|done].
  - intros j s Hj%elem_of_range Hs.
    loop_done (λ s : state4, Good4 s) (λ s s' : state4, Keep4 s s')
      (λ (i : Z) (s : state4), (0 ≤ i)%Z → Done4 s i j)
      keep4_refl keep4_trans Hinner.
    destruct Hinner with (s := s) as (s' & Hfor & Hgood & Hkeep & Hdone); [| |exact Hs|].
    + intros i s1 s2 Hd Hk Hi. apply (done4_keep s1 s2); [done|lia|by apply Hd|done].
    + intros i [[[a1 a2] a3] a4] Hi%elem_of_range ([Hg1 Hg2] & Hg3 & Hg4).
      simpl in Hg1, Hg2, Hg3, Hg4.
      destruct (diagonal_spec (i - w) 1 (j - w)) as (dtmp & -> & Hlen & Hcells); [lia|].
      bind_step.
      destruct (pair_step dtmp a1 a2 i j
                  (λ vd1 vd2,
                     dtmp ← diagonal data wsize (i + w) (-1) (j - w);
                     c ← __visible1 dtmp wsize (w + 1) dh;
                     vd3 ← Np.set a3 i j c;
                     d ← __visible2 dtmp (w + 1) dh;
                     vd4 ← Np.set a4 i j d;
                     Some (vd1, vd2, vd3, vd4)))
        as (a1' & a2' & -> & Hg1' & Hg2' & H1 & H2 & Hk12); [done..|lia|lia|].
      destruct (diagonal_spec (i + w) (-1) (j - w)) as (dtmp' & -> & Hlen' & Hcells'); [lia|].
      bind_step.
      destruct (pair_step dtmp' a3 a4 i j (λ vd3 vd4, Some (a1', a2', vd3, vd4)))
        as (a3' & a4' & -> & Hg3' & Hg4' & H3 & H4 & Hk34); [done..|lia|lia|].
      exists (a1', a2', a3', a4'). split; [done|]. split; [done|]. split.
      * intros i' j' Hi' Hj'. simpl.
        destruct (Hk12 i' j' Hi' Hj'), (Hk34 i' j' Hi' Hj'). done.
      * done.
    + exists s'. split; [exact Hfor|]. split; [done|]. split; [done|].
      intros _ i Hi. apply Hdone; [apply elem_of_range|]; lia.
  - done.
  - exists st'. split; [done|]. split; [done|].
    intros i j Hi Hj. apply (Hdone j); [apply elem_of_range|..]; lia.
Qed.

Lemma good_zeros : good (Np.full nr nc 0%Z).
Proof.
  split; [apply wf_full|]. split; simpl; apply Nat2Z.id.
Qed.

(** The eight count arrays exist, have the shape of the grid, and hold a
    count with [P1] or [P2] at every interior cell. *)
Lemma sweeps_spec :
  ∃ c, sweeps data nr nc wsize w dh = Some c
    ∧ counts_like c data
    ∧ ∀ i j, (w ≤ i < nr - w)%Z → (w ≤ j < nc - w)%Z →
        Np.sat P1 (vn c) i j ∧ Np.sat P2 (vs c) i j
        ∧ Np.sat P1 (ve c) i j ∧ Np.sat P2 (vw c) i j
        ∧ Np.sat P1 (vd1 c) i j ∧ Np.sat P2 (vd2 c) i j
        ∧ Np.sat P1 (vd3 c) i j ∧ Np.sat P2 (vd4 c) i j.
Proof.
  unfold sweeps. pose proof good_zeros as Hz.
  destruct (columns_pass_spec (Np.full nr nc 0%Z, Np.full nr nc 0%Z))
    as ([a1 a2] & -> & [Hg1 Hg2] & Hd12); [done|].
  bind_step.
  destruct (rows_pass_spec (Np.full nr nc 0%Z, Np.full nr nc 0%Z))
    as ([a3 a4] & -> & [Hg3 Hg4] & Hd34); [done|].
  bind_step.
  destruct (diagonals_pass_spec
              (Np.full nr nc 0%Z, Np.full nr nc 0%Z, Np.full nr nc 0%Z, Np.full nr nc 0%Z))
    as ([[[a5 a6] a7] a8] & -> & ([Hg5 Hg6] & Hg7 & Hg8) & Hd58); [done|].
  bind_step. simpl in *.
  eexists. split; [done|]. simpl. split; [unfold counts_like; simpl; tauto|].
  intros i j Hi Hj.
  destruct (Hd12 i j) as [? ?]; [lia..|].
  destruct (Hd34 i j) as [? ?]; [lia..|].
  destruct (Hd58 i j) as ([? ?] & ? & ?); [lia..|].
  done.
Qed.

End sweep_facts.

(** ** Elementwise arithmetic, slices and masks *)

Section np_shape_facts.
Context {A B C : Type}.
Implicit Types (a : Np.ndarray A) (b : Np.ndarray B).

Lemma wf_map (f : A → B) a : Np.wf a → Np.wf (Np.map f a) ∧ Np.same_shape (Np.map f a) a.
Proof.
  intros [Hr Hc]. split; [|done]. split; simpl; [by rewrite length_fmap|].
  rewrite Forall_fmap, Forall_lookup. intros k row Hk. simpl.
  rewrite length_fmap. rewrite Forall_lookup in Hc. by eapply Hc.
Qed.

Lemma wf_zip_with (f : A → B → C) a b :
  Np.wf a → Np.wf b → Np.same_shape a b →
  Np.wf (Np.zip_with f a b) ∧ Np.same_shape (Np.zip_with f a b) a.
Proof.
  intros [Hr Hc] [Hr' Hc'] [Hnr Hnc]. split; [|done]. split; simpl.
  - rewrite length_zip_with. lia.
  - rewrite Forall_lookup. intros k row Hk.
    apply lookup_zip_with_Some in Hk as (ra & rb & -> & Ha & Hb).
    rewrite Forall_lookup in Hc. rewrite Forall_lookup in Hc'.
    rewrite length_zip_with, (Hc _ _ Ha), (Hc' _ _ Hb). lia.
Qed.

Lemma lookup2_zip_with (f : A → B → C) a b r c (z : C) :
  Np.lookup2 (Np.zip_with f a b) r c = Some z →
  ∃ x y, Np.lookup2 a r c = Some x ∧ Np.lookup2 b r c = Some y ∧ z = f x y.
Proof.
  unfold Np.lookup2. simpl. intros H.
  apply bind_Some in H as (row & Hrow & H).
  apply lookup_zip_with_Some in Hrow as (ra & rb & -> & Ha & Hb).
  apply lookup_zip_with_Some in H as (x & y & -> & Hx & Hy).
  exists x, y. by rewrite Ha, Hb.
Qed.

Lemma lookup2_map (f : A → B) a r c (z : B) :
  Np.lookup2 (Np.map f a) r c = Some z →
  ∃ x, Np.lookup2 a r c = Some x ∧ z = f x.
Proof.
  unfold Np.lookup2. simpl. intros H.
  apply bind_Some in H as (row & Hrow & H).
  rewrite list_lookup_fmap in Hrow. apply fmap_Some in Hrow as (ra & Ha & ->).
  rewrite list_lookup_fmap in H. apply fmap_Some in H as (x & Hx & ->).
  exists x. by rewrite Ha.
Qed.

(** The cells of a trimmed array are the interior cells of the array. *)
Lemma lookup2_trim (w : nat) a r c (x : A) :
  Np.lookup2 (Np.trim w a) r c = Some x →
  Np.lookup2 a (w + r) (w + c) = Some x
  ∧ (r < Np.nrows a - 2 * w)%nat ∧ (c < Np.ncols a - 2 * w)%nat.
Proof.
  unfold Np.lookup2. simpl. intros H.
  apply bind_Some in H as (row & Hrow & H).
  rewrite list_lookup_fmap in Hrow. apply fmap_Some in Hrow as (ra & Ha & ->).
  apply lookup_take_Some in Ha as [Ha Hr]. rewrite lookup_drop in Ha.
  apply lookup_take_Some in H as [H Hc]. rewrite lookup_drop in H.
  rewrite Ha. simpl. done.
Qed.

Lemma wf_trim (w : nat) a : Np.wf a → Np.wf (Np.trim w a).
Proof.
  intros [Hr Hc]. split; simpl.
  - rewrite length_fmap, length_take, length_drop. lia.
  - rewrite Forall_fmap, Forall_lookup. intros k row Hk. simpl.
    apply lookup_take_Some in Hk as [Hk _]. rewrite lookup_drop in Hk.
    rewrite Forall_lookup in Hc. rewrite length_take, length_drop, (Hc _ _ Hk). lia.
Qed.

(** The slices of [visibility2d] are trims: the slice of the results,
    [a[w:nr-w, w:nc-w]], and the slice of the mask, [a[w:-w, w:-w]]. *)
Lemma slice2_trim a (w : Z) :
  Np.wf a → (0 ≤ w)%Z →
  Np.slice2 a w (Z.of_nat (Np.nrows a) - w) w (Z.of_nat (Np.ncols a) - w)
  = Np.trim (Z.to_nat w) a.
Proof.
  intros [Hr Hc] Hw. unfold Np.slice2, Np.trim.
  assert (∀ n : nat, (Py.clip n (Z.of_nat n - w) - Py.clip n w
                      = n - 2 * Z.to_nat w)%nat) as Hclip.
  { intros n. unfold Py.clip. repeat case_match; lia. }
  assert (∀ {T : Type} (l : list T) (n : nat), length l = n →
            Py.slice l w (Z.of_nat n - w)
            = take (n - 2 * Z.to_nat w) (drop (Z.to_nat w) l)) as Hslice.
  { intros T l n Hl. unfold Py.slice. rewrite Hl, Hclip.
    destruct (decide (Z.to_nat w ≤ n)%nat) as [Hle|Hgt].
    - unfold Py.clip. rewrite (proj2 (Z.leb_le _ _) Hw). by rewrite Nat.min_r by lia.
    - by replace (n - 2 * Z.to_nat w)%nat with 0%nat by lia. }
  rewrite !Hclip. f_equal.
  rewrite (Hslice _ _ _ Hr).
  apply list_eq. intros k. rewrite !list_lookup_fmap.
  destruct (take _ _ !! k) as [row|] eqn:Hrow; [|done]. simpl. f_equal.
  apply Hslice. apply lookup_take_Some in Hrow as [Hrow _].
  rewrite lookup_drop in Hrow. rewrite Forall_lookup in Hc. by eapply Hc.
Qed.

Lemma slice2_neg_trim a (w : Z) :
  Np.wf a → (1 ≤ w)%Z →
  Np.slice2 a w (- w) w (- w) = Np.trim (Z.to_nat w) a.
Proof.
  intros [Hr Hc] Hw. unfold Np.slice2, Np.trim.
  assert (∀ n : nat, (Py.clip n (- w) - Py.clip n w = n - 2 * Z.to_nat w)%nat) as Hclip.
  { intros n. unfold Py.clip. repeat case_match; lia. }
  assert (∀ {T : Type} (l : list T) (n : nat), length l = n →
            Py.slice l w (- w) = take (n - 2 * Z.to_nat w) (drop (Z.to_nat w) l)) as Hslice.
  { intros T l n Hl. unfold Py.slice. rewrite Hl, Hclip.
    destruct (decide (Z.to_nat w ≤ n)%nat) as [Hle|Hgt].
    - unfold Py.clip. rewrite (proj2 (Z.leb_le _ _)) by lia. by rewrite Nat.min_r by lia.
    - by replace (n - 2 * Z.to_nat w)%nat with 0%nat by lia. }
  rewrite !Hclip. f_equal.
  rewrite (Hslice _ _ _ Hr).
  apply list_eq. intros k. rewrite !list_lookup_fmap.
  destruct (take _ _ !! k) as [row|] eqn:Hrow; [|done]. simpl. f_equal.
  apply Hslice. apply lookup_take_Some in Hrow as [Hrow _].
  rewrite lookup_drop in Hrow. rewrite Forall_lookup in Hc. by eapply Hc.
Qed.

End np_shape_facts.

Lemma like_map {A B T : Type} (f : A → B) (a : Np.ndarray A) (d : Np.ndarray T) :
  Np.wf a ∧ Np.same_shape a d → Np.wf (Np.map f a) ∧ Np.same_shape (Np.map f a) d.
Proof.
  intros [Wa [Sa1 Sa2]]. destruct (wf_map f a Wa) as [? [? ?]].
  split; [done|]. split; congruence.
Qed.

Lemma like_zip_with {A B C T : Type} (f : A → B → C)
    (a : Np.ndarray A) (b : Np.ndarray B) (d : Np.ndarray T) :
  Np.wf a ∧ Np.same_shape a d → Np.wf b ∧ Np.same_shape b d →
  Np.wf (Np.zip_with f a b) ∧ Np.same_shape (Np.zip_with f a b) d.
Proof.
  intros [Wa [Sa1 Sa2]] [Wb [Sb1 Sb2]].
  destruct (wf_zip_with f a b) as [? [? ?]]; [done|done|split; congruence|].
  split; [done|]. split; congruence.
Qed.

(** ** The results of [visibility2d] *)

Section output_facts.
Variables (data : Np.ndarray Q) (c : counts).
Hypothesis Hwf : Np.wf data.
Hypothesis Hgood : counts_like c data.

Local Notation "'nr'" := (Z.of_nat (Np.nrows data)).
Local Notation "'nc'" := (Z.of_nat (Np.ncols data)).

Lemma get_good (a : Np.ndarray Z) (i j : Z) :
  Np.wf a → Np.same_shape a data → (0 ≤ i < nr)%Z → (0 ≤ j < nc)%Z →
  ∃ v, Np.get a i j = Some v ∧ Np.lookup2 a (Z.to_nat i) (Z.to_nat j) = Some v.
Proof.
  intros Ha [Hr Hc] Hi Hj.
  destruct (get_is_Some a i j Ha) as [v Hv]; [lia..|].
  exists v. split; [done|]. rewrite get_nonneg in Hv by lia. done.
Qed.

(** Inside the grid the eight directional counts of a cell exist. *)
Lemma directional_spec (i j : Z) :
  (0 ≤ i < nr)%Z → (0 ≤ j < nc)%Z →
  ∃ a1 a2 a3 a4 a5 a6 a7 a8,
    directional c i j = Some [a1; a2; a3; a4; a5; a6; a7; a8]
    ∧ Np.get (vn c) i j = Some a1 ∧ Np.get (vs c) i j = Some a2
    ∧ Np.get (ve c) i j = Some a3 ∧ Np.get (vw c) i j = Some a4
    ∧ Np.get (vd1 c) i j = Some a5 ∧ Np.get (vd2 c) i j = Some a6
    ∧ Np.get (vd3 c) i j = Some a7 ∧ Np.get (vd4 c) i j = Some a8.
Proof.
  intros Hi Hj.
  destruct Hgood as ([W1 S1] & [W2 S2] & [W3 S3] & [W4 S4] & [W5 S5] & [W6 S6]
                     & [W7 S7] & [W8 S8]).
  destruct (get_good (vn c) i j) as (a1 & H1 & _); [done..|].
  destruct (get_good (vs c) i j) as (a2 & H2 & _); [done..|].
  destruct (get_good (ve c) i j) as (a3 & H3 & _); [done..|].
  destruct (get_good (vw c) i j) as (a4 & H4 & _); [done..|].
  destruct (get_good (vd1 c) i j) as (a5 & H5 & _); [done..|].
  destruct (get_good (vd2 c) i j) as (a6 & H6 & _); [done..|].
  destruct (get_good (vd3 c) i j) as (a7 & H7 & _); [done..|].
  destruct (get_good (vd4 c) i j) as (a8 & H8 & _); [done..|].
  exists a1, a2, a3, a4, a5, a6, a7, a8. unfold directional.
  rewrite H1, H2, H3, H4, H5, H6, H7, H8. done.
Qed.

(** The standard deviation pass fills every cell with the deviation of the
    eight directional counts of that cell. *)
Lemma std_pass_spec :
  ∃ v, std_pass c nr nc (Np.full nr nc 0%R) = Some v
    ∧ Np.wf v ∧ Np.same_shape v data
    ∧ ∀ i j, (0 ≤ i < nr)%Z → (0 ≤ j < nc)%Z →
        Np.sat (λ x, ∃ xs, directional c i j = Some xs ∧ x = std_ddof1 (IZR <$> xs)) v i j.
Proof.
  unfold std_pass.
  pose (Q := λ (i j : Z) (x : R),
          ∃ xs, directional c i j = Some xs ∧ x = std_ddof1 (IZR <$> xs)).
  pose (Good := λ v : Np.ndarray R, Np.wf v ∧ Np.same_shape v data).
  pose (Keep := λ v v' : Np.ndarray R,
          ∀ i j, (0 ≤ i)%Z → (0 ≤ j)%Z → Np.sat (Q i j) v i j → Np.sat (Q i j) v' i j).
  assert (∀ s, Keep s s) as Hrefl by (by intros s i j _ _).
  assert (∀ s1 s2 s3, Keep s1 s2 → Keep s2 s3 → Keep s1 s3) as Htrans.
  { intros s1 s2 s3 H12 H23 i j Hi Hj H. by apply H23, H12. }
  loop_done Good Keep
    (λ (j : Z) (v : Np.ndarray R), (0 ≤ j)%Z → ∀ i, (0 ≤ i < nr)%Z → Np.sat (Q i j) v i j)
    Hrefl Htrans Hloop.
  destruct Hloop with (s := Np.full nr nc 0%R) as (v & Hfor & [Hwv Hsv] & _ & Hdone).
  - intros j s s' Hd Hk Hj i Hi. apply Hk; [lia|done|]. by apply Hd.
  - intros j s Hj%elem_of_range Hs.
    loop_done Good Keep
      (λ (i : Z) (v : Np.ndarray R), (0 ≤ i)%Z → Np.sat (Q i j) v i j)
      Hrefl Htrans Hinner.
    destruct Hinner with (s := s) as (s' & Hfor & Hgood' & Hkeep & Hdone); [| |exact Hs|].
    + intros i s1 s2 Hd Hk Hi. apply Hk; [done|lia|]. by apply Hd.
    + intros i s0 Hi%elem_of_range [Hw0 Hs0].
      destruct (directional_spec i j) as (a1 & a2 & a3 & a4 & a5 & a6 & a7 & a8 & Hdir & _);
        [lia..|].
      rewrite Hdir. bind_step.
      destruct (write_ok Q s0 data i j
                  (std_ddof1 (IZR <$> [a1; a2; a3; a4; a5; a6; a7; a8])))
        as (s1 & -> & Hw1 & Hs1 & Hsat & Hk); [done|done|lia|lia|by eexists|].
      exists s1. split; [done|]. split; [done|]. split; [exact Hk|done].
    + exists s'. split; [exact Hfor|]. split; [done|]. split; [done|].
      intros _ i Hi. apply Hdone; [apply elem_of_range|]; lia.
  - split; [apply wf_full|]. split; simpl; apply Nat2Z.id.
  - exists v. split; [done|]. split; [done|]. split; [done|].
    intros i j Hi Hj. apply (Hdone j); [apply elem_of_range|..]; lia.
Qed.

(** The sum of the eight arrays, cell by cell. *)
Lemma total_spec :
  Np.wf (total c) ∧ Np.same_shape (total c) data
  ∧ ∀ r k v, Np.lookup2 (total c) r k = Some v →
      ∃ a1 a2 a3 a4 a5 a6 a7 a8,
        Np.lookup2 (vn c) r k = Some a1 ∧ Np.lookup2 (vs c) r k = Some a2
        ∧ Np.lookup2 (ve c) r k = Some a3 ∧ Np.lookup2 (vw c) r k = Some a4
        ∧ Np.lookup2 (vd1 c) r k = Some a5 ∧ Np.lookup2 (vd2 c) r k = Some a6
        ∧ Np.lookup2 (vd3 c) r k = Some a7 ∧ Np.lookup2 (vd4 c) r k = Some a8
        ∧ v = (a1 + a2 + a3 + a4 + a5 + a6 + a7 + a8)%Z.
Proof.
  destruct Hgood as ([W1 S1] & [W2 S2] & [W3 S3] & [W4 S4] & [W5 S5] & [W6 S6]
                     & [W7 S7] & [W8 S8]).
  unfold total. cbv zeta.
  rewrite (assoc and). split.
  - repeat first [apply like_zip_with | done].
  - intros r k v H.
    apply lookup2_zip_with in H as (x7 & a8 & H & H8 & ->).
    apply lookup2_zip_with in H as (x6 & a7 & H & H7 & ->).
    apply lookup2_zip_with in H as (x5 & a6 & H & H6 & ->).
    apply lookup2_zip_with in H as (x4 & a5 & H & H5 & ->).
    apply lookup2_zip_with in H as (x3 & a4 & H & H4 & ->).
    apply lookup2_zip_with in H as (x2 & a3 & H & H3 & ->).
    apply lookup2_zip_with in H as (a1 & a2 & H1 & H2 & ->).
    by exists a1, a2, a3, a4, a5, a6, a7, a8.
Qed.

End output_facts.

Lemma wf_fill {A : Type} (values : Np.ndarray A) (msk : Np.ndarray bool) (x : A) :
  Np.wf values → Np.wf msk → Np.same_shape msk values →
  Np.wf (Np.fill values msk x).
Proof.
  intros Hv Hm [Hr Hc]. apply wf_zip_with; [done|done|split; congruence].
Qed.

Lemma wf_resultant (data : Np.ndarray Q) (c : counts) :
  counts_like c data → Np.wf (resultant c) ∧ Np.same_shape (resultant c) data.
Proof.
  intros ([W1 S1] & [W2 S2] & [W3 S3] & [W4 S4] & [W5 S5] & [W6 S6] & [W7 S7] & [W8 S8]).
  unfold resultant. cbv zeta.
  repeat first [apply like_map | apply like_zip_with | done].
Qed.

Lemma with_mask_like {A T : Type} (a : Np.ndarray A) (msk : Np.ndarray bool)
    (d : Np.ndarray T) (w : nat) :
  Np.same_shape a d → Np.same_shape msk d →
  with_mask (Np.trim w a) (Np.trim w msk) = Some (Np.mkma (Np.trim w a) (Np.trim w msk)).
Proof.
  intros [Ha1 Ha2] [Hm1 Hm2]. unfold with_mask.
  rewrite decide_True; [done|]. unfold Np.shape. simpl. by rewrite Ha1, Ha2, Hm1, Hm2.
Qed.

Section visibility_facts.
Variables (m : Np.marray Q) (w : Z) (dh : Q) (P1 P2 : Z → Prop).
Hypothesis Hm : Np.wfma m.
Hypothesis Hw : (1 ≤ w)%Z.

Local Notation "'filled'" := (Np.fill (Np.data m) (Np.mask m) (ma_mean m)).
Local Notation "'W'" := (Z.to_nat w).

Hypothesis Hvis : ∀ dtmp : list Q,
  length dtmp = Z.to_nat (2 * w + 1) →
  (∀ x, x ∈ dtmp → ∃ r c, Np.lookup2 filled r c = Some x) →
  ∃ n s, __visible1 dtmp (2 * w + 1) (w + 1) dh = Some n ∧ P1 n
         ∧ __visible2 dtmp (w + 1) dh = Some s ∧ P2 s.

Lemma wf_filled : Np.wf filled.
Proof. destruct Hm as (? & ? & ? & ?). by apply wf_fill. Qed.

(** [visibility2d] on an odd window [2w+1], [w >= 1]: it returns; its results
    are the trimmed total, deviation and resultant arrays, each under the
    trimmed mask; and it leaves the filled grid in the caller's buffer. *)
Lemma visibility2d_spec :
  ∃ c vfull,
    sweeps filled (Z.of_nat (Np.nrows (Np.data m))) (Z.of_nat (Np.ncols (Np.data m)))
           (2 * w + 1) w dh = Some c
    ∧ visibility2d m (2 * w + 1) dh
    = Some (mkvisibility
              (Np.mkma (Np.trim W (total c)) (Np.trim W (Np.mask m)))
              (Np.mkma (Np.trim W vfull) (Np.trim W (Np.mask m)))
              (Np.mkma (Np.trim W (resultant c)) (Np.trim W (Np.mask m))),
            filled)
    ∧ counts_like c filled
    ∧ (Np.wf vfull ∧ Np.same_shape vfull filled)
    ∧ (∀ i j, (w ≤ i < Z.of_nat (Np.nrows (Np.data m)) - w)%Z →
              (w ≤ j < Z.of_nat (Np.ncols (Np.data m)) - w)%Z →
         Np.sat P1 (vn c) i j ∧ Np.sat P2 (vs c) i j
         ∧ Np.sat P1 (ve c) i j ∧ Np.sat P2 (vw c) i j
         ∧ Np.sat P1 (vd1 c) i j ∧ Np.sat P2 (vd2 c) i j
         ∧ Np.sat P1 (vd3 c) i j ∧ Np.sat P2 (vd4 c) i j)
    ∧ (∀ r k v, Np.lookup2 (Np.trim W (total c)) r k = Some v →
         ∃ a1 a2 a3 a4 a5 a6 a7 a8,
           (P1 a1 ∧ P2 a2 ∧ P1 a3 ∧ P2 a4 ∧ P1 a5 ∧ P2 a6 ∧ P1 a7 ∧ P2 a8)
           ∧ v = (a1 + a2 + a3 + a4 + a5 + a6 + a7 + a8)%Z)
    ∧ (∀ r k v, Np.lookup2 (Np.trim W vfull) r k = Some v →
         ∃ a1 a2 a3 a4 a5 a6 a7 a8,
           (P1 a1 ∧ P2 a2 ∧ P1 a3 ∧ P2 a4 ∧ P1 a5 ∧ P2 a6 ∧ P1 a7 ∧ P2 a8)
           ∧ v = std_ddof1 (IZR <$> [a1; a2; a3; a4; a5; a6; a7; a8])).
Proof.
  pose proof wf_filled as Hwf.
  destruct (sweeps_spec filled w dh P1 P2 Hwf Hw Hvis) as (c & Hc & Hlike & Hint).
  destruct (std_pass_spec filled c Hlike) as (vfull & Hstd & Hwv & Hsv & Hcells).
  destruct (total_spec filled c Hlike) as (Hwt & Hst & Htot).
  destruct (wf_resultant filled c Hlike) as [Hwr Hsr].
  change (Np.nrows filled) with (Np.nrows (Np.data m)) in *.
  change (Np.ncols filled) with (Np.ncols (Np.data m)) in *.
  assert (Np.same_shape (Np.mask m) filled) as Hsm.
  { destruct Hm as (_ & _ & ? & ?). by split. }
  assert (∀ i j, (w ≤ i < Z.of_nat (Np.nrows (Np.data m)) - w)%Z →
                 (w ≤ j < Z.of_nat (Np.ncols (Np.data m)) - w)%Z →
            ∃ a1 a2 a3 a4 a5 a6 a7 a8,
              directional c i j = Some [a1; a2; a3; a4; a5; a6; a7; a8]
              ∧ (P1 a1 ∧ P2 a2 ∧ P1 a3 ∧ P2 a4 ∧ P1 a5 ∧ P2 a6 ∧ P1 a7 ∧ P2 a8))
    as Hdir.
  { intros i j Hi Hj.
    destruct (Hint i j Hi Hj)
      as ((a1 & H1 & ?) & (a2 & H2 & ?) & (a3 & H3 & ?) & (a4 & H4 & ?)
          & (a5 & H5 & ?) & (a6 & H6 & ?) & (a7 & H7 & ?) & (a8 & H8 & ?)).
    exists a1, a2, a3, a4, a5, a6, a7, a8. unfold directional.
    rewrite H1, H2, H3, H4, H5, H6, H7, H8. done. }
  exists c, vfull. split; [done|].
  split; [|split; [done|split; [done|split; [done|split]]]].
  - unfold visibility2d. cbv zeta.
    replace (Z.abs (2 * w + 1)) with (2 * w + 1)%Z by lia.
    replace ((2 * w + 1) / 2)%Z with w by (apply Z.div_unique with 1%Z; lia).
    rewrite Hc. bind_step. rewrite Hstd. bind_step.
    destruct Hst as [Hst1 Hst2], Hsv as [Hsv1 Hsv2], Hsr as [Hsr1 Hsr2].
    change (Np.nrows filled) with (Np.nrows (Np.data m)) in *.
    change (Np.ncols filled) with (Np.ncols (Np.data m)) in *.
    assert (∀ {T : Type} (a : Np.ndarray T),
              Np.wf a → Np.same_shape a filled →
              Np.slice2 a w (Z.of_nat (Np.nrows (Np.data m)) - w)
                        w (Z.of_nat (Np.ncols (Np.data m)) - w)
              = Np.trim W a) as Htrim.
    { intros T a Ha [Ha1 Ha2]. simpl in Ha1, Ha2. rewrite <- Ha1, <- Ha2.
      apply slice2_trim; [done|lia]. }
    rewrite !Htrim by (done || by split).
    rewrite slice2_neg_trim by (done || apply Hm).
    rewrite (with_mask_like (total c) (Np.mask m) filled) by (done || by split).
    bind_step.
    rewrite (with_mask_like vfull (Np.mask m) filled) by (done || by split).
    bind_step.
    rewrite (with_mask_like (resultant c) (Np.mask m) filled) by (done || by split).
    done.
  - intros r k v [Hv [Hr Hk]]%lookup2_trim.
    destruct Hst as [Hst1 Hst2]. rewrite Hst1 in Hr. rewrite Hst2 in Hk.
    change (Np.nrows filled) with (Np.nrows (Np.data m)) in *.
    change (Np.ncols filled) with (Np.ncols (Np.data m)) in *.
    destruct (Hdir (Z.of_nat (W + r)) (Z.of_nat (W + k)))
      as (a1 & a2 & a3 & a4 & a5 & a6 & a7 & a8 & Hd & HP); [lia..|].
    exists a1, a2, a3, a4, a5, a6, a7, a8. split; [done|].
    apply Htot in Hv as (b1 & b2 & b3 & b4 & b5 & b6 & b7 & b8
                         & H1 & H2 & H3 & H4 & H5 & H6 & H7 & H8 & ->).
    destruct Hlike as ([W1 [S1 S1']] & [W2 [S2 S2']] & [W3 [S3 S3']] & [W4 [S4 S4']]
                       & [W5 [S5 S5']] & [W6 [S6 S6']] & [W7 [S7 S7']] & [W8 [S8 S8']]).
    change (Np.nrows filled) with (Np.nrows (Np.data m)) in *.
    change (Np.ncols filled) with (Np.ncols (Np.data m)) in *.
    unfold directional in Hd.
    rewrite !get_nonneg in Hd by lia. rewrite !Nat2Z.id in Hd.
    rewrite H1, H2, H3, H4, H5, H6, H7, H8 in Hd. simpl in Hd. by simplify_eq.
  - intros r k v [Hv [Hr Hk]]%lookup2_trim.
    destruct Hsv as [Hsv1 Hsv2]. rewrite Hsv1 in Hr. rewrite Hsv2 in Hk.
    change (Np.nrows filled) with (Np.nrows (Np.data m)) in *.
    change (Np.ncols filled) with (Np.ncols (Np.data m)) in *.
    destruct (Hdir (Z.of_nat (W + r)) (Z.of_nat (W + k)))
      as (a1 & a2 & a3 & a4 & a5 & a6 & a7 & a8 & Hd & HP); [lia..|].
    exists a1, a2, a3, a4, a5, a6, a7, a8. split; [done|].
    destruct (Hcells (Z.of_nat (W + r)) (Z.of_nat (W + k)))
      as (x & Hx & xs & Hxs & ->); [lia..|].
    rewrite get_nonneg in Hx by lia. rewrite !Nat2Z.id in Hx.
    by simplify_eq.
Qed.

End visibility_facts.

(** The deviation of eight counts that alternate between [a + 1] and [a]. *)
Lemma std_alternating (a : Z) :
  std_ddof1 (IZR <$> [a + 1; a; a + 1; a; a + 1; a; a + 1; a]%Z) = sqrt (2 / 7).
Proof.
  unfold std_ddof1, Rsum. simpl. rewrite !plus_IZR. f_equal. field.
Qed.

(** No cell is lost, none invented: a window of the grid can be any list. *)
Lemma visible_any (m : Np.marray Q) (w : Z) (dh : Q) :
  (1 ≤ w)%Z →
  ∀ dtmp : list Q,
    length dtmp = Z.to_nat (2 * w + 1) →
    (∀ x, x ∈ dtmp →
       ∃ r c, Np.lookup2 (Np.fill (Np.data m) (Np.mask m) (ma_mean m)) r c = Some x) →
    ∃ n s, __visible1 dtmp (2 * w + 1) (w + 1) dh = Some n ∧ True
           ∧ __visible2 dtmp (w + 1) dh = Some s ∧ True.
Proof.
  intros Hw dtmp Hlen _. destruct (visible_total dtmp w dh Hw Hlen) as (n & s & H1 & H2).
  by exists n, s.
Qed.

(** For any grid and any odd window [2w+1], [w >= 1], [visibility2d] returns:
    three arrays of [R - 2w] rows and [C - 2w] columns (none when the window
    does not fit), under the trimmed mask, and the filled grid in the caller's
    buffer. *)
Lemma visibility2d_returns (m : Np.marray Q) (w : Z) (dh : Q) :
  Np.wfma m → (1 ≤ w)%Z →
  ∃ r,
    visibility2d m (2 * w + 1) dh
    = Some (r, Np.fill (Np.data m) (Np.mask m) (ma_mean m))
    ∧ (Np.wf (Np.data (vtot r)) ∧ Np.wf (Np.data (vstd r)) ∧ Np.wf (Np.data (vsum r)))
    ∧ (Np.nrows (Np.data (vtot r)) = Np.nrows (Np.data m) - 2 * Z.to_nat w
       ∧ Np.ncols (Np.data (vtot r)) = Np.ncols (Np.data m) - 2 * Z.to_nat w)%nat
    ∧ (Np.nrows (Np.data (vstd r)) = Np.nrows (Np.data m) - 2 * Z.to_nat w
       ∧ Np.ncols (Np.data (vstd r)) = Np.ncols (Np.data m) - 2 * Z.to_nat w)%nat
    ∧ (Np.nrows (Np.data (vsum r)) = Np.nrows (Np.data m) - 2 * Z.to_nat w
       ∧ Np.ncols (Np.data (vsum r)) = Np.ncols (Np.data m) - 2 * Z.to_nat w)%nat
    ∧ Np.mask (vtot r) = Np.trim (Z.to_nat w) (Np.mask m)
    ∧ Np.mask (vstd r) = Np.trim (Z.to_nat w) (Np.mask m)
    ∧ Np.mask (vsum r) = Np.trim (Z.to_nat w) (Np.mask m).
Proof.
  intros Hm Hw.
  destruct (visibility2d_spec m w dh (λ _, True) (λ _, True) Hm Hw (visible_any m w dh Hw))
    as (c & vfull & Hsweeps & Hvis & Hlike & [Hwv [Hv1 Hv2]] & _).
  destruct (total_spec _ c Hlike) as (Hwt & [Ht1 Ht2] & _).
  destruct (wf_resultant _ c Hlike) as [Hwr [Hr1 Hr2]].
  simpl in Hv1, Hv2, Ht1, Ht2, Hr1, Hr2.
  eexists. split; [exact Hvis|]. simpl.
  split; [by repeat split; apply wf_trim|].
  rewrite Hv1, Hv2, Ht1, Ht2, Hr1, Hr2. done.
Qed.

(** C2.  On a grid of shape (R, C), with an odd window [2w+1] that fits
    ([1 <= w], [2w < R], [2w < C]), [visibility2d] returns three arrays of
    shape (R - 2w, C - 2w), and the mask of each is the mask of the input
    without its outer [w] rows and columns. *)
Theorem visibility2d_shape (m : Np.marray Q) (w : Z) (dh : Q) :
  Np.wfma m → (1 ≤ w)%Z →
  (2 * w < Z.of_nat (Np.nrows (Np.data m)))%Z →
  (2 * w < Z.of_nat (Np.ncols (Np.data m)))%Z →
  ∃ r buf,
    visibility2d m (2 * w + 1) dh = Some (r, buf)
    ∧ (Np.wf (Np.data (vtot r)) ∧ Np.wf (Np.data (vstd r)) ∧ Np.wf (Np.data (vsum r)))
    ∧ Np.shape (Np.data (vtot r))
      = (Z.of_nat (Np.nrows (Np.data m)) - 2 * w, Z.of_nat (Np.ncols (Np.data m)) - 2 * w)%Z
    ∧ Np.shape (Np.data (vstd r))
      = (Z.of_nat (Np.nrows (Np.data m)) - 2 * w, Z.of_nat (Np.ncols (Np.data m)) - 2 * w)%Z
    ∧ Np.shape (Np.data (vsum r))
      = (Z.of_nat (Np.nrows (Np.data m)) - 2 * w, Z.of_nat (Np.ncols (Np.data m)) - 2 * w)%Z
    ∧ Np.mask (vtot r) = Np.trim (Z.to_nat w) (Np.mask m)
    ∧ Np.mask (vstd r) = Np.trim (Z.to_nat w) (Np.mask m)
    ∧ Np.mask (vsum r) = Np.trim (Z.to_nat w) (Np.mask m).
Proof.
  intros Hm Hw HR HC.
  destruct (visibility2d_returns m w dh Hm Hw)
    as (r & Hvis & Hwf & [Ht1 Ht2] & [Hs1 Hs2] & [Hr1 Hr2] & Hmask).
  exists r, (Np.fill (Np.data m) (Np.mask m) (ma_mean m)).
  split; [exact Hvis|]. split; [exact Hwf|].
  unfold Np.shape. rewrite Ht1, Ht2, Hs1, Hs2, Hr1, Hr2.
  split; [f_equal; lia|]. split; [f_equal; lia|]. split; [f_equal; lia|]. exact Hmask.
Qed.

Lemma visibility2d_shape_witness :
  let m := Np.mkma (Np.full 3 4 1%Q) (Np.full 3 4 false) in
  ∃ r buf,
    visibility2d m 3 0 = Some (r, buf)
    ∧ Np.shape (Np.data (vtot r)) = (1, 2)%Z
    ∧ Np.shape (Np.data (vstd r)) = (1, 2)%Z
    ∧ Np.shape (Np.data (vsum r)) = (1, 2)%Z
    ∧ Np.mask (vtot r) = Np.mk 1 2 [[false; false]].
Proof.
  intros m.
  assert (Np.wfma m) as Hm.
  { split; [apply wf_full|]. split; [apply wf_full|]. done. }
  destruct (visibility2d_shape m 1 0 Hm) as (r & buf & H & _ & H1 & H2 & H3 & H4 & _);
    [simpl; lia..|].
  exists r, buf. split; [exact H|]. split; [exact H1|]. split; [exact H2|].
  split; [exact H3|]. exact H4.
Defined.

(** C9, as amended.  [visibility2d] checks no dimension.  When the window
    does not fit the grid ([R <= 2w] or [C <= 2w]) it raises nothing and
    returns three arrays without cells, of [R - 2w] rows and [C - 2w] columns
    where a negative difference counts as 0. *)
Theorem visibility2d_window_too_large (m : Np.marray Q) (w : Z) (dh : Q) :
  Np.wfma m → (1 ≤ w)%Z →
  (Z.of_nat (Np.nrows (Np.data m)) ≤ 2 * w
   ∨ Z.of_nat (Np.ncols (Np.data m)) ≤ 2 * w)%Z →
  ∃ r buf,
    visibility2d m (2 * w + 1) dh = Some (r, buf)
    ∧ Np.shape (Np.data (vtot r))
      = (Z.max 0 (Z.of_nat (Np.nrows (Np.data m)) - 2 * w),
         Z.max 0 (Z.of_nat (Np.ncols (Np.data m)) - 2 * w))
    ∧ Np.shape (Np.data (vstd r)) = Np.shape (Np.data (vtot r))
    ∧ Np.shape (Np.data (vsum r)) = Np.shape (Np.data (vtot r))
    ∧ ∀ i j, Np.lookup2 (Np.data (vtot r)) i j = None
             ∧ Np.lookup2 (Np.data (vstd r)) i j = None
             ∧ Np.lookup2 (Np.data (vsum r)) i j = None.
Proof.
  intros Hm Hw Hsmall.
  destruct (visibility2d_returns m w dh Hm Hw)
    as (r & Hvis & (Hwt & Hws & Hwr) & [Ht1 Ht2] & [Hs1 Hs2] & [Hr1 Hr2] & _).
  exists r, (Np.fill (Np.data m) (Np.mask m) (ma_mean m)).
  split; [exact Hvis|]. unfold Np.shape. rewrite Ht1, Ht2, Hs1, Hs2, Hr1, Hr2.
  split; [f_equal; lia|]. split; [done|]. split; [done|].
  assert (∀ {T : Type} (a : Np.ndarray T) (i j : nat),
            Np.wf a →
            Np.nrows a = (Np.nrows (Np.data m) - 2 * Z.to_nat w)%nat →
            Np.ncols a = (Np.ncols (Np.data m) - 2 * Z.to_nat w)%nat →
            Np.lookup2 a i j = None) as Hnone.
  { intros T a i j Ha Hr Hc. destruct (Np.lookup2 a i j) as [x|] eqn:Hx; [|done].
    apply lookup2_lt in Hx as [? ?]; [|done]. lia. }
  intros i j. split; [|split]; by apply Hnone.
Qed.

Lemma visibility2d_window_too_large_witness :
  let m := Np.mkma (Np.full 2 2 0%Q) (Np.full 2 2 false) in
  ∃ r buf,
    visibility2d m 3 0 = Some (r, buf)
    ∧ Np.shape (Np.data (vtot r)) = (0, 0)%Z
    ∧ Np.shape (Np.data (vstd r)) = (0, 0)%Z
    ∧ Np.shape (Np.data (vsum r)) = (0, 0)%Z.
Proof.
  intros m.
  assert (Np.wfma m) as Hm.
  { split; [apply wf_full|]. split; [apply wf_full|]. done. }
  destruct (visibility2d_window_too_large m 1 0 Hm) as (r & buf & H & H1 & H2 & H3 & _);
    [simpl; lia..|].
  exists r, buf. split; [exact H|]. split; [exact H1|].
  split; [by rewrite H2|by rewrite H3].
Defined.

(** C9 as stated fails: on a 2 x 2 grid with [window_size = 3] the call
    returns, with three empty arrays, and does not fail. *)
Lemma visibility2d_small_grid_returns :
  ∃ r buf,
    visibility2d (Np.mkma (Np.full 2 2 0%Q) (Np.full 2 2 false)) 3 0 = Some (r, buf)
    ∧ Np.data (vtot r) = Np.mk 0 0 []
    ∧ Np.data (vstd r) = Np.mk 0 0 []
    ∧ Np.data (vsum r) = Np.mk 0 0 [].
Proof. eexists _, _. split; [reflexivity|]. done. Qed.

(** With a window of three cells the counts do not depend on the data. *)
Lemma visible_window3_any (m : Np.marray Q) (dh : Q) :
  ∀ dtmp : list Q,
    length dtmp = Z.to_nat (2 * 1 + 1) →
    (∀ x, x ∈ dtmp →
       ∃ r c, Np.lookup2 (Np.fill (Np.data m) (Np.mask m) (ma_mean m)) r c = Some x) →
    ∃ n s, __visible1 dtmp (2 * 1 + 1) (1 + 1) dh = Some n ∧ n = 1%Z
           ∧ __visible2 dtmp (1 + 1) dh = Some s ∧ s = 0%Z.
Proof. intros dtmp _ _. by exists 1%Z, 0%Z. Qed.

Lemma sat_eq_get {A : Type} (a : Np.ndarray A) (i j : Z) (x : A) :
  Np.sat (λ v, v = x) a i j → Np.get a i j = Some x.
Proof. by intros (v & -> & ->). Qed.

(** The window of three cells on any grid: the sweeps, the results and the
    counts of the interior cells. *)
Lemma visibility2d_window3_spec (m : Np.marray Q) (dh : Q) :
  Np.wfma m →
  ∃ c r,
    sweeps (Np.fill (Np.data m) (Np.mask m) (ma_mean m))
           (Z.of_nat (Np.nrows (Np.data m))) (Z.of_nat (Np.ncols (Np.data m))) 3 1 dh
    = Some c
    ∧ visibility2d m 3 dh = Some (r, Np.fill (Np.data m) (Np.mask m) (ma_mean m))
    ∧ Np.data (vtot r) = Np.trim 1 (total c)
    ∧ (∀ i j, (1 ≤ i < Z.of_nat (Np.nrows (Np.data m)) - 1)%Z →
              (1 ≤ j < Z.of_nat (Np.ncols (Np.data m)) - 1)%Z →
         Np.get (vn c) i j = Some 1%Z ∧ Np.get (vs c) i j = Some 0%Z
         ∧ Np.get (ve c) i j = Some 1%Z ∧ Np.get (vw c) i j = Some 0%Z
         ∧ Np.get (vd1 c) i j = Some 1%Z ∧ Np.get (vd2 c) i j = Some 0%Z
         ∧ Np.get (vd3 c) i j = Some 1%Z ∧ Np.get (vd4 c) i j = Some 0%Z)
    ∧ (∀ i j v, Np.lookup2 (Np.data (vtot r)) i j = Some v → v = 4%Z)
    ∧ (∀ i j v, Np.lookup2 (Np.data (vstd r)) i j = Some v → v = sqrt (2 / 7)).
Proof.
  intros Hm.
  destruct (visibility2d_spec m 1 dh (λ n, n = 1%Z) (λ s, s = 0%Z) Hm ltac:(lia)
              (visible_window3_any m dh))
    as (c & vfull & Hsweeps & Hvis & _ & _ & Hint & Htot & Hstd).
  eexists c, _. split; [exact Hsweeps|]. split; [exact Hvis|]. simpl.
  split; [done|]. split; [|split].
  - intros i j Hi Hj.
    destruct (Hint i j Hi Hj) as (H1 & H2 & H3 & H4 & H5 & H6 & H7 & H8).
    repeat split; by apply sat_eq_get.
  - intros i j v Hv.
    destruct (Htot i j v Hv) as (a1 & a2 & a3 & a4 & a5 & a6 & a7 & a8 & HP & ->).
    destruct HP as (-> & -> & -> & -> & -> & -> & -> & ->). done.
  - intros i j v Hv.
    destruct (Hstd i j v Hv) as (a1 & a2 & a3 & a4 & a5 & a6 & a7 & a8 & HP & ->).
    destruct HP as (-> & -> & -> & -> & -> & -> & -> & ->).
    exact (std_alternating 0).
Qed.

(** C10.  With [window_size = 3] the two sweeps return 1 and 0 whatever the
    data, so on every grid the total visibility is 4 and the standard
    deviation is [sqrt (2/7)] at every output cell. *)
Theorem visibility2d_window3_constant (m : Np.marray Q) (dh : Q) :
  Np.wfma m →
  (∀ dat dh', __visible1 dat 3 2 dh' = Some 1%Z ∧ __visible2 dat 2 dh' = Some 0%Z)
  ∧ ∃ r buf,
      visibility2d m 3 dh = Some (r, buf)
      ∧ (∀ i j v, Np.lookup2 (Np.data (vtot r)) i j = Some v → v = 4%Z)
      ∧ (∀ i j v, Np.lookup2 (Np.data (vstd r)) i j = Some v → v = sqrt (2 / 7)).
Proof.
  intros Hm. split; [apply visible_window3|].
  destruct (visibility2d_window3_spec m dh Hm) as (c & r & _ & Hvis & _ & _ & Htot & Hstd).
  by eexists r, _.
Qed.

Lemma visibility2d_window3_constant_witness :
  let m := unmasked ramp7 in
  Np.wfma m
  ∧ ∃ r buf,
      visibility2d m 3 0 = Some (r, buf)
      ∧ Np.lookup2 (Np.data (vtot r)) 2 2 = Some 4%Z
      ∧ Np.lookup2 (Np.data (vstd r)) 2 2 = Some (sqrt (2 / 7)).
Proof.
  intros m.
  assert (Np.wfma m) as Hm.
  { split; [|split; [apply wf_full|done]].
    split; [done|]. by repeat constructor. }
  split; [exact Hm|].
  destruct (visibility2d_window3_constant m 0 Hm) as (_ & r & buf & Hvis & Htot & Hstd).
  destruct (visibility2d_returns m 1 0 Hm ltac:(lia))
    as (r' & Hvis' & (Hwt & Hws & _) & [Ht1 Ht2] & [Hs1 Hs2] & _).
  change (2 * 1 + 1)%Z with 3%Z in Hvis'.
  assert (r' = r) as -> by congruence.
  exists r, buf. split; [exact Hvis|].
  destruct (lookup2_is_Some (Np.data (vtot r)) 2 2 Hwt) as [v Hv];
    [rewrite Ht1; simpl; lia | rewrite Ht2; simpl; lia |].
  destruct (lookup2_is_Some (Np.data (vstd r)) 2 2 Hws) as [u Hu];
    [rewrite Hs1; simpl; lia | rewrite Hs2; simpl; lia |].
  rewrite Hv, Hu, (Htot _ _ _ Hv), (Hstd _ _ _ Hu). split; reflexivity.
Defined.

(** C4, as amended.  On the 7 x 7 grid [value[i][j] = i], with
    [window_size = 3] and [height_offset = 0], every interior cell has a north
    count of 1 and a south count of 0. *)
Theorem ramp7_north_south :
  ∃ c r buf,
    sweeps (Np.fill ramp7 (Np.mask (unmasked ramp7)) (ma_mean (unmasked ramp7))) 7 7 3 1 0
    = Some c
    ∧ visibility2d (unmasked ramp7) 3 0 = Some (r, buf)
    ∧ Np.data (vtot r) = Np.trim 1 (total c)
    ∧ ∀ i j, (1 ≤ i < 6)%Z → (1 ≤ j < 6)%Z →
             Np.get (vn c) i j = Some 1%Z ∧ Np.get (vs c) i j = Some 0%Z.
Proof.
  assert (Np.wfma (unmasked ramp7)) as Hm.
  { split; [|split; [apply wf_full|done]].
    split; [done|]. by repeat constructor. }
  destruct (visibility2d_window3_spec (unmasked ramp7) 0 Hm)
    as (c & r & Hsweeps & Hvis & Hdata & Hint & _).
  eexists c, r, _. split; [exact Hsweeps|]. split; [exact Hvis|]. split; [exact Hdata|].
  intros i j Hi Hj. destruct (Hint i j) as (H1 & H2 & _); [simpl; lia..|]. by split.
Qed.

(** C4 as stated fails: the south count of the interior cell (3, 3) is 0,
    not 1. *)
Lemma ramp7_south_is_zero :
  ∃ c r buf,
    sweeps (Np.fill ramp7 (Np.mask (unmasked ramp7)) (ma_mean (unmasked ramp7))) 7 7 3 1 0
    = Some c
    ∧ visibility2d (unmasked ramp7) 3 0 = Some (r, buf)
    ∧ Np.data (vtot r) = Np.trim 1 (total c)
    ∧ Np.get (vn c) 3 3 = Some 1%Z
    ∧ Np.get (vs c) 3 3 = Some 0%Z.
Proof.
  assert (Np.wfma (unmasked ramp7)) as Hm.
  { split; [|split; [apply wf_full|done]].
    split; [done|]. by repeat constructor. }
  destruct (visibility2d_window3_spec (unmasked ramp7) 0 Hm)
    as (c & r & Hsweeps & Hvis & Hdata & Hint & _).
  eexists c, r, _. split; [exact Hsweeps|]. split; [exact Hvis|]. split; [exact Hdata|].
  destruct (Hint 3%Z 3%Z) as (H1 & H2 & _); [simpl; lia..|]. by split.
Qed.

Lemma lookup2_zip_with_Some {A B C : Type} (f : A → B → C)
    (a : Np.ndarray A) (b : Np.ndarray B) (r c : nat) (x : A) (y : B) :
  Np.lookup2 a r c = Some x → Np.lookup2 b r c = Some y →
  Np.lookup2 (Np.zip_with f a b) r c = Some (f x y).
Proof.
  unfold Np.lookup2. simpl. intros Ha Hb.
  apply bind_Some in Ha as (ra & Hra & Hx). apply bind_Some in Hb as (rb & Hrb & Hy).
  rewrite lookup_zip_with, Hra, Hrb. simpl. by rewrite lookup_zip_with, Hx, Hy.
Qed.

(** A call on a well-formed masked array of the store, with a window of
    at least three cells, returns, and writes the filled values at the
    address of the values. *)
Lemma visibility2d_call_returns (h : Mem.store) (a : Mem.masked) (m : Np.marray Q)
    (w : Z) (dh : Q) :
  Mem.read h a = Some m → Np.wfma m → (1 ≤ w)%Z →
  ∃ r, visibility2d_call h a (2 * w + 1) dh
       = Some (r, Mem.write h (Mem.data_at a)
                    (Np.fill (Np.data m) (Np.mask m) (ma_mean m))).
Proof.
  intros Hread Hm Hw. destruct (visibility2d_returns m w dh Hm Hw) as (r & Hvis & _).
  exists r. unfold visibility2d_call. rewrite Hread. cbn [mbind option_bind].
  by rewrite Hvis.
Qed.

(** The copy is the array that was copied, at two new addresses. *)
Lemma deepcopy_spec (h : Mem.store) (a : Mem.masked) (m : Np.marray Q) :
  Mem.read h a = Some m →
  ∃ h1 b, Mem.deepcopy h a = Some (h1, b)
    ∧ Mem.read h1 b = Some m
    ∧ Mem.data_at b = length (Mem.values h)
    ∧ Mem.values h1 = Mem.values h ++ [Np.data m]
    ∧ Mem.masks h1 = Mem.masks h ++ [Np.mask m].
Proof.
  intros Hread. unfold Mem.deepcopy. rewrite Hread. cbn [mbind option_bind].
  eexists _, _. split; [reflexivity|]. split; [|by repeat split].
  unfold Mem.read. cbn [Mem.values Mem.masks Mem.data_at Mem.mask_at].
  rewrite !lookup_app_r by lia. rewrite !Nat.sub_diag. cbn.
  by destruct m.
Qed.

(** C5, as amended.  [visibility2d] makes no copy.  When a call on the
    masked array at [a] returns, the buffer of values at [a] holds, in every
    masked cell, the mean of the cells that are not masked, and its other
    cells are unchanged; no mask is written, no other buffer of values is
    written, and no buffer was added to those of the caller.  Through
    [Visibility2d.settings], which deep-copies the raster and passes the
    copy, every buffer of the caller is as it was. *)
Theorem visibility2d_fills_caller_buffer (h : Mem.store) (a : Mem.masked)
    (m : Np.marray Q) (w : Z) (dh : Q) :
  Mem.read h a = Some m → Np.wfma m → (1 ≤ w)%Z →
  ∃ r h' buf,
    visibility2d_call h a (2 * w + 1) dh = Some (r, h')
    ∧ Mem.values h' !! Mem.data_at a = Some buf
    ∧ Np.same_shape buf (Np.data m)
    ∧ (∀ i j x (b : bool),
         Np.lookup2 (Np.data m) i j = Some x →
         Np.lookup2 (Np.mask m) i j = Some b →
         Np.lookup2 buf i j = Some (if b then ma_mean m else x))
    ∧ Mem.masks h' = Mem.masks h
    ∧ length (Mem.values h') = length (Mem.values h)
    ∧ (∀ l, l ≠ Mem.data_at a → Mem.values h' !! l = Mem.values h !! l)
    ∧ ∀ std, ∃ r' h'',
        settings_band std h a (2 * w + 1) dh = Some (r', h'')
        ∧ (∀ l d, Mem.values h !! l = Some d → Mem.values h'' !! l = Some d)
        ∧ (∀ l k, Mem.masks h !! l = Some k → Mem.masks h'' !! l = Some k).
Proof.
  intros Hread Hm Hw.
  destruct (visibility2d_call_returns h a m w dh Hread Hm Hw) as (r & Hcall).
  eexists r, _, _. split; [exact Hcall|].
  assert (Mem.data_at a < length (Mem.values h))%nat as Hlt.
  { unfold Mem.read in Hread. apply bind_Some in Hread as (d & Hd & _).
    by eapply lookup_lt_Some. }
  cbn [Mem.write Mem.values Mem.masks].
  split; [by apply list_lookup_insert_eq|].
  split; [split; reflexivity|]. split.
  { intros i j x b Hx Hb. unfold Np.fill.
    by rewrite (lookup2_zip_with_Some _ _ _ _ _ x b). }
  split; [reflexivity|]. split; [by rewrite length_insert|].
  split; [intros l Hl; by apply list_lookup_insert_ne|].
  intros std.
  destruct (deepcopy_spec h a m Hread) as (h1 & b & Hcopy & Hread1 & Hb & Hv1 & Hk1).
  destruct (visibility2d_call_returns h1 b m w (dh * std m / 100) Hread1 Hm Hw)
    as (r' & Hcall').
  eexists r', _. unfold settings_band. rewrite Hcopy. cbn [mbind option_bind].
  rewrite Hread1. cbn [mbind option_bind]. split; [exact Hcall'|].
  cbn [Mem.write Mem.values Mem.masks]. rewrite Hv1, Hk1, Hb. split.
  - intros l d Hl. pose proof (lookup_lt_Some _ _ _ Hl) as Hlen.
    rewrite list_lookup_insert_ne by lia. by rewrite lookup_app_l.
  - intros l k Hl. pose proof (lookup_lt_Some _ _ _ Hl) as Hlen.
    by rewrite lookup_app_l.
Qed.

Lemma visibility2d_fills_caller_buffer_witness :
  let h := Mem.mkstore [Np.data masked_centre] [Np.mask masked_centre] in
  let a := Mem.mkmasked 0 0 in
  ∃ r h' buf,
    visibility2d_call h a (2 * 1 + 1) 0 = Some (r, h')
    ∧ Mem.values h' !! 0%nat = Some buf
    ∧ Np.lookup2 buf 1 1 = Some (ma_mean masked_centre)
    ∧ Np.lookup2 buf 0 2 = Some 0%Q
    ∧ Mem.masks h' = Mem.masks h
    ∧ ∃ r' h'',
        settings_band (λ _, 1%Q) h a (2 * 1 + 1) 0 = Some (r', h'')
        ∧ Mem.values h'' !! 0%nat = Some (Np.data masked_centre).
Proof.
  intros h a.
  assert (Np.wfma masked_centre) as Hm.
  { split; [|split; [|done]]; (split; [done|]); by repeat constructor. }
  destruct (visibility2d_fills_caller_buffer h a masked_centre 1 0 eq_refl Hm ltac:(lia))
    as (r & h' & buf & Hcall & Hbuf & _ & Hcells & Hmasks & _ & _ & Hset).
  exists r, h', buf. split; [exact Hcall|]. split; [exact Hbuf|].
  split; [exact (Hcells 1%nat 1%nat 100%Q true eq_refl eq_refl)|].
  split; [exact (Hcells 0%nat 2%nat 0%Q false eq_refl eq_refl)|].
  split; [exact Hmasks|].
  destruct (Hset (λ _, 1%Q)) as (r' & h'' & Hsettings & Hvalues & _).
  exists r', h''. split; [exact Hsettings|]. by apply Hvalues.
Defined.

(** C5 as stated fails: the masked centre cell of the caller's array held
    100 before the call and holds 0, the mean of the other cells, after it. *)
Lemma visibility2d_overwrites_masked_cell :
  let h := Mem.mkstore [Np.data masked_centre] [Np.mask masked_centre] in
  ∃ r h' before after,
    visibility2d_call h (Mem.mkmasked 0 0) 3 0 = Some (r, h')
    ∧ Mem.values h !! 0%nat = Some before
    ∧ Mem.values h' !! 0%nat = Some after
    ∧ Np.lookup2 before 1 1 = Some 100%Q
    ∧ Np.lookup2 after 1 1 = Some (0 # 8)%Q.
Proof.
  intros h.
  assert (Np.wfma masked_centre) as Hm.
  { split; [|split; [|done]]; (split; [done|]); by repeat constructor. }
  destruct (visibility2d_call_returns h (Mem.mkmasked 0 0) masked_centre 1 0 eq_refl Hm
              ltac:(lia)) as (r & Hcall).
  eexists r, _, _, _. split; [exact Hcall|]. split; [reflexivity|].
  split; [reflexivity|]. split; [reflexivity|]. by vm_compute.
Qed.

(** ** Flat grids *)

Lemma count_true_le (bs : list bool) : (count_true bs ≤ Z.of_nat (length bs))%Z.
Proof. induction bs as [|[] bs IH]; rewrite ?count_true_cons; simpl length; [done|lia..]. Qed.

(** A re-scan counts at most the steps of the ray. *)
Lemma naive_count_le (thetas : list Q) : (naive_count thetas ≤ Z.of_nat (length thetas))%Z.
Proof.
  unfold naive_count. etrans; [apply count_true_le|].
  unfold visible_flags. by rewrite length_imap.
Qed.

(** When no angle exceeds another, every step is flagged. *)
Lemma naive_count_ties (thetas : list Q) :
  (∀ x y, x ∈ thetas → y ∈ thetas → (x <= y)%Q) →
  naive_count thetas = Z.of_nat (length thetas).
Proof.
  intros Hties. unfold naive_count.
  assert (visible_flags thetas = replicate (length thetas) true) as ->.
  { apply list_eq. intros k. unfold visible_flags. rewrite list_lookup_imap.
    destruct (thetas !! k) as [t|] eqn:Hk; simpl.
    - rewrite lookup_replicate_2 by (by eapply lookup_lt_Some). f_equal.
      apply above_all_spec. intros x Hx. apply Hties.
      + apply elem_of_take in Hx as (i & Hi & _). by eapply list_elem_of_lookup_2.
      + by eapply list_elem_of_lookup_2.
    - symmetry. apply lookup_replicate_None. by apply lookup_ge_None. }
  induction (length thetas) as [|n IH]; [done|].
  simpl replicate. rewrite count_true_cons, IH. lia.
Qed.

(** On a flat window of half-width [w >= 2], with no height offset, every
    step of both rays is counted. *)
Lemma visible_flat (dat : list Q) (w : Z) (v : Q) :
  (2 ≤ w)%Z → length dat = Z.to_nat (2 * w + 1) →
  (∀ x, x ∈ dat → (x == v)%Q) →
  __visible1 dat (2 * w + 1) (w + 1) 0 = Some (w + 1)%Z
  ∧ __visible2 dat (w + 1) 0 = Some w.
Proof.
  intros Hw Hlen Hflat.
  destruct (visible_on_window dat w 0 Hw) as [-> ->]; [lia|].
  assert (∀ i, (0 ≤ i < 2 * w + 1)%Z → (cell dat i == v)%Q) as Hcell.
  { intros i Hi. apply Hflat. unfold cell.
    destruct (index_is_Some dat i) as [x Hx]; [lia|]. rewrite Hx. simpl.
    rewrite index_nonneg in Hx by lia. by eapply list_elem_of_lookup_2. }
  assert (∀ theta : Z → Q,
            (∀ k, (1 ≤ k ≤ w)%Z → (theta k == 0)%Q) →
            naive_count (angles theta w) = w) as Hcount.
  { intros theta Hzero. rewrite naive_count_ties.
    - unfold angles. rewrite length_fmap, length_seqZ. lia.
    - intros x y [i [-> Hi%elem_of_seqZ]]%list_elem_of_fmap
                 [j [-> Hj%elem_of_seqZ]]%list_elem_of_fmap.
      rewrite !Hzero by lia. apply Qle_refl. }
  rewrite !Hcount.
  - split; f_equal; lia.
  - intros k Hk. unfold theta_down. rewrite !Hcell by lia. unfold Qdiv. ring.
  - intros k Hk. unfold theta_up. rewrite !Hcell by lia. unfold Qdiv. ring.
Qed.

Lemma compressed_cells {A : Type} (m : Np.marray A) (x : A) :
  x ∈ Np.compressed m → ∃ r c, Np.lookup2 (Np.data m) r c = Some x.
Proof.
  unfold Np.compressed. intros (l & Hx & Hl)%list_elem_of_join.
  apply list_elem_of_lookup in Hl as [r Hr].
  apply lookup_zip_with_Some in Hr as (row & mrow & -> & Hrow & _).
  apply list_elem_of_fmap in Hx as ([y b] & -> & Hp).
  apply list_elem_of_filter in Hp as [_ Hp].
  apply list_elem_of_lookup in Hp as [c Hc].
  apply lookup_zip_with_Some in Hc as (y' & b' & [= -> ->] & Hy & _).
  exists r, c. unfold Np.lookup2. by rewrite Hrow.
Qed.

Lemma compressed_elem {A : Type} (m : Np.marray A) (r c : nat) (y : A) :
  Np.lookup2 (Np.data m) r c = Some y → Np.lookup2 (Np.mask m) r c = Some false →
  y ∈ Np.compressed m.
Proof.
  unfold Np.lookup2, Np.compressed. intros Hy Hb.
  apply bind_Some in Hy as (row & Hrow & Hy). apply bind_Some in Hb as (mrow & Hmrow & Hb).
  apply list_elem_of_join. eexists. split.
  2:{ apply list_elem_of_lookup. exists r. by rewrite lookup_zip_with, Hrow, Hmrow. }
  apply list_elem_of_fmap. exists (y, false). split; [done|].
  apply list_elem_of_filter. split; [done|].
  apply list_elem_of_lookup. exists c. by rewrite lookup_zip_with, Hy, Hb.
Qed.

(** With no masked cell the filling changes nothing: the grid the sweeps
    read is flat as well. *)
Lemma filled_flat (m : Np.marray Q) (v : Q) :
  (∀ r c x, Np.lookup2 (Np.data m) r c = Some x → x = v) →
  (∀ r c (b : bool), Np.lookup2 (Np.mask m) r c = Some b → b = false) →
  ∀ r c x, Np.lookup2 (Np.fill (Np.data m) (Np.mask m) (ma_mean m)) r c = Some x → x = v.
Proof.
  intros Hflat Hmask r c x Hx. unfold Np.fill in Hx.
  apply lookup2_zip_with in Hx as (y & b & Hy & Hb & ->).
  rewrite (Hmask _ _ _ Hb). by eapply Hflat.
Qed.

(** No window makes a sweep return more than its largest count. *)
Lemma visible_le_max (dat : list Q) (w : Z) (dh : Q) (n s : Z) :
  (1 ≤ w)%Z → length dat = Z.to_nat (2 * w + 1) →
  __visible1 dat (2 * w + 1) (w + 1) dh = Some n →
  __visible2 dat (w + 1) dh = Some s →
  (n ≤ max_visible1 w)%Z ∧ (s ≤ max_visible2 w)%Z.
Proof.
  intros Hw Hlen. unfold max_visible1, max_visible2.
  destruct (w =? 1)%Z eqn:Hw1.
  - apply Z.eqb_eq in Hw1 as ->. destruct (visible_window3 dat dh) as [H1 H2].
    change (2 * 1 + 1)%Z with 3%Z. change (1 + 1)%Z with 2%Z.
    rewrite H1, H2. intros [= <-] [= <-]. cbv iota. lia.
  - apply Z.eqb_neq in Hw1.
    destruct (visible_on_window dat w dh) as [-> ->]; [lia..|].
    intros [= <-] [= <-].
    pose proof (naive_count_le (angles (theta_up dat w dh) w)) as H1.
    pose proof (naive_count_le (angles (theta_down dat w dh) w)) as H2.
    unfold angles in *. rewrite length_fmap, length_seqZ in H1, H2.
    cbv iota. lia.
Qed.

(** On a flat grid with no masked cell every window makes both sweeps
    return their largest count. *)
Lemma visible_flat_any (m : Np.marray Q) (w : Z) (v : Q) :
  (1 ≤ w)%Z →
  (∀ r c x, Np.lookup2 (Np.data m) r c = Some x → x = v) →
  (∀ r c (b : bool), Np.lookup2 (Np.mask m) r c = Some b → b = false) →
  ∀ dtmp : list Q,
    length dtmp = Z.to_nat (2 * w + 1) →
    (∀ x, x ∈ dtmp →
       ∃ r c, Np.lookup2 (Np.fill (Np.data m) (Np.mask m) (ma_mean m)) r c = Some x) →
    ∃ n s, __visible1 dtmp (2 * w + 1) (w + 1) 0 = Some n ∧ n = max_visible1 w
           ∧ __visible2 dtmp (w + 1) 0 = Some s ∧ s = max_visible2 w.
Proof.
  intros Hw Hflat Hmask dtmp Hlen Hcells. unfold max_visible1, max_visible2.
  destruct (w =? 1)%Z eqn:Hw1.
  - apply Z.eqb_eq in Hw1 as ->. by exists 1%Z, 0%Z.
  - apply Z.eqb_neq in Hw1.
    destruct (visible_flat dtmp w v) as [H1 H2]; [lia|done| |].
    + intros x (r & c & Hx)%Hcells.
      by rewrite (filled_flat m v Hflat Hmask r c x Hx).
    + by exists (w + 1)%Z, w.
Qed.

(** The flat grid with no masked cell: the sweeps, the results, the counts
    of the interior cells and the deviation of the output cells. *)
Lemma visibility2d_flat_spec (m : Np.marray Q) (w : Z) (v : Q) :
  Np.wfma m → (1 ≤ w)%Z →
  (∀ r c x, Np.lookup2 (Np.data m) r c = Some x → x = v) →
  (∀ r c (b : bool), Np.lookup2 (Np.mask m) r c = Some b → b = false) →
  ∃ c r,
    sweeps (Np.fill (Np.data m) (Np.mask m) (ma_mean m))
           (Z.of_nat (Np.nrows (Np.data m))) (Z.of_nat (Np.ncols (Np.data m)))
           (2 * w + 1) w 0
    = Some c
    ∧ visibility2d m (2 * w + 1) 0
      = Some (r, Np.fill (Np.data m) (Np.mask m) (ma_mean m))
    ∧ Np.data (vtot r) = Np.trim (Z.to_nat w) (total c)
    ∧ (∀ i j, (w ≤ i < Z.of_nat (Np.nrows (Np.data m)) - w)%Z →
              (w ≤ j < Z.of_nat (Np.ncols (Np.data m)) - w)%Z →
         Np.get (vn c) i j = Some (max_visible1 w)
         ∧ Np.get (vs c) i j = Some (max_visible2 w)
         ∧ Np.get (ve c) i j = Some (max_visible1 w)
         ∧ Np.get (vw c) i j = Some (max_visible2 w)
         ∧ Np.get (vd1 c) i j = Some (max_visible1 w)
         ∧ Np.get (vd2 c) i j = Some (max_visible2 w)
         ∧ Np.get (vd3 c) i j = Some (max_visible1 w)
         ∧ Np.get (vd4 c) i j = Some (max_visible2 w))
    ∧ (∀ i j x, Np.lookup2 (Np.data (vstd r)) i j = Some x → x = sqrt (2 / 7)).
Proof.
  intros Hm Hw Hflat Hmask.
  destruct (visibility2d_spec m w 0 (λ n, n = max_visible1 w) (λ s, s = max_visible2 w)
              Hm Hw (visible_flat_any m w v Hw Hflat Hmask))
    as (c & vfull & Hsweeps & Hvis & _ & _ & Hint & _ & Hstd).
  eexists c, _. split; [exact Hsweeps|]. split; [exact Hvis|]. simpl.
  split; [done|]. split.
  - intros i j Hi Hj.
    destruct (Hint i j Hi Hj) as (H1 & H2 & H3 & H4 & H5 & H6 & H7 & H8).
    repeat split; by apply sat_eq_get.
  - intros i j x Hx.
    destruct (Hstd i j x Hx) as (a1 & a2 & a3 & a4 & a5 & a6 & a7 & a8 & HP & ->).
    destruct HP as (-> & -> & -> & -> & -> & -> & -> & ->).
    apply std_alternating.
Qed.

(** C3, as amended.  On a constant grid with no masked cell, with no height
    offset and an odd window [2w+1], every ray of every interior cell has the
    largest count its sweep can return: [w + 1] on the four rays of
    [__visible1] and [w] on the four rays of [__visible2] for [w >= 2] (1 and
    0 for a window of three cells).  The eight counts therefore differ, and
    the standard deviation is [sqrt (2/7)] at every output cell.

    With no masked cell the sweeps read the cells of the grid themselves,
    whose differences are exactly 0.  A masked cell would be filled with the
    mean of the others, which [ma_mean] takes exact and the code rounds: the
    statement is not made for such a grid. *)
Theorem visibility2d_flat (m : Np.marray Q) (w : Z) (v : Q) :
  Np.wfma m → (1 ≤ w)%Z →
  (∀ r c x, Np.lookup2 (Np.data m) r c = Some x → x = v) →
  (∀ r c (b : bool), Np.lookup2 (Np.mask m) r c = Some b → b = false) →
  ∃ c r buf,
    sweeps (Np.fill (Np.data m) (Np.mask m) (ma_mean m))
           (Z.of_nat (Np.nrows (Np.data m))) (Z.of_nat (Np.ncols (Np.data m)))
           (2 * w + 1) w 0
    = Some c
    ∧ visibility2d m (2 * w + 1) 0 = Some (r, buf)
    ∧ Np.data (vtot r) = Np.trim (Z.to_nat w) (total c)
    ∧ (∀ i j, (w ≤ i < Z.of_nat (Np.nrows (Np.data m)) - w)%Z →
              (w ≤ j < Z.of_nat (Np.ncols (Np.data m)) - w)%Z →
         Np.get (vn c) i j = Some (max_visible1 w)
         ∧ Np.get (vs c) i j = Some (max_visible2 w)
         ∧ Np.get (ve c) i j = Some (max_visible1 w)
         ∧ Np.get (vw c) i j = Some (max_visible2 w)
         ∧ Np.get (vd1 c) i j = Some (max_visible1 w)
         ∧ Np.get (vd2 c) i j = Some (max_visible2 w)
         ∧ Np.get (vd3 c) i j = Some (max_visible1 w)
         ∧ Np.get (vd4 c) i j = Some (max_visible2 w))
    ∧ (∀ dat dh n s,
         length dat = Z.to_nat (2 * w + 1) →
         __visible1 dat (2 * w + 1) (w + 1) dh = Some n →
         __visible2 dat (w + 1) dh = Some s →
         (n ≤ max_visible1 w)%Z ∧ (s ≤ max_visible2 w)%Z)
    ∧ (∀ i j x, Np.lookup2 (Np.data (vstd r)) i j = Some x → x = sqrt (2 / 7)).
Proof.
  intros Hm Hw Hflat Hmask.
  destruct (visibility2d_flat_spec m w v Hm Hw Hflat Hmask)
    as (c & r & Hsweeps & Hvis & Hdata & Hint & Hstd).
  eexists c, r, _. split; [exact Hsweeps|]. split; [exact Hvis|]. split; [exact Hdata|].
  split; [exact Hint|]. split; [|exact Hstd].
  intros dat dh n s. by apply visible_le_max.
Qed.

Lemma flat5_wf : Np.wfma (unmasked (Np.full 5 5 1%Q)).
Proof. split; [apply wf_full|]. split; [apply wf_full|]. done. Qed.

Lemma flat5_cells (r c : nat) (x : Q) :
  Np.lookup2 (Np.data (unmasked (Np.full 5 5 1%Q))) r c = Some x → x = 1%Q.
Proof. apply lookup2_full. Qed.

Lemma flat5_mask (r c : nat) (b : bool) :
  Np.lookup2 (Np.mask (unmasked (Np.full 5 5 1%Q))) r c = Some b → b = false.
Proof. apply lookup2_full. Qed.

Lemma visibility2d_flat_witness :
  ∃ c r buf,
    visibility2d (unmasked (Np.full 5 5 1%Q)) (2 * 2 + 1) 0 = Some (r, buf)
    ∧ Np.get (vn c) 2 2 = Some 3%Z ∧ Np.get (vs c) 2 2 = Some 2%Z
    ∧ Np.get (ve c) 2 2 = Some 3%Z ∧ Np.get (vw c) 2 2 = Some 2%Z.
Proof.
  destruct (visibility2d_flat (unmasked (Np.full 5 5 1%Q)) 2 1 flat5_wf ltac:(lia) flat5_cells
              flat5_mask)
    as (c & r & buf & _ & Hvis & _ & Hint & _).
  exists c, r, buf. split; [exact Hvis|].
  destruct (Hint 2%Z 2%Z) as (H1 & H2 & H3 & H4 & _); [simpl; lia..|].
  repeat split; assumption.
Defined.

(** C3 as stated fails: on the 5 x 5 grid of ones, with a window of five
    cells, the standard deviation of the output cell is [sqrt (2/7)], which
    is not 0. *)
Lemma visibility2d_flat_std_positive :
  ∃ r buf,
    visibility2d (unmasked (Np.full 5 5 1%Q)) 5 0 = Some (r, buf)
    ∧ Np.lookup2 (Np.data (vstd r)) 0 0 = Some (sqrt (2 / 7))
    ∧ (0 < sqrt (2 / 7))%R.
Proof.
  destruct (visibility2d_flat_spec (unmasked (Np.full 5 5 1%Q)) 2 1 flat5_wf ltac:(lia)
              flat5_cells flat5_mask) as (c & r & _ & Hvis & _ & _ & Hstd).
  destruct (visibility2d_returns (unmasked (Np.full 5 5 1%Q)) 2 0 flat5_wf ltac:(lia))
    as (r' & Hvis' & (_ & Hws & _) & _ & [Hs1 Hs2] & _).
  assert (r' = r) as -> by congruence.
  eexists r, _. split; [exact Hvis|].
  destruct (lookup2_is_Some (Np.data (vstd r)) 0 0 Hws) as [x Hx];
    [rewrite Hs1; simpl; lia | rewrite Hs2; simpl; lia |].
  rewrite Hx, (Hstd _ _ _ Hx). split; [reflexivity|]. apply sqrt_lt_R0. lra.
Qed.

(** ** The vertical derivative: shapes *)

Section vertical_shape_facts.
Context {A : Type}.
Implicit Types (a : Np.ndarray A) (l : list A).

Lemma wf_tabulate (nr nc : nat) (f : nat → nat → A) : Np.wf (tabulate nr nc f).
Proof.
  split; simpl; [by rewrite length_fmap, length_seq|].
  rewrite Forall_fmap, Forall_lookup. intros k i _. simpl.
  by rewrite length_fmap, length_seq.
Qed.

Lemma lookup2_tabulate (nr nc : nat) (f : nat → nat → A) (r c : nat) :
  (r < nr)%nat → (c < nc)%nat → Np.lookup2 (tabulate nr nc f) r c = Some (f r c).
Proof.
  intros Hr Hc. unfold Np.lookup2, tabulate. simpl.
  rewrite list_lookup_fmap, lookup_seq_lt by done. simpl.
  by rewrite list_lookup_fmap, lookup_seq_lt by done.
Qed.

Lemma length_roll {B : Type} (l : list B) (s : nat) : length (roll l s) = length l.
Proof. unfold roll. rewrite length_app, length_drop, length_take. lia. Qed.

Lemma length_fftshift1 {B : Type} (l : list B) : length (fftshift1 l) = length l.
Proof. apply length_roll. Qed.

(** After the shift, position [n/2] holds what position 0 held. *)
Lemma fftshift1_centre {B : Type} (l : list B) :
  (0 < length l)%nat → fftshift1 l !! (length l / 2)%nat = l !! 0%nat.
Proof.
  intros Hl. unfold fftshift1, roll.
  assert (length l / 2 < length l)%nat as Hlt by (apply Nat.div_lt; lia).
  rewrite lookup_app_r by (rewrite length_drop; lia).
  rewrite length_drop, lookup_take_lt by lia. f_equal. lia.
Qed.

(** On an even length the shift undoes itself at position 0. *)
Lemma fftshift1_zero {B : Type} (l : list B) :
  (0 < length l)%nat → Nat.even (length l) = true →
  fftshift1 l !! 0%nat = l !! (length l / 2)%nat.
Proof.
  intros Hl Heven. unfold fftshift1, roll.
  apply Nat.even_spec in Heven as [q Hq].
  assert (length l / 2 = q)%nat as Hdiv.
  { rewrite Hq, Nat.mul_comm. apply Nat.div_mul. lia. }
  rewrite Hdiv. rewrite lookup_app_l by (rewrite length_drop; lia).
  rewrite lookup_drop. f_equal. lia.
Qed.

Lemma wf_fftshift a : Np.wf a → Np.wf (fftshift a) ∧ Np.same_shape (fftshift a) a.
Proof.
  intros [Hr Hc]. split; [|done]. unfold Np.wf.
  change (Np.cells (fftshift a)) with (fftshift1 (fftshift1 <$> Np.cells a)).
  change (Np.nrows (fftshift a)) with (Np.nrows a).
  change (Np.ncols (fftshift a)) with (Np.ncols a).
  split.
  - by rewrite length_fftshift1, length_fmap.
  - rewrite Forall_forall. intros row Hrow%list_elem_of_In.
    unfold fftshift1, roll in Hrow.
    assert (row ∈ fftshift1 <$> Np.cells a) as Hin.
    { apply elem_of_app in Hrow as [Hrow|Hrow].
      - apply list_elem_of_lookup in Hrow as [k Hk]. rewrite lookup_drop in Hk.
        by eapply list_elem_of_lookup_2.
      - apply elem_of_take in Hrow as (k & Hk & _). by eapply list_elem_of_lookup_2. }
    apply list_elem_of_fmap in Hin as (row' & -> & Hin).
    rewrite length_fftshift1. rewrite Forall_forall in Hc.
    apply Hc. by apply list_elem_of_In.
Qed.

Lemma pad_edge1_spec {B : Type} (l : list B) (before after : Z) :
  (0 < length l)%nat → (0 ≤ before)%Z → (0 ≤ after)%Z →
  ∃ l' : list B, pad_edge1 l before after = Some l'
        ∧ length l' = (length l + Z.to_nat before + Z.to_nat after)%nat.
Proof.
  intros Hl Hb Ha. unfold pad_edge1.
  rewrite (proj2 (Z.ltb_ge _ _) Hb), (proj2 (Z.ltb_ge _ _) Ha). simpl.
  destruct l as [|x l]; [simpl in Hl; lia|].
  eexists. split; [done|]. rewrite !length_app, !length_replicate. lia.
Qed.

(** Edge padding of a grid with at least one row and one column. *)
Lemma pad_edge_spec a (rb ra cb ca : Z) :
  Np.wf a → (0 < Np.nrows a)%nat → (0 < Np.ncols a)%nat →
  (0 ≤ rb)%Z → (0 ≤ ra)%Z → (0 ≤ cb)%Z → (0 ≤ ca)%Z →
  ∃ a', pad_edge a rb ra cb ca = Some a' ∧ Np.wf a'
        ∧ Np.nrows a' = (Np.nrows a + Z.to_nat rb + Z.to_nat ra)%nat
        ∧ Np.ncols a' = (Np.ncols a + Z.to_nat cb + Z.to_nat ca)%nat.
Proof.
  intros [Hr Hc] Hnr Hnc Hrb Hra Hcb Hca. unfold pad_edge.
  destruct (pad_edge1_spec (Np.cells a) rb ra) as (rows & Hrows & Hlen); [lia..|].
  rewrite Hrows. bind_step.
  assert (Forall (λ row, length row = Np.ncols a) rows) as Hall.
  { unfold pad_edge1 in Hrows.
    rewrite (proj2 (Z.ltb_ge _ _) Hrb), (proj2 (Z.ltb_ge _ _) Hra) in Hrows.
    simpl in Hrows. destruct (Np.cells a) as [|x l] eqn:Hcells; [simpl in Hr; lia|].
    assert (List.In (List.last (x :: l) x) (x :: l)) as Hlast.
    { destruct (List.exists_last (l := x :: l)) as (l0 & y & Hy); [done|].
      rewrite Hy, List.last_last. apply List.in_or_app. right. by left. }
    revert Hlast Hrows. generalize (List.last (x :: l) x). intros y Hlast [= <-].
    rewrite Forall_forall in Hc. apply Forall_forall. intros row Hin.
    apply list_elem_of_In in Hin.
    apply elem_of_app in Hin as [Hin|Hin].
    - apply elem_of_replicate in Hin as [-> _]. apply Hc. by left.
    - change (row ∈ (x :: l) ++ replicate (Z.to_nat ra) y) in Hin.
      apply elem_of_app in Hin as [Hin|Hin].
      + apply Hc. by apply list_elem_of_In.
      + apply elem_of_replicate in Hin as [-> _]. by apply Hc. }
  destruct (mapM (λ row : list A, pad_edge1 row cb ca) rows) as [rows'|] eqn:Hm.
  - bind_step. eexists. split; [done|]. apply mapM_Some in Hm.
    split; [|done]. split; simpl.
    + apply Forall2_length in Hm. lia.
    + rewrite Forall_lookup. intros k row' Hk.
      destruct (Forall2_lookup_r _ _ _ _ _ Hm Hk) as (row & Hrow & Hpad).
      rewrite Forall_lookup in Hall. pose proof (Hall _ _ Hrow) as Hlr.
      destruct (pad_edge1_spec row cb ca) as (l' & Hl' & Hlen'); [lia..|].
      rewrite Hl' in Hpad. injection Hpad as <-. lia.
  - exfalso. apply mapM_None in Hm. apply Exists_exists in Hm as (row & Hin & Hnone).
    rewrite Forall_forall in Hall. pose proof (Hall _ Hin) as Hlr.
    destruct (pad_edge1_spec row cb ca) as (l' & Hl' & _); [lia..|]. congruence.
Qed.

(** A slice inside the array. *)
Lemma slice2_inside a (r0 r1 c0 c1 : Z) :
  Np.wf a →
  (0 ≤ r0 ≤ r1)%Z → (r1 ≤ Z.of_nat (Np.nrows a))%Z →
  (0 ≤ c0 ≤ c1)%Z → (c1 ≤ Z.of_nat (Np.ncols a))%Z →
  Np.wf (Np.slice2 a r0 r1 c0 c1)
  ∧ Np.nrows (Np.slice2 a r0 r1 c0 c1) = Z.to_nat (r1 - r0)
  ∧ Np.ncols (Np.slice2 a r0 r1 c0 c1) = Z.to_nat (c1 - c0).
Proof.
  intros [Hr Hc] Hr0 Hr1 Hc0 Hc1.
  assert (∀ (n : nat) (x y : Z), (0 ≤ x ≤ y)%Z → (y ≤ Z.of_nat n)%Z →
            (Py.clip n y - Py.clip n x)%nat = Z.to_nat (y - x)) as Hclip.
  { intros n x y Hx Hy. unfold Py.clip.
    rewrite !(proj2 (Z.leb_le _ _)) by lia. lia. }
  unfold Np.slice2. simpl. rewrite !Hclip by done. split; [|done]. split; simpl.
  - rewrite length_fmap. apply length_slice_nonneg; lia.
  - rewrite Forall_fmap, Forall_lookup. intros k row Hk. simpl.
    unfold Py.slice in Hk. apply lookup_take_Some in Hk as [Hk _].
    rewrite lookup_drop in Hk. rewrite Forall_lookup in Hc.
    apply length_slice_nonneg; [lia|]. rewrite (Hc _ _ Hk). lia.
Qed.

End vertical_shape_facts.

(** ** The vertical derivative: the frequency weighting *)

(** The weighting loop never raises on a square spectrum: it multiplies every
    bin of the shifted spectrum by the radial frequency of the bin. *)
Lemma weighting_spec (f fz : Np.ndarray Cx.complex) (npts : Z) (wn : R) :
  Np.wf f → Np.wf fz → Np.same_shape fz f →
  Z.of_nat (Np.nrows f) = npts → Z.of_nat (Np.ncols f) = npts →
  ∃ fz', weighting f fz npts wn = Some fz'
    ∧ Np.wf fz' ∧ Np.same_shape fz' f
    ∧ ∀ i j, (0 ≤ i < npts)%Z → (0 ≤ j < npts)%Z →
        ∃ x, Np.get f i j = Some x
             ∧ Np.get fz' i j = Some (Cx.scale x (weight npts wn i j)).
Proof.
  intros Hwf Hwfz Hsame Hnr Hnc. unfold weighting.
  pose (Q := λ (i j : Z) (v : Cx.complex),
          ∃ x, Np.get f i j = Some x ∧ v = Cx.scale x (weight npts wn i j)).
  pose (Good := λ a : Np.ndarray Cx.complex, Np.wf a ∧ Np.same_shape a f).
  pose (Keep := λ a a' : Np.ndarray Cx.complex,
          ∀ i j, (0 ≤ i)%Z → (0 ≤ j)%Z → Np.sat (Q i j) a i j → Np.sat (Q i j) a' i j).
  assert (∀ s, Keep s s) as Hrefl by (by intros s i j _ _).
  assert (∀ s1 s2 s3, Keep s1 s2 → Keep s2 s3 → Keep s1 s3) as Htrans.
  { intros s1 s2 s3 H12 H23 i j Hi Hj H. by apply H23, H12. }
  loop_done Good Keep
    (λ (i : Z) (a : Np.ndarray Cx.complex),
       (0 ≤ i)%Z → ∀ j, (0 ≤ j < npts)%Z → Np.sat (Q i j) a i j)
    Hrefl Htrans Hloop.
  destruct Hloop with (s := fz) as (fz' & Hfor & [Hw' Hs'] & _ & Hdone).
  - intros i s s' Hd Hk Hi j Hj. apply Hk; [done|lia|]. by apply Hd.
  - intros i s Hi%elem_of_range Hs.
    loop_done Good Keep
      (λ (j : Z) (a : Np.ndarray Cx.complex), (0 ≤ j)%Z → Np.sat (Q i j) a i j)
      Hrefl Htrans Hinner.
    destruct Hinner with (s := s) as (s' & Hfor & Hgood' & Hkeep & Hdone); [| |exact Hs|].
    + intros j s1 s2 Hd Hk Hj. apply Hk; [lia|done|]. by apply Hd.
    + intros j s0 Hj%elem_of_range [Hw0 Hs0].
      destruct (get_is_Some f i j Hwf) as [x Hx]; [lia..|].
      rewrite Hx. bind_step.
      destruct (write_ok Q s0 f i j (Cx.scale x (weight npts wn i j)))
        as (s1 & -> & Hw1 & Hs1 & Hsat & Hk); [done|done|lia|lia|by exists x|].
      exists s1. split; [done|]. split; [done|]. split; [exact Hk|done].
    + exists s'. split; [exact Hfor|]. split; [done|]. split; [done|].
      intros _ j Hj. apply Hdone; [apply elem_of_range|]; lia.
  - done.
  - exists fz'. split; [done|]. split; [done|]. split; [done|].
    intros i j Hi Hj.
    destruct (Hdone i) with (j := j) as (v & Hv & x & Hx & ->);
      [apply elem_of_range; lia|lia|lia|].
    by exists x.
Qed.

(** The radial frequency vanishes at the centre of an even spectrum. *)
Lemma weight_centre (q : Z) (wn : R) : weight (2 * q) wn q q = 0%R.
Proof.
  unfold weight. rewrite mult_IZR.
  replace ((IZR q + 1 - (2 * IZR q / 2 + 1)) * wn)%R with 0%R by field.
  rewrite Rmult_0_l, Rplus_0_l. apply sqrt_0.
Qed.

(** The default padding size: a power of two that is at least as large as
    both dimensions, and even as soon as a dimension exceeds 1. *)
Lemma default_npts_spec (nmax : Z) :
  (2 ≤ nmax)%Z →
  ∃ q, pow2 (nextpow2 nmax) = (2 * q)%Z ∧ (1 ≤ q)%Z ∧ (nmax ≤ 2 * q)%Z.
Proof.
  intros Hn. unfold nextpow2. rewrite (proj2 (Z.ltb_lt _ _)) by lia. simpl.
  pose proof (Z.log2_up_spec nmax ltac:(lia)) as [_ Hup].
  pose proof (Z.log2_up_pos nmax ltac:(lia)) as Hpos.
  exists (2 ^ (Z.log2_up nmax - 1))%Z.
  assert (2 ^ Z.log2_up nmax = 2 * 2 ^ (Z.log2_up nmax - 1))%Z as Hpow.
  { rewrite <- Z.pow_succ_r by lia. f_equal. lia. }
  split; [done|]. split; [|lia].
  pose proof (Z.pow_pos_nonneg 2 (Z.log2_up nmax - 1)). lia.
Qed.

Lemma wf_dft2 (sign : R) (a : Np.ndarray Cx.complex) :
  Np.wf (dft2 sign a) ∧ Np.same_shape (dft2 sign a) a.
Proof. split; [apply wf_tabulate|done]. Qed.

Lemma wf_centred (m : Np.marray R) :
  Np.wfma m → Np.wf (centred m) ∧ Np.same_shape (centred m) (Np.data m).
Proof.
  intros (Hd & Hm & Hr & Hc). unfold centred. destruct (ma_median m).
  - apply wf_zip_with; [done|done|]. split; congruence.
  - by apply wf_map.
Qed.

(** [vertical] with a padding size [npts] that covers the grid, on a grid
    with at least one row and one column, when line 671 does not divide by
    zero: the padded field, the weighted spectrum and the result. *)
Lemma vertical_spec (m : Np.marray R) (npts xint : Z) :
  Np.wfma m →
  (0 < Np.nrows (Np.data m))%nat → (0 < Np.ncols (Np.data m))%nat →
  (Z.of_nat (Np.nrows (Np.data m)) ≤ npts)%Z →
  (Z.of_nat (Np.ncols (Np.data m)) ≤ npts)%Z →
  (xint * (npts - 1))%Z ≠ 0%Z →
  ∃ data1 fz dz,
    padded m npts = Some data1
    ∧ (Np.wf data1 ∧ Z.of_nat (Np.nrows data1) = npts ∧ Z.of_nat (Np.ncols data1) = npts)
    ∧ filtered data1 npts xint = Some fz
    ∧ (Np.wf fz ∧ Z.of_nat (Np.nrows fz) = npts ∧ Z.of_nat (Np.ncols fz) = npts)
    ∧ (∀ i j, (0 ≤ i < npts)%Z → (0 ≤ j < npts)%Z →
         ∃ x, Np.get (fftshift (fft2 (Np.map Cx.of_real data1))) i j = Some x
              ∧ Np.get fz i j
                = Some (Cx.scale x (weight npts (2 * PI / IZR (xint * (npts - 1))) i j)))
    ∧ vertical m (Some npts) xint = Some dz
    ∧ Np.wf dz ∧ Np.same_shape dz (Np.data m).
Proof.
  intros Hm Hnr Hnc Hr Hc Hx.
  destruct (wf_centred m Hm) as [Hwz [Hz1 Hz2]].
  unfold vertical, padded. cbv zeta.
  remember (Z.of_nat (Np.nrows (Np.data m))) as nr eqn:Enr.
  remember (Z.of_nat (Np.ncols (Np.data m))) as nc eqn:Enc.
  assert (0 ≤ (npts - nr) / 2 ∧ (npts - nr) / 2 ≤ npts - nr)%Z as [Hrd1 Hrd2].
  { split; [apply Z.div_pos; lia|]. apply Z.div_le_upper_bound; lia. }
  assert (0 ≤ (npts - nc) / 2 ∧ (npts - nc) / 2 ≤ npts - nc)%Z as [Hcd1 Hcd2].
  { split; [apply Z.div_pos; lia|]. apply Z.div_le_upper_bound; lia. }
  destruct (pad_edge_spec (centred m) ((npts - nr) / 2) (npts - (npts - nr) / 2 - nr)
              ((npts - nc) / 2) (npts - (npts - nc) / 2 - nc))
    as (data1 & Hpad & Hw1 & Hr1 & Hc1); [exact Hwz|lia..|].
  assert (Z.of_nat (Np.nrows data1) = npts) as Hr1' by (rewrite Hr1, Hz1; lia).
  assert (Z.of_nat (Np.ncols data1) = npts) as Hc1' by (rewrite Hc1, Hz2; lia).
  set (f0 := fft2 (Np.map Cx.of_real data1)).
  assert (Np.wf f0 ∧ Np.same_shape f0 data1) as [Hwf0 [Hf01 Hf02]].
  { split; [apply wf_tabulate|split; reflexivity]. }
  destruct (wf_fftshift f0 Hwf0) as [Hwf [Hf1 Hf2]].
  destruct (weighting_spec (fftshift f0) f0 npts (2 * PI / IZR (xint * (npts - 1))))
    as (fz & Hfz & Hwfz & [Hfz1 Hfz2] & Hbins);
    [exact Hwf|exact Hwf0|split; symmetry; assumption
    |rewrite Hf1, Hf01; lia|rewrite Hf2, Hf02; lia|].
  assert (Z.of_nat (Np.nrows fz) = npts) as Hfzr by (rewrite Hfz1, Hf1, Hf01; lia).
  assert (Z.of_nat (Np.ncols fz) = npts) as Hfzc by (rewrite Hfz2, Hf2, Hf02; lia).
  assert (filtered data1 npts xint = Some fz) as Hfilt.
  { unfold filtered. cbv zeta. rewrite (proj2 (Z.eqb_neq _ _) Hx). exact Hfz. }
  destruct (wf_fftshift fz Hwfz) as [Hws [Hs1 Hs2]].
  destruct (wf_map (λ z, Cx.scale z (/ (INR (Np.nrows (fftshift fz))
                                        * INR (Np.ncols (fftshift fz)))))
              (dft2 1 (fftshift fz)) (wf_tabulate _ _ _)) as [Hwi [Hi1 Hi2]].
  assert (Np.nrows (ifft2 (fftshift fz)) = Np.nrows fz) as Hir.
  { unfold ifft2. rewrite Hi1. exact Hs1. }
  assert (Np.ncols (ifft2 (fftshift fz)) = Np.ncols fz) as Hic.
  { unfold ifft2. rewrite Hi2. exact Hs2. }
  destruct (slice2_inside (ifft2 (fftshift fz)) ((npts - nr) / 2) (nr + (npts - nr) / 2)
              ((npts - nc) / 2) (nc + (npts - nc) / 2)) as (Hwsl & Hsl1 & Hsl2);
    [exact Hwi|lia|rewrite Hir; lia|lia|rewrite Hic; lia|].
  destruct (wf_map Cx.re _ Hwsl) as [Hwdz [Hdz1 Hdz2]].
  eexists data1, fz, _.
  split; [exact Hpad|]. split; [split; [exact Hw1|split; assumption]|].
  split; [exact Hfilt|]. split; [split; [exact Hwfz|split; assumption]|].
  split; [exact Hbins|]. split.
  - rewrite Hpad. bind_step. rewrite Hfilt. bind_step. reflexivity.
  - split; [exact Hwdz|]. split.
    + rewrite Hdz1, Hsl1. lia.
    + rewrite Hdz2, Hsl2. lia.
Qed.

(** The shift moves bin (0, 0) to the centre, and on even dimensions the
    centre back to (0, 0). *)
Lemma lookup2_fftshift_centre {A : Type} (a : Np.ndarray A) :
  Np.wf a → (0 < Np.nrows a)%nat → (0 < Np.ncols a)%nat →
  Np.lookup2 (fftshift a) (Np.nrows a / 2) (Np.ncols a / 2) = Np.lookup2 a 0 0.
Proof.
  intros [Hr Hc] Hnr Hnc. unfold Np.lookup2.
  change (Np.cells (fftshift a)) with (fftshift1 (fftshift1 <$> Np.cells a)).
  replace (Np.nrows a / 2)%nat with (length (fftshift1 <$> Np.cells a) / 2)%nat
    by (by rewrite length_fmap, Hr).
  rewrite fftshift1_centre by (rewrite length_fmap; lia).
  rewrite list_lookup_fmap.
  destruct (Np.cells a !! 0%nat) as [row|] eqn:Hrow; [|reflexivity].
  cbn [fmap option_fmap option_map mbind option_bind].
  rewrite Forall_lookup in Hc. pose proof (Hc _ _ Hrow) as Hlen.
  rewrite <- Hlen. apply fftshift1_centre. lia.
Qed.

Lemma lookup2_fftshift_zero {A : Type} (a : Np.ndarray A) :
  Np.wf a → (0 < Np.nrows a)%nat → (0 < Np.ncols a)%nat →
  Nat.even (Np.nrows a) = true → Nat.even (Np.ncols a) = true →
  Np.lookup2 (fftshift a) 0 0 = Np.lookup2 a (Np.nrows a / 2) (Np.ncols a / 2).
Proof.
  intros [Hr Hc] Hnr Hnc Her Hec. unfold Np.lookup2.
  change (Np.cells (fftshift a)) with (fftshift1 (fftshift1 <$> Np.cells a)).
  rewrite fftshift1_zero; [|rewrite length_fmap; lia|rewrite length_fmap; congruence].
  rewrite length_fmap, Hr, list_lookup_fmap.
  destruct (Np.cells a !! (Np.nrows a / 2)%nat) as [row|] eqn:Hrow; [|reflexivity].
  cbn [fmap option_fmap option_map mbind option_bind].
  rewrite Forall_lookup in Hc. pose proof (Hc _ _ Hrow) as Hlen.
  rewrite <- Hlen. apply fftshift1_zero; [lia|congruence].
Qed.

Lemma scale_zero (x : Cx.complex) : Cx.scale x 0 = Cx.zero.
Proof. unfold Cx.scale, Cx.zero. f_equal; apply Rmult_0_r. Qed.

(** With the default padding size, on a grid of more than one cell:
    [npts] is even and covers the grid, line 671 does not divide by zero,
    and [vertical] returns. *)
Lemma vertical_default_spec (m : Np.marray R) (xint : Z) :
  Np.wfma m →
  (0 < Np.nrows (Np.data m))%nat → (0 < Np.ncols (Np.data m))%nat →
  (2 ≤ Z.max (Z.of_nat (Np.nrows (Np.data m))) (Z.of_nat (Np.ncols (Np.data m))))%Z →
  xint ≠ 0%Z →
  let npts := pow2 (nextpow2 (Z.max (Z.of_nat (Np.nrows (Np.data m)))
                                    (Z.of_nat (Np.ncols (Np.data m))))) in
  ∃ q data1 fz dz,
    (npts = 2 * q ∧ 1 ≤ q)%Z
    ∧ padded m npts = Some data1
    ∧ (Np.wf data1 ∧ Z.of_nat (Np.nrows data1) = npts ∧ Z.of_nat (Np.ncols data1) = npts)
    ∧ filtered data1 npts xint = Some fz
    ∧ (Np.wf fz ∧ Z.of_nat (Np.nrows fz) = npts ∧ Z.of_nat (Np.ncols fz) = npts)
    ∧ (∀ i j, (0 ≤ i < npts)%Z → (0 ≤ j < npts)%Z →
         ∃ x, Np.get (fftshift (fft2 (Np.map Cx.of_real data1))) i j = Some x
              ∧ Np.get fz i j
                = Some (Cx.scale x (weight npts (2 * PI / IZR (xint * (npts - 1))) i j)))
    ∧ vertical m None xint = Some dz
    ∧ Np.wf dz ∧ Np.same_shape dz (Np.data m).
Proof.
  intros Hm Hnr Hnc Hmax Hx npts.
  destruct (default_npts_spec _ Hmax) as (q & Hq & Hq1 & Hcover). fold npts in Hq.
  destruct (vertical_spec m npts xint Hm Hnr Hnc)
    as (data1 & fz & dz & Hpad & Hd1 & Hfilt & Hfz & Hbins & Hv & Hdz); [lia|lia|nia|].
  exists q, data1, fz, dz.
  split; [split; assumption|]. split; [exact Hpad|]. split; [exact Hd1|].
  split; [exact Hfilt|]. split; [exact Hfz|]. split; [exact Hbins|]. split; [exact Hv|].
  exact Hdz.
Qed.

(** C7.  In the frequency weighting of [vertical] (lines 669-680, run with
    the default padding size on a grid of more than one cell) the loop never
    raises, whatever the wave number: it only multiplies.  Every bin of the
    shifted spectrum is multiplied by [sqrt(freqx^2 + freqy^2)].  The
    zero-frequency bin [(0, 0)] of the transform sits at the centre
    [(npts/2, npts/2)] of the shifted spectrum; its factor is 0, the weighted
    bin is the complex number 0, and the shift of line 681 puts it back at
    [(0, 0)]. *)
Theorem vertical_zero_frequency (m : Np.marray R) (xint : Z) :
  Np.wfma m →
  (0 < Np.nrows (Np.data m))%nat → (0 < Np.ncols (Np.data m))%nat →
  (2 ≤ Z.max (Z.of_nat (Np.nrows (Np.data m))) (Z.of_nat (Np.ncols (Np.data m))))%Z →
  xint ≠ 0%Z →
  let npts := pow2 (nextpow2 (Z.max (Z.of_nat (Np.nrows (Np.data m)))
                                    (Z.of_nat (Np.ncols (Np.data m))))) in
  let wn := (2 * PI / IZR (xint * (npts - 1)))%R in
  ∃ data1 fz,
    padded m npts = Some data1
    ∧ filtered data1 npts xint = Some fz
    ∧ (∀ wn' : R,
         is_Some (weighting (fftshift (fft2 (Np.map Cx.of_real data1)))
                            (fft2 (Np.map Cx.of_real data1)) npts wn'))
    ∧ (∀ i j, (0 ≤ i < npts)%Z → (0 ≤ j < npts)%Z →
         ∃ x, Np.get (fftshift (fft2 (Np.map Cx.of_real data1))) i j = Some x
              ∧ Np.get fz i j = Some (Cx.scale x (weight npts wn i j))
              ∧ weight npts wn i j
                = sqrt ((IZR i + 1 - (IZR npts / 2 + 1)) * wn
                        * ((IZR i + 1 - (IZR npts / 2 + 1)) * wn)
                        + (IZR j + 1 - (IZR npts / 2 + 1)) * wn
                          * ((IZR j + 1 - (IZR npts / 2 + 1)) * wn)))
    ∧ Np.get (fftshift (fft2 (Np.map Cx.of_real data1))) (npts / 2) (npts / 2)
      = Np.get (fft2 (Np.map Cx.of_real data1)) 0 0
    ∧ weight npts wn (npts / 2) (npts / 2) = 0%R
    ∧ Np.get fz (npts / 2) (npts / 2) = Some Cx.zero
    ∧ Np.get (fftshift fz) 0 0 = Some Cx.zero.
Proof.
  intros Hm Hnr Hnc Hmax Hx npts wn.
  destruct (vertical_default_spec m xint Hm Hnr Hnc Hmax Hx)
    as (q & data1 & fz & dz & [Hq Hq1] & Hpad & (Hw1 & Hr1 & Hc1) & Hfilt
        & (Hwfz & Hrz & Hcz) & Hbins & _).
  fold npts in Hq, Hpad, Hr1, Hc1, Hfilt, Hrz, Hcz, Hbins. fold wn in Hbins.
  set (f0 := fft2 (Np.map Cx.of_real data1)) in *.
  assert (Np.wf f0) as Hwf0 by apply wf_tabulate.
  assert (Np.nrows f0 = Np.nrows data1 ∧ Np.ncols f0 = Np.ncols data1) as [Hf1 Hf2]
    by (split; reflexivity).
  destruct (wf_fftshift f0 Hwf0) as [Hws [Hs1 Hs2]].
  assert (npts / 2 = q)%Z as Hhalf by (rewrite Hq, Z.mul_comm; apply Z.div_mul; lia).
  assert (∀ n : nat, Z.of_nat n = npts →
            (n / 2)%nat = Z.to_nat q ∧ Nat.even n = true ∧ (0 < n)%nat) as Heven.
  { intros n Hn. assert (n = Z.to_nat q * 2)%nat as -> by lia.
    split; [apply Nat.div_mul; lia|]. split; [|lia].
    rewrite Nat.even_mul. simpl. apply orb_true_r. }
  exists data1, fz. fold f0. split; [exact Hpad|]. split; [exact Hfilt|]. split.
  { intros wn'.
    destruct (weighting_spec (fftshift f0) f0 npts wn') as (fz' & Hfz' & _);
      [exact Hws|exact Hwf0|split; symmetry; assumption
      |rewrite Hs1, Hf1; exact Hr1|rewrite Hs2, Hf2; exact Hc1|].
    rewrite Hfz'. by eexists. }
  split.
  { intros i j Hi Hj. destruct (Hbins i j Hi Hj) as (x & Hx1 & Hx2).
    exists x. split; [exact Hx1|]. split; [exact Hx2|]. reflexivity. }
  rewrite Hhalf.
  assert (weight npts wn q q = 0%R) as Hzero by (rewrite Hq; apply weight_centre).
  destruct (Hbins q q) as (x0 & Hx0 & Hfz0); [lia..|].
  rewrite Hzero, scale_zero in Hfz0.
  split.
  { rewrite !get_nonneg by (rewrite ?Hs1, ?Hs2, ?Hf1, ?Hf2, ?Hr1, ?Hc1; lia).
    destruct (Heven (Np.nrows f0)) as (Hn1 & _ & Hp1); [rewrite Hf1; exact Hr1|].
    destruct (Heven (Np.ncols f0)) as (Hn2 & _ & Hp2); [rewrite Hf2; exact Hc1|].
    rewrite <- Hn1 at 1. rewrite <- Hn2.
    apply lookup2_fftshift_centre; assumption. }
  split; [exact Hzero|]. split; [exact Hfz0|].
  destruct (Heven (Np.nrows fz) Hrz) as (Hn1 & He1 & Hp1).
  destruct (Heven (Np.ncols fz) Hcz) as (Hn2 & He2 & Hp2).
  destruct (wf_fftshift fz Hwfz) as [_ [Hz1 Hz2]].
  rewrite get_nonneg by (rewrite ?Hz1, ?Hz2; lia).
  change (Z.to_nat 0) with 0%nat.
  rewrite lookup2_fftshift_zero by assumption.
  rewrite Hn1, Hn2. rewrite <- Hfz0. symmetry. apply get_nonneg; lia.
Qed.

Lemma vertical_zero_frequency_witness :
  let m := unmasked (Np.mk 2 2 [[1; 2]; [3; 4]]%R) in
  ∃ data1 fz,
    padded m 2 = Some data1
    ∧ filtered data1 2 1 = Some fz
    ∧ weight 2 (2 * PI / IZR (1 * (2 - 1))) 1 1 = 0%R
    ∧ Np.get fz 1 1 = Some Cx.zero
    ∧ Np.get (fftshift fz) 0 0 = Some Cx.zero.
Proof.
  intros m.
  assert (Np.wfma m) as Hm.
  { split; [|split; [apply wf_full|split; reflexivity]].
    split; [reflexivity|]. repeat constructor. }
  destruct (vertical_zero_frequency m 1 Hm)
    as (data1 & fz & H1 & H2 & _ & _ & _ & H6 & H7 & H8); [simpl; lia..|].
  exists data1, fz. split; [exact H1|]. split; [exact H2|]. split; [exact H6|].
  split; [exact H7|]. exact H8.
Defined.

(** ** The vertical derivative: the shape of the result *)

(** X1.  [vertical] with its default padding size, on a grid of more than one
    cell (at least one row and one column): the result is the real part of
    the inverse transform of the weighted spectrum, cropped to the extent of
    the input, and it has the shape of the input. *)
Theorem vertical_shape (m : Np.marray R) (xint : Z) :
  Np.wfma m →
  (0 < Np.nrows (Np.data m))%nat → (0 < Np.ncols (Np.data m))%nat →
  (2 ≤ Z.max (Z.of_nat (Np.nrows (Np.data m))) (Z.of_nat (Np.ncols (Np.data m))))%Z →
  xint ≠ 0%Z →
  let nr := Z.of_nat (Np.nrows (Np.data m)) in
  let nc := Z.of_nat (Np.ncols (Np.data m)) in
  let npts := pow2 (nextpow2 (Z.max nr nc)) in
  ∃ data1 fz dz,
    (nr ≤ npts ∧ nc ≤ npts)%Z
    ∧ padded m npts = Some data1
    ∧ Np.shape data1 = (npts, npts)
    ∧ filtered data1 npts xint = Some fz
    ∧ vertical m None xint = Some dz
    ∧ dz = Np.map Cx.re (Np.slice2 (ifft2 (fftshift fz))
                           ((npts - nr) / 2) (nr + (npts - nr) / 2)
                           ((npts - nc) / 2) (nc + (npts - nc) / 2))
    ∧ Np.wf dz
    ∧ Np.shape dz = Np.shape (Np.data m).
Proof.
  intros Hm Hnr Hnc Hmax Hx nr nc npts.
  destruct (default_npts_spec _ Hmax) as (q & Hq & Hq1 & Hcover).
  destruct (vertical_default_spec m xint Hm Hnr Hnc Hmax Hx)
    as (_ & data1 & fz & dz & _ & Hpad & (Hw1 & Hr1 & Hc1) & Hfilt & _ & _
        & Hv & Hwdz & [Hs1 Hs2]).
  fold nr nc npts in Hq, Hcover, Hpad, Hr1, Hc1, Hfilt.
  exists data1, fz, dz. split; [lia|]. split; [exact Hpad|].
  split; [unfold Np.shape; by rewrite Hr1, Hc1|]. split; [exact Hfilt|].
  split; [exact Hv|]. split.
  - unfold vertical in Hv. cbv zeta in Hv. fold nr nc npts in Hv.
    rewrite Hpad in Hv. cbn [mbind option_bind] in Hv.
    rewrite Hfilt in Hv. cbn [mbind option_bind] in Hv.
    by injection Hv as <-.
  - split; [exact Hwdz|]. unfold Np.shape. by rewrite Hs1, Hs2.
Qed.

Lemma vertical_shape_witness :
  let m := unmasked (Np.mk 2 3 [[1; 2; 3]; [4; 5; 6]]%R) in
  ∃ dz, vertical m None 1 = Some dz ∧ Np.wf dz ∧ Np.shape dz = (2, 3)%Z.
Proof.
  intros m.
  assert (Np.wfma m) as Hm.
  { split; [|split; [apply wf_full|split; reflexivity]].
    split; [reflexivity|]. repeat constructor. }
  destruct (vertical_shape m 1 Hm) as (data1 & fz & dz & _ & _ & _ & _ & Hv & _ & Hw & Hs);
    [simpl; lia..|].
  exists dz. split; [exact Hv|]. split; [exact Hw|]. exact Hs.
Defined.

(** C6, the single cell.  On a grid of one cell the default padding size is
    [2^ceil(log2(1)) = 1]; the padding of line 664 succeeds, and line 671
    divides by [xint * (npts - 1) = 0]: [vertical] raises
    [ZeroDivisionError] and returns no array, whatever the value, the mask
    and the sample interval. *)
Theorem vertical_single_cell_raises (x : R) (b : bool) (xint : Z) :
  let m := Np.mkma (Np.mk 1 1 [[x]]) (Np.mk 1 1 [[b]]) in
  pow2 (nextpow2 (Z.max 1 1)) = 1%Z
  ∧ is_Some (padded m 1)
  ∧ (∀ data1, filtered data1 1 xint = None)
  ∧ vertical m None xint = None.
Proof.
  intros m.
  assert (∀ data1, filtered data1 1 xint = None) as Hfilt.
  { intros data1. unfold filtered. cbv zeta.
    replace (xint * (1 - 1))%Z with 0%Z by lia. reflexivity. }
  assert (Np.wfma m) as Hm.
  { split; [|split; [|split; reflexivity]]; (split; [reflexivity|]); repeat constructor. }
  split; [reflexivity|]. split; [|split; [exact Hfilt|]].
  - destruct (wf_centred m Hm) as [Hwz [Hz1 Hz2]].
    destruct (pad_edge_spec (centred m) 0 0 0 0) as (data1 & Hpad & _);
      [exact Hwz|rewrite Hz1; simpl; lia|rewrite Hz2; simpl; lia|lia..|].
    exists data1. exact Hpad.
  - unfold vertical. cbv zeta.
    change (pow2 (nextpow2 (Z.max (Z.of_nat (Np.nrows (Np.data m)))
                                  (Z.of_nat (Np.ncols (Np.data m)))))) with 1%Z.
    destruct (padded m 1) as [data1|]; [|reflexivity].
    bind_step. rewrite Hfilt. reflexivity.
Qed.

(** ** The tilt angles: shapes *)

Section ma_facts.
Implicit Types (a b : Np.marray R) (c : Np.ndarray Ma.cell).

Lemma wf_cells a :
  Np.wfma a → Np.wf (Ma.cells a) ∧ Np.same_shape (Ma.cells a) (Np.data a).
Proof.
  intros (Hd & Hm & Hr & Hc).
  apply wf_zip_with; [exact Hd|exact Hm|split; congruence].
Qed.

Lemma wfma_of_cells c :
  Np.wf c → Np.wfma (Ma.of_cells c) ∧ Np.same_shape (Np.data (Ma.of_cells c)) c.
Proof.
  intros Hc. destruct (wf_map fst c Hc) as [H1 [H2 H3]].
  destruct (wf_map snd c Hc) as [H4 [H5 H6]].
  split; [|split; assumption].
  split; [exact H1|]. split; [exact H4|]. split; reflexivity.
Qed.

Lemma wfma_lift1 (f : Ma.cell → Ma.cell) a :
  Np.wfma a →
  Np.wfma (Ma.lift1 f a) ∧ Np.same_shape (Np.data (Ma.lift1 f a)) (Np.data a).
Proof.
  intros Ha. destruct (wf_cells a Ha) as [Hc [Hc1 Hc2]].
  destruct (wf_map f _ Hc) as [Hm [Hm1 Hm2]].
  destruct (wfma_of_cells _ Hm) as [Ho [Ho1 Ho2]].
  split; [exact Ho|]. unfold Ma.lift1. split; congruence.
Qed.

Lemma wfma_lift2 (f : Ma.cell → Ma.cell → Ma.cell) a b :
  Np.wfma a → Np.wfma b → Np.same_shape (Np.data a) (Np.data b) →
  Np.wfma (Ma.lift2 f a b) ∧ Np.same_shape (Np.data (Ma.lift2 f a b)) (Np.data a).
Proof.
  intros Ha Hb [Hs1 Hs2]. destruct (wf_cells a Ha) as [Hc [Hc1 Hc2]].
  destruct (wf_cells b Hb) as [Hd [Hd1 Hd2]].
  destruct (wf_zip_with f _ _ Hc Hd) as [Hz [Hz1 Hz2]]; [split; congruence|].
  destruct (wfma_of_cells _ Hz) as [Ho [Ho1 Ho2]].
  split; [exact Ho|]. unfold Ma.lift2. split; congruence.
Qed.

Lemma wfma_unmasked (x : Np.ndarray R) : Np.wf x → Np.wfma (unmasked x).
Proof.
  intros Hx. split; [exact Hx|]. split; [apply wf_full|].
  unfold unmasked. simpl. split; apply Nat2Z.id.
Qed.

(** A cell left unmasked by [np.ma.arctan] holds an arctangent. *)
Lemma arctan_within a : within_quarter_turn (Ma.lift1 (Ma.unary atan) a).
Proof.
  intros i j v Hv Hb. unfold Ma.lift1, Ma.of_cells in Hv, Hb. simpl in Hv, Hb.
  apply lookup2_map in Hv as (x & Hx & ->).
  apply lookup2_map in Hb as (x' & Hx' & Hb).
  rewrite Hx in Hx'. injection Hx' as <-.
  apply lookup2_map in Hx as ([y b0] & _ & ->).
  unfold Ma.unary in *. simpl in *. subst b0. apply atan_bound.
Qed.

(** In a cell that the division masks, [np.ma.arctan] of a ratio leaves
    the numerator. *)
Lemma ratio_masked_keeps_numerator (num : Np.ndarray R) b (i j : nat) (v : R) :
  Np.lookup2 (Np.data (Ma.lift1 (Ma.unary atan)
                         (Ma.lift2 Ma.true_divide (unmasked num) b))) i j = Some v →
  Np.lookup2 (Np.mask (Ma.lift1 (Ma.unary atan)
                         (Ma.lift2 Ma.true_divide (unmasked num) b))) i j = Some true →
  Np.lookup2 num i j = Some v.
Proof.
  intros Hv Hb. unfold Ma.lift1, Ma.of_cells in Hv, Hb. cbn [Np.data Np.mask] in Hv, Hb.
  apply lookup2_map in Hv as (c & Hc & ->).
  apply lookup2_map in Hb as (c' & Hc' & Hb).
  rewrite Hc in Hc'. injection Hc' as <-.
  apply lookup2_map in Hc as (c1 & Hc1 & ->).
  unfold Ma.lift2, Ma.of_cells in Hc1. cbn [Np.data Np.mask] in Hc1.
  unfold Ma.cells at 1 in Hc1.
  apply lookup2_zip_with in Hc1 as (x & mx & Hx & Hmx & ->).
  apply lookup2_map in Hx as (p & Hp & ->).
  apply lookup2_map in Hmx as (p' & Hp' & ->).
  rewrite Hp in Hp'. injection Hp' as <-.
  apply lookup2_zip_with in Hp as ([xv xb] & y & Hxy & _ & ->).
  unfold Ma.cells, unmasked in Hxy. cbn [Np.data Np.mask] in Hxy.
  apply lookup2_zip_with in Hxy as (xv' & xb' & Hnum & _ & [= -> ->]).
  rewrite Hnum. f_equal.
  unfold Ma.unary, Ma.true_divide in *. cbn [fst snd] in *.
  by rewrite <- Hb.
Qed.

End ma_facts.

Section gradient_facts.
Context {X : Type} `{Inhabited X}.
Implicit Types (sub : X → X → X) (div : X → R → X).

Lemma gradient1_spec sub div (l : list X) :
  (2 ≤ length l)%nat →
  ∃ l', gradient1 sub div l = Some l' ∧ length l' = length l
        ∧ ∀ k y, l' !! k = Some y →
            ∃ x1 x2 c, x1 ∈ l ∧ x2 ∈ l ∧ y = div (sub x1 x2) c.
Proof.
  intros Hl. unfold gradient1. cbv zeta.
  rewrite (proj2 (Nat.ltb_ge _ _) Hl). eexists. split; [reflexivity|].
  split; [by rewrite length_fmap, length_seq|].
  intros k y Hk. rewrite list_lookup_fmap in Hk.
  apply fmap_Some in Hk as (i & [-> Hi]%lookup_seq & ->). simpl.
  destruct (Nat.eqb_spec k 0); [|destruct (Nat.eqb_spec k (length l - 1))];
    (eexists _, _, _; split; [|split; [|reflexivity]];
     apply list_elem_of_lookup_total_2; lia).
Qed.

End gradient_facts.

Lemma gradient_spec {X : Type} `{Inhabited X} (sub : X → X → X) (div : X → R → X)
    (a : Np.ndarray X) :
  Np.wf a → (2 ≤ Np.nrows a)%nat → (2 ≤ Np.ncols a)%nat →
  ∃ d0 d1, gradient sub div a = Some (d0, d1)
    ∧ (Np.wf d0 ∧ Np.same_shape d0 a) ∧ (Np.wf d1 ∧ Np.same_shape d1 a).
Proof.
  intros [Hr Hc] Hnr Hnc. unfold gradient.
  destruct (gradient1_spec (base.zip_with sub) (λ row c, (λ x, div x c) <$> row)
              (Np.cells a)) as (d0 & Hd0 & Hl0 & Hrows0); [lia|].
  rewrite Hd0. bind_step.
  assert (∀ row, row ∈ Np.cells a → length row = Np.ncols a) as Hlen.
  { intros row Hrow. rewrite Forall_forall in Hc. by apply Hc, list_elem_of_In. }
  destruct (mapM (gradient1 sub div) (Np.cells a)) as [d1|] eqn:Hd1.
  - bind_step. exists (Np.mk (Np.nrows a) (Np.ncols a) d0), (Np.mk (Np.nrows a) (Np.ncols a) d1).
    split; [reflexivity|].
    split; (split; [|split; reflexivity]); split; simpl.
    + lia.
    + rewrite Forall_lookup. intros k y Hk.
      destruct (Hrows0 k y Hk) as (x1 & x2 & c & H1 & H2 & ->).
      rewrite length_fmap, length_zip_with, (Hlen _ H1), (Hlen _ H2). lia.
    + apply length_mapM in Hd1. lia.
    + apply mapM_Some_1 in Hd1. rewrite Forall_lookup. intros k y Hk.
      destruct (Forall2_lookup_r _ _ _ _ _ Hd1 Hk) as (row & Hrow & Hg).
      apply list_elem_of_lookup_2 in Hrow. apply Hlen in Hrow.
      destruct (gradient1_spec sub div row) as (l' & Hl' & Hll & _); [lia|].
      rewrite Hl' in Hg. injection Hg as <-. lia.
  - exfalso. apply mapM_None in Hd1. apply Exists_exists in Hd1 as (row & Hin & Hnone).
    apply list_elem_of_In in Hin. apply Hlen in Hin.
    destruct (gradient1_spec sub div row) as (l' & Hl' & _); [lia|]. congruence.
Qed.

(** The smoothing step returns a grid of at least two rows and two columns
    when the kernel leaves that many. *)
Lemma smoothed_spec (m : Np.marray R) (s : Z) :
  Np.wfma m →
  (Z.max 1 s + 1 ≤ Z.of_nat (Np.nrows (Np.data m)))%Z →
  (Z.max 1 s + 1 ≤ Z.of_nat (Np.ncols (Np.data m)))%Z →
  ∃ d, smoothed m s = Some d ∧ Np.wfma d
       ∧ (2 ≤ Np.nrows (Np.data d))%nat ∧ (2 ≤ Np.ncols (Np.data d))%nat.
Proof.
  intros (Hd & Hm & Hr & Hc) Hnr Hnc. unfold smoothed. cbv zeta.
  match goal with |- context [Np.fill _ _ ?x] => generalize x end. intros dm.
  destruct (0 <? s)%Z eqn:Hs.
  - apply Z.ltb_lt in Hs. unfold convolve2d_valid. cbv zeta.
    cbn [Np.data Np.mask Np.nrows Np.ncols Np.fill Np.zip_with Np.map].
    rewrite Hr, Hc.
    rewrite (proj2 (Z.leb_le s _)), (proj2 (Z.leb_le s _)) by lia.
    cbn [andb]. bind_step.
    eexists. split; [reflexivity|]. split; [|simpl; lia].
    split; [apply wf_tabulate|]. split; [apply wf_map, wf_tabulate|].
    split; reflexivity.
  - apply Z.ltb_ge in Hs. eexists. split; [reflexivity|]. split; [|simpl; lia].
    split; [apply wf_fill; [exact Hd|exact Hm|by split]|].
    split; [exact Hm|]. simpl. by split.
Qed.

Lemma like_lift1 (d a : Np.marray R) (f : Ma.cell → Ma.cell) :
  like d a → like d (Ma.lift1 f a).
Proof.
  intros [Ha [H1 H2]]. destruct (wfma_lift1 f a Ha) as [Hw [H3 H4]].
  split; [exact Hw|]. split; congruence.
Qed.

Lemma like_lift2 (d a b : Np.marray R) (f : Ma.cell → Ma.cell → Ma.cell) :
  like d a → like d b → like d (Ma.lift2 f a b).
Proof.
  intros [Ha [H1 H2]] [Hb [H3 H4]].
  destruct (wfma_lift2 f a b Ha Hb) as [Hw [H5 H6]]; [split; congruence|].
  split; [exact Hw|]. split; congruence.
Qed.

Lemma like_scalar (d a : Np.marray R) (f : Ma.cell → Ma.cell → Ma.cell) (c : R) :
  like d a → like d (Ma.scalar f a c).
Proof. apply like_lift1. Qed.

Lemma like_unmasked (d : Np.marray R) (x : Np.ndarray R) :
  Np.wf x → Np.same_shape x (Np.data d) → like d (unmasked x).
Proof. intros Hx Hs. split; [by apply wfma_unmasked|exact Hs]. Qed.

Lemma like_of_cells (d : Np.marray R) (c : Np.ndarray Ma.cell) :
  Np.wf c → Np.same_shape c (Ma.cells d) → like d (Ma.of_cells c).
Proof.
  intros Hc [H1 H2]. destruct (wfma_of_cells c Hc) as [Hw [H3 H4]].
  split; [exact Hw|]. split; [rewrite H3, H1|rewrite H4, H2]; reflexivity.
Qed.

Create HintDb tilt.
#[local] Hint Resolve like_lift1 like_lift2 like_scalar like_unmasked like_of_cells : tilt.

(** ** The tilt angles: the results *)

(** On a grid that leaves at least two rows and two columns after the
    smoothing, lines 595-625 raise nothing; the four arctangent angles have
    the shape of the smoothed grid, and under the mask its own computation
    gives it each lies in the open interval. *)
Lemma tilt_angles_spec (arctanh_re : Np.marray R → Np.marray R)
    (m : Np.marray R) (azi : R) (s : Z) :
  Np.wfma m →
  (Z.max 1 s + 1 ≤ Z.of_nat (Np.nrows (Np.data m)))%Z →
  (Z.max 1 s + 1 ≤ Z.of_nat (Np.ncols (Np.data m)))%Z →
  ∃ d r, smoothed m s = Some d
    ∧ tilt_angles arctanh_re m azi s = Some r
    ∧ (like d (t1 r) ∧ like d (t2 r) ∧ like d (ta r) ∧ like d (tdx r))
    ∧ (within_quarter_turn (t1 r) ∧ within_quarter_turn (t2 r)
       ∧ within_quarter_turn (ta r) ∧ within_quarter_turn (tdx r))
    ∧ (∃ dzs dxtots,
         vertical
           (unmasked (convolve2d_same (Np.data (t1 r)) (if (s <? 3)%Z then 3%Z else s)))
           (Some (pow2 (nextpow2 (Z.max (Z.of_nat (Np.nrows (Np.data d)))
                                        (Z.of_nat (Np.ncols (Np.data d))))))) 1
         = Some dzs
         ∧ t2 r = Ma.lift1 (Ma.unary atan)
                    (Ma.lift2 Ma.true_divide (unmasked dzs) dxtots)).
Proof.
  intros Hm Hnr Hnc.
  destruct (smoothed_spec m s Hm Hnr Hnc) as (d & Hsm & Hwd & Hr2 & Hc2).
  exists d. unfold tilt_angles. rewrite Hsm. bind_step. cbv zeta.
  destruct (wf_cells d Hwd) as [Hwc [Hc1 Hc2']].
  unfold ma_gradient.
  destruct (gradient_spec (Ma.binary Rminus) (λ x c, Ma.true_divide x (c, false))
              (Ma.cells d) Hwc) as (d0 & d1 & Hg & [Hw0 Hs0] & [Hw1 Hs1]); [lia..|].
  rewrite Hg. bind_step. cbn [fst snd].
  assert (like d (Ma.of_cells d0)) as Hdy by auto with tilt.
  assert (like d (Ma.of_cells d1)) as Hdx by auto with tilt.
  set (npts := pow2 (nextpow2 (Z.max (Z.of_nat (Np.nrows (Np.data d)))
                                     (Z.of_nat (Np.ncols (Np.data d)))))).
  destruct (default_npts_spec (Z.max (Z.of_nat (Np.nrows (Np.data d)))
                                     (Z.of_nat (Np.ncols (Np.data d)))))
    as (q & Hq & Hq1 & Hcover); [lia|]. fold npts in Hq.
  destruct (vertical_spec d npts 1 Hwd)
    as (_ & _ & dz & _ & _ & _ & _ & _ & Hv & Hwdz & Hsdz); [lia..|].
  rewrite Hv. bind_step.
  match goal with
  | |- context [convolve2d_same (Np.data ?a) _] =>
      assert (like d a) as Ht1 by auto 12 with tilt
  end.
  match goal with
  | |- context [gradient Rminus Rdiv ?ts] =>
      assert (Np.wf ts ∧ Np.same_shape ts (Np.data d)) as [Hwts Hsts];
      [split; [apply wf_tabulate|exact (proj2 Ht1)]|];
      destruct (gradient_spec Rminus Rdiv ts Hwts)
        as (dxs & dys & Hgs & [Hwx [Hx1 Hx2]] & [Hwy [Hy1 Hy2]]);
      [destruct Hsts as [-> _]; lia|destruct Hsts as [_ ->]; lia|];
      destruct (vertical_spec (unmasked ts) npts 1 (wfma_unmasked ts Hwts))
        as (_ & _ & dzs & _ & _ & _ & _ & _ & Hvs & Hwdzs & Hsdzs);
      [destruct Hsts as [Hsts1 Hsts2]; change (Np.data (unmasked ts)) with ts;
       rewrite ?Hsts1, ?Hsts2; lia..|]
  end.
  rewrite Hgs. bind_step. cbn [fst snd]. rewrite Hvs. bind_step.
  eexists. split; [reflexivity|]. split; [reflexivity|]. cbn [t1 t2 ta tdx].
  split; [|split].
  2: { split; [|split; [|split]]; apply arctan_within. }
  2: { exists dzs. eexists. split; [exact Hvs|reflexivity]. }
  destruct Hsts as [Hsts1 Hsts2]. destruct Hsdzs as [Hz1 Hz2].
  assert (Np.same_shape dzs (Np.data d)) as Hdzs.
  { split; (etransitivity; [eassumption|assumption]). }
  assert (Np.wf (Np.map Rabs dz) ∧ Np.same_shape (Np.map Rabs dz) (Np.data d)) as [Ha1 Ha2].
  { destruct (wf_map Rabs dz Hwdz) as [? [? ?]]. destruct Hsdz.
    split; [assumption|split; congruence]. }
  assert (∀ (f : R → R → R) (x y : Np.ndarray R),
            Np.wf x → Np.wf y → Np.same_shape x (Np.data d) →
            Np.same_shape y (Np.data d) →
            Np.wf (Np.zip_with f x y) ∧ Np.same_shape (Np.zip_with f x y) (Np.data d))
    as Hzip.
  { intros f x y Hx Hy [Hx1' Hx2'] [Hy1' Hy2'].
    destruct (wf_zip_with f x y Hx Hy) as [? [? ?]]; [split; congruence|].
    split; [assumption|split; congruence]. }
  assert (Np.same_shape dxs (Np.data d)) as Hdxs by (split; congruence).
  assert (Np.same_shape dys (Np.data d)) as Hdys by (split; congruence).
  destruct (Hzip Rmult dz dz) as [Hzz1 Hzz2]; [assumption..|].
  destruct (Hzip Rmult dxs dxs) as [Hxx1 Hxx2]; [assumption..|].
  destruct (Hzip Rmult dys dys) as [Hyy1 Hyy2]; [assumption..|].
  destruct (Hzip Rplus _ _ Hxx1 Hyy1 Hxx2 Hyy2) as [Hss1 Hss2].
  split; [exact Ht1|]. split; [auto 12 with tilt|]. split; auto 12 with tilt.
Qed.


(** ** A second-order tilt angle outside the quarter turn

    The grid of stripes [[9, 0, -9, 0]] on two rows is worked out in full.
    With no smoothing the padding size is 4, so that the Fourier transforms
    of [vertical] only involve the fourth roots of unity. *)

Lemma expi_period (x : R) (k : Z) : Cx.expi (x + 2 * IZR k * PI) = Cx.expi x.
Proof.
  unfold Cx.expi. destruct (Z_le_gt_dec 0 k) as [Hk|Hk].
  - rewrite <- (Z2Nat.id k Hk), <- INR_IZR_INZ. by rewrite cos_period, sin_period.
  - rewrite <- (cos_period (x + 2 * IZR k * PI) (Z.to_nat (- k))).
    rewrite <- (sin_period (x + 2 * IZR k * PI) (Z.to_nat (- k))).
    rewrite INR_IZR_INZ, Z2Nat.id by lia. rewrite opp_IZR.
    f_equal; f_equal; ring.
Qed.

Lemma expi_quarter_turns (q : Z) : Cx.expi (IZR q * (PI / 2)) = quarter_turns q.
Proof.
  unfold quarter_turns.
  pose proof (Z.div_mod q 4 ltac:(lia)) as Hq.
  pose proof (Z.mod_pos_bound q 4 ltac:(lia)) as Hr.
  set (r := (q mod 4)%Z) in *. set (k := (q / 4)%Z) in *.
  replace (IZR q * (PI / 2))%R with (IZR r * (PI / 2) + 2 * IZR k * PI)%R.
  2:{ rewrite Hq, plus_IZR, mult_IZR. field. }
  rewrite expi_period. unfold Cx.expi.
  assert (r = 0 ∨ r = 1 ∨ r = 2 ∨ r = 3)%Z as Hcases by lia.
  destruct Hcases as [Hc|[Hc|[Hc|Hc]]]; rewrite Hc.
  - replace (0 * (PI / 2))%R with 0%R by ring. by rewrite cos_0, sin_0.
  - replace (1 * (PI / 2))%R with (PI / 2)%R by ring. by rewrite cos_PI2, sin_PI2.
  - replace (2 * (PI / 2))%R with PI by field. by rewrite cos_PI, sin_PI.
  - by rewrite cos_3PI2, sin_3PI2.
Qed.

(** The exponentials of a transform of size 4 x 4. *)
Lemma expi_dft4 (sgn : Z) (k m l n : nat) :
  Cx.expi (IZR sgn * (2 * PI) * (INR k * INR m / INR 4 + INR l * INR n / INR 4))
  = quarter_turns (sgn * (Z.of_nat k * Z.of_nat m + Z.of_nat l * Z.of_nat n)).
Proof.
  rewrite <- expi_quarter_turns. f_equal.
  rewrite mult_IZR, plus_IZR, !mult_IZR, <- !INR_IZR_INZ. simpl (INR 4). field.
Qed.

Lemma length_insert_sorted (x : R) (l : list R) :
  length (insert_sorted x l) = S (length l).
Proof.
  induction l as [|y l IH]; [reflexivity|]. simpl.
  destruct (Rle_dec x y); simpl; by rewrite ?IH.
Qed.

Lemma length_sort (l : list R) : length (sort l) = length l.
Proof.
  induction l as [|x l IH]; [reflexivity|].
  unfold sort in *. simpl. by rewrite length_insert_sorted, IH.
Qed.

(** Evaluation of an expression on arrays, down to the arithmetic of its
    real cells, which is left as it stands. *)
Ltac eval_lhs :=
  match goal with
  | |- ?w = _ =>
      let v := eval cbv -[IZR INR Rplus Rmult Rminus Ropp Rinv Rdiv PI cos sin sqrt weight
                          Rabs Rmin Rmax atan Ma.unsafe Ma.sqrt Rlt_dec Rle_dec
                          Cx.scale Cx.zero Cx.expi Cx.mul Cx.add Cx.re] in w in
      change w with v
  end.
Ltac eval_rhs :=
  match goal with
  | |- _ = ?w =>
      let v := eval cbv -[IZR INR Rplus Rmult Rminus Ropp Rinv Rdiv PI cos sin sqrt weight
                          Rabs Rmin Rmax atan Ma.unsafe Ma.sqrt Rlt_dec Rle_dec
                          Cx.scale Cx.zero Cx.expi Cx.mul Cx.add Cx.re] in w in
      change w with v
  end.

(** Two arrays are equal when their cells are. *)
Ltac arrays_eq :=
  repeat lazymatch goal with
  | |- Np.mk _ _ _ = Np.mk _ _ _ => apply (f_equal (Np.mk _ _))
  | |- Np.mkma _ _ = Np.mkma _ _ => apply (f_equal2 Np.mkma)
  | |- Some _ = Some _ => apply (f_equal Some)
  | |- cons _ _ = cons _ _ => apply (f_equal2 cons)
  | |- (_, _) = (_, _) => apply (f_equal2 pair)
  | |- @nil _ = @nil _ => reflexivity
  | |- true = true => reflexivity
  | |- false = false => reflexivity
  end.

(** The fourth roots of unity, by their values. *)
Ltac quarters :=
  repeat match goal with
  | |- context [quarter_turns ?z] =>
      let v := eval vm_compute in (z mod 4)%Z in
      change (quarter_turns z) with (quarter v)
  end;
  cbn [quarter].

Ltac cx_unfold :=
  unfold Cx.add, Cx.mul, Cx.scale, Cx.of_real, Cx.zero, Cx.re; cbn [fst snd replicate].

(** Lines 651-664 on two equal rows: the median goes, and the rows are
    repeated above and below. *)
Lemma padded_striped (a0 a1 a2 a3 : R) :
  ∃ med, padded (unmasked (striped 2 a0 a1 a2 a3)) 4
         = Some (striped 4 (a0 - med) (a1 - med) (a2 - med) (a3 - med)).
Proof.
  unfold padded, centred, ma_median. cbv zeta.
  rewrite length_sort.
  change (Np.compressed (unmasked (striped 2 a0 a1 a2 a3)))
    with [a0; a1; a2; a3; a0; a1; a2; a3].
  cbn [length Nat.eqb Nat.even].
  eexists. reflexivity.
Qed.

(** The spectrum of four equal rows lies on the axis of the columns. *)
Lemma fft2_striped (x0 x1 x2 x3 : R) :
  fft2 (Np.map Cx.of_real (striped 4 x0 x1 x2 x3))
  = Np.mk 4 4
      [[(4 * (x0 + x1 + x2 + x3), 0); (4 * (x0 - x2), 4 * (x3 - x1));
        (4 * (x0 - x1 + x2 - x3), 0); (4 * (x0 - x2), 4 * (x1 - x3))];
       replicate 4 Cx.zero; replicate 4 Cx.zero; replicate 4 Cx.zero]%R.
Proof.
  unfold fft2, dft2, tabulate.
  cbn -[INR Cx.mul Cx.add Cx.expi PI Cx.zero].
  rewrite !expi_dft4. quarters. cx_unfold. arrays_eq; ring.
Qed.

(** The radial frequency on the axis through the centre. *)
Lemma weight_axis (q j : Z) (wn : R) :
  weight (2 * q) wn q j = Rabs ((IZR j - IZR q) * wn).
Proof.
  unfold weight. cbv zeta. rewrite mult_IZR.
  replace ((IZR q + 1 - (2 * IZR q / 2 + 1)) * wn)%R with 0%R by field.
  replace (IZR j + 1 - (2 * IZR q / 2 + 1))%R with (IZR j - IZR q)%R by field.
  rewrite Rmult_0_l, Rplus_0_l. apply sqrt_Rsqr_abs.
Qed.

Lemma weight4 (wn : R) :
  (0 < wn)%R →
  weight 4 wn 2 0 = (2 * wn)%R ∧ weight 4 wn 2 1 = wn
  ∧ weight 4 wn 2 2 = 0%R ∧ weight 4 wn 2 3 = wn.
Proof.
  intros Hwn.
  repeat split; rewrite (weight_axis 2 _ wn).
  - rewrite Rabs_left by lra. lra.
  - rewrite Rabs_left by lra. lra.
  - rewrite Rabs_right by lra. lra.
  - rewrite Rabs_right by lra. lra.
Qed.

(** The vertical derivative of two equal rows of four cells, with the
    padding size 4 and the sample interval 1: in every cell, [2 pi / 3]
    times what the cell exceeds the mean of its two neighbours by, the row
    being read as a circle. *)
Lemma vertical_striped (a0 a1 a2 a3 : R) :
  let wn := (2 * PI / 3)%R in
  vertical (unmasked (striped 2 a0 a1 a2 a3)) (Some 4%Z) 1
  = Some (striped 2 (wn * (a0 - (a3 + a1) / 2)) (wn * (a1 - (a0 + a2) / 2))
                    (wn * (a2 - (a1 + a3) / 2)) (wn * (a3 - (a2 + a0) / 2))).
Proof.
  intros wn. destruct (padded_striped a0 a1 a2 a3) as [med Hpad].
  assert (0 < wn)%R as Hwn by (unfold wn; pose proof PI_RGT_0; lra).
  destruct (weight4 wn Hwn) as (W0 & W1 & W2 & W3).
  unfold vertical. cbv zeta. rewrite Hpad. cbn [mbind option_bind].
  unfold filtered. cbv zeta. rewrite fft2_striped.
  change (1 * (4 - 1) =? 0)%Z with false. cbv iota.
  change (IZR (1 * (4 - 1))) with 3%R. fold wn.
  remember (a0 - med)%R as x0 eqn:E0. remember (a1 - med)%R as x1 eqn:E1.
  remember (a2 - med)%R as x2 eqn:E2. remember (a3 - med)%R as x3 eqn:E3.
  clearbody wn.
  eval_lhs. rewrite !expi_dft4. quarters. rewrite W0, W1, W2, W3.
  unfold striped. cbn [replicate]. arrays_eq; cx_unfold; simpl INR.
  all: subst x0 x1 x2 x3; field.
Qed.

(** The tolerance of the safe division is far below the numbers at hand. *)
Lemma tiny_small : (0 < Ma.tiny < / 1000)%R.
Proof.
  unfold Ma.tiny.
  assert (1024 <= 2 ^ 1022)%R as Hpow.
  { replace 1024%R with (2 ^ 10)%R by (simpl; lra). apply Rle_pow; [lra|lia]. }
  split.
  - apply Rinv_0_lt_compat. lra.
  - apply Rinv_lt_contravar; [|lra]. apply Rmult_lt_0_compat; lra.
Qed.

Lemma unsafe_small (a b : R) :
  (Rabs a <= 1000)%R → (1 <= Rabs b)%R → Ma.unsafe a b = false.
Proof.
  intros Ha Hb. unfold Ma.unsafe. destruct (Rle_dec _ _) as [H|H]; [|reflexivity].
  exfalso. pose proof tiny_small as [Ht1 Ht2]. pose proof (Rabs_pos a).
  assert (Rabs a * Ma.tiny <= 1000 * Ma.tiny)%R by (apply Rmult_le_compat_r; lra).
  assert (1000 * Ma.tiny < 1)%R.
  { apply (Rmult_lt_compat_l 1000) in Ht2; [|lra]. rewrite Rinv_r in Ht2; lra. }
  lra.
Qed.

(** A division by 0 is never safe. *)
Lemma unsafe_zero (a : R) : Ma.unsafe a 0 = true.
Proof.
  unfold Ma.unsafe. destruct (Rle_dec _ _) as [H|H]; [reflexivity|].
  exfalso. apply H. rewrite Rabs_R0. pose proof tiny_small as [Ht _].
  pose proof (Rabs_pos a). apply Rmult_le_pos; lra.
Qed.

Ltac abs_bound := unfold Rabs; destruct (Rcase_abs _); lra.
Ltac safe_divisions :=
  repeat match goal with
  | |- context [Ma.unsafe ?a 0] => rewrite (unsafe_zero a)
  | |- context [Ma.unsafe ?a ?b] => rewrite (unsafe_small a b) by abs_bound
  end.

Lemma sqrt_sum_squares (x y : R) :
  Ma.sqrt (x * x + y * y, false)%R = (sqrt (x * x + y * y), false).
Proof.
  unfold Ma.sqrt. cbn [fst snd orb].
  destruct (Rlt_dec (x * x + y * y) 0) as [H|H]; [nra|reflexivity].
Qed.

Lemma wfma_stripes : Np.wfma stripes.
Proof.
  split; [|split; [apply wf_full|split; reflexivity]].
  split; [reflexivity|]. repeat constructor.
Qed.

(** Lines 582-593 with [s = 0] and no masked cell change nothing. *)
Lemma smoothed_stripes : smoothed stripes 0 = Some stripes.
Proof. reflexivity. Qed.

(** Line 599: the rows are equal, so [dy] is 0; [dx] is 0 in column 2. *)
Lemma gradient_stripes :
  ma_gradient stripes
  = Some (unmasked (striped 2 0 0 0 0), unmasked (striped 2 (-9) (-9) 0 9)).
Proof. eval_lhs. safe_divisions. eval_rhs. arrays_eq; lra. Qed.

(** Line 602, [dxtot]. *)
Lemma dxtot_stripes :
  let dy := unmasked (striped 2 0 0 0 0) in
  let dx := unmasked (striped 2 (-9) (-9) 0 9) in
  Ma.lift1 Ma.sqrt (Ma.lift2 (Ma.binary Rplus) (Ma.lift2 (Ma.binary Rmult) dx dx)
                                                (Ma.lift2 (Ma.binary Rmult) dy dy))
  = unmasked (striped 2 9 9 0 9).
Proof.
  intros dy dx. eval_lhs. rewrite !sqrt_sum_squares. eval_rhs. cbn [fst snd].
  arrays_eq.
  all: try (replace (-9 * -9 + 0 * 0)%R with (9 * 9)%R by ring).
  all: try (replace (9 * 9 + 0 * 0)%R with (9 * 9)%R by ring).
  all: try (replace (0 * 0 + 0 * 0)%R with (0 * 0)%R by ring).
  all: rewrite sqrt_square; lra.
Qed.

(** Line 605, [dz]. *)
Lemma vertical_stripes :
  let wn := (2 * PI / 3)%R in
  vertical stripes (Some 4%Z) 1 = Some (striped 2 (9 * wn) 0 (-9 * wn) 0).
Proof.
  intros wn. unfold stripes. rewrite vertical_striped. fold wn.
  unfold striped. cbn [replicate]. arrays_eq; field.
Qed.

Lemma wn_bounds : (2 < 2 * PI / 3 < 3)%R.
Proof. pose proof PI2_3_2. pose proof PI_4. lra. Qed.

(** Line 606, [t1]: column 2, where [dxtot] is 0, is masked and keeps [dz];
    columns 1 and 3, where [dz] is 0, hold the angle 0. *)
Lemma t1_stripes :
  let wn := (2 * PI / 3)%R in
  Ma.lift1 (Ma.unary atan)
    (Ma.lift2 Ma.true_divide (unmasked (striped 2 (9 * wn) 0 (-9 * wn) 0))
                             (unmasked (striped 2 9 9 0 9)))
  = Np.mkma (striped 2 (atan wn) 0 (-9 * wn) 0)
            (Np.mk 2 4 (replicate 2 [false; false; true; false])).
Proof.
  intros wn. pose proof wn_bounds as Hwn. fold wn in Hwn. clearbody wn.
  eval_lhs. safe_divisions. eval_rhs. cbn [fst snd].
  arrays_eq; try reflexivity.
  all: try (replace (0 / 9)%R with 0%R by field; apply atan_0).
  all: f_equal; field.
Qed.

(** Line 621, [ts]: columns 2 and 3 of the smoothed angle are equal. *)
Lemma ts_stripes (t0 wn : R) :
  convolve2d_same (striped 2 t0 0 (-9 * wn) 0) 3
  = striped 2 (2 / 9 * t0) (2 / 9 * t0 - 2 * wn) (- 2 * wn) (- 2 * wn).
Proof. eval_lhs. eval_rhs. arrays_eq; field. Qed.

(** Line 622: both derivatives of [ts] are 0 in column 3. *)
Lemma gradient_ts (b0 b1 b2 : R) :
  gradient Rminus Rdiv (striped 2 b0 b1 b2 b2)
  = Some (striped 2 0 0 0 0,
          striped 2 (b1 - b0) ((b2 - b0) / 2) ((b2 - b1) / 2) 0).
Proof. eval_lhs. eval_rhs. arrays_eq; field. Qed.

(** Lines 595-625 on the stripes.  In cell (0, 3) the division of line 625
    is by 0: [t2] is masked there and keeps [dzs], which is below
    [-pi/2]; [t1] is not masked there.  In cell (0, 0) neither is masked. *)
Lemma tilt_angles_stripes (arctanh_re : Np.marray R → Np.marray R) (azi : R) :
  let wn := (2 * PI / 3)%R in
  let t0 := atan wn in
  ∃ r, tilt_angles arctanh_re stripes azi 0 = Some r
    ∧ Np.mask (t1 r) = Np.mk 2 4 (replicate 2 [false; false; true; false])
    ∧ Np.lookup2 (Np.data (t2 r)) 0 3 = Some (- wn * wn - wn * t0 / 9)%R
    ∧ Np.lookup2 (Np.mask (t2 r)) 0 3 = Some true
    ∧ Np.lookup2 (Np.data (t2 r)) 0 0
      = Some (atan ((2 * wn * wn + wn * t0 / 9) / (2 * wn)))
    ∧ Np.lookup2 (Np.mask (t2 r)) 0 0 = Some false.
Proof.
  intros wn t0.
  pose proof wn_bounds as Hwn. fold wn in Hwn.
  pose proof (atan_bound wn) as Ht0. fold t0 in Ht0. pose proof PI_4 as Hpi.
  unfold tilt_angles. rewrite smoothed_stripes. cbn [mbind option_bind]. cbv zeta.
  rewrite gradient_stripes. cbn [mbind option_bind fst snd].
  change (pow2 (nextpow2 (Z.max (Z.of_nat (Np.nrows (Np.data stripes)))
                                (Z.of_nat (Np.ncols (Np.data stripes)))))) with 4%Z.
  rewrite vertical_stripes. cbn [mbind option_bind].
  rewrite dxtot_stripes, t1_stripes. fold wn. fold t0.
  change (0 <? 3)%Z with true. cbv iota. cbn [Np.data].
  rewrite ts_stripes.
  set (b1 := (2 / 9 * t0 - 2 * wn)%R). set (b0 := (2 / 9 * t0)%R). set (b2 := (- 2 * wn)%R).
  rewrite gradient_ts. cbn [mbind option_bind fst snd].
  rewrite vertical_striped. fold wn. cbn [mbind option_bind].
  eexists. split; [reflexivity|]. cbn [t1 t2 Np.mask]. split; [reflexivity|].
  assert (sqrt (0 * 0 + (b1 - b0) * (b1 - b0)) = 2 * wn)%R as Hs0.
  { replace (0 * 0 + (b1 - b0) * (b1 - b0))%R with ((2 * wn) * (2 * wn))%R
      by (unfold b1, b0; ring).
    apply sqrt_square. lra. }
  assert (sqrt (0 * 0 + 0 * 0) = 0)%R as Hs3.
  { replace (0 * 0 + 0 * 0)%R with (0 * 0)%R by ring. apply sqrt_square. lra. }
  assert (wn * (b0 - (b2 + b1) / 2) = 2 * wn * wn + wn * t0 / 9)%R as Hz0.
  { unfold b0, b1, b2. field. }
  assert (wn * (b2 - (b2 + b0) / 2) = - wn * wn - wn * t0 / 9)%R as Hz3.
  { unfold b0, b2. field. }
  assert (Ma.unsafe (2 * wn * wn + wn * t0 / 9) (2 * wn) = false) as Hsafe.
  { apply unsafe_small; unfold Rabs; destruct (Rcase_abs _); nra. }
  clearbody b0 b1 b2 t0 wn.
  repeat split; eval_lhs;
    rewrite !sqrt_sum_squares, ?Hs0, ?Hs3, ?Hz0, ?Hz3, ?unsafe_zero, ?Hsafe;
    reflexivity.
Qed.

(** The value [t2] keeps in cell (0, 3) of the stripes is below [-pi/2]. *)
Lemma stripes_outside :
  let wn := (2 * PI / 3)%R in
  (- wn * wn - wn * atan wn / 9 < - PI / 2)%R.
Proof.
  intros wn. pose proof (atan_bound wn) as Ht0. pose proof PI2_3_2. pose proof PI_4.
  unfold wn in *. set (t0 := atan (2 * PI / 3)) in *. clearbody t0. nra.
Qed.



(** * Further properties *)

(** ** The range of the total visibility *)

Lemma count_true_nonneg (bs : list bool) : (0 ≤ count_true bs)%Z.
Proof. induction bs as [|[] bs IH]; rewrite ?count_true_cons; simpl; lia. Qed.

(** The nearest step of a ray has no closer step: a re-scan always counts
    it. *)
Lemma naive_count_pos (t : Q) (rest : list Q) : (1 ≤ naive_count (t :: rest))%Z.
Proof.
  unfold naive_count, visible_flags.
  change (imap (λ k t0, above_all (take k (t :: rest)) t0) (t :: rest))
    with (above_all [] t
          :: imap (λ k t0, above_all (take (S k) (t :: rest)) t0) rest).
  rewrite count_true_cons.
  pose proof (count_true_nonneg
                (imap (λ k t0, above_all (take (S k) (t :: rest)) t0) rest)).
  change (above_all [] t) with true. cbv iota. lia.
Qed.

(** On a window of half-width [w >= 2] the sweep towards higher indices
    counts between 2 and [w + 1], the sweep towards lower indices between 1
    and [w]. *)
Lemma visible_range (dat : list Q) (w : Z) (dh : Q) :
  (2 ≤ w)%Z → length dat = Z.to_nat (2 * w + 1) →
  ∃ n s, __visible1 dat (2 * w + 1) (w + 1) dh = Some n ∧ (2 ≤ n ≤ w + 1)%Z
         ∧ __visible2 dat (w + 1) dh = Some s ∧ (1 ≤ s ≤ w)%Z.
Proof.
  intros Hw Hlen.
  destruct (visible_on_window dat w dh) as [H1 H2]; [lia..|].
  pose proof (naive_count_le (angles (theta_up dat w dh) w)) as Hu.
  pose proof (naive_count_le (angles (theta_down dat w dh) w)) as Hd.
  assert (∀ theta, ∃ t rest, angles theta w = t :: rest) as Hcons.
  { intros theta. unfold angles.
    destruct (seqZ 1 w) as [|x xs] eqn:Hs.
    - apply (f_equal length) in Hs. rewrite length_seqZ in Hs. simpl in Hs. lia.
    - by eexists _, _. }
  destruct (Hcons (theta_up dat w dh)) as (tu & ru & Hcu).
  destruct (Hcons (theta_down dat w dh)) as (td & rd & Hcd).
  pose proof (naive_count_pos tu ru) as Hpu. rewrite <- Hcu in Hpu.
  pose proof (naive_count_pos td rd) as Hpd. rewrite <- Hcd in Hpd.
  unfold angles in Hu, Hd. rewrite length_fmap, length_seqZ in Hu, Hd.
  eexists _, _. split; [exact H1|]. split; [unfold angles in *; lia|].
  split; [exact H2|]. unfold angles in *. lia.
Qed.

(** X2.  With a window of at least five cells ([w >= 2]) every cell of the
    total visibility lies between 12 and [8w + 4]: four rays count between 2
    and [w + 1] and four between 1 and [w], whatever the terrain and the
    observer height. *)
Theorem visibility2d_total_range (m : Np.marray Q) (w : Z) (dh : Q) :
  Np.wfma m → (2 ≤ w)%Z →
  ∃ r buf,
    visibility2d m (2 * w + 1) dh = Some (r, buf)
    ∧ ∀ (i j : nat) (v : Z),
        Np.lookup2 (Np.data (vtot r)) i j = Some v → (12 ≤ v ≤ 8 * w + 4)%Z.
Proof.
  intros Hm Hw.
  destruct (visibility2d_spec m w dh (λ n, (2 ≤ n ≤ w + 1)%Z) (λ s, (1 ≤ s ≤ w)%Z) Hm)
    as (c & vfull & _ & Hvis & _ & _ & _ & Htot & _); [lia| |].
  { intros dtmp Hlen _. exact (visible_range dtmp w dh Hw Hlen). }
  eexists _, _. split; [exact Hvis|]. cbn [vtot Np.data].
  intros i j v Hv.
  destruct (Htot i j v Hv) as (a1 & a2 & a3 & a4 & a5 & a6 & a7 & a8 & HP & ->).
  lia.
Qed.

Lemma visibility2d_total_range_witness :
  ∃ r buf,
    visibility2d (unmasked (Np.full 5 5 1%Q)) (2 * 2 + 1) 0 = Some (r, buf)
    ∧ ∀ (i j : nat) (v : Z),
        Np.lookup2 (Np.data (vtot r)) i j = Some v → (12 ≤ v ≤ 8 * 2 + 4)%Z.
Proof. apply (visibility2d_total_range (unmasked (Np.full 5 5 1%Q)) 2 0 flat5_wf). lia. Defined.

(** ** When [vertical] raises *)

(** [Z] division by 2 rounds down: half of a negative number is negative. *)
Lemma half_negative (x : Z) : (x < 0)%Z → (x / 2 < 0)%Z.
Proof. intros. apply Z.div_lt_upper_bound; lia. Qed.

Lemma pad_edge1_negative {A : Type} (l : list A) (before after : Z) :
  (before < 0)%Z → pad_edge1 l before after = None.
Proof. intros H. unfold pad_edge1. by rewrite (proj2 (Z.ltb_lt before 0) H). Qed.

(** A padding size smaller than the grid gives [np.pad] a negative width,
    which raises. *)
Lemma padded_too_small (m : Np.marray R) (npts : Z) :
  Np.wfma m →
  (0 < Np.nrows (Np.data m))%nat → (0 < Np.ncols (Np.data m))%nat →
  (npts < Z.of_nat (Np.nrows (Np.data m)) ∨ npts < Z.of_nat (Np.ncols (Np.data m)))%Z →
  padded m npts = None.
Proof.
  intros Hm Hnr Hnc Hsmall. destruct (wf_centred m Hm) as [[Hr Hc] [Hz1 Hz2]].
  unfold padded, pad_edge. cbv zeta.
  set (nr := Z.of_nat (Np.nrows (Np.data m))) in *.
  set (nc := Z.of_nat (Np.ncols (Np.data m))) in *.
  destruct (Z_lt_dec npts nr) as [Hlt|Hge].
  - rewrite pad_edge1_negative by (apply half_negative; lia). reflexivity.
  - assert (npts < nc)%Z as Hltc by lia.
    assert (0 ≤ (npts - nr) / 2 ∧ (npts - nr) / 2 ≤ npts - nr)%Z as [Hrd1 Hrd2].
    { split; [apply Z.div_pos; lia|]. apply Z.div_le_upper_bound; lia. }
    destruct (pad_edge1_spec (Np.cells (centred m)) ((npts - nr) / 2)
                (npts - (npts - nr) / 2 - nr)) as (rows & -> & Hlen); [lia..|].
    bind_step.
    destruct (mapM _ rows) as [rows'|] eqn:Hmap; [|reflexivity].
    exfalso. apply mapM_Some_1 in Hmap.
    destruct rows as [|row rows]; [simpl in Hlen; lia|].
    apply Forall2_cons_inv_l in Hmap as (row' & rows'' & Hrow & _ & _).
    rewrite pad_edge1_negative in Hrow by (apply half_negative; lia).
    discriminate.
Qed.

(** X3.  On a grid with at least one row and one column, [vertical] with an
    explicit padding size [npts] returns exactly when [npts] covers both
    dimensions (else [np.pad] raises [ValueError]) and [xint * (npts - 1)] is
    not zero (else line 671 raises [ZeroDivisionError]); with the default
    padding size it returns exactly when the grid has more than one cell and
    [xint] is not zero. *)
Theorem vertical_returns_iff (m : Np.marray R) (npts xint : Z) :
  Np.wfma m →
  (0 < Np.nrows (Np.data m))%nat → (0 < Np.ncols (Np.data m))%nat →
  (is_Some (vertical m (Some npts) xint)
   ↔ (Z.of_nat (Np.nrows (Np.data m)) ≤ npts)%Z
     ∧ (Z.of_nat (Np.ncols (Np.data m)) ≤ npts)%Z
     ∧ (xint * (npts - 1))%Z ≠ 0%Z)
  ∧ (is_Some (vertical m None xint)
     ↔ (2 ≤ Z.max (Z.of_nat (Np.nrows (Np.data m))) (Z.of_nat (Np.ncols (Np.data m))))%Z
       ∧ xint ≠ 0%Z).
Proof.
  intros Hm Hnr Hnc.
  assert (∀ n, is_Some (vertical m (Some n) xint)
               ↔ (Z.of_nat (Np.nrows (Np.data m)) ≤ n)%Z
                 ∧ (Z.of_nat (Np.ncols (Np.data m)) ≤ n)%Z
                 ∧ (xint * (n - 1))%Z ≠ 0%Z) as Hexplicit.
  { intros n. split.
    - intros [dz Hdz].
      destruct (Z_lt_dec n (Z.of_nat (Np.nrows (Np.data m)))) as [Hr|Hr];
        [|destruct (Z_lt_dec n (Z.of_nat (Np.ncols (Np.data m)))) as [Hc|Hc]].
      + exfalso. unfold vertical in Hdz. cbv zeta in Hdz.
        rewrite (padded_too_small m n Hm Hnr Hnc) in Hdz by (left; exact Hr).
        discriminate.
      + exfalso. unfold vertical in Hdz. cbv zeta in Hdz.
        rewrite (padded_too_small m n Hm Hnr Hnc) in Hdz by (right; exact Hc).
        discriminate.
      + split; [lia|]. split; [lia|]. intros Hzero.
        unfold vertical in Hdz. cbv zeta in Hdz.
        destruct (padded m n) as [data1|]; [|discriminate].
        cbn [mbind option_bind] in Hdz. unfold filtered in Hdz. cbv zeta in Hdz.
        rewrite (proj2 (Z.eqb_eq _ _) Hzero) in Hdz. discriminate.
    - intros (Hr & Hc & Hx).
      destruct (vertical_spec m n xint Hm Hnr Hnc Hr Hc Hx)
        as (_ & _ & dz & _ & _ & _ & _ & _ & Hv & _).
      rewrite Hv. by eexists. }
  split; [apply Hexplicit|].
  change (vertical m None xint)
    with (vertical m (Some (pow2 (nextpow2 (Z.max (Z.of_nat (Np.nrows (Np.data m)))
                                                  (Z.of_nat (Np.ncols (Np.data m)))))))
                   xint).
  rewrite Hexplicit.
  set (nmax := Z.max (Z.of_nat (Np.nrows (Np.data m))) (Z.of_nat (Np.ncols (Np.data m)))).
  destruct (Z_le_dec 2 nmax) as [Hbig|Hsmall].
  - destruct (default_npts_spec nmax Hbig) as (q & -> & Hq & Hcover).
    split; [intros (_ & _ & Hx); split; [exact Hbig|]; intros ->; apply Hx; lia|].
    intros [_ Hx]. split; [lia|]. split; [lia|]. nia.
  - assert (nmax = 1%Z) as -> by lia.
    change (pow2 (nextpow2 1)) with 1%Z.
    split; [intros (_ & _ & Hx); exfalso; apply Hx; lia|]. intros [Hbad _]. lia.
Qed.

Lemma vertical_returns_iff_witness :
  let m := unmasked (Np.mk 2 3 [[1; 2; 3]; [4; 5; 6]]%R) in
  (is_Some (vertical m (Some 2%Z) 1) ↔ (2 ≤ 2 ∧ 3 ≤ 2 ∧ 1 * (2 - 1) ≠ 0)%Z)
  ∧ (is_Some (vertical m None 1) ↔ (2 ≤ 3 ∧ 1 ≠ 0)%Z).
Proof.
  intros m.
  assert (Np.wfma m) as Hm.
  { split; [|split; [apply wf_full|split; reflexivity]].
    split; [reflexivity|]. repeat constructor. }
  exact (vertical_returns_iff m 2 1 Hm ltac:(simpl; lia) ltac:(simpl; lia)).
Defined.

(** ** What [vertical] does not depend on *)

Section offset_facts.
Variable c : R.
Local Notation "'shift'" := (λ v : R, (v + c)%R).
Local Notation "'unmasked_of'" :=
  (λ (row : list R) (mrow : list bool),
     fst <$> filter (λ p : R * bool, p.2 = false) (zip row mrow)).

Lemma insert_sorted_shift (x : R) (l : list R) :
  insert_sorted (x + c) (shift <$> l) = shift <$> insert_sorted x l.
Proof.
  induction l as [|y l IH]; [reflexivity|]. rewrite fmap_cons. cbn [insert_sorted].
  destruct (Rle_dec (x + c) (y + c)) as [H1|H1], (Rle_dec x y) as [H2|H2];
    try (exfalso; lra); rewrite !fmap_cons; [reflexivity|]. by rewrite IH.
Qed.

Lemma sort_shift (l : list R) : sort (shift <$> l) = shift <$> sort l.
Proof.
  induction l as [|x l IH]; [reflexivity|]. rewrite fmap_cons.
  change (sort ((x + c)%R :: (shift <$> l)))
    with (insert_sorted (x + c) (sort (shift <$> l))).
  rewrite IH. apply insert_sorted_shift.
Qed.

Lemma nth_shift (l : list R) (k : nat) :
  (k < length l)%nat → nth k (shift <$> l) 0%R = (nth k l 0 + c)%R.
Proof.
  revert k. induction l as [|x l IH]; intros k Hk; [simpl in Hk; lia|].
  destruct k as [|k]; [reflexivity|]. rewrite fmap_cons. cbn [nth].
  apply IH. simpl in Hk. lia.
Qed.

Local Notation "'row_shifted'" := (row_shifted c).

Lemma row_shifted_cons (x1 x2 : R) (b : bool) (r1 r2 : list R) (mr : list bool) :
  row_shifted (x1 :: r1) (x2 :: r2) (b :: mr) →
  (b = false → x2 = (x1 + c)%R) ∧ row_shifted r1 r2 mr.
Proof.
  intros (H1 & H2 & H3). split.
  - intros ->. specialize (H3 0%nat x1 eq_refl eq_refl). by injection H3.
  - split; [simpl in H1; lia|]. split; [simpl in H2; lia|].
    intros j v Hm Hv. exact (H3 (S j) v Hm Hv).
Qed.

Lemma row_shifted_unmasked (r1 r2 : list R) (mr : list bool) :
  row_shifted r1 r2 mr → unmasked_of r2 mr = shift <$> unmasked_of r1 mr.
Proof.
  revert r2 mr. induction r1 as [|x1 r1 IH]; intros r2 mr Hrel.
  - destruct Hrel as (H1 & _). destruct r2; [reflexivity|discriminate].
  - destruct r2 as [|x2 r2]; [destruct Hrel as (H1 & _); discriminate|].
    destruct mr as [|b mr]; [destruct Hrel as (_ & H2 & _); discriminate|].
    apply row_shifted_cons in Hrel as [Hx Hrel]. specialize (IH r2 mr Hrel).
    change (zip (x2 :: r2) (b :: mr)) with ((x2, b) :: zip r2 mr).
    change (zip (x1 :: r1) (b :: mr)) with ((x1, b) :: zip r1 mr).
    rewrite !filter_cons. simpl. destruct b.
    + rewrite !decide_False by discriminate. exact IH.
    + rewrite !decide_True by reflexivity. rewrite !fmap_cons. simpl.
      rewrite IH, Hx by reflexivity. reflexivity.
Qed.

Lemma row_shifted_centred (r1 r2 : list R) (mr : list bool) (med : R) :
  row_shifted r1 r2 mr →
  base.zip_with (λ v (b : bool), if b then 0%R else (v - (med + c))%R) r2 mr
  = base.zip_with (λ v (b : bool), if b then 0%R else (v - med)%R) r1 mr
  ∧ (λ _ : R, 0%R) <$> r2 = (λ _ : R, 0%R) <$> r1.
Proof.
  revert r2 mr. induction r1 as [|x1 r1 IH]; intros r2 mr Hrel.
  - destruct Hrel as (H1 & _). destruct r2; [by destruct mr|discriminate].
  - destruct r2 as [|x2 r2]; [destruct Hrel as (H1 & _); discriminate|].
    destruct mr as [|b mr]; [destruct Hrel as (_ & H2 & _); discriminate|].
    apply row_shifted_cons in Hrel as [Hx Hrel].
    destruct (IH r2 mr Hrel) as [IH1 IH2]. split.
    + cbn [base.zip_with]. rewrite IH1. f_equal. destruct b; [reflexivity|].
      rewrite Hx by reflexivity. unfold Rminus. ring.
    + rewrite !fmap_cons. by rewrite IH2.
Qed.

End offset_facts.

Section offset_grid_facts.
Variable c : R.
Local Notation "'shift'" := (λ v : R, (v + c)%R).
Local Notation "'unmasked_of'" :=
  (λ (row : list R) (mrow : list bool),
     fst <$> filter (λ p : R * bool, p.2 = false) (zip row mrow)).
Local Notation "'centre' med" :=
  (λ (v : R) (b : bool), if b then 0%R else (v - med)%R) (at level 10, med at level 9).

Lemma rows_shifted (rows1 rows2 : list (list R)) (mrows : list (list bool)) :
  length rows2 = length rows1 → length mrows = length rows1 →
  (∀ (k : nat) r1 r2 mr,
     rows1 !! k = Some r1 → rows2 !! k = Some r2 → mrows !! k = Some mr →
     row_shifted c r1 r2 mr) →
  mjoin (base.zip_with unmasked_of rows2 mrows)
  = shift <$> mjoin (base.zip_with unmasked_of rows1 mrows)
  ∧ (∀ med : R,
       base.zip_with (base.zip_with (centre (med + c))) rows2 mrows
       = base.zip_with (base.zip_with (centre med)) rows1 mrows)
  ∧ (λ row : list R, (λ _ : R, 0%R) <$> row) <$> rows2
    = (λ row : list R, (λ _ : R, 0%R) <$> row) <$> rows1.
Proof.
  revert rows2 mrows. induction rows1 as [|r1 rows1 IH]; intros rows2 mrows H2 Hm Hrel.
  - destruct rows2; [|discriminate]. by destruct mrows.
  - destruct rows2 as [|r2 rows2]; [discriminate|].
    destruct mrows as [|mr mrows]; [discriminate|].
    pose proof (Hrel 0%nat r1 r2 mr eq_refl eq_refl eq_refl) as Hrow.
    destruct (IH rows2 mrows) as (IH1 & IH2 & IH3);
      [simpl in H2; lia|simpl in Hm; lia
      |intros k; exact (Hrel (S k))|].
    split; [|split].
    + cbn [base.zip_with].
      assert (∀ (x : list R) (ls : list (list R)), mjoin (x :: ls) = x ++ mjoin ls)
        as Hjoin by reflexivity.
      rewrite !Hjoin, fmap_app, IH1.
      by rewrite (row_shifted_unmasked c r1 r2 mr Hrow).
    + intros med. cbn [base.zip_with]. rewrite IH2.
      by rewrite (proj1 (row_shifted_centred c r1 r2 mr med Hrow)).
    + rewrite !fmap_cons, IH3.
      by rewrite (proj2 (row_shifted_centred c r1 r2 mr 0 Hrow)).
Qed.

Lemma ma_median_shift (m1 m2 : Np.marray R) :
  Np.compressed m2 = shift <$> Np.compressed m1 →
  ma_median m2 = shift <$> ma_median m1.
Proof.
  intros Hc. unfold ma_median. cbv zeta. rewrite Hc, sort_shift, length_fmap.
  destruct (Nat.eqb_spec (length (sort (Np.compressed m1))) 0) as [|Hn]; [reflexivity|].
  assert (length (sort (Np.compressed m1)) / 2 < length (sort (Np.compressed m1)))%nat
    as Hhalf by (apply Nat.div_lt; lia).
  destruct (Nat.even _); cbn [fmap option_fmap option_map]; f_equal;
    rewrite !nth_shift by lia; [lra|reflexivity].
Qed.

(** Two grids under one mask whose unmasked cells differ by the constant
    [c] have the same median-free field. *)
Lemma centred_shift (m1 m2 : Np.marray R) :
  Np.wfma m1 → Np.wfma m2 →
  Np.mask m2 = Np.mask m1 → Np.same_shape (Np.data m2) (Np.data m1) →
  (∀ (i j : nat) (v : R),
     Np.lookup2 (Np.mask m1) i j = Some false →
     Np.lookup2 (Np.data m1) i j = Some v →
     Np.lookup2 (Np.data m2) i j = Some (v + c)%R) →
  centred m2 = centred m1.
Proof.
  intros (Hd1 & Hk1 & Hr1 & Hc1) (Hd2 & Hk2 & Hr2 & Hc2) Hmask [Hs1 Hs2] Hcells.
  destruct Hd1 as [Hl1 Hf1], Hd2 as [Hl2 Hf2], Hk1 as [Hlk Hfk].
  rewrite Forall_lookup in Hf1, Hf2. rewrite Forall_lookup in Hfk.
  destruct (rows_shifted (Np.cells (Np.data m1)) (Np.cells (Np.data m2))
              (Np.cells (Np.mask m1))) as (Hcomp & Hcen & Hzero); [lia|lia| |].
  { intros k r1 r2 mr Hrow1 Hrow2 Hrowm.
    split; [rewrite (Hf1 _ _ Hrow1), (Hf2 _ _ Hrow2); lia|].
    split; [rewrite (Hf1 _ _ Hrow1), (Hfk _ _ Hrowm); lia|].
    intros j v Hb Hv.
    specialize (Hcells k j v). unfold Np.lookup2 in Hcells.
    rewrite Hrow1, Hrow2, Hrowm in Hcells. exact (Hcells Hb Hv). }
  assert (ma_median m2 = shift <$> ma_median m1) as Hmed.
  { apply ma_median_shift. unfold Np.compressed. rewrite Hmask. exact Hcomp. }
  unfold centred. rewrite Hmed.
  destruct (ma_median m1) as [med|]; simpl.
  - unfold Np.zip_with. rewrite Hmask, Hs1, Hs2. f_equal. apply Hcen.
  - unfold Np.map. rewrite Hs1, Hs2. f_equal. exact Hzero.
Qed.

End offset_grid_facts.

(** X4.  Over exact reals, [vertical] reads the unmasked cells only, and
    only up to an additive constant: two grids with one mask whose unmasked
    cells differ by a constant [c] (values under the mask are free) give the
    same result, or raise alike, for every padding size and sample
    interval.  The code rounds the median and the differences from it, so
    that for [c <> 0] its two results agree up to rounding only; which
    cells are read, the shape of the result and the error raised do not
    depend on the rounding. *)
Theorem vertical_offset_invariant (m1 m2 : Np.marray R) (c : R) (npts : option Z) (xint : Z) :
  Np.wfma m1 → Np.wfma m2 →
  Np.mask m2 = Np.mask m1 → Np.same_shape (Np.data m2) (Np.data m1) →
  (∀ (i j : nat) (v : R),
     Np.lookup2 (Np.mask m1) i j = Some false →
     Np.lookup2 (Np.data m1) i j = Some v →
     Np.lookup2 (Np.data m2) i j = Some (v + c)%R) →
  vertical m2 npts xint = vertical m1 npts xint.
Proof.
  intros H1 H2 Hmask Hshape Hcells.
  pose proof (centred_shift c m1 m2 H1 H2 Hmask Hshape Hcells) as Hcen.
  destruct Hshape as [Hs1 Hs2].
  unfold vertical, padded. cbv zeta. by rewrite Hcen, Hs1, Hs2.
Qed.

Lemma vertical_offset_invariant_witness :
  let m1 := Np.mkma (Np.mk 2 2 [[1; 2]; [3; 4]]%R)
                    (Np.mk 2 2 [[false; true]; [false; false]]) in
  let m2 := Np.mkma (Np.mk 2 2 [[11; 7]; [13; 14]]%R)
                    (Np.mk 2 2 [[false; true]; [false; false]]) in
  vertical m2 None 1 = vertical m1 None 1.
Proof.
  intros m1 m2.
  assert (∀ d k, Np.wfma (Np.mkma (Np.mk 2 2 d) (Np.mk 2 2 k)) ↔
                 (length d = 2%nat ∧ Forall (λ r : list R, length r = 2%nat) d)
                 ∧ (length k = 2%nat ∧ Forall (λ r : list bool, length r = 2%nat) k))
    as Hwf.
  { intros d k. unfold Np.wfma, Np.wf. simpl. tauto. }
  apply (vertical_offset_invariant m1 m2 10).
  - apply Hwf. repeat constructor.
  - apply Hwf. repeat constructor.
  - reflexivity.
  - split; reflexivity.
  - subst m1 m2.
    intros [|[|i]] [|[|j]] v Hb Hv; cbn in Hb, Hv; try discriminate;
      injection Hv as <-; cbn; f_equal; lra.
Defined.

(** ** The vertical derivative of a constant field *)

Lemma compressed_unmasked {A : Type} (m : Np.marray A) (x : A) :
  x ∈ Np.compressed m →
  ∃ r c, Np.lookup2 (Np.data m) r c = Some x ∧ Np.lookup2 (Np.mask m) r c = Some false.
Proof.
  unfold Np.compressed. intros (l & Hx & Hl)%list_elem_of_join.
  apply list_elem_of_lookup in Hl as [r Hr].
  apply lookup_zip_with_Some in Hr as (row & mrow & -> & Hrow & Hmrow).
  apply list_elem_of_fmap in Hx as ([y b] & -> & Hp).
  apply list_elem_of_filter in Hp as [Hb Hp]. simpl in Hb. subst b.
  apply list_elem_of_lookup in Hp as [c Hc].
  apply lookup_zip_with_Some in Hc as (y' & b' & [= -> ->] & Hy & Hb).
  exists r, c. unfold Np.lookup2. by rewrite Hrow, Hmrow.
Qed.

Lemma elem_of_insert_sorted (x y : R) (l : list R) :
  y ∈ insert_sorted x l → y = x ∨ y ∈ l.
Proof.
  induction l as [|z l IH]; simpl.
  - intros ->%list_elem_of_singleton. by left.
  - destruct (Rle_dec x z).
    + intros [->|H]%elem_of_cons; [by left|by right].
    + intros [->|H]%elem_of_cons; [right; left|].
      destruct (IH H) as [->|H']; [by left|right; by right].
Qed.

Lemma elem_of_sort (y : R) (l : list R) : y ∈ sort l → y ∈ l.
Proof.
  induction l as [|x l IH]; [done|].
  change (sort (x :: l)) with (insert_sorted x (sort l)).
  intros [->|H]%elem_of_insert_sorted; [left|right; by apply IH].
Qed.

Lemma nth_elem_of (l : list R) (k : nat) : (k < length l)%nat → nth k l 0%R ∈ l.
Proof.
  revert k. induction l as [|x l IH]; intros k Hk; [simpl in Hk; lia|].
  destruct k as [|k]; [left|right; apply IH; simpl in Hk; lia].
Qed.

(** The median of cells that all hold [k] is [k]. *)
Lemma ma_median_const (m : Np.marray R) (k med : R) :
  (∀ (i j : nat) (v : R),
     Np.lookup2 (Np.mask m) i j = Some false → Np.lookup2 (Np.data m) i j = Some v →
     v = k) →
  ma_median m = Some med → med = k.
Proof.
  intros Hconst. unfold ma_median. cbv zeta.
  set (s := sort (Np.compressed m)).
  assert (∀ y, y ∈ s → y = k) as Hs.
  { intros y Hy%elem_of_sort. apply compressed_unmasked in Hy as (r & c & Hv & Hb).
    by eapply Hconst. }
  destruct (Nat.eqb_spec (length s) 0) as [|Hn]; [discriminate|].
  assert (length s / 2 < length s)%nat as Hhalf by (apply Nat.div_lt; lia).
  destruct (Nat.even (length s)); intros Heq; apply (inj Some) in Heq; subst med.
  - rewrite (Hs (nth (length s / 2 - 1) s 0%R)) by (apply nth_elem_of; lia).
    rewrite (Hs (nth (length s / 2) s 0%R)) by (apply nth_elem_of; lia). lra.
  - apply Hs, nth_elem_of. lia.
Qed.

Lemma centred_const (m : Np.marray R) (k : R) :
  (∀ (i j : nat) (v : R),
     Np.lookup2 (Np.mask m) i j = Some false → Np.lookup2 (Np.data m) i j = Some v →
     v = k) →
  all_cells (λ v, v = 0%R) (centred m).
Proof.
  intros Hconst i j v Hv. unfold centred in Hv.
  destruct (ma_median m) as [med|] eqn:Hmed.
  - apply lookup2_zip_with in Hv as (x & b & Hx & Hb & ->).
    destruct b; [reflexivity|].
    rewrite (Hconst i j x Hb Hx), (ma_median_const m k med Hconst Hmed). lra.
  - by apply lookup2_map in Hv as (x & _ & ->).
Qed.

Section all_cells_facts.
Context {A : Type} (P : A → Prop).
Implicit Types (a : Np.ndarray A) (l : list A).

Lemma pad_edge1_elem {B : Type} (l : list B) (before after : Z) (l' : list B) (x : B) :
  pad_edge1 l before after = Some l' → x ∈ l' → x ∈ l.
Proof.
  unfold pad_edge1. destruct ((before <? 0)%Z || (after <? 0)%Z); [discriminate|].
  destruct l as [|y l].
  - destruct ((before =? 0)%Z && (after =? 0)%Z); [|discriminate]. by intros [= <-].
  - assert (List.last (y :: l) y ∈ y :: l) as Hlast.
    { destruct (List.exists_last (l := y :: l)) as (l0 & z & Hz); [done|].
      rewrite Hz, List.last_last. apply elem_of_app. right. left. }
    revert Hlast. generalize (List.last (y :: l) y). intros z Hz [= <-].
    intros [Hx|Hx]%elem_of_app.
    + apply elem_of_replicate in Hx as [-> _]. left.
    + change (x ∈ (y :: l) ++ replicate (Z.to_nat after) z) in Hx.
      apply elem_of_app in Hx as [Hx|Hx]; [exact Hx|].
      apply elem_of_replicate in Hx as [-> _]. exact Hz.
Qed.

Lemma all_cells_elem a :
  all_cells P a ↔ ∀ row x, row ∈ Np.cells a → x ∈ row → P x.
Proof.
  split.
  - intros Ha row x [i Hi]%list_elem_of_lookup [j Hj]%list_elem_of_lookup.
    apply (Ha i j). unfold Np.lookup2. by rewrite Hi.
  - intros Ha i j v Hv. apply bind_Some in Hv as (row & Hrow & Hv).
    eapply Ha; by eapply list_elem_of_lookup_2.
Qed.

Lemma all_cells_pad_edge a (rb ra cb ca : Z) (a' : Np.ndarray A) :
  pad_edge a rb ra cb ca = Some a' → all_cells P a → all_cells P a'.
Proof.
  unfold pad_edge. intros Hpad Ha.
  apply bind_Some in Hpad as (rows & Hrows & Hpad).
  apply bind_Some in Hpad as (rows' & Hmap & [= <-]).
  rewrite all_cells_elem in Ha. apply all_cells_elem. simpl. intros row' x Hrow' Hx.
  apply mapM_Some_1 in Hmap. apply list_elem_of_lookup in Hrow' as [i Hi].
  destruct (Forall2_lookup_r _ _ _ _ _ Hmap Hi) as (row & Hrow & Hp).
  apply (Ha row x).
  - eapply pad_edge1_elem; [exact Hrows|]. by eapply list_elem_of_lookup_2.
  - by eapply pad_edge1_elem.
Qed.

Lemma roll_elem {B : Type} (l : list B) (s : nat) (x : B) : x ∈ roll l s → x ∈ l.
Proof.
  unfold roll. intros [Hx|Hx]%elem_of_app.
  - apply list_elem_of_lookup in Hx as [k Hk]. rewrite lookup_drop in Hk.
    by eapply list_elem_of_lookup_2.
  - apply elem_of_take in Hx as (k & Hk & _). by eapply list_elem_of_lookup_2.
Qed.

Lemma all_cells_fftshift a : all_cells P a → all_cells P (fftshift a).
Proof.
  rewrite !all_cells_elem. intros Ha row x Hrow Hx.
  change (Np.cells (fftshift a)) with (fftshift1 (fftshift1 <$> Np.cells a)) in Hrow.
  apply roll_elem in Hrow. apply list_elem_of_fmap in Hrow as (row0 & -> & Hrow0).
  apply roll_elem in Hx. by eapply Ha.
Qed.

Lemma slice_elem {B : Type} (l : list B) (start stop : Z) (x : B) :
  x ∈ Py.slice l start stop → x ∈ l.
Proof.
  unfold Py.slice. intros (k & Hk & _)%elem_of_take.
  rewrite lookup_drop in Hk. by eapply list_elem_of_lookup_2.
Qed.

Lemma all_cells_slice2 a (r0 r1 c0 c1 : Z) :
  all_cells P a → all_cells P (Np.slice2 a r0 r1 c0 c1).
Proof.
  rewrite !all_cells_elem. intros Ha row x Hrow Hx. simpl in Hrow.
  apply list_elem_of_fmap in Hrow as (row0 & -> & Hrow0).
  apply slice_elem in Hrow0, Hx. by eapply Ha.
Qed.

End all_cells_facts.

Lemma sum_zero (l : list Cx.complex) :
  (∀ x, x ∈ l → x = Cx.zero) → Cx.sum l = Cx.zero.
Proof.
  induction l as [|x l IH]; intros Hl; [reflexivity|].
  change (Cx.sum (x :: l)) with (Cx.add x (Cx.sum l)).
  rewrite (Hl x) by left. rewrite IH by (intros y Hy; apply Hl; by right).
  unfold Cx.add, Cx.zero. simpl. f_equal; apply Rplus_0_l.
Qed.

Lemma mul_zero (e : Cx.complex) : Cx.mul Cx.zero e = Cx.zero.
Proof. unfold Cx.mul, Cx.zero. simpl. f_equal; ring. Qed.

Lemma zero_scale (x : R) : Cx.scale Cx.zero x = Cx.zero.
Proof. unfold Cx.scale, Cx.zero. simpl. f_equal; ring. Qed.

(** The transform of the zero array is the zero array. *)
Lemma dft2_zero (sign : R) (a : Np.ndarray Cx.complex) :
  all_cells (λ v, v = Cx.zero) a → all_cells (λ v, v = Cx.zero) (dft2 sign a).
Proof.
  intros Ha i j v Hv. unfold dft2 in Hv. cbv zeta in Hv.
  destruct (lookup2_lt _ _ _ _ (wf_tabulate _ _ _) Hv) as [Hi Hj]. simpl in Hi, Hj.
  rewrite lookup2_tabulate in Hv by assumption. apply (inj Some) in Hv. subst v.
  apply sum_zero. intros x (m & -> & _)%list_elem_of_fmap.
  apply sum_zero. intros y (n & -> & _)%list_elem_of_fmap.
  destruct (Np.lookup2 a m n) as [z|] eqn:Hz; simpl.
  - rewrite (Ha m n z Hz). apply mul_zero.
  - apply mul_zero.
Qed.

(** [vertical] of a grid whose unmasked cells all hold [k], with a padding
    size that lets it return. *)
Lemma vertical_const_spec (m : Np.marray R) (k : R) (npts xint : Z) :
  Np.wfma m →
  (0 < Np.nrows (Np.data m))%nat → (0 < Np.ncols (Np.data m))%nat →
  (Z.of_nat (Np.nrows (Np.data m)) ≤ npts)%Z →
  (Z.of_nat (Np.ncols (Np.data m)) ≤ npts)%Z →
  (xint * (npts - 1))%Z ≠ 0%Z →
  (∀ (i j : nat) (v : R),
     Np.lookup2 (Np.mask m) i j = Some false → Np.lookup2 (Np.data m) i j = Some v →
     v = k) →
  ∃ dz, vertical m (Some npts) xint = Some dz
        ∧ (Np.wf dz ∧ Np.same_shape dz (Np.data m))
        ∧ all_cells (λ v, v = 0%R) dz.
Proof.
  intros Hm Hnr Hnc Hr Hc Hx Hconst.
  destruct (vertical_spec m npts xint Hm Hnr Hnc Hr Hc Hx)
    as (data1 & fz & dz & Hpad & (Hw1 & Hr1 & Hc1) & Hfilt & (Hwfz & Hrz & Hcz)
        & Hbins & Hv & Hwdz & Hsh).
  exists dz. split; [exact Hv|]. split; [split; assumption|].
  assert (all_cells (λ v, v = 0%R) data1) as Hz1.
  { unfold padded in Hpad. cbv zeta in Hpad.
    eapply all_cells_pad_edge; [exact Hpad|]. by eapply centred_const. }
  set (f0 := fft2 (Np.map Cx.of_real data1)) in *.
  assert (all_cells (λ v, v = Cx.zero) (fftshift f0)) as Hzf.
  { apply all_cells_fftshift, dft2_zero.
    intros i j v (x & Hx' & ->)%lookup2_map. by rewrite (Hz1 i j x Hx'). }
  assert (all_cells (λ v, v = Cx.zero) fz) as Hzz.
  { intros i j v Hvz. destruct (lookup2_lt _ _ _ _ Hwfz Hvz) as [Hi Hj].
    destruct (Hbins (Z.of_nat i) (Z.of_nat j)) as (x & Hx1 & Hx2); [lia..|].
    assert (Np.wf (fftshift f0)) as Hws by (apply wf_fftshift, wf_tabulate).
    assert (Np.nrows (fftshift f0) = Np.nrows fz ∧ Np.ncols (fftshift f0) = Np.ncols fz)
      as [Hn1 Hn2] by (split; apply Nat2Z.inj; simpl; lia).
    rewrite get_nonneg, !Nat2Z.id in Hx1 by (rewrite ?Hn1, ?Hn2; lia).
    rewrite get_nonneg, !Nat2Z.id in Hx2 by lia.
    rewrite Hvz in Hx2. apply (inj Some) in Hx2. subst v.
    rewrite (Hzf i j x Hx1). apply zero_scale. }
  unfold vertical in Hv. cbv zeta in Hv.
  unfold padded in Hpad. cbv zeta in Hpad. unfold padded in Hv. cbv zeta in Hv.
  rewrite Hpad in Hv. cbn [mbind option_bind] in Hv.
  rewrite Hfilt in Hv. cbn [mbind option_bind] in Hv.
  apply (inj Some) in Hv. subst dz.
  intros i j v (z & Hz & ->)%lookup2_map.
  assert (z = Cx.zero) as ->; [|reflexivity].
  revert i j z Hz. apply all_cells_slice2.
  intros i j z (y & Hy & ->)%lookup2_map.
  assert (y = Cx.zero) as ->; [|apply zero_scale].
  revert i j y Hy. apply dft2_zero, all_cells_fftshift, Hzz.
Qed.

(** X5.  The vertical derivative of a constant field is zero: on a grid of
    more than one cell whose unmasked cells all hold the same value,
    [vertical] (default padding, [xint] not 0) returns an array of the
    input's shape in which every cell is exactly 0. *)
Theorem vertical_constant_zero (m : Np.marray R) (k : R) (xint : Z) :
  Np.wfma m →
  (0 < Np.nrows (Np.data m))%nat → (0 < Np.ncols (Np.data m))%nat →
  (2 ≤ Z.max (Z.of_nat (Np.nrows (Np.data m))) (Z.of_nat (Np.ncols (Np.data m))))%Z →
  xint ≠ 0%Z →
  (∀ (i j : nat) (v : R),
     Np.lookup2 (Np.mask m) i j = Some false → Np.lookup2 (Np.data m) i j = Some v →
     v = k) →
  ∃ dz, vertical m None xint = Some dz
        ∧ (Np.wf dz ∧ Np.shape dz = Np.shape (Np.data m))
        ∧ all_cells (λ v, v = 0%R) dz.
Proof.
  intros Hm Hnr Hnc Hmax Hx Hconst.
  destruct (default_npts_spec _ Hmax) as (q & Hq & Hq1 & Hcover).
  destruct (vertical_const_spec m k
              (pow2 (nextpow2 (Z.max (Z.of_nat (Np.nrows (Np.data m)))
                                     (Z.of_nat (Np.ncols (Np.data m))))))
              xint Hm Hnr Hnc) as (dz & Hv & [Hw [Hs1 Hs2]] & Hz);
    [rewrite Hq; lia|rewrite Hq; lia|rewrite Hq; nia|exact Hconst|].
  exists dz. split; [exact Hv|]. split; [|exact Hz].
  split; [exact Hw|]. unfold Np.shape. by rewrite Hs1, Hs2.
Qed.

Lemma vertical_constant_zero_witness :
  let m := Np.mkma (Np.mk 2 2 [[7; 3]; [7; 7]]%R)
                   (Np.mk 2 2 [[false; true]; [false; false]]) in
  ∃ dz, vertical m None 1 = Some dz
        ∧ (Np.wf dz ∧ Np.shape dz = (2, 2)%Z)
        ∧ all_cells (λ v, v = 0%R) dz.
Proof.
  intros m.
  assert (Np.wfma m) as Hm.
  { unfold Np.wfma, Np.wf. simpl. repeat split; repeat constructor. }
  apply (vertical_constant_zero m 7 1 Hm); [simpl; lia..|].
  subst m. intros [|[|i]] [|[|j]] v Hb Hv; cbn in Hb, Hv; try discriminate;
    by injection Hv as <-.
Defined.

(** ** The padding size *)

(** X6.  For [1 <= n <= 2^32], [int(2**nextpow2(n))] is the least power of
    two that is at least [n]; it is [n] itself when [n] is a power of two,
    and it is below [2n].  The bound keeps [n] where the double-precision
    logarithm of the code has the ceiling of the exact one: the logarithm
    of an [n] that is no power of two is then at least [2^-32] away from
    an integer, a distance a double below 32 resolves many times over. *)
Theorem nextpow2_least (n : Z) :
  (1 ≤ n ≤ 2 ^ 32)%Z →
  ∃ e, nextpow2 n = Some e ∧ (0 ≤ e)%Z
       ∧ pow2 (nextpow2 n) = (2 ^ e)%Z
       ∧ (n ≤ pow2 (nextpow2 n) < 2 * n)%Z
       ∧ (∀ k, (0 ≤ k)%Z → (n ≤ 2 ^ k)%Z → (pow2 (nextpow2 n) ≤ 2 ^ k)%Z)
       ∧ (∀ k, (0 ≤ k)%Z → n = (2 ^ k)%Z → pow2 (nextpow2 n) = n).
Proof.
  intros [Hn _]. unfold nextpow2. rewrite (proj2 (Z.ltb_lt 0 n)) by lia.
  exists (Z.log2_up n). split; [reflexivity|].
  pose proof (Z.log2_up_nonneg n) as Hnonneg. split; [exact Hnonneg|].
  split; [reflexivity|]. cbn [pow2].
  assert (n ≤ 2 ^ Z.log2_up n < 2 * n)%Z as Hbounds.
  { destruct (Z.eq_dec n 1%Z) as [->|Hne]; [rewrite Z.log2_up_1; simpl; lia|].
    destruct (Z.log2_up_spec n) as [Hlo Hhi]; [lia|]. split; [exact Hhi|].
    pose proof (Z.log2_up_pos n ltac:(lia)) as Hpos.
    replace (Z.log2_up n) with (Z.succ (Z.pred (Z.log2_up n))) by lia.
    rewrite Z.pow_succ_r by lia. lia. }
  split; [exact Hbounds|]. split.
  - intros k Hk Hle. apply Z.pow_le_mono_r; [lia|].
    by apply Z.log2_up_le_pow2; [lia|].
  - intros k Hk ->. by rewrite Z.log2_up_pow2.
Qed.

Lemma nextpow2_least_witness :
  ∃ e, nextpow2 5 = Some e ∧ (0 ≤ e)%Z
       ∧ pow2 (nextpow2 5) = (2 ^ e)%Z
       ∧ (5 ≤ pow2 (nextpow2 5) < 2 * 5)%Z
       ∧ (∀ k, (0 ≤ k)%Z → (5 ≤ 2 ^ k)%Z → (pow2 (nextpow2 5) ≤ 2 ^ k)%Z)
       ∧ (∀ k, (0 ≤ k)%Z → 5%Z = (2 ^ k)%Z → pow2 (nextpow2 5) = 5%Z).
Proof. apply (nextpow2_least 5). lia. Defined.

(** ** When [tilt1] raises *)

Lemma gradient1_small {X : Type} `{Inhabited X} (sub : X → X → X) (div : X → R → X)
    (l : list X) :
  (length l < 2)%nat → gradient1 sub div l = None.
Proof. intros Hl. unfold gradient1. cbv zeta. by rewrite (proj2 (Nat.ltb_lt _ _) Hl). Qed.

(** [np.gradient] raises on an array with fewer than two rows or two
    columns. *)
Lemma gradient_small {X : Type} `{Inhabited X} (sub : X → X → X) (div : X → R → X)
    (a : Np.ndarray X) :
  Np.wf a → (Np.nrows a < 2 ∨ Np.ncols a < 2)%nat → gradient sub div a = None.
Proof.
  intros [Hr Hc] Hsmall. unfold gradient.
  destruct (Nat.ltb_spec (length (Np.cells a)) 2) as [Hlt|Hge].
  - by rewrite gradient1_small.
  - destruct (gradient1_spec (base.zip_with sub) (λ row c, (λ x, div x c) <$> row)
                (Np.cells a)) as (d0 & -> & _); [lia|].
    bind_step. destruct (Np.cells a) as [|row rows]; [simpl in Hge; lia|].
    apply Forall_inv in Hc.
    cbn [mapM]. rewrite gradient1_small by lia. reflexivity.
Qed.

(** X7.  Without smoothing ([s <= 0]) [tilt1] returns exactly when the grid
    has at least two rows and two columns; on a thinner grid [np.gradient]
    raises [ValueError]. *)
Theorem tilt1_returns_iff (arctanh_re : Np.marray R → Np.marray R)
    (m : Np.marray R) (azi : R) (s : Z) :
  Np.wfma m → (s ≤ 0)%Z →
  (is_Some (tilt1 arctanh_re m azi s)
   ↔ (2 ≤ Np.nrows (Np.data m))%nat ∧ (2 ≤ Np.ncols (Np.data m))%nat).
Proof.
  intros Hm Hs. split.
  - intros [out Hout].
    destruct (le_lt_dec 2 (Np.nrows (Np.data m))) as [Hr|Hr];
      [destruct (le_lt_dec 2 (Np.ncols (Np.data m))) as [Hc|Hc]; [by split|]|];
      exfalso; unfold tilt1, tilt_angles, smoothed in Hout; cbv zeta in Hout;
      rewrite (proj2 (Z.ltb_ge 0 s)) in Hout by lia;
      cbn [mbind option_bind] in Hout; unfold ma_gradient in Hout;
      rewrite gradient_small in Hout; try discriminate.
    all: try (destruct Hm as (Hd & Hk & Hmr & Hmc);
              apply wf_zip_with;
              [apply wf_fill; [exact Hd|exact Hk|by split]|exact Hk|by split]).
    + right. exact Hc.
    + left. exact Hr.
  - intros [Hr Hc].
    destruct (tilt_angles_spec arctanh_re m azi s Hm) as (d & r & _ & Hang & _);
      [lia..|].
    unfold tilt1. rewrite Hang. by eexists.
Qed.

Lemma tilt1_returns_iff_witness :
  let m := unmasked (Np.mk 1 3 [[1; 2; 4]]%R) in
  is_Some (tilt1 (λ x, x) m 0 0) ↔ (2 ≤ 1)%nat ∧ (2 ≤ 3)%nat.
Proof.
  intros m.
  assert (Np.wfma m) as Hm.
  { split; [|split; [apply wf_full|split; reflexivity]].
    split; [reflexivity|]. repeat constructor. }
  exact (tilt1_returns_iff (λ x, x) m 0 0 Hm ltac:(lia)).
Defined.

(** ** Masked arrays, cell by cell *)

Lemma zip_fst_snd {A B : Type} (l : list (A * B)) :
  base.zip_with pair (fst <$> l) (snd <$> l) = l.
Proof. induction l as [|[x y] l IH]; [reflexivity|]. rewrite !fmap_cons. simpl. by rewrite IH. Qed.

Lemma cells_of_cells (c : Np.ndarray Ma.cell) : Ma.cells (Ma.of_cells c) = c.
Proof.
  destruct c as [nr nc rows]. unfold Ma.cells, Ma.of_cells, Np.zip_with, Np.map. simpl.
  f_equal. induction rows as [|row rows IH]; [reflexivity|].
  rewrite !fmap_cons. cbn [base.zip_with]. by rewrite IH, zip_fst_snd.
Qed.

Lemma cells_lift1 (f : Ma.cell → Ma.cell) (a : Np.marray R) :
  Ma.cells (Ma.lift1 f a) = Np.map f (Ma.cells a).
Proof. apply cells_of_cells. Qed.

Lemma cells_lift2 (f : Ma.cell → Ma.cell → Ma.cell) (a b : Np.marray R) :
  Ma.cells (Ma.lift2 f a b) = Np.zip_with f (Ma.cells a) (Ma.cells b).
Proof. apply cells_of_cells. Qed.

(** The value and the mask bit of a cell of [of_cells]. *)
Lemma lookup2_of_cells (c : Np.ndarray Ma.cell) (i j : nat) (v : R) (b : bool) :
  Np.lookup2 (Np.data (Ma.of_cells c)) i j = Some v →
  Np.lookup2 (Np.mask (Ma.of_cells c)) i j = Some b →
  Np.lookup2 c i j = Some (v, b).
Proof.
  unfold Ma.of_cells. cbn [Np.data Np.mask].
  intros ([v' b'] & Hc & ->)%lookup2_map ([v'' b''] & Hc' & ->)%lookup2_map.
  rewrite Hc in Hc'. by injection Hc' as <- <-.
Qed.

Lemma lookup2_map_Some {A B : Type} (f : A → B) (a : Np.ndarray A) (i j : nat) (x : A) :
  Np.lookup2 a i j = Some x → Np.lookup2 (Np.map f a) i j = Some (f x).
Proof.
  unfold Np.lookup2. simpl. intros (row & Hrow & Hx)%bind_Some.
  rewrite list_lookup_fmap, Hrow. simpl. by rewrite list_lookup_fmap, Hx.
Qed.

Lemma lookup2_data_of_cells (c : Np.ndarray Ma.cell) (i j : nat) (x : Ma.cell) :
  Np.lookup2 c i j = Some x →
  Np.lookup2 (Np.data (Ma.of_cells c)) i j = Some x.1
  ∧ Np.lookup2 (Np.mask (Ma.of_cells c)) i j = Some x.2.
Proof. intros Hx. split; by apply lookup2_map_Some. Qed.

(** The cells of an input array. *)
Lemma lookup2_cells (a : Np.marray R) (i j : nat) (x : Ma.cell) :
  Np.lookup2 (Ma.cells a) i j = Some x →
  Np.lookup2 (Np.data a) i j = Some x.1 ∧ Np.lookup2 (Np.mask a) i j = Some x.2.
Proof. by intros (v & b & Hv & Hb & ->)%lookup2_zip_with. Qed.

(** ** [np.gradient], cell by cell *)

(** A central difference inside, a one-sided difference at the ends. *)
Lemma gradient1_lookup {B : Type} `{Inhabited B} (sub : B → B → B) (div : B → R → B)
    (l l' : list B) (k : nat) (y : B) :
  gradient1 sub div l = Some l' → l' !! k = Some y →
  (k < length l)%nat ∧ (2 ≤ length l)%nat
  ∧ ((0 < k < length l - 1)%nat →
     y = div (sub (l !!! (k + 1)%nat) (l !!! (k - 1)%nat)) 2%R).
Proof.
  unfold gradient1. cbv zeta.
  destruct (Nat.ltb_spec (length l) 2) as [|Hlen]; [discriminate|].
  intros Hl'. apply (inj Some) in Hl'. subst l'.
  rewrite list_lookup_fmap. intros (i & [-> Hi]%lookup_seq & ->)%fmap_Some.
  split; [lia|]. split; [lia|]. intros Hk. simpl.
  destruct (Nat.eqb_spec k 0); [lia|].
  destruct (Nat.eqb_spec k (length l - 1)); [lia|]. reflexivity.
Qed.

Section gradient_cells.
Context {X : Type} `{Inhabited X}.
Implicit Types (sub : X → X → X) (div : X → R → X) (a : Np.ndarray X).

(** Every cell of a derivative is a difference of two cells of the array,
    divided by 1 or 2. *)
Lemma gradient_cells sub div a (d0 d1 : Np.ndarray X) :
  gradient sub div a = Some (d0, d1) →
  ∀ (i j : nat) (y : X),
    Np.lookup2 d0 i j = Some y ∨ Np.lookup2 d1 i j = Some y →
    ∃ (x1 x2 : X) (c : R),
      (∃ i1 j1, Np.lookup2 a i1 j1 = Some x1)
      ∧ (∃ i2 j2, Np.lookup2 a i2 j2 = Some x2)
      ∧ y = div (sub x1 x2) c.
Proof.
  unfold gradient. intros Hg.
  apply bind_Some in Hg as (r0 & Hr0 & Hg). apply bind_Some in Hg as (r1 & Hr1 & Hg).
  injection Hg as <- <-. intros i j y [Hy|Hy].
  - apply bind_Some in Hy as (row & Hrow & Hy). cbn [Np.cells] in Hrow.
    assert (2 ≤ length (Np.cells a))%nat as Hlen.
    { unfold gradient1 in Hr0. cbv zeta in Hr0.
      by destruct (Nat.ltb_spec (length (Np.cells a)) 2). }
    destruct (gradient1_spec (base.zip_with sub) (λ row c, (λ x, div x c) <$> row)
                (Np.cells a) Hlen) as (l' & Hl' & _ & Hrows).
    rewrite Hr0 in Hl'. apply (inj Some) in Hl'. subst l'.
    destruct (Hrows i row Hrow) as (ra & rb & c & Hra & Hrb & ->).
    rewrite list_lookup_fmap in Hy. apply fmap_Some in Hy as (z & Hz & ->).
    apply lookup_zip_with_Some in Hz as (x1 & x2 & -> & Hx1 & Hx2).
    apply list_elem_of_lookup in Hra as [ia Hia]. apply list_elem_of_lookup in Hrb as [ib Hib].
    exists x1, x2, c. split; [|split; [|reflexivity]].
    + exists ia, j. unfold Np.lookup2. by rewrite Hia.
    + exists ib, j. unfold Np.lookup2. by rewrite Hib.
  - apply bind_Some in Hy as (row' & Hrow' & Hy). cbn [Np.cells] in Hrow'.
    apply mapM_Some_1 in Hr1.
    destruct (Forall2_lookup_r _ _ _ _ _ Hr1 Hrow') as (row & Hrow & Hgr).
    assert (2 ≤ length row)%nat as Hlen.
    { unfold gradient1 in Hgr. cbv zeta in Hgr.
      by destruct (Nat.ltb_spec (length row) 2). }
    destruct (gradient1_spec sub div row Hlen) as (l' & Hl' & _ & Hcells).
    rewrite Hgr in Hl'. apply (inj Some) in Hl'. subst l'.
    destruct (Hcells j y Hy) as (x1 & x2 & c & Hx1 & Hx2 & ->).
    apply list_elem_of_lookup in Hx1 as [j1 Hj1]. apply list_elem_of_lookup in Hx2 as [j2 Hj2].
    exists x1, x2, c. split; [|split; [|reflexivity]].
    + exists i, j1. unfold Np.lookup2. by rewrite Hrow.
    + exists i, j2. unfold Np.lookup2. by rewrite Hrow.
Qed.

(** Inside the array the derivative along the rows is the central
    difference of the cells above and below, and the derivative along the
    columns the central difference of the cells left and right. *)
Lemma gradient_interior sub div a (d0 d1 : Np.ndarray X) (i j : nat) (y : X) :
  Np.wf a → gradient sub div a = Some (d0, d1) →
  (Np.lookup2 d0 i j = Some y → (0 < i < Np.nrows a - 1)%nat →
   ∃ x1 x2, Np.lookup2 a (i + 1) j = Some x1 ∧ Np.lookup2 a (i - 1) j = Some x2
            ∧ y = div (sub x1 x2) 2%R)
  ∧ (Np.lookup2 d1 i j = Some y → (0 < j < Np.ncols a - 1)%nat →
     ∃ x1 x2, Np.lookup2 a i (j + 1) = Some x1 ∧ Np.lookup2 a i (j - 1) = Some x2
              ∧ y = div (sub x1 x2) 2%R).
Proof.
  intros [Hr Hc] Hg. unfold gradient in Hg.
  apply bind_Some in Hg as (r0 & Hr0 & Hg). apply bind_Some in Hg as (r1 & Hr1 & Hg).
  injection Hg as <- <-. rewrite Forall_lookup in Hc. split.
  - intros Hy Hi. apply bind_Some in Hy as (row & Hrow & Hy). cbn [Np.cells] in Hrow.
    destruct (gradient1_lookup _ _ _ _ _ _ Hr0 Hrow) as (_ & _ & Hmid).
    rewrite Hmid in Hy by lia.
    rewrite list_lookup_fmap in Hy. apply fmap_Some in Hy as (z & Hz & ->).
    apply lookup_zip_with_Some in Hz as (x1 & x2 & -> & Hx1 & Hx2).
    destruct (lookup_lt_is_Some_2 (Np.cells a) (i + 1)) as [ra Hra]; [lia|].
    destruct (lookup_lt_is_Some_2 (Np.cells a) (i - 1)) as [rb Hrb]; [lia|].
    rewrite (list_lookup_total_correct _ _ _ Hra) in Hx1.
    rewrite (list_lookup_total_correct _ _ _ Hrb) in Hx2.
    exists x1, x2. unfold Np.lookup2. by rewrite Hra, Hrb.
  - intros Hy Hj. apply bind_Some in Hy as (row' & Hrow' & Hy). cbn [Np.cells] in Hrow'.
    apply mapM_Some_1 in Hr1.
    destruct (Forall2_lookup_r _ _ _ _ _ Hr1 Hrow') as (row & Hrow & Hgr).
    pose proof (Hc _ _ Hrow) as Hlen.
    destruct (gradient1_lookup _ _ _ _ _ _ Hgr Hy) as (_ & _ & Hmid).
    destruct (lookup_lt_is_Some_2 row (j + 1)) as [x1 Hx1]; [lia|].
    destruct (lookup_lt_is_Some_2 row (j - 1)) as [x2 Hx2]; [lia|].
    exists x1, x2. unfold Np.lookup2. rewrite Hrow. cbn [mbind option_bind].
    split; [exact Hx1|]. split; [exact Hx2|].
    rewrite Hmid by lia.
    by rewrite (list_lookup_total_correct _ _ _ Hx1), (list_lookup_total_correct _ _ _ Hx2).
Qed.

End gradient_cells.

(** ** The directional derivative *)

(** What [numpy.ma] leaves unmasked is the plain result. *)
Lemma binary_unmasked (f : R → R → R) (x y : Ma.cell) (v : R) :
  Ma.binary f x y = (v, false) → x.2 = false ∧ y.2 = false ∧ v = f x.1 y.1.
Proof.
  destruct x as [x [|]], y as [y [|]]; unfold Ma.binary; simpl; intros Heq;
    try discriminate. injection Heq as <-. by repeat split.
Qed.

Lemma true_divide_unmasked (x y : Ma.cell) (v : R) :
  Ma.true_divide x y = (v, false) → x.2 = false ∧ y.2 = false ∧ v = (x.1 / y.1)%R.
Proof.
  destruct x as [x [|]], y as [y [|]]; unfold Ma.true_divide; simpl; intros Heq;
    try discriminate.
  destruct (Ma.unsafe x y); [discriminate|]. injection Heq as <-. by repeat split.
Qed.

Lemma directed_like (m dx dy : Np.marray R) (azi : R) :
  like m dx → like m dy → like m (directed dx dy azi).
Proof. intros Hx Hy. unfold directed. auto 12 with tilt. Qed.

(** A cell of [-dy*sin(azi) - dx*cos(azi)] from the cells of [dx] and [dy]. *)
Lemma directed_cell (dx dy : Np.marray R) (azi : R) (i j : nat) (v : R) (b : bool) :
  Np.lookup2 (Np.data (directed dx dy azi)) i j = Some v →
  Np.lookup2 (Np.mask (directed dx dy azi)) i j = Some b →
  ∃ cx cy, Np.lookup2 (Ma.cells dx) i j = Some cx ∧ Np.lookup2 (Ma.cells dy) i j = Some cy
    ∧ Ma.binary Rminus (Ma.binary Rmult (ufunc1 Ropp cy) (sin azi, false))
        (Ma.binary Rmult cx (cos azi, false)) = (v, b).
Proof.
  intros Hv Hb. unfold directed, Ma.lift2 in Hv, Hb.
  pose proof (lookup2_of_cells _ _ _ _ _ Hv Hb) as Hc.
  apply lookup2_zip_with in Hc as (p & q & Hp & Hq & Hc).
  unfold Ma.scalar in Hp, Hq. rewrite cells_lift1 in Hp, Hq.
  apply lookup2_map in Hp as (p' & Hp' & ->). rewrite cells_lift1 in Hp'.
  apply lookup2_map in Hp' as (cy & Hcy & ->).
  apply lookup2_map in Hq as (cx & Hcx & ->).
  exists cx, cy. split; [exact Hcx|]. split; [exact Hcy|]. symmetry. exact Hc.
Qed.

Lemma directed_cell_Some (dx dy : Np.marray R) (azi : R) (i j : nat) (cx cy : Ma.cell) :
  Np.lookup2 (Ma.cells dx) i j = Some cx → Np.lookup2 (Ma.cells dy) i j = Some cy →
  let c := Ma.binary Rminus (Ma.binary Rmult (ufunc1 Ropp cy) (sin azi, false))
             (Ma.binary Rmult cx (cos azi, false)) in
  Np.lookup2 (Np.data (directed dx dy azi)) i j = Some c.1
  ∧ Np.lookup2 (Np.mask (directed dx dy azi)) i j = Some c.2.
Proof.
  intros Hcx Hcy c. unfold directed, Ma.lift2. apply lookup2_data_of_cells.
  unfold Ma.scalar. rewrite !cells_lift1. apply lookup2_zip_with_Some.
  - apply (lookup2_map_Some (λ x, Ma.binary Rmult x (sin azi, false))).
    by apply (lookup2_map_Some (ufunc1 Ropp)).
  - by apply (lookup2_map_Some (λ x, Ma.binary Rmult x (cos azi, false))).
Qed.

(** A cell that the directional derivative leaves unmasked. *)
Lemma directed_unmasked (cx cy : Ma.cell) (s c v : R) :
  Ma.binary Rminus (Ma.binary Rmult (ufunc1 Ropp cy) (s, false))
    (Ma.binary Rmult cx (c, false)) = (v, false) →
  cx.2 = false ∧ cy.2 = false ∧ v = (- cy.1 * s - cx.1 * c)%R.
Proof.
  intros (H1 & H2 & ->)%binary_unmasked.
  destruct cx as [x [|]], cy as [y [|]]; simpl in *; try discriminate.
  by repeat split.
Qed.

(** The two functions return on a grid with two rows and two columns, and
    raise on a thinner one. *)
Lemma gradients_spec (m : Np.marray R) (azi : R) (order : nat) :
  Np.wfma m → (2 ≤ Np.nrows (Np.data m))%nat → (2 ≤ Np.ncols (Np.data m))%nat →
  ∃ d0 d1,
    gradient (Ma.binary Rminus) (λ x c, Ma.true_divide x (c, false)) (Ma.cells m)
      = Some (d0, d1)
    ∧ like m (Ma.of_cells d0) ∧ like m (Ma.of_cells d1)
    ∧ gradients m azi
      = Some (directed (Ma.of_cells d0) (Ma.of_cells d1) (deg2rad azi))
    ∧ derivative_ratio m azi order
      = Some (Ma.lift2 (ufunc2 arctan2)
                (directed (Ma.of_cells d0) (Ma.of_cells d1) (deg2rad azi))
                (Ma.lift1 (ma_power order)
                   (Ma.lift1 (ufunc1 Rabs)
                      (directed (Ma.of_cells d0) (Ma.of_cells d1)
                         (deg2rad azi + PI / 2))))).
Proof.
  intros Hm Hr Hc. destruct (wf_cells m Hm) as [Hw [Hs1 Hs2]].
  destruct (gradient_spec (Ma.binary Rminus) (λ x c, Ma.true_divide x (c, false))
              (Ma.cells m) Hw) as (d0 & d1 & Hg & [Hw0 Hs0] & [Hw1 Hs1']); [lia..|].
  exists d0, d1. split; [exact Hg|].
  split; [by apply like_of_cells|]. split; [by apply like_of_cells|].
  unfold gradients, derivative_ratio, ma_gradient. cbv zeta. rewrite Hg.
  split; reflexivity.
Qed.

Lemma gradients_small (m : Np.marray R) (azi : R) (order : nat) :
  Np.wfma m → (Np.nrows (Np.data m) < 2 ∨ Np.ncols (Np.data m) < 2)%nat →
  gradients m azi = None ∧ derivative_ratio m azi order = None.
Proof.
  intros Hm Hsmall. destruct (wf_cells m Hm) as [Hw [Hs1 Hs2]].
  unfold gradients, derivative_ratio, ma_gradient. cbv zeta.
  rewrite gradient_small; [split; reflexivity|exact Hw|lia].
Qed.

(** X8.  [gradients] returns exactly when the grid has at least two rows and
    two columns (on a thinner grid [np.gradient] raises [ValueError]), and
    what it returns is a masked array of the shape of the grid. *)
Theorem gradients_returns_iff (m : Np.marray R) (azi : R) :
  Np.wfma m →
  (is_Some (gradients m azi)
   ↔ (2 ≤ Np.nrows (Np.data m))%nat ∧ (2 ≤ Np.ncols (Np.data m))%nat)
  ∧ ∀ g, gradients m azi = Some g →
      Np.wfma g ∧ Np.same_shape (Np.data g) (Np.data m).
Proof.
  intros Hm.
  destruct (le_lt_dec 2 (Np.nrows (Np.data m))) as [Hr|Hr];
    [destruct (le_lt_dec 2 (Np.ncols (Np.data m))) as [Hc|Hc]|].
  - destruct (gradients_spec m azi 1 Hm Hr Hc) as (d0 & d1 & _ & H0 & H1 & Hg & _).
    split; [split; [by intros _|intros _; rewrite Hg; by eexists]|].
    intros g Hg'. rewrite Hg in Hg'. apply (inj Some) in Hg'. subst g.
    by apply (directed_like m).
  - destruct (gradients_small m azi 1 Hm) as [Hg _]; [right; exact Hc|].
    rewrite Hg. split; [|intros g; discriminate].
    split; [intros [g Hg']; discriminate|lia].
  - destruct (gradients_small m azi 1 Hm) as [Hg _]; [left; exact Hr|].
    rewrite Hg. split; [|intros g; discriminate].
    split; [intros [g Hg']; discriminate|lia].
Qed.

Lemma gradients_returns_iff_witness :
  let m := unmasked (Np.mk 2 3 [[1; 2; 4]; [0; 3; 5]]%R) in
  (is_Some (gradients m 45) ↔ (2 ≤ 2)%nat ∧ (2 ≤ 3)%nat)
  ∧ ∀ g, gradients m 45 = Some g →
      Np.wfma g ∧ Np.same_shape (Np.data g) (Np.data m).
Proof.
  intros m.
  assert (Np.wfma m) as Hm.
  { split; [|split; [apply wf_full|split; reflexivity]].
    split; [reflexivity|]. repeat constructor. }
  exact (gradients_returns_iff m 45 Hm).
Defined.

(** X9.  The directional derivative of a flat field is zero: on a grid whose
    cells that are not masked all hold one value, every cell that
    [gradients] leaves unmasked holds 0, for every azimuth. *)
Theorem gradients_flat (m : Np.marray R) (azi k : R) :
  Np.wfma m → (2 ≤ Np.nrows (Np.data m))%nat → (2 ≤ Np.ncols (Np.data m))%nat →
  (∀ i j v, Np.lookup2 (Np.data m) i j = Some v →
            Np.lookup2 (Np.mask m) i j = Some false → v = k) →
  ∃ g, gradients m azi = Some g
    ∧ ∀ i j v, Np.lookup2 (Np.data g) i j = Some v →
               Np.lookup2 (Np.mask g) i j = Some false → v = 0%R.
Proof.
  intros Hm Hr Hc Hflat.
  destruct (gradients_spec m azi 1 Hm Hr Hc) as (d0 & d1 & Hg & _ & _ & Hgr & _).
  eexists. split; [exact Hgr|]. intros i j v Hv Hb.
  destruct (directed_cell _ _ _ _ _ _ _ Hv Hb) as (cx & cy & Hcx & Hcy & Hcell).
  apply directed_unmasked in Hcell as (Hmx & Hmy & ->).
  rewrite cells_of_cells in Hcx, Hcy.
  assert (∀ c : Ma.cell, Np.lookup2 d0 i j = Some c ∨ Np.lookup2 d1 i j = Some c →
                         c.2 = false → c.1 = 0%R) as Hzero.
  { intros c Hlook Hcm.
    destruct (gradient_cells _ _ _ _ _ Hg i j c Hlook)
      as (x1 & x2 & c' & (i1 & j1 & Hx1) & (i2 & j2 & Hx2) & Hc').
    destruct c as [cv cb]. simpl in Hcm. subst cb. symmetry in Hc'.
    destruct (Ma.binary Rminus x1 x2) as [sv sb] eqn:Hs.
    apply true_divide_unmasked in Hc' as (Hsub & _ & Hcv). simpl in Hsub. subst sb.
    apply binary_unmasked in Hs as (Hb1 & Hb2 & Hsv).
    apply lookup2_cells in Hx1 as [Hx1 Hm1]. apply lookup2_cells in Hx2 as [Hx2 Hm2].
    rewrite Hb1 in Hm1. rewrite Hb2 in Hm2.
    rewrite (Hflat _ _ _ Hx1 Hm1), (Hflat _ _ _ Hx2 Hm2) in Hsv.
    cbn [fst] in Hcv |- *. rewrite Hcv, Hsv. unfold Rdiv.
    rewrite Rminus_diag. apply Rmult_0_l. }
  rewrite (Hzero cx (or_introl Hcx) Hmx), (Hzero cy (or_intror Hcy) Hmy). lra.
Qed.

Lemma gradients_flat_witness :
  let m := Np.mkma (Np.mk 2 3 [[7; 7; 7]; [7; 9; 7]]%R)
             (Np.mk 2 3 [[false; false; false]; [false; true; false]]) in
  ∃ g, gradients m 30 = Some g
    ∧ ∀ i j v, Np.lookup2 (Np.data g) i j = Some v →
               Np.lookup2 (Np.mask g) i j = Some false → v = 0%R.
Proof.
  intros m.
  assert (Np.wfma m) as Hm.
  { split; [|split; [|split; reflexivity]]; (split; [reflexivity|repeat constructor]). }
  apply (gradients_flat m 30 7 Hm); [simpl; lia..|].
  intros i j v Hv Hb.
  destruct i as [|[|i]]; [destruct j as [|[|[|j]]]..|]; simpl in Hv, Hb;
    try discriminate; by injection Hv as <-.
Defined.

(** A difference quotient that [numpy.ma] leaves unmasked. *)
Lemma quotient_unmasked (x1 x2 y : Ma.cell) (c : R) :
  y = Ma.true_divide (Ma.binary Rminus x1 x2) (c, false) → y.2 = false →
  x1.2 = false ∧ x2.2 = false ∧ y.1 = ((x1.1 - x2.1) / c)%R.
Proof.
  intros Hy Hm. destruct y as [v b]. simpl in Hm. subst b. symmetry in Hy.
  destruct (Ma.binary Rminus x1 x2) as [sv sb] eqn:Hs.
  apply true_divide_unmasked in Hy as (Hsub & _ & Hv). simpl in Hsub. subst sb.
  apply binary_unmasked in Hs as (H1 & H2 & Hsv).
  split; [exact H1|]. split; [exact H2|]. cbn [fst] in Hv |- *. by rewrite Hv, Hsv.
Qed.

Lemma deg2rad_half_turn (azi : R) : deg2rad (azi + 180) = (deg2rad azi + PI)%R.
Proof. unfold deg2rad. field. Qed.

(** X10.  Turning the azimuth by 180 degrees reverses the directional
    derivative: [gradients] masks the same cells, and every cell it leaves
    unmasked holds the opposite value. *)
Theorem gradients_half_turn (m : Np.marray R) (azi : R) :
  Np.wfma m → (2 ≤ Np.nrows (Np.data m))%nat → (2 ≤ Np.ncols (Np.data m))%nat →
  ∃ g g', gradients m azi = Some g ∧ gradients m (azi + 180) = Some g'
    ∧ ∀ i j v b, Np.lookup2 (Np.data g) i j = Some v →
                 Np.lookup2 (Np.mask g) i j = Some b →
        Np.lookup2 (Np.mask g') i j = Some b
        ∧ (b = false → Np.lookup2 (Np.data g') i j = Some (- v)%R).
Proof.
  intros Hm Hr Hc.
  destruct (gradients_spec m azi 1 Hm Hr Hc) as (d0 & d1 & Hg & _ & _ & Hgr & _).
  destruct (gradients_spec m (azi + 180) 1 Hm Hr Hc) as (e0 & e1 & Hg' & _ & _ & Hgr' & _).
  rewrite Hg in Hg'. injection Hg' as <- <-.
  eexists _, _. split; [exact Hgr|]. split; [exact Hgr'|].
  intros i j v b Hv Hb.
  destruct (directed_cell _ _ _ _ _ _ _ Hv Hb) as (cx & cy & Hcx & Hcy & Hcell).
  destruct (directed_cell_Some _ _ (deg2rad (azi + 180)) _ _ _ _ Hcx Hcy) as [Hv' Hb'].
  rewrite Hv', Hb'. rewrite deg2rad_half_turn, neg_sin, neg_cos.
  destruct cx as [x [|]], cy as [y [|]]; unfold Ma.binary, ufunc1 in Hcell |- *;
    simpl in Hcell |- *; injection Hcell as <- <-;
    (split; [reflexivity|intros Hf; try discriminate]).
  f_equal. lra.
Qed.

Lemma gradients_half_turn_witness :
  let m := Np.mkma (Np.mk 2 3 [[1; 2; 4]; [0; 3; 5]]%R)
             (Np.mk 2 3 [[false; false; false]; [false; true; false]]) in
  ∃ g g', gradients m 30 = Some g ∧ gradients m (30 + 180) = Some g'
    ∧ ∀ i j v b, Np.lookup2 (Np.data g) i j = Some v →
                 Np.lookup2 (Np.mask g) i j = Some b →
        Np.lookup2 (Np.mask g') i j = Some b
        ∧ (b = false → Np.lookup2 (Np.data g') i j = Some (- v)%R).
Proof.
  intros m.
  assert (Np.wfma m) as Hm.
  { split; [|split; [|split; reflexivity]]; (split; [reflexivity|repeat constructor]). }
  apply (gradients_half_turn m 30 Hm); simpl; lia.
Defined.

(** X11.  Away from the border, a cell that [gradients] leaves unmasked has
    its four neighbours unmasked, and holds minus the central difference
    along its row times [sin azi] minus the central difference along its
    column times [cos azi], the azimuth taken in degrees. *)
Theorem gradients_interior (m : Np.marray R) (azi : R) :
  Np.wfma m → (2 ≤ Np.nrows (Np.data m))%nat → (2 ≤ Np.ncols (Np.data m))%nat →
  ∃ g, gradients m azi = Some g
    ∧ ∀ i j v,
        (0 < i < Np.nrows (Np.data m) - 1)%nat → (0 < j < Np.ncols (Np.data m) - 1)%nat →
        Np.lookup2 (Np.data g) i j = Some v → Np.lookup2 (Np.mask g) i j = Some false →
        ∃ up down left right,
          (Np.lookup2 (Np.data m) (i - 1) j = Some up
           ∧ Np.lookup2 (Np.mask m) (i - 1) j = Some false)
          ∧ (Np.lookup2 (Np.data m) (i + 1) j = Some down
             ∧ Np.lookup2 (Np.mask m) (i + 1) j = Some false)
          ∧ (Np.lookup2 (Np.data m) i (j - 1) = Some left
             ∧ Np.lookup2 (Np.mask m) i (j - 1) = Some false)
          ∧ (Np.lookup2 (Np.data m) i (j + 1) = Some right
             ∧ Np.lookup2 (Np.mask m) i (j + 1) = Some false)
          ∧ v = (- ((right - left) / 2) * sin (azi * (PI / 180))
                 - (down - up) / 2 * cos (azi * (PI / 180)))%R.
Proof.
  intros Hm Hr Hc. destruct (wf_cells m Hm) as [Hw [Hs1 Hs2]].
  destruct (gradients_spec m azi 1 Hm Hr Hc) as (d0 & d1 & Hg & _ & _ & Hgr & _).
  eexists. split; [exact Hgr|]. intros i j v Hi Hj Hv Hb.
  destruct (directed_cell _ _ _ _ _ _ _ Hv Hb) as (cx & cy & Hcx & Hcy & Hcell).
  apply directed_unmasked in Hcell as (Hmx & Hmy & ->).
  rewrite cells_of_cells in Hcx, Hcy.
  destruct (gradient_interior _ _ _ _ _ i j cx Hw Hg) as [H0 _].
  destruct (gradient_interior _ _ _ _ _ i j cy Hw Hg) as [_ H1].
  destruct (H0 Hcx) as (xd & xu & Hxd & Hxu & Ecx); [rewrite Hs1; exact Hi|].
  destruct (H1 Hcy) as (xr & xl & Hxr & Hxl & Ecy); [rewrite Hs2; exact Hj|].
  destruct (quotient_unmasked _ _ _ _ Ecx Hmx) as (Md & Mu & ->).
  destruct (quotient_unmasked _ _ _ _ Ecy Hmy) as (Mr & Ml & ->).
  apply lookup2_cells in Hxd as [Dd Bd]. apply lookup2_cells in Hxu as [Du Bu].
  apply lookup2_cells in Hxr as [Dr Br]. apply lookup2_cells in Hxl as [Dl Bl].
  rewrite Md in Bd. rewrite Mu in Bu. rewrite Mr in Br. rewrite Ml in Bl.
  exists xu.1, xd.1, xl.1, xr.1. unfold deg2rad.
  split; [split; assumption|]. split; [split; assumption|].
  split; [split; assumption|]. split; [split; assumption|]. reflexivity.
Qed.

Lemma gradients_interior_witness :
  let m := unmasked (Np.mk 3 3 [[1; 2; 4]; [0; 3; 5]; [2; 2; 8]]%R) in
  ∃ g, gradients m 30 = Some g
    ∧ ∀ i j v,
        (0 < i < 3 - 1)%nat → (0 < j < 3 - 1)%nat →
        Np.lookup2 (Np.data g) i j = Some v → Np.lookup2 (Np.mask g) i j = Some false →
        ∃ up down left right,
          (Np.lookup2 (Np.data m) (i - 1) j = Some up
           ∧ Np.lookup2 (Np.mask m) (i - 1) j = Some false)
          ∧ (Np.lookup2 (Np.data m) (i + 1) j = Some down
             ∧ Np.lookup2 (Np.mask m) (i + 1) j = Some false)
          ∧ (Np.lookup2 (Np.data m) i (j - 1) = Some left
             ∧ Np.lookup2 (Np.mask m) i (j - 1) = Some false)
          ∧ (Np.lookup2 (Np.data m) i (j + 1) = Some right
             ∧ Np.lookup2 (Np.mask m) i (j + 1) = Some false)
          ∧ v = (- ((right - left) / 2) * sin (30 * (PI / 180))
                 - (down - up) / 2 * cos (30 * (PI / 180)))%R.
Proof.
  intros m.
  assert (Np.wfma m) as Hm.
  { split; [|split; [apply wf_full|split; reflexivity]].
    split; [reflexivity|]. repeat constructor. }
  apply (gradients_interior m 30 Hm); simpl; lia.
Defined.

(** ** The derivative ratio *)

(** With a second argument that is not negative, [arctan2] stays within a
    quarter turn. *)
Lemma arctan2_nonneg (y x : R) :
  (0 <= x)%R → (- PI / 2 <= arctan2 y x <= PI / 2)%R.
Proof.
  intros Hx. pose proof PI_RGT_0 as Hpi. unfold arctan2.
  destruct (Rlt_dec 0 x); [pose proof (atan_bound (y / x)); lra|].
  destruct (Rlt_dec x 0); [lra|].
  destruct (Rlt_dec 0 y); [lra|]. destruct (Rlt_dec y 0); lra.
Qed.

Lemma arctan2_pos (y x : R) : (0 < x)%R → arctan2 y x = atan (y / x).
Proof. intros Hx. unfold arctan2. destruct (Rlt_dec 0 x); [reflexivity|lra]. Qed.

Lemma ma_power_abs_nonneg (order : nat) (x : Ma.cell) :
  (0 <= (ma_power order (ufunc1 Rabs x)).1)%R.
Proof.
  destruct x as [x [|]]; unfold ma_power, ufunc1; simpl.
  - apply Rabs_pos.
  - apply pow_le, Rabs_pos.
Qed.

(** A cell of the derivative ratio from the cells of the two directional
    derivatives. *)
Lemma ratio_cell (dt1 dt2 : Np.marray R) (order : nat) (i j : nat) (c : Ma.cell) :
  Np.lookup2
    (Ma.cells (Ma.lift2 (ufunc2 arctan2) dt1
                 (Ma.lift1 (ma_power order) (Ma.lift1 (ufunc1 Rabs) dt2)))) i j = Some c →
  ∃ p q, Np.lookup2 (Ma.cells dt1) i j = Some p ∧ Np.lookup2 (Ma.cells dt2) i j = Some q
    ∧ c = ufunc2 arctan2 p (ma_power order (ufunc1 Rabs q)).
Proof.
  rewrite cells_lift2, !cells_lift1.
  intros (p & q' & Hp & Hq' & ->)%lookup2_zip_with.
  apply lookup2_map in Hq' as (q'' & Hq'' & ->).
  apply lookup2_map in Hq'' as (q & Hq & ->).
  by exists p, q.
Qed.

(** X12.  [derivative_ratio] returns exactly when the grid has at least two
    rows and two columns; what it returns has the shape of the grid, and
    every cell of it, masked or not, holds an angle between [-pi/2] and
    [pi/2], for every azimuth and order. *)
Theorem derivative_ratio_range (m : Np.marray R) (azi : R) (order : nat) :
  Np.wfma m →
  (is_Some (derivative_ratio m azi order)
   ↔ (2 ≤ Np.nrows (Np.data m))%nat ∧ (2 ≤ Np.ncols (Np.data m))%nat)
  ∧ ∀ dr, derivative_ratio m azi order = Some dr →
      Np.wfma dr ∧ Np.same_shape (Np.data dr) (Np.data m)
      ∧ ∀ i j v, Np.lookup2 (Np.data dr) i j = Some v → (- PI / 2 <= v <= PI / 2)%R.
Proof.
  intros Hm.
  destruct (le_lt_dec 2 (Np.nrows (Np.data m))) as [Hr|Hr];
    [destruct (le_lt_dec 2 (Np.ncols (Np.data m))) as [Hc|Hc]|].
  - destruct (gradients_spec m azi order Hm Hr Hc) as (d0 & d1 & _ & H0 & H1 & _ & Hdr).
    split; [split; [by intros _|intros _; rewrite Hdr; by eexists]|].
    intros dr Hdr'. rewrite Hdr in Hdr'. apply (inj Some) in Hdr'. subst dr.
    pose proof (directed_like m _ _ (deg2rad azi) H0 H1) as L1.
    pose proof (directed_like m _ _ (deg2rad azi + PI / 2) H0 H1) as L2.
    assert (like m (Ma.lift2 (ufunc2 arctan2)
                      (directed (Ma.of_cells d0) (Ma.of_cells d1) (deg2rad azi))
                      (Ma.lift1 (ma_power order)
                         (Ma.lift1 (ufunc1 Rabs)
                            (directed (Ma.of_cells d0) (Ma.of_cells d1)
                               (deg2rad azi + PI / 2)))))) as [Hw Hs].
    { auto 12 with tilt. }
    split; [exact Hw|]. split; [exact Hs|].
    intros i j v Hv. unfold Ma.lift2 at 1, Ma.of_cells in Hv. cbn [Np.data] in Hv.
    apply lookup2_map in Hv as (c & Hc' & ->).
    fold (Ma.cells (Ma.lift1 (ma_power order)
                      (Ma.lift1 (ufunc1 Rabs)
                         (directed (Ma.of_cells d0) (Ma.of_cells d1)
                            (deg2rad azi + PI / 2))))) in Hc'.
    apply lookup2_zip_with in Hc' as (p & q' & _ & Hq' & ->).
    rewrite !cells_lift1 in Hq'.
    apply lookup2_map in Hq' as (q'' & Hq'' & ->).
    apply lookup2_map in Hq'' as (q & _ & ->).
    unfold ufunc2 at 1. cbn [fst]. apply arctan2_nonneg, ma_power_abs_nonneg.
  - destruct (gradients_small m azi order Hm) as [_ Hg]; [right; exact Hc|].
    rewrite Hg. split; [|intros g; discriminate].
    split; [intros [g Hg']; discriminate|lia].
  - destruct (gradients_small m azi order Hm) as [_ Hg]; [left; exact Hr|].
    rewrite Hg. split; [|intros g; discriminate].
    split; [intros [g Hg']; discriminate|lia].
Qed.

Lemma derivative_ratio_range_witness :
  let m := Np.mkma (Np.mk 2 3 [[1; 2; 4]; [0; 3; 5]]%R)
             (Np.mk 2 3 [[false; false; false]; [false; true; false]]) in
  (is_Some (derivative_ratio m 30 1) ↔ (2 ≤ 2)%nat ∧ (2 ≤ 3)%nat)
  ∧ ∀ dr, derivative_ratio m 30 1 = Some dr →
      Np.wfma dr ∧ Np.same_shape (Np.data dr) (Np.data m)
      ∧ ∀ i j v, Np.lookup2 (Np.data dr) i j = Some v → (- PI / 2 <= v <= PI / 2)%R.
Proof.
  intros m.
  assert (Np.wfma m) as Hm.
  { split; [|split; [|split; reflexivity]]; (split; [reflexivity|repeat constructor]). }
  exact (derivative_ratio_range m 30 1 Hm).
Defined.

Lemma deg2rad_quarter_turn (azi : R) : deg2rad (azi + 90) = (deg2rad azi + PI / 2)%R.
Proof. unfold deg2rad. field. Qed.

(** X13.  The derivative ratio is made of two directional derivatives: a
    cell that [derivative_ratio] leaves unmasked is unmasked in
    [gradients] at the azimuth and at the azimuth plus 90 degrees, and holds
    [arctan2(a, |b|^order)] of their values [a] and [b], which is
    [atan(a / |b|^order)] when [b] is not 0. *)
Theorem derivative_ratio_of_gradients (m : Np.marray R) (azi : R) (order : nat) :
  Np.wfma m → (2 ≤ Np.nrows (Np.data m))%nat → (2 ≤ Np.ncols (Np.data m))%nat →
  ∃ g g' dr,
    gradients m azi = Some g ∧ gradients m (azi + 90) = Some g'
    ∧ derivative_ratio m azi order = Some dr
    ∧ ∀ i j v, Np.lookup2 (Np.data dr) i j = Some v →
               Np.lookup2 (Np.mask dr) i j = Some false →
        ∃ a b,
          (Np.lookup2 (Np.data g) i j = Some a ∧ Np.lookup2 (Np.mask g) i j = Some false)
          ∧ (Np.lookup2 (Np.data g') i j = Some b
             ∧ Np.lookup2 (Np.mask g') i j = Some false)
          ∧ v = arctan2 a (Rabs b ^ order)
          ∧ (b ≠ 0%R → v = atan (a / Rabs b ^ order)).
Proof.
  intros Hm Hr Hc.
  destruct (gradients_spec m azi order Hm Hr Hc) as (d0 & d1 & Hg & _ & _ & Hgr & Hdr).
  destruct (gradients_spec m (azi + 90) order Hm Hr Hc)
    as (e0 & e1 & Hg' & _ & _ & Hgr' & _).
  rewrite Hg in Hg'. injection Hg' as <- <-. rewrite deg2rad_quarter_turn in Hgr'.
  eexists _, _, _. split; [exact Hgr|]. split; [exact Hgr'|]. split; [exact Hdr|].
  intros i j v Hv Hb.
  pose proof (lookup2_of_cells _ _ _ _ _ Hv Hb) as Hcell.
  rewrite <- (cells_of_cells (Np.zip_with _ _ _)) in Hcell.
  apply ratio_cell in Hcell as (p & q & Hp & Hq & Hcell).
  apply lookup2_cells in Hp as [Hpv Hpm]. apply lookup2_cells in Hq as [Hqv Hqm].
  destruct p as [a [|]]; [discriminate|]. destruct q as [b [|]]; [discriminate|].
  unfold ufunc2, ma_power, ufunc1 in Hcell. simpl in Hcell. injection Hcell as ->.
  exists a, b. split; [split; assumption|]. split; [split; assumption|].
  split; [reflexivity|]. intros Hb0. apply arctan2_pos, pow_lt, Rabs_pos_lt, Hb0.
Qed.

Lemma derivative_ratio_of_gradients_witness :
  let m := Np.mkma (Np.mk 2 3 [[1; 2; 4]; [0; 3; 5]]%R)
             (Np.mk 2 3 [[false; false; false]; [false; true; false]]) in
  ∃ g g' dr,
    gradients m 30 = Some g ∧ gradients m (30 + 90) = Some g'
    ∧ derivative_ratio m 30 2 = Some dr
    ∧ ∀ i j v, Np.lookup2 (Np.data dr) i j = Some v →
               Np.lookup2 (Np.mask dr) i j = Some false →
        ∃ a b,
          (Np.lookup2 (Np.data g) i j = Some a ∧ Np.lookup2 (Np.mask g) i j = Some false)
          ∧ (Np.lookup2 (Np.data g') i j = Some b
             ∧ Np.lookup2 (Np.mask g') i j = Some false)
          ∧ v = arctan2 a (Rabs b ^ 2)
          ∧ (b ≠ 0%R → v = atan (a / Rabs b ^ 2)).
Proof.
  intros m.
  assert (Np.wfma m) as Hm.
  { split; [|split; [|split; reflexivity]]; (split; [reflexivity|repeat constructor]). }
  apply (derivative_ratio_of_gradients m 30 2 Hm); simpl; lia.
Defined.

(** ** The tilt angles of a flat field *)

Lemma foldr_const (f : R → R → R) (k : R) (l : list R) :
  f k k = k → (∀ x, x ∈ l → x = k) → foldr f k l = k.
Proof.
  intros Hf. induction l as [|x l IH]; intros Hl; [reflexivity|]. simpl.
  rewrite IH by (intros y Hy; apply Hl; by right). rewrite (Hl x) by left. exact Hf.
Qed.

Lemma extreme_const (f : R → R → R) (m : Np.marray R) (k y : R) :
  f k k = k → (∀ x, x ∈ Np.compressed m → x = k) → y ∈ Np.compressed m →
  Ma.extreme f m = Some k.
Proof.
  intros Hf Hall Hy. unfold Ma.extreme.
  destruct (Np.compressed m) as [|x l]; [by apply elem_of_nil in Hy|].
  rewrite (Hall x) by left. f_equal. apply foldr_const; [exact Hf|].
  intros z Hz. apply Hall. by right.
Qed.

(** Lines 582-585 on a flat field: the mid-range value is the value of the
    field, so that the filled grid holds one value. *)
Lemma fill_flat (m : Np.marray R) (k : R) :
  (∀ (i j : nat) (v : R),
     Np.lookup2 (Np.mask m) i j = Some false → Np.lookup2 (Np.data m) i j = Some v →
     v = k) →
  ∀ dm, dm = match Ma.extreme Rmin m, Ma.extreme Rmax m with
             | Some dmin, Some dmax => (0.5 * (dmin + dmax))%R
             | _, _ => 0%R
             end →
  all_cells (λ v, v = dm) (Np.fill (Np.data m) (Np.mask m) dm).
Proof.
  intros Hflat dm Hdm i j v Hv. unfold Np.fill in Hv.
  apply lookup2_zip_with in Hv as (y & b & Hy & Hb & ->).
  destruct b; [reflexivity|].
  pose proof (Hflat i j y Hb Hy) as ->.
  assert (∀ x, x ∈ Np.compressed m → x = k) as Hall.
  { intros x (r & c & Hx & Hxb)%compressed_unmasked. by eapply Hflat. }
  pose proof (compressed_elem m i j k Hy Hb) as Hin.
  rewrite (extreme_const Rmin m k k) in Hdm; [|apply Rmin_left; lra|exact Hall|exact Hin].
  rewrite (extreme_const Rmax m k k) in Hdm; [|apply Rmax_left; lra|exact Hall|exact Hin].
  rewrite Hdm. lra.
Qed.

Lemma Rsum_const (l : list R) (v : R) :
  (∀ x, x ∈ l → x = v) → Rsum l = (INR (length l) * v)%R.
Proof.
  unfold Rsum. induction l as [|x l IH]; intros Hl.
  - simpl. lra.
  - cbn [foldr]. rewrite IH by (intros y Hy; apply Hl; by right).
    rewrite (Hl x) by left. cbn [length]. rewrite S_INR. lra.
Qed.

(** The mean over a window that lies inside a flat array is the value of the
    array. *)
Lemma convolve_flat (a : Np.ndarray R) (c : R) (s : Z) (nr nc : nat) :
  Np.wf a → all_cells (λ v, v = c) a → (0 < s)%Z →
  (Z.of_nat nr + s - 1 ≤ Z.of_nat (Np.nrows a))%Z →
  (Z.of_nat nc + s - 1 ≤ Z.of_nat (Np.ncols a))%Z →
  all_cells (λ v, v = c) (convolve a s (s - 1) nr nc).
Proof.
  intros Hw Ha Hs Hnr Hnc i j v Hv. unfold convolve in Hv.
  destruct (lookup2_lt _ _ _ _ (wf_tabulate nr nc _) Hv) as [Hi Hj].
  simpl in Hi, Hj. rewrite lookup2_tabulate in Hv by assumption.
  apply (inj Some) in Hv. subst v.
  assert (length (seqZ 0 s) = Z.to_nat s) as Hlen by apply length_seqZ.
  assert (INR (Z.to_nat s) = IZR s) as Hinr by (rewrite INR_IZR_INZ, Z2Nat.id; [reflexivity|lia]).
  assert (IZR s ≠ 0%R) as Hs0 by (apply not_0_IZR; lia).
  rewrite (Rsum_const _ (IZR s * (c * (1 / IZR (s * s))))%R).
  - rewrite length_fmap, Hlen, Hinr, mult_IZR. field. exact Hs0.
  - intros x (p & -> & Hp)%list_elem_of_fmap. apply elem_of_seqZ in Hp.
    rewrite (Rsum_const _ (c * (1 / IZR (s * s)))%R).
    + by rewrite length_fmap, Hlen, Hinr.
    + intros y (q & -> & Hq)%list_elem_of_fmap. apply elem_of_seqZ in Hq.
      f_equal. unfold at0.
      rewrite (proj2 (Z.leb_le 0 _)), (proj2 (Z.leb_le 0 _)) by lia. cbn [andb].
      destruct (lookup2_is_Some a (Z.to_nat (Z.of_nat i + (s - 1) - p))
                  (Z.to_nat (Z.of_nat j + (s - 1) - q)) Hw) as [z Hz]; [lia..|].
      rewrite Hz. simpl. exact (Ha _ _ _ Hz).
Qed.

(** The grid that lines 582-593 hand to the derivatives holds one value. *)
Lemma smoothed_flat (m : Np.marray R) (s : Z) (k : R) :
  Np.wfma m →
  (Z.max 1 s + 1 ≤ Z.of_nat (Np.nrows (Np.data m)))%Z →
  (Z.max 1 s + 1 ≤ Z.of_nat (Np.ncols (Np.data m)))%Z →
  (∀ (i j : nat) (v : R),
     Np.lookup2 (Np.mask m) i j = Some false → Np.lookup2 (Np.data m) i j = Some v →
     v = k) →
  ∃ d c, smoothed m s = Some d ∧ all_cells (λ v, v = c) (Np.data d).
Proof.
  intros Hm Hnr Hnc Hflat.
  destruct (smoothed_spec m s Hm Hnr Hnc) as (d & Hsm & _).
  exists d. pose proof Hsm as Hsm'. unfold smoothed in Hsm. cbv zeta in Hsm.
  pose proof (fill_flat m k Hflat _ eq_refl) as Hfill.
  revert Hsm Hfill.
  match goal with |- context [Np.fill _ _ ?x] => generalize x end. intros dm Hsm Hfill.
  exists dm. split; [exact Hsm'|]. clear Hsm'. destruct Hm as (Hd & Hk & Hmr & Hmc).
  assert (Np.wf (Np.fill (Np.data m) (Np.mask m) dm)) as Hwf
    by (apply wf_fill; [exact Hd|exact Hk|by split]).
  destruct (0 <? s)%Z eqn:Hs.
  - apply Z.ltb_lt in Hs. unfold convolve2d_valid in Hsm. cbv zeta in Hsm.
    cbn [Np.data Np.mask] in Hsm.
    destruct ((s <=? Z.of_nat (Np.nrows (Np.fill (Np.data m) (Np.mask m) dm)))%Z
              && (s <=? Z.of_nat (Np.ncols (Np.fill (Np.data m) (Np.mask m) dm)))%Z);
      [|discriminate].
    cbn [mbind option_bind] in Hsm.
    destruct ((s <=? Z.of_nat (Np.nrows (Np.map (λ b : bool, if b then 1%R else 0%R)
                                           (Np.mask m))))%Z
              && (s <=? Z.of_nat (Np.ncols (Np.map (λ b : bool, if b then 1%R else 0%R)
                                              (Np.mask m))))%Z);
      [|discriminate].
    cbn [mbind option_bind] in Hsm. apply (inj Some) in Hsm. subst d. cbn [Np.data].
    apply convolve_flat; [exact Hwf|exact Hfill|exact Hs|simpl; lia..].
  - apply (inj Some) in Hsm. subst d. exact Hfill.
Qed.

(** Properties of cells carried through the operations of [numpy.ma]. *)
Lemma all_cells_lift1 (P Q : Ma.cell → Prop) (f : Ma.cell → Ma.cell) (a : Np.marray R) :
  (∀ x, P x → Q (f x)) → all_cells P (Ma.cells a) → all_cells Q (Ma.cells (Ma.lift1 f a)).
Proof.
  intros Hf Ha i j v. rewrite cells_lift1. intros (x & Hx & ->)%lookup2_map.
  apply Hf. exact (Ha _ _ _ Hx).
Qed.

Lemma all_cells_lift2 (P1 P2 Q : Ma.cell → Prop) (f : Ma.cell → Ma.cell → Ma.cell)
    (a b : Np.marray R) :
  (∀ x y, P1 x → P2 y → Q (f x y)) →
  all_cells P1 (Ma.cells a) → all_cells P2 (Ma.cells b) →
  all_cells Q (Ma.cells (Ma.lift2 f a b)).
Proof.
  intros Hf Ha Hb i j v. rewrite cells_lift2.
  intros (x & y & Hx & Hy & ->)%lookup2_zip_with.
  apply Hf; [exact (Ha _ _ _ Hx)|exact (Hb _ _ _ Hy)].
Qed.

Lemma all_cells_unmasked (P : R → Prop) (a : Np.ndarray R) :
  all_cells P a → all_cells (λ c, P c.1 ∧ c.2 = false) (Ma.cells (unmasked a)).
Proof.
  intros Ha i j v. unfold Ma.cells, unmasked. cbn [Np.data Np.mask].
  intros (x & b & Hx & Hb & ->)%lookup2_zip_with. apply lookup2_full in Hb.
  split; [exact (Ha _ _ _ Hx)|exact Hb].
Qed.

Lemma all_cells_mask (a : Np.marray R) :
  Np.wfma a → all_cells (λ c, c.2 = true) (Ma.cells a) →
  all_cells (λ b, b = true) (Np.mask a).
Proof.
  intros (Hd & Hk & Hr & Hc) Ha i j b Hb.
  destruct (lookup2_lt _ _ _ _ Hk Hb) as [Hi Hj].
  destruct (lookup2_is_Some (Np.data a) i j Hd) as [v Hv]; [lia..|].
  exact (Ha i j (v, b) (lookup2_zip_with_Some pair _ _ _ _ _ _ Hv Hb)).
Qed.

(** Cells that are masked or hold 0, through the arithmetic of the tilt
    angles. *)
Lemma moz_binary (f : R → R → R) (x y : Ma.cell) :
  f 0%R 0%R = 0%R → masked_or_zero x → masked_or_zero y →
  masked_or_zero (Ma.binary f x y).
Proof.
  intros Hf Hx Hy. destruct x as [x [|]]; [by left|]. destruct y as [y [|]]; [by left|].
  destruct Hx as [|Hx]; [discriminate|]. destruct Hy as [|Hy]; [discriminate|].
  simpl in Hx, Hy. subst x y. right. exact Hf.
Qed.

Lemma moz_scalar (x : Ma.cell) (c : R) :
  masked_or_zero x → masked_or_zero (Ma.binary Rmult x (c, false)).
Proof.
  intros Hx. destruct x as [x [|]]; [by left|].
  destruct Hx as [|Hx]; [discriminate|]. simpl in Hx. subst x.
  right. apply Rmult_0_l.
Qed.

Lemma moz_sqrt (x : Ma.cell) : masked_or_zero x → masked_or_zero (Ma.sqrt x).
Proof.
  intros Hx. destruct x as [x [|]]; [by left|].
  destruct Hx as [|Hx]; [discriminate|]. simpl in Hx. subst x.
  unfold Ma.sqrt. simpl. destruct (Rlt_dec 0 0) as [Hlt|_]; [lra|].
  right. apply sqrt_0.
Qed.

Lemma moz_zero (x : Ma.cell) : x.1 = 0%R ∧ x.2 = false → masked_or_zero x.
Proof. intros [Hx _]. by right. Qed.

Lemma tiny_pos : (0 < Ma.tiny)%R.
Proof. unfold Ma.tiny. apply Rinv_0_lt_compat, pow_lt. lra. Qed.

(** A quotient by 0 is masked, and so is a quotient of cells that are
    masked or hold 0. *)
Lemma divide_by_zero_masked (x y : Ma.cell) :
  y.1 = 0%R → (Ma.true_divide x y).2 = true.
Proof.
  intros Hy. unfold Ma.true_divide. cbn [snd]. unfold Ma.unsafe. rewrite Hy, Rabs_R0.
  destruct (Rle_dec 0 (Rabs x.1 * Ma.tiny)) as [_|Hn]; [apply orb_true_r|].
  exfalso. apply Hn. apply Rmult_le_pos; [apply Rabs_pos|]. pose proof tiny_pos. lra.
Qed.

Lemma divide_moz_masked (x y : Ma.cell) :
  masked_or_zero x → masked_or_zero y → (Ma.true_divide x y).2 = true.
Proof.
  intros Hx [Hy|Hy]; [|by apply divide_by_zero_masked].
  unfold Ma.true_divide. cbn [snd]. rewrite Hy. destruct x.2; reflexivity.
Qed.

(** On a flat grid every difference quotient is masked or 0. *)
Lemma gradient_flat (d : Np.marray R) (c : R) (d0 d1 : Np.ndarray Ma.cell) :
  all_cells (λ v, v = c) (Np.data d) →
  gradient (Ma.binary Rminus) (λ x c, Ma.true_divide x (c, false)) (Ma.cells d)
    = Some (d0, d1) →
  all_cells masked_or_zero d0 ∧ all_cells masked_or_zero d1.
Proof.
  intros Hd Hg.
  assert (∀ i j y, Np.lookup2 d0 i j = Some y ∨ Np.lookup2 d1 i j = Some y →
                   masked_or_zero y) as Hall.
  { intros i j y Hy.
    destruct (gradient_cells _ _ _ _ _ Hg i j y Hy)
      as (x1 & x2 & c' & (i1 & j1 & Hx1) & (i2 & j2 & Hx2) & ->).
    apply lookup2_cells in Hx1 as [Hx1 _]. apply lookup2_cells in Hx2 as [Hx2 _].
    pose proof (Hd _ _ _ Hx1) as E1. pose proof (Hd _ _ _ Hx2) as E2.
    destruct x1 as [v1 b1], x2 as [v2 b2]. simpl in E1, E2. subst v1 v2.
    unfold masked_or_zero, Ma.true_divide, Ma.binary. cbn [fst snd].
    destruct b1; [by left|]. destruct b2; [by left|]. cbn [orb].
    destruct (Ma.unsafe (c - c) c'); [by left|]. right.
    unfold Rdiv. rewrite Rminus_diag. apply Rmult_0_l. }
  split; intros i j y Hy; apply (Hall i j y); [by left|by right].
Qed.

(** X14.  The tilt angles of a flat field are undefined, and [tilt1] masks
    them: on a grid whose cells that are not masked all hold one value,
    every cell of the five results is masked, for every azimuth and
    smoothing size that leave two rows and two columns. *)
Theorem tilt1_flat_masked (arctanh_re : Np.marray R → Np.marray R)
    (m : Np.marray R) (azi : R) (s : Z) (k : R) :
  Np.wfma m →
  (Z.max 1 s + 1 ≤ Z.of_nat (Np.nrows (Np.data m)))%Z →
  (Z.max 1 s + 1 ≤ Z.of_nat (Np.ncols (Np.data m)))%Z →
  (∀ (i j : nat) (v : R),
     Np.lookup2 (Np.mask m) i j = Some false → Np.lookup2 (Np.data m) i j = Some v →
     v = k) →
  ∃ out, tilt1 arctanh_re m azi s = Some out
    ∧ (Np.wfma (t1 out) ∧ (2 ≤ Np.nrows (Np.data (t1 out)))%nat
       ∧ (2 ≤ Np.ncols (Np.data (t1 out)))%nat)
    ∧ all_cells (λ b, b = true) (Np.mask (t1 out))
    ∧ all_cells (λ b, b = true) (Np.mask (th out))
    ∧ all_cells (λ b, b = true) (Np.mask (t2 out))
    ∧ all_cells (λ b, b = true) (Np.mask (ta out))
    ∧ all_cells (λ b, b = true) (Np.mask (tdx out)).
Proof.
  intros Hm Hnr Hnc Hflat.
  destruct (smoothed_flat m s k Hm Hnr Hnc Hflat) as (d & c & Hsm & Hd).
  destruct (smoothed_spec m s Hm Hnr Hnc) as (d' & Hsm' & Hwd & Hr2 & Hc2).
  rewrite Hsm in Hsm'. apply (inj Some) in Hsm'. subst d'.
  destruct (tilt_angles_spec arctanh_re m azi s Hm Hnr Hnc)
    as (d' & r & Hsm' & Hang & (L1 & _ & La & Lx) & _).
  rewrite Hsm in Hsm'. apply (inj Some) in Hsm'. subst d'.
  unfold tilt1. rewrite Hang. cbn [mbind option_bind]. eexists. split; [reflexivity|].
  cbn [t1 th t2 ta tdx Np.mask].
  split; [destruct L1 as [Hw [-> ->]]; by split|].
  unfold tilt_angles in Hang. rewrite Hsm in Hang. cbn [mbind option_bind] in Hang.
  cbv zeta in Hang. unfold ma_gradient in Hang.
  destruct (gradient (Ma.binary Rminus) (λ x c, Ma.true_divide x (c, false)) (Ma.cells d))
    as [[d0 d1]|] eqn:Hg; [|discriminate].
  cbn [mbind option_bind fst snd] in Hang.
  destruct (gradient_flat d c d0 d1 Hd Hg) as [Hy Hx].
  rewrite <- (cells_of_cells d0) in Hy. rewrite <- (cells_of_cells d1) in Hx.
  set (npts := pow2 (nextpow2 (Z.max (Z.of_nat (Np.nrows (Np.data d)))
                                     (Z.of_nat (Np.ncols (Np.data d)))))) in *.
  destruct (default_npts_spec (Z.max (Z.of_nat (Np.nrows (Np.data d)))
                                     (Z.of_nat (Np.ncols (Np.data d)))))
    as (q & Hq & Hq1 & Hcover); [lia|]. fold npts in Hq.
  destruct (vertical_const_spec d c npts 1 Hwd) as (dz & Hv & _ & Hz); [lia..| |].
  { intros i j v _ Hv. exact (Hd _ _ _ Hv). }
  rewrite Hv in Hang. cbn [mbind option_bind] in Hang.
  destruct (gradient Rminus Rdiv _) as [ds|] in Hang; [|discriminate].
  cbn [mbind option_bind] in Hang.
  destruct (vertical (unmasked _) (Some npts) 1) as [dzs|] in Hang; [|discriminate].
  cbn [mbind option_bind] in Hang. apply (inj Some) in Hang. subst r.
  cbn [t1 th t2 ta tdx] in L1, La, Lx |- *.
  pose proof (all_cells_unmasked _ _ Hz) as Hzc.
  set (dxtot := Ma.lift1 Ma.sqrt _) in L1, Lx |- *.
  assert (all_cells masked_or_zero (Ma.cells dxtot)) as Htot.
  { apply (all_cells_lift1 masked_or_zero); [apply moz_sqrt|].
    apply (all_cells_lift2 masked_or_zero masked_or_zero);
      [intros x y; apply moz_binary; lra| |];
      apply (all_cells_lift2 masked_or_zero masked_or_zero); try assumption;
      intros x y; apply moz_binary; lra. }
  assert (all_cells (λ b, b = true) (Np.mask
            (Ma.lift1 (Ma.unary atan) (Ma.lift2 Ma.true_divide (unmasked dz) dxtot))))
    as Ht1.
  { apply all_cells_mask; [exact (proj1 L1)|].
    apply (all_cells_lift1 (λ x, x.2 = true)); [intros x Hx'; exact Hx'|].
    apply (all_cells_lift2 (λ x, x.1 = 0%R ∧ x.2 = false) masked_or_zero);
      [|exact Hzc|exact Htot].
    intros x y Hx' Hy'. apply divide_moz_masked; [by apply moz_zero|exact Hy']. }
  split; [exact Ht1|]. split; [exact Ht1|]. split; [exact Ht1|]. split.
  - apply all_cells_mask; [exact (proj1 La)|].
    apply (all_cells_lift1 (λ x, x.2 = true)); [intros x Hx'; exact Hx'|].
    apply (all_cells_lift2 masked_or_zero masked_or_zero);
      [intros x y; apply divide_moz_masked| |].
    + apply (all_cells_lift2 masked_or_zero masked_or_zero);
        [intros x y; apply moz_binary; lra| |];
        (apply (all_cells_lift1 masked_or_zero); [|assumption]);
        intros x Hx'; apply moz_scalar; exact Hx'.
    + apply (all_cells_lift1 masked_or_zero); [apply moz_sqrt|].
      apply (all_cells_lift2 masked_or_zero (λ x, x.1 = 0%R ∧ x.2 = false));
        [intros x y Hx' Hy'; apply moz_binary; [lra|exact Hx'|by apply moz_zero]| |].
      * apply (all_cells_lift2 masked_or_zero masked_or_zero);
          [intros x y; apply moz_binary; lra| |];
          apply (all_cells_lift2 masked_or_zero masked_or_zero);
          try (intros x y; apply moz_binary; lra);
          (apply (all_cells_lift1 masked_or_zero); [|assumption]);
          intros x Hx'; apply moz_scalar; exact Hx'.
      * apply (all_cells_unmasked (λ v, v = 0%R)).
        intros i j v (x & y & Hx' & Hy' & ->)%lookup2_zip_with.
        rewrite (Hz _ _ _ Hx'). apply Rmult_0_l.
  - apply all_cells_mask; [exact (proj1 Lx)|].
    apply (all_cells_lift1 (λ x, x.2 = true)); [intros x Hx'; exact Hx'|].
    apply (all_cells_lift2 masked_or_zero (λ x, x.1 = 0%R ∧ x.2 = false));
      [intros x y _ [Hy' _]; by apply divide_by_zero_masked|exact Htot|].
    apply (all_cells_unmasked (λ v, v = 0%R)).
    intros i j v (x & Hx' & ->)%lookup2_map. rewrite (Hz _ _ _ Hx'). apply Rabs_R0.
Qed.

Lemma tilt1_flat_masked_witness :
  let m := Np.mkma (Np.mk 2 3 [[7; 7; 7]; [7; 9; 7]]%R)
             (Np.mk 2 3 [[false; false; false]; [false; true; false]]) in
  ∃ out, tilt1 (λ x, x) m 30 0 = Some out
    ∧ (Np.wfma (t1 out) ∧ (2 ≤ Np.nrows (Np.data (t1 out)))%nat
       ∧ (2 ≤ Np.ncols (Np.data (t1 out)))%nat)
    ∧ all_cells (λ b, b = true) (Np.mask (t1 out))
    ∧ all_cells (λ b, b = true) (Np.mask (th out))
    ∧ all_cells (λ b, b = true) (Np.mask (t2 out))
    ∧ all_cells (λ b, b = true) (Np.mask (ta out))
    ∧ all_cells (λ b, b = true) (Np.mask (tdx out)).
Proof.
  intros m.
  assert (Np.wfma m) as Hm.
  { split; [|split; [|split; reflexivity]]; (split; [reflexivity|repeat constructor]). }
  apply (tilt1_flat_masked (λ x, x) m 30 0 7 Hm); [simpl; lia..|].
  intros i j v Hb Hv.
  destruct i as [|[|i]]; [destruct j as [|[|[|j]]]..|]; simpl in Hv, Hb;
    try discriminate; by injection Hv as <-.
Defined.

(** ** Visibility under a change of the unit and of the datum of heights *)

Lemma for_ext {S X : Type} (xs : list X) (body body' : X → S → option S) :
  (∀ x s, x ∈ xs → body x s = body' x s) →
  ∀ s, Py.for_ xs body s = Py.for_ xs body' s.
Proof.
  induction xs as [|x xs IH]; intros Hb s; [reflexivity|]. simpl.
  rewrite Hb by left. destruct (body' x s) as [s'|]; [|reflexivity]. simpl.
  apply IH. intros y t Hy. apply Hb. by right.
Qed.

Lemma for_rel {S S' X : Type} (Rs : S → S' → Prop) (xs : list X)
    (body : X → S → option S) (body' : X → S' → option S') :
  (∀ x s s', x ∈ xs → Rs s s' → option_Forall2 Rs (body x s) (body' x s')) →
  ∀ s s', Rs s s' → option_Forall2 Rs (Py.for_ xs body s) (Py.for_ xs body' s').
Proof.
  induction xs as [|x xs IH]; intros Hb s s' Hs; simpl; [by constructor|].
  destruct (Hb x s s') as [t t' Ht|]; [by left|exact Hs| |by constructor]. simpl.
  apply IH; [|exact Ht]. intros y u u' Hy. apply Hb. by right.
Qed.

Lemma index_rel {A B : Type} (R : A → B → Prop) (l : list A) (l' : list B) (i : Z) :
  Forall2 R l l' → option_Forall2 R (Py.index l i) (Py.index l' i).
Proof.
  intros Hl. unfold Py.index. pose proof Hl as Hlen. apply Forall2_length in Hlen as <-.
  destruct (Py.norm (length l) i) as [k|]; [|by constructor]. simpl.
  by apply Forall2_lookup.
Qed.

Section affine_facts.
Variables (a c dh dh' : Q).
Hypothesis Ha : (0 < a)%Q.
Hypothesis Hdh : (dh' == a * dh)%Q.

(** The angle of a step is rescaled by [a]. *)
Lemma theta_affine (x x' b b' : Q) (k : Z) :
  affine a c x x' → affine a c b b' →
  ((x' - b' - dh') / inject_Z k == a * ((x - b - dh) / inject_Z k))%Q.
Proof.
  unfold affine. intros Hx Hb. unfold Qdiv. rewrite Hx, Hb, Hdh. ring.
Qed.

Lemma sweep_step_affine (st st' : Z * Q) (t t' : Q) :
  sweep_rel a st st' → (t' == a * t)%Q →
  sweep_rel a (sweep_step st t) (sweep_step st' t').
Proof.
  intros [Hn Hs] Ht. unfold sweep_step.
  assert (Qle_bool (snd st') t' = Qle_bool (snd st) t) as ->.
  { apply eq_true_iff_eq. rewrite !Qle_bool_iff, Hs, Ht. split.
    - intros Hle. apply Qmult_le_l in Hle; assumption.
    - intros Hle. apply Qmult_le_l; assumption. }
  destruct (Qle_bool (snd st) t); [|by split].
  split; simpl; [by rewrite Hn|exact Ht].
Qed.

(** The two sweeps count the same steps on the rescaled window. *)
Lemma visible1_affine (dat dat' : list Q) (nr cp : Z) :
  Forall2 (affine a c) dat dat' →
  __visible1 dat' nr cp dh' = __visible1 dat nr cp dh.
Proof.
  intros Hd. unfold __visible1. pose proof Hd as Hlen. apply Forall2_length in Hlen as <-.
  destruct ((cp <? nr - 1)%Z && (0 <? length dat)%nat); [|reflexivity]. cbv zeta.
  destruct (index_rel _ _ _ (cp - 1 + 1) Hd) as [x x' Hx|]; [|reflexivity].
  cbn [mbind option_bind].
  destruct (index_rel _ _ _ (cp - 1) Hd) as [b b' Hb|]; [|reflexivity].
  cbn [mbind option_bind].
  match goal with
  | |- (Py.for_ ?xs ?body' ?s1 ≫= _) = (Py.for_ _ ?body ?s0 ≫= _) =>
      destruct (for_rel (sweep_rel a) xs body body') with (s := s0) (s' := s1)
        as [st st' [Hst _]|]
  end.
  - intros i st st' _ Hst.
    destruct (index_rel _ _ _ i Hd) as [y y' Hy|]; [|by constructor].
    cbn [mbind option_bind]. constructor.
    apply sweep_step_affine; [exact Hst|by apply theta_affine].
  - split; [reflexivity|]. simpl. unfold affine in Hx, Hb. rewrite Hx, Hb, Hdh. ring.
  - simpl. by rewrite Hst.
  - reflexivity.
Qed.

Lemma visible2_affine (dat dat' : list Q) (cp : Z) :
  Forall2 (affine a c) dat dat' →
  __visible2 dat' cp dh' = __visible2 dat cp dh.
Proof.
  intros Hd. unfold __visible2. pose proof Hd as Hlen. apply Forall2_length in Hlen as <-.
  destruct ((2 <? cp)%Z && (0 <? length dat)%nat); [|reflexivity]. cbv zeta.
  destruct (index_rel _ _ _ (cp - 1 - 1) Hd) as [x x' Hx|]; [|reflexivity].
  cbn [mbind option_bind].
  destruct (index_rel _ _ _ (cp - 1) Hd) as [b b' Hb|]; [|reflexivity].
  cbn [mbind option_bind].
  match goal with
  | |- (Py.for_ ?xs ?body' ?s1 ≫= _) = (Py.for_ _ ?body ?s0 ≫= _) =>
      destruct (for_rel (sweep_rel a) xs body body') with (s := s0) (s' := s1)
        as [st st' [Hst _]|]
  end.
  - intros i st st' _ Hst.
    destruct (index_rel _ _ _ i Hd) as [y y' Hy|]; [|by constructor].
    cbn [mbind option_bind]. constructor.
    apply sweep_step_affine; [exact Hst|by apply theta_affine].
  - split; [reflexivity|]. simpl. unfold affine in Hx, Hb. rewrite Hx, Hb, Hdh. ring.
  - simpl. by rewrite Hst.
  - reflexivity.
Qed.

End affine_facts.

(** Windows cut from related grids are related. *)
Lemma slice_rel {A B : Type} (R : A → B → Prop) (l : list A) (l' : list B)
    (start stop : Z) :
  Forall2 R l l' → Forall2 R (Py.slice l start stop) (Py.slice l' start stop).
Proof.
  intros Hl. unfold Py.slice. pose proof Hl as Hlen. apply Forall2_length in Hlen as <-.
  by apply Forall2_take, Forall2_drop.
Qed.

Lemma mapM_rel {A A' B B' : Type} (R : B → B' → Prop) (Q : A → A' → Prop)
    (f : A → option B) (f' : A' → option B') (l : list A) (l' : list A') :
  (∀ x x', Q x x' → option_Forall2 R (f x) (f' x')) →
  Forall2 Q l l' → option_Forall2 (Forall2 R) (mapM f l) (mapM f' l').
Proof.
  intros Hf Hl. induction Hl as [|x x' l l' Hx Hl IH]; [by repeat constructor|].
  cbn [mapM]. destruct (Hf x x' Hx) as [y y' Hy|]; [|by constructor].
  cbn [mbind option_bind]. destruct IH as [k k' Hk|]; [|by constructor].
  cbn [mbind option_bind mret option_ret]. by repeat constructor.
Qed.

Section cells_rel_facts.
Context {A B : Type} (R : A → B → Prop).
Variables (x : Np.ndarray A) (y : Np.ndarray B).
Hypothesis Hxy : cells_rel R x y.

Lemma lookup2_rel (r k : nat) :
  option_Forall2 R (Np.lookup2 x r k) (Np.lookup2 y r k).
Proof.
  destruct Hxy as (_ & _ & Hc). unfold Np.lookup2.
  destruct (proj1 (Forall2_lookup _ _ _) Hc r) as [row row' Hrow|]; [|by constructor].
  cbn [mbind option_bind]. by apply Forall2_lookup.
Qed.

Lemma get_rel (i j : Z) : option_Forall2 R (Np.get x i j) (Np.get y i j).
Proof.
  unfold Np.get. destruct Hxy as (<- & <- & _).
  destruct (Py.norm (Np.nrows x) i) as [r|]; [|by constructor]. cbn [mbind option_bind].
  destruct (Py.norm (Np.ncols x) j) as [k|]; [|by constructor]. cbn [mbind option_bind].
  apply lookup2_rel.
Qed.

Lemma col_slice_rel (start stop j : Z) :
  option_Forall2 (Forall2 R) (Np.col_slice x start stop j) (Np.col_slice y start stop j).
Proof.
  unfold Np.col_slice. destruct Hxy as (_ & <- & Hc).
  destruct (Py.norm (Np.ncols x) j) as [k|]; [|by constructor]. cbn [mbind option_bind].
  apply (mapM_rel R (Forall2 R)); [|by apply slice_rel].
  intros row row' Hrow. by apply Forall2_lookup.
Qed.

Lemma row_slice_rel (i start stop : Z) :
  option_Forall2 (Forall2 R) (Np.row_slice x i start stop) (Np.row_slice y i start stop).
Proof.
  unfold Np.row_slice. destruct Hxy as (<- & _ & Hc).
  destruct (Py.norm (Np.nrows x) i) as [r|]; [|by constructor]. cbn [mbind option_bind].
  destruct (proj1 (Forall2_lookup _ _ _) Hc r) as [row row' Hrow|]; [|by constructor].
  cbn [mbind option_bind]. constructor. by apply slice_rel.
Qed.

End cells_rel_facts.

(** The loop that copies a diagonal into [dtmp] reads the cells in order: it
    fails where a read fails, and overwrites every cell of [dtmp]. *)
Lemma diagonal_loop (g : Z → option Q) (n t : nat) (pre : list Q) :
  length pre = t →
  Py.for_ (seqZ (Z.of_nat t) (Z.of_nat n))
    (λ k dtmp, x ← g k; Py.assign dtmp k x) (pre ++ replicate n 0%Q)
  = (λ r, pre ++ r) <$> mapM g (seqZ (Z.of_nat t) (Z.of_nat n)).
Proof.
  revert t pre. induction n as [|n IH]; intros t pre Hpre.
  - simpl. reflexivity.
  - rewrite Nat2Z.inj_succ, seqZ_cons by lia. cbn [Py.for_ mapM].
    destruct (g (Z.of_nat t)) as [x|]; [|reflexivity]. cbn [mbind option_bind].
    unfold Py.assign. rewrite norm_nonneg
      by (rewrite length_app, length_replicate; lia).
    cbn [mbind option_bind]. rewrite Nat2Z.id.
    rewrite insert_app_r_alt by lia. rewrite Hpre, Nat.sub_diag.
    cbn [replicate]. change (<[0%nat:=x]> (0%Q :: replicate n 0%Q)) with (x :: replicate n 0%Q).
    replace (pre ++ x :: replicate n 0%Q) with ((pre ++ [x]) ++ replicate n 0%Q)
      by (by rewrite <- app_assoc).
    replace (Z.succ (Z.of_nat t)) with (Z.of_nat (S t)) by lia.
    replace (Z.pred (Z.succ (Z.of_nat n))) with (Z.of_nat n) by lia.
    rewrite IH by (rewrite length_app; simpl; lia).
    destruct (mapM g (seqZ (Z.of_nat (S t)) (Z.of_nat n))) as [r|]; [|reflexivity].
    simpl. by rewrite <- app_assoc.
Qed.

Lemma diagonal_mapM (data : Np.ndarray Q) (wsize i0 di j0 : Z) :
  diagonal data wsize i0 di j0
  = mapM (λ k, Np.get data (i0 + di * k) (j0 + k)) (Py.range 0 wsize).
Proof.
  unfold diagonal, Py.range. rewrite Z.sub_0_r.
  destruct (Z.le_gt_cases 0 wsize) as [Hw|Hw].
  - pose proof (diagonal_loop (λ k, Np.get data (i0 + di * k) (j0 + k))
                  (Z.to_nat wsize) 0 [] eq_refl) as Hloop.
    rewrite Z2Nat.id in Hloop by lia. cbn [app] in Hloop.
    change (Z.of_nat 0) with 0%Z in Hloop. rewrite Hloop.
    by destruct (mapM _ _).
  - rewrite seqZ_nil by lia. replace (Z.to_nat wsize) with 0%nat by lia. reflexivity.
Qed.

Lemma diagonal_rel (R : Q → Q → Prop) (x y : Np.ndarray Q) (wsize i0 di j0 : Z) :
  cells_rel R x y →
  option_Forall2 (Forall2 R) (diagonal x wsize i0 di j0) (diagonal y wsize i0 di j0).
Proof.
  intros Hxy. rewrite !diagonal_mapM.
  apply (mapM_rel R eq); [intros k k' <-; by apply get_rel|].
  apply Forall2_same_length_lookup_2; [reflexivity|]. intros i u v Hu Hv. congruence.
Qed.

(** Two well-formed arrays of one shape are related when their cells are. *)
Lemma cells_rel_lookup {A B : Type} (R : A → B → Prop)
    (x : Np.ndarray A) (y : Np.ndarray B) :
  Np.wf x → Np.wf y → Np.same_shape x y →
  (∀ i j u v, Np.lookup2 x i j = Some u → Np.lookup2 y i j = Some v → R u v) →
  cells_rel R x y.
Proof.
  intros [Hxr Hxc] [Hyr Hyc] [Hr Hc] Hcells. split; [exact Hr|]. split; [exact Hc|].
  rewrite Forall_lookup in Hxc. rewrite Forall_lookup in Hyc.
  apply Forall2_same_length_lookup_2; [congruence|]. intros i row row' Hrow Hrow'.
  apply Forall2_same_length_lookup_2.
  - rewrite (Hxc _ _ Hrow), (Hyc _ _ Hrow'). exact Hc.
  - intros j u v Hu Hv. apply (Hcells i j); unfold Np.lookup2.
    + by rewrite Hrow.
    + by rewrite Hrow'.
Qed.

Section affine_grid.
Variables (a c dh dh' : Q) (data data' : Np.ndarray Q).
Hypothesis Ha : (0 < a)%Q.
Hypothesis Hdh : (dh' == a * dh)%Q.
Hypothesis Hdata : cells_rel (affine a c) data data'.

Lemma columns_pass_affine (nr nc wsize w2 : Z) (st : Np.ndarray Z * Np.ndarray Z) :
  columns_pass data' nr nc wsize w2 dh' st = columns_pass data nr nc wsize w2 dh st.
Proof.
  unfold columns_pass. apply for_ext. intros j s _. apply for_ext. intros i [n s'] _.
  destruct (col_slice_rel _ _ _ Hdata (i - w2) (i + w2 + 1) j) as [d d' Hd|];
    [|reflexivity].
  cbn [mbind option_bind].
  by rewrite (visible1_affine a c dh dh' Ha Hdh d d'),
             (visible2_affine a c dh dh' Ha Hdh d d').
Qed.

Lemma rows_pass_affine (nr nc wsize w2 : Z) (st : Np.ndarray Z * Np.ndarray Z) :
  rows_pass data' nr nc wsize w2 dh' st = rows_pass data nr nc wsize w2 dh st.
Proof.
  unfold rows_pass. apply for_ext. intros j s _. apply for_ext. intros i [n s'] _.
  destruct (row_slice_rel _ _ _ Hdata i (j - w2) (j + w2 + 1)) as [d d' Hd|];
    [|reflexivity].
  cbn [mbind option_bind].
  by rewrite (visible1_affine a c dh dh' Ha Hdh d d'),
             (visible2_affine a c dh dh' Ha Hdh d d').
Qed.

Lemma diagonals_pass_affine (nr nc wsize w2 : Z)
    (st : Np.ndarray Z * Np.ndarray Z * Np.ndarray Z * Np.ndarray Z) :
  diagonals_pass data' nr nc wsize w2 dh' st = diagonals_pass data nr nc wsize w2 dh st.
Proof.
  unfold diagonals_pass. apply for_ext. intros j s _. apply for_ext.
  intros i [[[v1 v2] v3] v4] _.
  destruct (diagonal_rel _ _ _ wsize (i - w2) 1 (j - w2) Hdata) as [d d' Hd|];
    [|reflexivity].
  cbn [mbind option_bind].
  rewrite (visible1_affine a c dh dh' Ha Hdh d d'),
          (visible2_affine a c dh dh' Ha Hdh d d') by exact Hd.
  destruct (__visible1 d wsize (w2 + 1) dh) as [n1|]; [|reflexivity].
  cbn [mbind option_bind]. destruct (Np.set v1 i j n1) as [v1'|]; [|reflexivity].
  cbn [mbind option_bind]. destruct (__visible2 d (w2 + 1) dh) as [n2|]; [|reflexivity].
  cbn [mbind option_bind]. destruct (Np.set v2 i j n2) as [v2'|]; [|reflexivity].
  cbn [mbind option_bind].
  destruct (diagonal_rel _ _ _ wsize (i + w2) (-1) (j - w2) Hdata) as [e e' He|];
    [|reflexivity].
  cbn [mbind option_bind].
  by rewrite (visible1_affine a c dh dh' Ha Hdh e e'),
             (visible2_affine a c dh dh' Ha Hdh e e').
Qed.

Lemma sweeps_affine (nr nc wsize w2 : Z) :
  sweeps data' nr nc wsize w2 dh' = sweeps data nr nc wsize w2 dh.
Proof.
  unfold sweeps. cbv zeta.
  by rewrite columns_pass_affine, rows_pass_affine, diagonals_pass_affine.
Qed.

End affine_grid.

Section unmasked_rel.
Context {A B : Type} (R : A → B → Prop).

Lemma row_unmasked_rel (r : list A) (r' : list B) (mr : list bool) :
  length r' = length r →
  (∀ j x x', mr !! j = Some false → r !! j = Some x → r' !! j = Some x' → R x x') →
  Forall2 R (fst <$> filter (λ p : A * bool, p.2 = false) (zip r mr))
            (fst <$> filter (λ p : B * bool, p.2 = false) (zip r' mr)).
Proof.
  revert r' mr. induction r as [|x r IH]; intros r' mr Hlen Hrel.
  - destruct r'; [|discriminate]. constructor.
  - destruct r' as [|x' r']; [discriminate|]. destruct mr as [|b mr]; [constructor|].
    change (zip (x :: r) (b :: mr)) with ((x, b) :: zip r mr).
    change (zip (x' :: r') (b :: mr)) with ((x', b) :: zip r' mr).
    rewrite !filter_cons. cbn [snd].
    assert (Forall2 R (fst <$> filter (λ p : A * bool, p.2 = false) (zip r mr))
                      (fst <$> filter (λ p : B * bool, p.2 = false) (zip r' mr))) as Htl.
    { apply IH; [simpl in Hlen; lia|]. intros j. exact (Hrel (S j)). }
    destruct b.
    + rewrite !decide_False by discriminate. exact Htl.
    + rewrite !decide_True by reflexivity. rewrite !fmap_cons. constructor; [|exact Htl].
      exact (Hrel 0%nat x x' eq_refl eq_refl eq_refl).
Qed.

Lemma rows_unmasked_rel (rows : list (list A)) (rows' : list (list B))
    (mrows : list (list bool)) :
  length rows' = length rows →
  (∀ k r r' mr, rows !! k = Some r → rows' !! k = Some r' → mrows !! k = Some mr →
     length r' = length r
     ∧ ∀ j x x', mr !! j = Some false → r !! j = Some x → r' !! j = Some x' → R x x') →
  Forall2 R
    (mjoin (base.zip_with
              (λ (row : list A) (mrow : list bool),
                 fst <$> filter (λ p : A * bool, p.2 = false) (zip row mrow)) rows mrows))
    (mjoin (base.zip_with
              (λ (row : list B) (mrow : list bool),
                 fst <$> filter (λ p : B * bool, p.2 = false) (zip row mrow)) rows' mrows)).
Proof.
  assert (∀ {T : Type} (x : list T) ls, mjoin (x :: ls) = x ++ mjoin ls) as Hjoin
    by reflexivity.
  revert rows' mrows. induction rows as [|r rows IH]; intros rows' mrows Hlen Hrel.
  - destruct rows'; [|discriminate]. constructor.
  - destruct rows' as [|r' rows']; [discriminate|].
    destruct mrows as [|mr mrows]; [constructor|].
    cbn [base.zip_with]. rewrite !Hjoin. apply Forall2_app.
    + destruct (Hrel 0%nat r r' mr eq_refl eq_refl eq_refl) as [Hl Hr].
      by apply row_unmasked_rel.
    + apply IH; [simpl in Hlen; lia|]. intros k. exact (Hrel (S k)).
Qed.

(** The unmasked cells of two grids under one mask, in row-major order. *)
Lemma compressed_rel (m : Np.marray A) (m' : Np.marray B) :
  Np.wfma m → Np.wfma m' →
  Np.mask m' = Np.mask m → Np.same_shape (Np.data m') (Np.data m) →
  (∀ i j x x',
     Np.lookup2 (Np.mask m) i j = Some false →
     Np.lookup2 (Np.data m) i j = Some x → Np.lookup2 (Np.data m') i j = Some x' →
     R x x') →
  Forall2 R (Np.compressed m) (Np.compressed m').
Proof.
  intros ([Hr Hc] & _) ([Hr' Hc'] & _) Hmask [Hs1 Hs2] Hrel.
  unfold Np.compressed. rewrite Hmask.
  rewrite Forall_lookup in Hc. rewrite Forall_lookup in Hc'.
  apply rows_unmasked_rel; [congruence|].
  intros k r r' mr Hk Hk' Hmr. split.
  - rewrite (Hc _ _ Hk), (Hc' _ _ Hk'). exact Hs2.
  - intros j x x' Hb Hx Hx'. apply (Hrel k j); unfold Np.lookup2.
    + by rewrite Hmr.
    + by rewrite Hk.
    + by rewrite Hk'.
Qed.

End unmasked_rel.

Section affine_fill.
Variables (a c : Q).

Lemma sum_affine (xs xs' : list Q) :
  Forall2 (affine a c) xs xs' →
  (foldr Qplus 0 xs' == a * foldr Qplus 0 xs + inject_Z (Z.of_nat (length xs)) * c)%Q.
Proof.
  induction 1 as [|x x' xs xs' Hx Hxs IH].
  - simpl. ring.
  - cbn [foldr length]. unfold affine in Hx. rewrite Hx, IH.
    rewrite Nat2Z.inj_succ, <- Z.add_1_r, inject_Z_plus. ring.
Qed.

Variables (m m' : Np.marray Q).
Hypothesis Hm : Np.wfma m.
Hypothesis Hm' : Np.wfma m'.
Hypothesis Hmask : Np.mask m' = Np.mask m.
Hypothesis Hshape : Np.same_shape (Np.data m') (Np.data m).
Hypothesis Hrel : ∀ i j x x',
  Np.lookup2 (Np.mask m) i j = Some false →
  Np.lookup2 (Np.data m) i j = Some x → Np.lookup2 (Np.data m') i j = Some x' →
  affine a c x x'.

Lemma compressed_affine : Forall2 (affine a c) (Np.compressed m) (Np.compressed m').
Proof. by apply compressed_rel. Qed.

Lemma mean_affine :
  Np.compressed m ≠ [] → affine a c (ma_mean m) (ma_mean m').
Proof.
  intros Hne. pose proof compressed_affine as Hc. unfold ma_mean, affine.
  destruct Hc as [|x x' xs xs' Hx Hxs]; [done|].
  rewrite (sum_affine (x :: xs) (x' :: xs')) by (by constructor).
  pose proof Hxs as Hlen. apply Forall2_length in Hlen. cbn [length]. rewrite <- Hlen.
  field. intros H0. unfold Qeq in H0. simpl in H0. lia.
Qed.

(** The grids that the sweeps read, masked cells filled with the mean, are
    related by the same change of unit. *)
Lemma fill_affine :
  ∃ c', cells_rel (affine a c')
          (Np.fill (Np.data m) (Np.mask m) (ma_mean m))
          (Np.fill (Np.data m') (Np.mask m') (ma_mean m')).
Proof.
  assert (Np.wf (Np.fill (Np.data m) (Np.mask m) (ma_mean m))) as Hw.
  { destruct Hm as (? & ? & ? & ?). by apply wf_fill. }
  assert (Np.wf (Np.fill (Np.data m') (Np.mask m') (ma_mean m'))) as Hw'.
  { destruct Hm' as (? & ? & ? & ?). by apply wf_fill. }
  assert (Np.same_shape (Np.fill (Np.data m) (Np.mask m) (ma_mean m))
                        (Np.fill (Np.data m') (Np.mask m') (ma_mean m'))) as Hs.
  { destruct Hshape as [H1 H2]. split; simpl; congruence. }
  destruct (Np.compressed m) as [|y ys] eqn:Hcomp.
  - exists 0%Q. apply cells_rel_lookup; [exact Hw|exact Hw'|exact Hs|].
    intros i j u v Hu Hv. unfold Np.fill in Hu, Hv.
    apply lookup2_zip_with in Hu as (x & b & Hx & Hb & ->).
    apply lookup2_zip_with in Hv as (x' & b' & Hx' & Hb' & ->).
    rewrite Hmask, Hb in Hb'. apply (inj Some) in Hb'. subst b'.
    destruct b.
    + pose proof compressed_affine as Hc. rewrite Hcomp in Hc.
      apply Forall2_nil_inv_l in Hc. unfold ma_mean. rewrite Hcomp, Hc.
      unfold affine. ring.
    + pose proof (compressed_elem m i j x Hx Hb) as Hin. rewrite Hcomp in Hin.
      by apply elem_of_nil in Hin.
  - exists c. apply cells_rel_lookup; [exact Hw|exact Hw'|exact Hs|].
    intros i j u v Hu Hv. unfold Np.fill in Hu, Hv.
    apply lookup2_zip_with in Hu as (x & b & Hx & Hb & ->).
    apply lookup2_zip_with in Hv as (x' & b' & Hx' & Hb' & ->).
    rewrite Hmask, Hb in Hb'. apply (inj Some) in Hb'. subst b'.
    destruct b.
    + apply mean_affine. by rewrite Hcomp.
    + by apply (Hrel i j).
Qed.

End affine_fill.

(** Over the rationals the sweeps do not depend on the unit or on the datum
    of the heights: when the cells that are not masked are rescaled by a
    positive factor [a] and raised by a constant [c], and the observer height
    is rescaled by [a], [visibility2d] returns the same three arrays, or
    raises alike, for every window size. *)
Lemma visibility2d_affine (m m' : Np.marray Q) (a c dh dh' : Q) (wsize : Z) :
  Np.wfma m → Np.wfma m' →
  Np.mask m' = Np.mask m → Np.same_shape (Np.data m') (Np.data m) →
  (0 < a)%Q → (dh' == a * dh)%Q →
  (∀ i j x x',
     Np.lookup2 (Np.mask m) i j = Some false →
     Np.lookup2 (Np.data m) i j = Some x → Np.lookup2 (Np.data m') i j = Some x' →
     (x' == a * x + c)%Q) →
  fst <$> visibility2d m' wsize dh' = fst <$> visibility2d m wsize dh.
Proof.
  intros Hm Hm' Hmask Hshape Ha Hdh Hrel.
  destruct (fill_affine a c m m' Hm Hm' Hmask Hshape Hrel) as [c' Hfill].
  unfold visibility2d. cbv zeta. destruct Hshape as [Hs1 Hs2].
  rewrite (sweeps_affine a c' dh dh' _ _ Ha Hdh Hfill). rewrite Hmask, Hs1, Hs2.
  destruct (sweeps _ _ _ _ _ dh) as [cs|]; [|reflexivity]. cbn [mbind option_bind].
  destruct (std_pass cs _ _ _) as [sd|]; [|reflexivity]. cbn [mbind option_bind].
  destruct (with_mask (Np.slice2 (total cs) _ _ _ _) _) as [o1|]; [|reflexivity].
  cbn [mbind option_bind].
  destruct (with_mask (Np.slice2 sd _ _ _ _) _) as [o2|]; [|reflexivity].
  cbn [mbind option_bind].
  destruct (with_mask (Np.slice2 (resultant cs) _ _ _ _) _) as [o3|]; reflexivity.
Qed.

Lemma wfma_heights (d : Np.ndarray Z) : Np.wf d → Np.wfma (heights d).
Proof.
  intros Hd. destruct (wf_map inject_Z d Hd) as [Hw _].
  split; [exact Hw|]. split; [apply wf_full|]. split; apply Nat2Z.id.
Qed.

(** X15.  Visibility does not depend on the unit or on the datum of the
    heights.  On a grid of whole heights with no masked cell, replacing
    every height [z] by [a * z + c], for whole numbers [a > 0] and [c], and
    the observer height [h] by [a * h], leaves the three arrays that
    [visibility2d] returns unchanged; the two calls raise alike.

    The heights and the observer are whole numbers of at most [2^31], and
    the window has between 3 and 201 cells: there the doubles of the code
    compute what the rationals do.  The differences of heights are exact, two equal
    angles have one double, and two angles that differ do so by at least
    [1/100^2], far more than the rounding of a quotient below [2^33]. *)
Theorem visibility2d_affine_invariant (d : Np.ndarray Z) (a c h wsize : Z) :
  Np.wf d → (0 < a)%Z →
  within (2 ^ 31) d → within (2 ^ 31) (Np.map (λ z, a * z + c)%Z d) →
  (Z.abs h ≤ 2 ^ 31)%Z → (Z.abs (a * h) ≤ 2 ^ 31)%Z → (3 ≤ wsize ≤ 201)%Z →
  fst <$> visibility2d (heights (Np.map (λ z, a * z + c)%Z d)) wsize (inject_Z (a * h))
  = fst <$> visibility2d (heights d) wsize (inject_Z h).
Proof.
  intros Hd Ha _ _ _ _ _.
  destruct (wf_map (λ z, a * z + c)%Z d Hd) as [Hd' [Hr Hc]].
  apply (visibility2d_affine (heights d) (heights (Np.map (λ z, a * z + c)%Z d))
           (inject_Z a) (inject_Z c)).
  - by apply wfma_heights.
  - by apply wfma_heights.
  - reflexivity.
  - split; reflexivity.
  - change 0%Q with (inject_Z 0). by rewrite <- Zlt_Qlt.
  - by rewrite inject_Z_mult.
  - intros i j x x' _ Hx Hx'.
    apply lookup2_map in Hx as (z & Hz & ->).
    apply lookup2_map in Hx' as (z' & Hz' & ->).
    apply lookup2_map in Hz' as (z0 & Hz0 & ->).
    assert (z0 = z) as -> by congruence.
    by rewrite inject_Z_plus, inject_Z_mult.
Qed.

Lemma visibility2d_affine_invariant_witness :
  let d := Np.mk 5 5 [[1; 2; 4; 7; 3]; [0; 9; 5; 5; 6]; [2; 2; 8; 1; 0];
                      [6; 3; 3; 9; 4]; [5; 0; 7; 2; 8]]%Z in
  fst <$> visibility2d (heights (Np.map (λ z, 3 * z + 10)%Z d)) 5 (inject_Z (3 * 2))
  = fst <$> visibility2d (heights d) 5 (inject_Z 2).
Proof.
  intros d.
  apply (visibility2d_affine_invariant d 3 10 2 5).
  - split; [reflexivity|repeat constructor].
  - lia.
  - repeat constructor; simpl; lia.
  - repeat constructor; simpl; lia.
  - simpl; lia.
  - simpl; lia.
  - simpl; lia.
Defined.

(** ** Visibility from a higher observer *)

Lemma for_rel_ix {S S' X : Type} (Rs : nat → S → S' → Prop) (xs : list X)
    (body : X → S → option S) (body' : X → S' → option S') :
  (∀ k x s s', xs !! k = Some x → Rs k s s' →
               option_Forall2 (Rs (Datatypes.S k)) (body x s) (body' x s')) →
  ∀ s s', Rs 0%nat s s' →
          option_Forall2 (Rs (length xs)) (Py.for_ xs body s) (Py.for_ xs body' s').
Proof.
  revert Rs. induction xs as [|x xs IH]; intros Rs Hb s s' Hs; simpl; [by constructor|].
  destruct (Hb 0%nat x s s' eq_refl Hs) as [t t' Ht|]; [|by constructor]. simpl.
  apply (IH (λ k, Rs (Datatypes.S k))); [|exact Ht].
  intros k y u u' Hy. exact (Hb (Datatypes.S k) y u u' Hy).
Qed.

Section raise_facts.
Variables (dh dh' : Q).
Hypothesis Hdh : (dh <= dh')%Q.

Local Notation "'delta'" := (dh' - dh)%Q.

Lemma distance_pos (k : nat) (n : Z) : (1 ≤ n)%Z → (0 < inject_Z (Z.of_nat k + n))%Q.
Proof. intros Hn. change 0%Q with (inject_Z 0). rewrite <- Zlt_Qlt. lia. Qed.

(** The horizon falls less with each step away from the observer. *)
Lemma drop_decreasing (k : nat) :
  (0 <= delta / inject_Z (Z.of_nat k + 2))%Q
  ∧ (delta / inject_Z (Z.of_nat k + 2) <= delta / inject_Z (Z.of_nat k + 1))%Q.
Proof.
  pose proof (distance_pos k 1 ltac:(lia)) as H1.
  pose proof (distance_pos k 2 ltac:(lia)) as H2.
  assert (0 <= delta)%Q as Hd by Lqa.lra. split.
  - apply Qle_shift_div_l; [exact H2|]. Lqa.lra.
  - apply Qle_shift_div_l; [exact H1|].
    unfold Qdiv. rewrite <- Qmult_assoc, (Qmult_comm (/ _)), Qmult_assoc.
    apply Qle_shift_div_r; [exact H2|].
    replace (Z.of_nat k + 2)%Z with (Z.of_nat k + 1 + 1)%Z by lia.
    rewrite (inject_Z_plus (Z.of_nat k + 1) 1).
    assert (delta * (inject_Z (Z.of_nat k + 1) + inject_Z 1)
            == delta * inject_Z (Z.of_nat k + 1) + delta)%Q as -> by ring.
    Lqa.lra.
Qed.

(** A step that the lower observer counts, the higher observer counts. *)
Lemma sweep_step_raised (k : nat) (st st' : Z * Q) (t t' : Q) :
  sweep_raised delta k st st' →
  (t' == t - delta / inject_Z (Z.of_nat k + 2))%Q →
  sweep_raised delta (S k) (sweep_step st t) (sweep_step st' t').
Proof.
  intros [Hn Hs] Ht. destruct (drop_decreasing k) as [H0 H1].
  unfold sweep_raised. replace (Z.of_nat (S k) + 1)%Z with (Z.of_nat k + 2)%Z by lia.
  unfold sweep_step.
  destruct (Qle_bool (snd st) t) eqn:Hv, (Qle_bool (snd st') t') eqn:Hv'; cbn [fst snd].
  - split; [lia|Lqa.lra].
  - exfalso. apply Qle_bool_iff in Hv.
    assert (Qle_bool (snd st') t' = true) as Hv''; [|congruence].
    apply Qle_bool_iff. Lqa.lra.
  - assert (¬ (snd st <= t)%Q) as Hn' by (rewrite <- Qle_bool_iff; congruence).
    apply Qnot_le_lt in Hn'. split; [lia|Lqa.lra].
  - split; [exact Hn|Lqa.lra].
Qed.

Lemma theta_raised (y b : Q) (d : Z) :
  ((y - b - dh') / inject_Z d == (y - b - dh) / inject_Z d - delta / inject_Z d)%Q.
Proof. unfold Qdiv. ring. Qed.

Lemma first_raised (n : Z) (x b : Q) :
  sweep_raised delta 0 (n, (x - b - dh)%Q) (n, (x - b - dh')%Q).
Proof.
  split; [reflexivity|]. cbn [fst snd].
  assert (delta / inject_Z (Z.of_nat 0 + 1) == delta)%Q as ->.
  { unfold Qdiv. change (/ inject_Z (Z.of_nat 0 + 1))%Q with 1%Q. ring. }
  Lqa.lra.
Qed.

(** From a higher observer each sweep counts at least as many steps. *)
Lemma visible1_raised (dat : list Q) (nr cp : Z) :
  option_Forall2 Z.le (__visible1 dat nr cp dh) (__visible1 dat nr cp dh').
Proof.
  unfold __visible1.
  destruct ((cp <? nr - 1)%Z && (0 <? length dat)%nat); [|by repeat constructor]. cbv zeta.
  destruct (Py.index dat (cp - 1 + 1)) as [x|]; [|by constructor]. cbn [mbind option_bind].
  destruct (Py.index dat (cp - 1)) as [b|]; [|by constructor]. cbn [mbind option_bind].
  match goal with
  | |- option_Forall2 _ (Py.for_ ?xs ?body ?s0 ≫= _) (Py.for_ _ ?body' ?s1 ≫= _) =>
      destruct (for_rel_ix (sweep_raised delta) xs body body') with (s := s0) (s' := s1)
        as [st st' [Hst _]|]
  end.
  - intros k i st st' Hi Hst. unfold Py.range in Hi. apply lookup_seqZ in Hi as [-> _].
    destruct (Py.index dat _) as [y|]; [|by constructor]. cbn [mbind option_bind].
    constructor. apply sweep_step_raised; [exact Hst|].
    replace (cp - 1 + 2 + Z.of_nat k - (cp - 1))%Z with (Z.of_nat k + 2)%Z by lia.
    apply theta_raised.
  - apply first_raised.
  - by constructor.
  - constructor.
Qed.

Lemma visible2_raised (dat : list Q) (cp : Z) :
  option_Forall2 Z.le (__visible2 dat cp dh) (__visible2 dat cp dh').
Proof.
  unfold __visible2.
  destruct ((2 <? cp)%Z && (0 <? length dat)%nat); [|by repeat constructor]. cbv zeta.
  destruct (Py.index dat (cp - 1 - 1)) as [x|]; [|by constructor]. cbn [mbind option_bind].
  destruct (Py.index dat (cp - 1)) as [b|]; [|by constructor]. cbn [mbind option_bind].
  match goal with
  | |- option_Forall2 _ (Py.for_ ?xs ?body ?s0 ≫= _) (Py.for_ _ ?body' ?s1 ≫= _) =>
      destruct (for_rel_ix (sweep_raised delta) xs body body') with (s := s0) (s' := s1)
        as [st st' [Hst _]|]
  end.
  - intros k i st st' Hi Hst. unfold Py.range_down in Hi.
    pose proof (lookup_lt_Some _ _ _ Hi) as Hk. rewrite length_reverse in Hk.
    rewrite reverse_lookup in Hi by exact Hk. rewrite length_seqZ in Hi, Hk.
    apply lookup_seqZ in Hi as [-> _].
    destruct (Py.index dat _) as [y|]; [|by constructor]. cbn [mbind option_bind].
    constructor. apply sweep_step_raised; [exact Hst|].
    match goal with
    | |- context [inject_Z ?d] =>
        replace d with (Z.of_nat k + 2)%Z by lia
    end.
    apply theta_raised.
  - apply first_raised.
  - by constructor.
  - constructor.
Qed.

End raise_facts.

(** Related arrays, through the operations of the engine. *)
Lemma cells_rel_refl {A : Type} (R : A → A → Prop) (x : Np.ndarray A) :
  (∀ u, R u u) → cells_rel R x x.
Proof.
  intros HR. split; [reflexivity|]. split; [reflexivity|].
  apply Forall_Forall2_diag, Forall_forall. intros row _.
  apply Forall_Forall2_diag, Forall_forall. intros u _. apply HR.
Qed.

Lemma set_rel {A B : Type} (R : A → B → Prop) (x : Np.ndarray A) (y : Np.ndarray B)
    (i j : Z) (u : A) (v : B) :
  cells_rel R x y → R u v →
  option_Forall2 (cells_rel R) (Np.set x i j u) (Np.set y i j v).
Proof.
  intros (Hr & Hc & Hcells) Huv. unfold Np.set. rewrite <- Hr, <- Hc.
  destruct (Py.norm (Np.nrows x) i) as [r|]; [|by constructor]. cbn [mbind option_bind].
  destruct (Py.norm (Np.ncols x) j) as [k|]; [|by constructor]. cbn [mbind option_bind].
  constructor. split; [reflexivity|]. split; [reflexivity|]. cbn [Np.cells].
  apply Forall2_alter; [exact Hcells|]. intros row row' _ _ Hrow.
  by apply Forall2_insert.
Qed.

Lemma zip_with_rel {A A' B B' C C' : Type} (R1 : A → A' → Prop) (R2 : B → B' → Prop)
    (R3 : C → C' → Prop) (f : A → B → C) (f' : A' → B' → C')
    (x : Np.ndarray A) (x' : Np.ndarray A') (y : Np.ndarray B) (y' : Np.ndarray B') :
  (∀ u u' v v', R1 u u' → R2 v v' → R3 (f u v) (f' u' v')) →
  cells_rel R1 x x' → cells_rel R2 y y' →
  cells_rel R3 (Np.zip_with f x y) (Np.zip_with f' x' y').
Proof.
  intros Hf (Hr & Hc & Hx) (_ & _ & Hy). split; [exact Hr|]. split; [exact Hc|].
  cbn [Np.zip_with Np.cells]. revert Hy. generalize (Np.cells y) (Np.cells y').
  induction Hx as [|r r' rs rs' Hrow Hrows IH]; intros l l' Hl; [constructor|].
  destruct Hl as [|s s' ss ss' Hs Hss]; [constructor|]. cbn [base.zip_with].
  constructor; [|by apply IH].
  clear IH Hrows Hss. revert s s' Hs.
  induction Hrow as [|u u' us us' Hu Hus IH]; intros s s' Hs; [constructor|].
  destruct Hs as [|v v' vs vs' Hv Hvs]; [constructor|]. cbn [base.zip_with].
  constructor; [by apply Hf|by apply IH].
Qed.

Lemma slice2_rel {A B : Type} (R : A → B → Prop) (x : Np.ndarray A) (y : Np.ndarray B)
    (r0 r1 c0 c1 : Z) :
  cells_rel R x y → cells_rel R (Np.slice2 x r0 r1 c0 c1) (Np.slice2 y r0 r1 c0 c1).
Proof.
  intros (Hr & Hc & Hcells). unfold Np.slice2. rewrite <- Hr, <- Hc.
  split; [reflexivity|]. split; [reflexivity|]. cbn [Np.cells].
  apply Forall2_fmap.
  pose proof (slice_rel (Forall2 R) _ _ r0 r1 Hcells) as Hs.
  induction Hs as [|row row' rows rows' Hrow Hrows IH]; constructor; [|exact IH].
  exact (slice_rel R _ _ c0 c1 Hrow).
Qed.

Lemma with_mask_rel {A B : Type} (R : A → B → Prop) (x : Np.ndarray A) (y : Np.ndarray B)
    (msk : Np.ndarray bool) :
  cells_rel R x y →
  option_Forall2 (λ o o', Np.mask o = Np.mask o' ∧ cells_rel R (Np.data o) (Np.data o'))
    (with_mask x msk) (with_mask y msk).
Proof.
  intros Hxy. unfold with_mask, Np.shape. destruct Hxy as (Hr & Hc & Hcells).
  rewrite <- Hr, <- Hc. destruct (decide _); [|by constructor].
  constructor. by split.
Qed.

Section raise_grid.
Variables (dh dh' : Q) (data : Np.ndarray Q).
Hypothesis Hdh : (dh <= dh')%Q.

Local Notation "'le2'" :=
  (λ s s' : Np.ndarray Z * Np.ndarray Z,
     cells_rel Z.le s.1 s'.1 ∧ cells_rel Z.le s.2 s'.2).
Local Notation "'le4'" :=
  (λ s s' : Np.ndarray Z * Np.ndarray Z * Np.ndarray Z * Np.ndarray Z,
     (cells_rel Z.le s.1.1.1 s'.1.1.1 ∧ cells_rel Z.le s.1.1.2 s'.1.1.2)
     ∧ cells_rel Z.le s.1.2 s'.1.2 ∧ cells_rel Z.le s.2 s'.2).

Local Ltac both H :=
  destruct H as [? ? ?|]; [cbn [mbind option_bind]|by constructor].

Lemma pair_raised (dtmp : list Q) (wsize cp i j : Z) (s s' : Np.ndarray Z * Np.ndarray Z) :
  le2 s s' →
  option_Forall2 le2
    (n ← __visible1 dtmp wsize cp dh; v1 ← Np.set s.1 i j n;
     k ← __visible2 dtmp cp dh; v2 ← Np.set s.2 i j k; Some (v1, v2))
    (n ← __visible1 dtmp wsize cp dh'; v1 ← Np.set s'.1 i j n;
     k ← __visible2 dtmp cp dh'; v2 ← Np.set s'.2 i j k; Some (v1, v2)).
Proof.
  intros [H1 H2].
  both (visible1_raised dh dh' Hdh dtmp wsize cp).
  both (set_rel Z.le _ _ i j _ _ H1 ltac:(eassumption)).
  both (visible2_raised dh dh' Hdh dtmp cp).
  both (set_rel Z.le _ _ i j _ _ H2 ltac:(eassumption)).
  constructor. by split.
Qed.

Lemma columns_pass_raised (nr nc wsize w2 : Z) (s s' : Np.ndarray Z * Np.ndarray Z) :
  le2 s s' →
  option_Forall2 le2 (columns_pass data nr nc wsize w2 dh s)
                     (columns_pass data nr nc wsize w2 dh' s').
Proof.
  intros Hs. unfold columns_pass. apply (for_rel le2); [|exact Hs].
  intros j t t' _ Ht. apply (for_rel le2); [|exact Ht].
  intros i [v1 v2] [v1' v2'] _ Hv.
  destruct (Np.col_slice data (i - w2) (i + w2 + 1) j) as [d|]; [|by constructor].
  cbn [mbind option_bind]. exact (pair_raised d wsize (w2 + 1) i j (v1, v2) (v1', v2') Hv).
Qed.

Lemma rows_pass_raised (nr nc wsize w2 : Z) (s s' : Np.ndarray Z * Np.ndarray Z) :
  le2 s s' →
  option_Forall2 le2 (rows_pass data nr nc wsize w2 dh s)
                     (rows_pass data nr nc wsize w2 dh' s').
Proof.
  intros Hs. unfold rows_pass. apply (for_rel le2); [|exact Hs].
  intros j t t' _ Ht. apply (for_rel le2); [|exact Ht].
  intros i [v1 v2] [v1' v2'] _ Hv.
  destruct (Np.row_slice data i (j - w2) (j + w2 + 1)) as [d|]; [|by constructor].
  cbn [mbind option_bind]. exact (pair_raised d wsize (w2 + 1) i j (v1, v2) (v1', v2') Hv).
Qed.

Lemma diagonals_pass_raised (nr nc wsize w2 : Z)
    (s s' : Np.ndarray Z * Np.ndarray Z * Np.ndarray Z * Np.ndarray Z) :
  le4 s s' →
  option_Forall2 le4 (diagonals_pass data nr nc wsize w2 dh s)
                     (diagonals_pass data nr nc wsize w2 dh' s').
Proof.
  intros Hs. unfold diagonals_pass. apply (for_rel le4); [|exact Hs].
  intros j t t' _ Ht. apply (for_rel le4); [|exact Ht].
  intros i [[[v1 v2] v3] v4] [[[v1' v2'] v3'] v4'] _ ([H1 H2] & H3 & H4).
  cbn [fst snd] in H1, H2, H3, H4.
  destruct (diagonal data wsize (i - w2) 1 (j - w2)) as [d|]; [|by constructor].
  cbn [mbind option_bind].
  both (visible1_raised dh dh' Hdh d wsize (w2 + 1)).
  both (set_rel Z.le _ _ i j _ _ H1 ltac:(eassumption)).
  both (visible2_raised dh dh' Hdh d (w2 + 1)).
  both (set_rel Z.le _ _ i j _ _ H2 ltac:(eassumption)).
  destruct (diagonal data wsize (i + w2) (-1) (j - w2)) as [e|]; [|by constructor].
  cbn [mbind option_bind].
  both (visible1_raised dh dh' Hdh e wsize (w2 + 1)).
  both (set_rel Z.le _ _ i j _ _ H3 ltac:(eassumption)).
  both (visible2_raised dh dh' Hdh e (w2 + 1)).
  both (set_rel Z.le _ _ i j _ _ H4 ltac:(eassumption)).
  constructor. cbn [fst snd]. split; [split; assumption|split; assumption].
Qed.

Lemma sweeps_raised (nr nc wsize w2 : Z) :
  option_Forall2 counts_le (sweeps data nr nc wsize w2 dh) (sweeps data nr nc wsize w2 dh').
Proof.
  unfold sweeps. cbv zeta.
  assert (cells_rel Z.le (Np.full nr nc 0%Z) (Np.full nr nc 0%Z)) as Hz
    by (apply cells_rel_refl; intros; reflexivity).
  destruct (columns_pass_raised nr nc wsize w2 (_, _) (_, _) (conj Hz Hz))
    as [[a1 a2] [a1' a2'] [Ha1 Ha2]|]; [|by constructor].
  cbn [mbind option_bind].
  destruct (rows_pass_raised nr nc wsize w2 (_, _) (_, _) (conj Hz Hz))
    as [[a3 a4] [a3' a4'] [Ha3 Ha4]|]; [|by constructor].
  cbn [mbind option_bind].
  destruct (diagonals_pass_raised nr nc wsize w2 (_, _, _, _) (_, _, _, _)
              (conj (conj Hz Hz) (conj Hz Hz)))
    as [[[[a5 a6] a7] a8] [[[a5' a6'] a7'] a8'] ([Ha5 Ha6] & Ha7 & Ha8)|];
    [|by constructor].
  cbn [mbind option_bind]. constructor. unfold counts_le. cbn [vn vs ve vw vd1 vd2 vd3 vd4].
  cbn [fst snd] in *.
  split; [assumption|]. split; [assumption|]. split; [assumption|]. split; [assumption|].
  split; [assumption|]. split; [assumption|]. split; assumption.
Qed.

End raise_grid.

Lemma map_shape {A A' B B' : Type} (R : A → A' → Prop) (f : A → B) (f' : A' → B')
    (x : Np.ndarray A) (x' : Np.ndarray A') :
  cells_rel R x x' → cells_rel (λ _ _, True) (Np.map f x) (Np.map f' x').
Proof.
  intros (Hr & Hc & Hx). split; [exact Hr|]. split; [exact Hc|]. cbn [Np.map Np.cells].
  apply Forall2_fmap. induction Hx as [|row row' rows rows' Hrow Hrows IH];
    constructor; [|exact IH].
  apply Forall2_fmap. induction Hrow; constructor; [exact I|assumption].
Qed.

Lemma zip_with_shape {A A' B B' C C' : Type} (R1 : A → A' → Prop) (R2 : B → B' → Prop)
    (f : A → B → C) (f' : A' → B' → C')
    (x : Np.ndarray A) (x' : Np.ndarray A') (y : Np.ndarray B) (y' : Np.ndarray B') :
  cells_rel R1 x x' → cells_rel R2 y y' →
  cells_rel (λ _ _, True) (Np.zip_with f x y) (Np.zip_with f' x' y').
Proof. apply zip_with_rel. done. Qed.

Section raise_results.
Variables (c c' : counts).
Hypothesis Hc : counts_le c c'.

Lemma total_raised : cells_rel Z.le (total c) (total c').
Proof.
  destruct Hc as (H1 & H2 & H3 & H4 & H5 & H6 & H7 & H8). unfold total. cbv zeta.
  assert (∀ u u' v v' : Z, (u ≤ u')%Z → (v ≤ v')%Z → (u + v ≤ u' + v')%Z) as Hadd
    by (intros; lia).
  repeat (apply (zip_with_rel Z.le Z.le Z.le); [exact Hadd| |assumption]). exact H1.
Qed.

Lemma resultant_shape : cells_rel (λ _ _, True) (resultant c) (resultant c').
Proof.
  destruct Hc as (H1 & H2 & H3 & H4 & H5 & H6 & H7 & H8). unfold resultant. cbv zeta.
  repeat first [eapply map_shape | eapply zip_with_shape]; eassumption.
Qed.

Lemma directional_raised (i j : Z) :
  option_Forall2 (λ _ _, True) (directional c i j) (directional c' i j).
Proof.
  destruct Hc as (H1 & H2 & H3 & H4 & H5 & H6 & H7 & H8). unfold directional.
  destruct (get_rel _ _ _ H1 i j); [|by constructor]. cbn [mbind option_bind].
  destruct (get_rel _ _ _ H2 i j); [|by constructor]. cbn [mbind option_bind].
  destruct (get_rel _ _ _ H3 i j); [|by constructor]. cbn [mbind option_bind].
  destruct (get_rel _ _ _ H4 i j); [|by constructor]. cbn [mbind option_bind].
  destruct (get_rel _ _ _ H5 i j); [|by constructor]. cbn [mbind option_bind].
  destruct (get_rel _ _ _ H6 i j); [|by constructor]. cbn [mbind option_bind].
  destruct (get_rel _ _ _ H7 i j); [|by constructor]. cbn [mbind option_bind].
  destruct (get_rel _ _ _ H8 i j); by constructor.
Qed.

Lemma std_pass_raised (nr nc : Z) (v v' : Np.ndarray R) :
  cells_rel (λ _ _, True) v v' →
  option_Forall2 (cells_rel (λ _ _, True)) (std_pass c nr nc v) (std_pass c' nr nc v').
Proof.
  intros Hv. unfold std_pass. apply (for_rel (cells_rel (λ _ _, True))); [|exact Hv].
  intros j t t' _ Ht. apply (for_rel (cells_rel (λ _ _, True))); [|exact Ht].
  intros i u u' _ Hu.
  destruct (directional_raised i j) as [xs xs' _|]; [|by constructor].
  cbn [mbind option_bind]. by apply set_rel.
Qed.

End raise_results.

(** Over the rationals, raising the observer never hides a cell: for every
    grid and window size, [visibility2d] with a greater observer height
    returns, or raises, as with the smaller one, and every cell of its total
    visibility is at least what it was, under the same mask. *)
Lemma visibility2d_raised (m : Np.marray Q) (wsize : Z) (dh dh' : Q) :
  (dh <= dh')%Q →
  option_Forall2
    (λ r r', Np.mask (vtot r.1) = Np.mask (vtot r'.1)
             ∧ cells_rel Z.le (Np.data (vtot r.1)) (Np.data (vtot r'.1)))
    (visibility2d m wsize dh) (visibility2d m wsize dh').
Proof.
  intros Hdh. unfold visibility2d. cbv zeta.
  destruct (sweeps_raised dh dh' (Np.fill (Np.data m) (Np.mask m) (ma_mean m)) Hdh
              (Z.of_nat (Np.nrows (Np.data m))) (Z.of_nat (Np.ncols (Np.data m)))
              (Z.abs wsize) (Z.abs wsize / 2)) as [c c' Hc|]; [|by constructor].
  cbn [mbind option_bind].
  match goal with
  | |- context [std_pass c ?nr ?nc ?v0] =>
      destruct (std_pass_raised c c' Hc nr nc v0 v0
                  (cells_rel_refl (λ _ _, True) v0 (λ _, I))) as [v v' Hv|];
      [|by constructor]
  end.
  cbn [mbind option_bind].
  match goal with
  | |- context [with_mask (Np.slice2 (total c) ?r0 ?r1 ?c0 ?c1) ?msk] =>
      destruct (with_mask_rel Z.le _ _ msk
                  (slice2_rel Z.le _ _ r0 r1 c0 c1 (total_raised c c' Hc)))
        as [o o' Ho|]; [|by constructor];
      cbn [mbind option_bind];
      destruct (with_mask_rel (λ _ _, True) _ _ msk
                  (slice2_rel (λ _ _, True) _ _ r0 r1 c0 c1 Hv))
        as [o2 o2' Ho2|]; [|by constructor];
      cbn [mbind option_bind];
      destruct (with_mask_rel (λ _ _, True) _ _ msk
                  (slice2_rel (λ _ _, True) _ _ r0 r1 c0 c1 (resultant_shape c c' Hc)))
        as [o3 o3' Ho3|]; [|by constructor]
  end.
  cbn [mbind option_bind]. constructor. cbn [fst vtot]. exact Ho.
Qed.

(** X16.  Raising the observer never hides a cell.  On a grid of whole
    heights with no masked cell, for whole observer heights [h <= h'],
    [visibility2d] with [h'] returns, or raises, as with [h], and every cell
    of its total visibility is at least what it was, under the same mask.

    As for the change of unit, the heights are whole numbers of at most
    [2^31] and the window has between 3 and 201 cells, where the doubles of
    the code compare the angles as the rationals do. *)
Theorem visibility2d_raise_observer (d : Np.ndarray Z) (wsize h h' : Z) :
  (h ≤ h')%Z → within (2 ^ 31) d →
  (Z.abs h ≤ 2 ^ 31)%Z → (Z.abs h' ≤ 2 ^ 31)%Z → (3 ≤ wsize ≤ 201)%Z →
  option_Forall2
    (λ r r', Np.mask (vtot r.1) = Np.mask (vtot r'.1)
             ∧ cells_rel Z.le (Np.data (vtot r.1)) (Np.data (vtot r'.1)))
    (visibility2d (heights d) wsize (inject_Z h))
    (visibility2d (heights d) wsize (inject_Z h')).
Proof.
  intros Hh _ _ _ _. apply visibility2d_raised. by rewrite <- Zle_Qle.
Qed.

Lemma visibility2d_raise_observer_witness :
  let d := Np.mk 5 5 [[1; 2; 4; 7; 3]; [0; 9; 5; 5; 6]; [2; 2; 8; 1; 0];
                      [6; 3; 3; 9; 4]; [5; 0; 7; 2; 8]]%Z in
  option_Forall2
    (λ r r', Np.mask (vtot r.1) = Np.mask (vtot r'.1)
             ∧ cells_rel Z.le (Np.data (vtot r.1)) (Np.data (vtot r'.1)))
    (visibility2d (heights d) 5 (inject_Z 0)) (visibility2d (heights d) 5 (inject_Z 3)).
Proof.
  intros d. apply (visibility2d_raise_observer d 5 0 3).
  - lia.
  - repeat constructor; simpl; lia.
  - simpl; lia.
  - simpl; lia.
  - simpl; lia.
Defined.

(** ** The vertical derivative is linear in the spectrum *)

Lemma tabulate_rel {A B : Type} (R : A → B → Prop) (nr nc : nat)
    (f : nat → nat → A) (g : nat → nat → B) :
  (∀ i j, R (f i j) (g i j)) → cells_rel R (tabulate nr nc f) (tabulate nr nc g).
Proof.
  intros Hfg. split; [reflexivity|]. split; [reflexivity|]. cbn [tabulate Np.cells].
  apply Forall2_fmap, Forall_Forall2_diag, Forall_forall. intros i _.
  apply Forall2_fmap, Forall_Forall2_diag, Forall_forall. intros j _. apply Hfg.
Qed.

Lemma map_rel {A A' B B' : Type} (R : A → A' → Prop) (R' : B → B' → Prop)
    (f : A → B) (f' : A' → B') (x : Np.ndarray A) (x' : Np.ndarray A') :
  (∀ u u', R u u' → R' (f u) (f' u')) →
  cells_rel R x x' → cells_rel R' (Np.map f x) (Np.map f' x').
Proof.
  intros Hf (Hr & Hc & Hx). split; [exact Hr|]. split; [exact Hc|]. cbn [Np.map Np.cells].
  apply Forall2_fmap. induction Hx as [|row row' rows rows' Hrow Hrows IH];
    constructor; [|exact IH].
  apply Forall2_fmap. induction Hrow; constructor; [by apply Hf|assumption].
Qed.

Lemma roll_rel {A B : Type} (R : A → B → Prop) (l : list A) (l' : list B) (s : nat) :
  Forall2 R l l' → Forall2 R (roll l s) (roll l' s).
Proof.
  intros Hl. unfold roll. pose proof Hl as Hlen. apply Forall2_length in Hlen as <-.
  apply Forall2_app; [by apply Forall2_drop|by apply Forall2_take].
Qed.

Lemma fftshift_rel {A B : Type} (R : A → B → Prop) (x : Np.ndarray A) (y : Np.ndarray B) :
  cells_rel R x y → cells_rel R (fftshift x) (fftshift y).
Proof.
  intros (Hr & Hc & Hx). split; [exact Hr|]. split; [exact Hc|].
  cbn [fftshift Np.cells]. unfold fftshift1 at 1 3. rewrite !length_fmap.
  pose proof Hx as Hlen. apply Forall2_length in Hlen as <-.
  apply roll_rel, Forall2_fmap.
  induction Hx as [|row row' rows rows' Hrow Hrows IH]; constructor; [|exact IH].
  unfold fftshift1. pose proof Hrow as Hlen. apply Forall2_length in Hlen as <-.
  by apply roll_rel.
Qed.

Section scaled_facts.
Variable c : R.

Lemma scale_zero_l : Cx.scale Cx.zero c = Cx.zero.
Proof. unfold Cx.scale, Cx.zero. simpl. f_equal; ring. Qed.

Lemma sum_scaled {X : Type} (g g' : X → Cx.complex) (l : list X) :
  (∀ x, x ∈ l → scaled c (g x) (g' x)) →
  scaled c (Cx.sum (g <$> l)) (Cx.sum (g' <$> l)).
Proof.
  unfold scaled. induction l as [|x l IH]; intros Hg.
  - simpl. symmetry. apply scale_zero_l.
  - rewrite !fmap_cons.
    change (Cx.sum (g' x :: (g' <$> l))) with (Cx.add (g' x) (Cx.sum (g' <$> l))).
    change (Cx.sum (g x :: (g <$> l))) with (Cx.add (g x) (Cx.sum (g <$> l))).
    rewrite (Hg x) by left. rewrite IH by (intros y Hy; apply Hg; by right).
    unfold Cx.add, Cx.scale. simpl. f_equal; ring.
Qed.

Lemma mul_scaled (z z' e : Cx.complex) :
  scaled c z z' → scaled c (Cx.mul z e) (Cx.mul z' e).
Proof. unfold scaled. intros ->. unfold Cx.mul, Cx.scale. simpl. f_equal; ring. Qed.

(** The transform of a rescaled array is the rescaled transform. *)
Lemma dft2_scaled (sign : R) (a a' : Np.ndarray Cx.complex) :
  cells_rel (scaled c) a a' → cells_rel (scaled c) (dft2 sign a) (dft2 sign a').
Proof.
  intros Ha. pose proof Ha as (Hr & Hc & _). unfold dft2. cbv zeta. rewrite <- Hr, <- Hc.
  apply tabulate_rel. intros k l. apply sum_scaled. intros m _.
  apply sum_scaled. intros n _. apply mul_scaled.
  destruct (lookup2_rel _ _ _ Ha m n) as [z z' Hz|]; [exact Hz|].
  simpl. unfold scaled. symmetry. apply scale_zero_l.
Qed.

(** Lines 681-685: from the weighted spectrum to the result. *)
Lemma inverse_scaled (fz fz' : Np.ndarray Cx.complex) (r0 r1 c0 c1 : Z) :
  cells_rel (scaled c) fz fz' →
  cells_rel (scaled_re c)
    (Np.map Cx.re (Np.slice2 (ifft2 (fftshift fz)) r0 r1 c0 c1))
    (Np.map Cx.re (Np.slice2 (ifft2 (fftshift fz')) r0 r1 c0 c1)).
Proof.
  intros Hfz. apply (map_rel (scaled c)).
  { intros u u' ->. unfold scaled_re, Cx.re, Cx.scale. reflexivity. }
  apply slice2_rel. unfold ifft2.
  pose proof (fftshift_rel _ _ _ Hfz) as Hs. pose proof Hs as (Hr & Hc & _).
  rewrite <- Hr, <- Hc. apply (map_rel (scaled c)); [|by apply dft2_scaled].
  intros u u' ->. unfold scaled, Cx.scale. simpl. f_equal; ring.
Qed.

(** A relation that is a function determines the second array. *)
Lemma scaled_re_map (x y : Np.ndarray R) :
  cells_rel (scaled_re c) x y → y = Np.map (λ v, (v * c)%R) x.
Proof.
  intros (Hr & Hc & Hx). destruct x as [nr nc rows], y as [nr' nc' rows'].
  simpl in Hr, Hc, Hx. subst nr' nc'. unfold Np.map. simpl. f_equal.
  induction Hx as [|row row' l l' Hrow Hrows IH]; [reflexivity|].
  rewrite fmap_cons, <- IH. f_equal.
  clear IH Hrows. induction Hrow as [|u u' r r' Hu Hr IH]; [reflexivity|].
  rewrite fmap_cons, <- IH. by rewrite Hu.
Qed.

End scaled_facts.

(** ** The sample interval *)

(** The radial frequency of a bin is inversely proportional to the size of
    the sample interval. *)
Lemma weight_interval (npts xint i j : Z) :
  xint ≠ 0%Z → (npts - 1)%Z ≠ 0%Z →
  weight npts (2 * PI / IZR (xint * (npts - 1))) i j
  = (weight npts (2 * PI / IZR (1 * (npts - 1))) i j * / Rabs (IZR xint))%R.
Proof.
  intros Hx Hn. unfold weight. cbv zeta.
  assert (IZR xint ≠ 0%R) as Hx' by (by apply not_0_IZR).
  assert (IZR (npts - 1) ≠ 0%R) as Hn' by (by apply not_0_IZR).
  rewrite Z.mul_1_l, mult_IZR.
  set (A := (IZR i + 1 - (IZR npts / 2 + 1))%R).
  set (B := (IZR j + 1 - (IZR npts / 2 + 1))%R).
  set (wn1 := (2 * PI / IZR (npts - 1))%R).
  replace (A * (2 * PI / (IZR xint * IZR (npts - 1)))
           * (A * (2 * PI / (IZR xint * IZR (npts - 1))))
           + B * (2 * PI / (IZR xint * IZR (npts - 1)))
             * (B * (2 * PI / (IZR xint * IZR (npts - 1)))))%R
    with ((A * wn1 * (A * wn1) + B * wn1 * (B * wn1)) * Rsqr (/ IZR xint))%R
    by (unfold wn1, Rsqr; field; split; assumption).
  rewrite sqrt_mult_alt by nra. rewrite sqrt_Rsqr_abs, Rabs_inv. reflexivity.
Qed.

(** X17.  The vertical derivative is inversely proportional to the size of
    the sample interval, whose sign is ignored: [vertical(data, npts, xint)]
    is [vertical(data, npts, 1)] divided by [|xint|], cell by cell. *)
Theorem vertical_sample_interval (m : Np.marray R) (npts xint : Z) :
  Np.wfma m →
  (0 < Np.nrows (Np.data m))%nat → (0 < Np.ncols (Np.data m))%nat →
  (Z.of_nat (Np.nrows (Np.data m)) ≤ npts)%Z →
  (Z.of_nat (Np.ncols (Np.data m)) ≤ npts)%Z →
  npts ≠ 1%Z → xint ≠ 0%Z →
  ∃ dz1, vertical m (Some npts) 1 = Some dz1
    ∧ vertical m (Some npts) xint
      = Some (Np.map (λ v, (v * / Rabs (IZR xint))%R) dz1).
Proof.
  intros Hm Hnr Hnc Hr Hc Hn Hx.
  destruct (vertical_spec m npts xint Hm Hnr Hnc Hr Hc)
    as (data1 & fz & dz & Hpad & _ & Hfilt & (Hwfz & Hrz & Hcz) & Hbins & Hv & _);
    [nia|].
  destruct (vertical_spec m npts 1 Hm Hnr Hnc Hr Hc)
    as (data1' & fz1 & dz1 & Hpad' & _ & Hfilt1 & (Hwfz1 & Hrz1 & Hcz1) & Hbins1 & Hv1 & _);
    [lia|].
  rewrite Hpad in Hpad'. apply (inj Some) in Hpad'. subst data1'.
  exists dz1. split; [exact Hv1|]. rewrite Hv. f_equal.
  apply scaled_re_map.
  unfold vertical in Hv, Hv1. cbv zeta in Hv, Hv1. rewrite Hpad in Hv, Hv1.
  cbn [mbind option_bind] in Hv, Hv1. rewrite Hfilt in Hv. rewrite Hfilt1 in Hv1.
  cbn [mbind option_bind] in Hv, Hv1.
  apply (inj Some) in Hv. apply (inj Some) in Hv1. subst dz dz1.
  apply inverse_scaled.
  apply cells_rel_lookup; [exact Hwfz1|exact Hwfz|split; apply Nat2Z.inj; congruence|].
  intros i j u v Hu Hv.
  destruct (lookup2_lt _ _ _ _ Hwfz1 Hu) as [Hi Hj].
  destruct (Hbins (Z.of_nat i) (Z.of_nat j)) as (x & Hx1 & Hx2); [lia..|].
  destruct (Hbins1 (Z.of_nat i) (Z.of_nat j)) as (x' & Hx1' & Hx2'); [lia..|].
  rewrite Hx1 in Hx1'. apply (inj Some) in Hx1'. subst x'.
  rewrite get_nonneg, !Nat2Z.id in Hx2 by lia.
  rewrite get_nonneg, !Nat2Z.id in Hx2' by lia.
  rewrite Hv in Hx2. rewrite Hu in Hx2'.
  apply (inj Some) in Hx2. apply (inj Some) in Hx2'. subst u v.
  rewrite (weight_interval npts xint) by (assumption || lia).
  unfold scaled, Cx.scale. simpl. f_equal; ring.
Qed.

Lemma vertical_sample_interval_witness :
  let m := unmasked (Np.mk 2 3 [[1; 2; 4]; [0; 3; 5]]%R) in
  ∃ dz1, vertical m (Some 4%Z) 1 = Some dz1
    ∧ vertical m (Some 4%Z) (-2)
      = Some (Np.map (λ v, (v * / Rabs (IZR (-2)))%R) dz1).
Proof.
  intros m.
  assert (Np.wfma m) as Hm.
  { split; [|split; [apply wf_full|split; reflexivity]].
    split; [reflexivity|]. repeat constructor. }
  apply (vertical_sample_interval m 4 (-2) Hm); simpl; lia.
Defined.

(** ** The unit of the field *)

Lemma last_rel {A B : Type} (R : A → B → Prop) (l : list A) (l' : list B) (x : A) (x' : B) :
  Forall2 R l l' → R x x' → R (List.last l x) (List.last l' x').
Proof.
  intros Hl. revert x x'. induction Hl as [|y y' l l' Hy Hl IH]; intros x x' Hx; [exact Hx|].
  destruct Hl as [|z z' k k' Hz Hk]; [exact Hy|].
  change (List.last (y :: z :: k) x) with (List.last (z :: k) x).
  change (List.last (y' :: z' :: k') x') with (List.last (z' :: k') x').
  apply IH. exact Hx.
Qed.

Lemma pad_edge1_rel {A B : Type} (R : A → B → Prop) (l : list A) (l' : list B)
    (before after : Z) :
  Forall2 R l l' →
  option_Forall2 (Forall2 R) (pad_edge1 l before after) (pad_edge1 l' before after).
Proof.
  intros Hl. unfold pad_edge1.
  destruct ((before <? 0)%Z || (after <? 0)%Z); [by constructor|].
  destruct Hl as [|x x' k k' Hx Hk].
  - destruct ((before =? 0)%Z && (after =? 0)%Z); by repeat constructor.
  - constructor. apply Forall2_app; [by apply Forall2_replicate|].
    apply Forall2_app; [by constructor|].
    apply Forall2_replicate. apply last_rel; [by constructor|exact Hx].
Qed.

Lemma pad_edge_rel {A B : Type} (R : A → B → Prop) (x : Np.ndarray A) (y : Np.ndarray B)
    (rb ra cb ca : Z) :
  cells_rel R x y →
  option_Forall2 (cells_rel R) (pad_edge x rb ra cb ca) (pad_edge y rb ra cb ca).
Proof.
  intros (Hr & Hc & Hcells). unfold pad_edge. rewrite <- Hr, <- Hc.
  destruct (pad_edge1_rel (Forall2 R) _ _ rb ra Hcells) as [rows rows' Hrows|];
    [|by constructor].
  cbn [mbind option_bind].
  destruct (mapM_rel (Forall2 R) (Forall2 R)
              (λ row : list A, pad_edge1 row cb ca) (λ row : list B, pad_edge1 row cb ca)
              rows rows') as [p p' Hp|]; [|exact Hrows| |by constructor].
  - intros row row' Hrow. by apply pad_edge1_rel.
  - cbn [mbind option_bind]. constructor. by split.
Qed.

(** The weighting loop on two related spectra. *)
Lemma weighting_scaled (c : R) (f f' fz fz' : Np.ndarray Cx.complex) (npts : Z) (wn : R) :
  cells_rel (scaled c) f f' → cells_rel (scaled c) fz fz' →
  option_Forall2 (cells_rel (scaled c)) (weighting f fz npts wn) (weighting f' fz' npts wn).
Proof.
  intros Hf Hfz. unfold weighting. apply (for_rel (cells_rel (scaled c))); [|exact Hfz].
  intros i t t' _ Ht. apply (for_rel (cells_rel (scaled c))); [|exact Ht].
  intros j u u' _ Hu.
  destruct (get_rel _ _ _ Hf i j) as [x x' Hx|]; [|by constructor].
  cbn [mbind option_bind]. apply set_rel; [exact Hu|].
  unfold scaled in Hx |- *. rewrite Hx. unfold Cx.scale. simpl. f_equal; ring.
Qed.

Section homogeneous.
Variable a : R.
Hypothesis Ha : (0 < a)%R.

Local Notation "'times'" := (λ v : R, (v * a)%R).

Lemma insert_sorted_scale (x : R) (l : list R) :
  insert_sorted (x * a) (times <$> l) = times <$> insert_sorted x l.
Proof.
  induction l as [|y l IH]; [reflexivity|]. rewrite fmap_cons. cbn [insert_sorted].
  destruct (Rle_dec (x * a) (y * a)) as [H1|H1], (Rle_dec x y) as [H2|H2];
    try (exfalso; nra); rewrite !fmap_cons; [reflexivity|]. by rewrite IH.
Qed.

Lemma sort_scale (l : list R) : sort (times <$> l) = times <$> sort l.
Proof.
  induction l as [|x l IH]; [reflexivity|]. rewrite fmap_cons.
  change (sort ((x * a)%R :: (times <$> l)))
    with (insert_sorted (x * a) (sort (times <$> l))).
  rewrite IH. apply insert_sorted_scale.
Qed.

Lemma nth_scale (l : list R) (k : nat) : nth k (times <$> l) 0%R = (nth k l 0 * a)%R.
Proof.
  revert k. induction l as [|x l IH]; intros k.
  - destruct k; simpl; ring.
  - destruct k as [|k]; [reflexivity|]. rewrite fmap_cons. cbn [nth]. apply IH.
Qed.

Lemma scaled_fmap (l l' : list R) : Forall2 (scaled_re a) l l' → l' = times <$> l.
Proof.
  induction 1 as [|x x' l l' Hx Hl IH]; [reflexivity|]. rewrite fmap_cons, <- IH.
  by rewrite Hx.
Qed.

Variables (m m' : Np.marray R).
Hypothesis Hm : Np.wfma m.
Hypothesis Hm' : Np.wfma m'.
Hypothesis Hmask : Np.mask m' = Np.mask m.
Hypothesis Hshape : Np.same_shape (Np.data m') (Np.data m).
Hypothesis Hrel : ∀ i j x x',
  Np.lookup2 (Np.mask m) i j = Some false →
  Np.lookup2 (Np.data m) i j = Some x → Np.lookup2 (Np.data m') i j = Some x' →
  scaled_re a x x'.

Lemma ma_median_scale : ma_median m' = times <$> ma_median m.
Proof.
  unfold ma_median. cbv zeta.
  rewrite (scaled_fmap _ _ (compressed_rel (scaled_re a) m m' Hm Hm' Hmask Hshape Hrel)).
  rewrite sort_scale, length_fmap.
  destruct (length (sort (Np.compressed m)) =? 0)%nat; [reflexivity|].
  destruct (Nat.even (length (sort (Np.compressed m)))); cbn [fmap option_fmap option_map];
    f_equal; rewrite !nth_scale; field.
Qed.

Lemma centred_scaled : cells_rel (scaled_re a) (centred m) (centred m').
Proof.
  destruct (wf_centred m Hm) as [Hw [Hs1 Hs2]].
  destruct (wf_centred m' Hm') as [Hw' [Hs1' Hs2']].
  destruct Hshape as [Hd1 Hd2].
  apply cells_rel_lookup; [exact Hw|exact Hw'|split; congruence|].
  intros i j u v Hu Hv. unfold centred in Hu, Hv. rewrite ma_median_scale in Hv.
  destruct (ma_median m) as [med|]; cbn [fmap option_fmap option_map] in Hv.
  - apply lookup2_zip_with in Hu as (x & b & Hx & Hb & ->).
    apply lookup2_zip_with in Hv as (x' & b' & Hx' & Hb' & ->).
    rewrite Hmask, Hb in Hb'. apply (inj Some) in Hb'. subst b'.
    unfold scaled_re. destruct b; [ring|].
    rewrite (Hrel i j x x' Hb Hx Hx'). ring.
  - apply lookup2_map in Hu as (x & _ & ->). apply lookup2_map in Hv as (x' & _ & ->).
    unfold scaled_re. ring.
Qed.

Lemma vertical_scaled (npts : option Z) (xint : Z) :
  option_Forall2 (cells_rel (scaled_re a))
    (vertical m npts xint) (vertical m' npts xint).
Proof.
  unfold vertical, padded. cbv zeta. destruct Hshape as [-> ->].
  match goal with
  | |- context [pad_edge (centred m) ?rb ?ra ?cb ?ca] =>
      destruct (pad_edge_rel _ _ _ rb ra cb ca centred_scaled) as [d d' Hd|];
      [|by constructor]
  end.
  cbn [mbind option_bind]. unfold filtered. cbv zeta.
  destruct (_ =? 0)%Z; [by constructor|].
  assert (cells_rel (scaled a) (fft2 (Np.map Cx.of_real d)) (fft2 (Np.map Cx.of_real d')))
    as Hf.
  { apply dft2_scaled. apply (map_rel (scaled_re a)); [|exact Hd].
    intros u u' ->. unfold scaled, Cx.scale, Cx.of_real. simpl. f_equal; ring. }
  match goal with
  | |- context [weighting (fftshift ?f) ?f ?n ?wn] =>
      destruct (weighting_scaled a _ _ _ _ n wn (fftshift_rel _ _ _ Hf) Hf) as [fz fz' Hfz|];
      [|by constructor]
  end.
  cbn [mbind option_bind]. constructor. by apply inverse_scaled.
Qed.

End homogeneous.

(** X18.  The vertical derivative follows the unit of the field: when the
    cells that are not masked are multiplied by a positive factor [a],
    [vertical] returns its former result multiplied by [a], cell by cell,
    or raises as before, for every padding size and sample interval. *)
Theorem vertical_homogeneous (m m' : Np.marray R) (a : R) (npts : option Z) (xint : Z) :
  Np.wfma m → Np.wfma m' →
  Np.mask m' = Np.mask m → Np.same_shape (Np.data m') (Np.data m) →
  (0 < a)%R →
  (∀ i j x x',
     Np.lookup2 (Np.mask m) i j = Some false →
     Np.lookup2 (Np.data m) i j = Some x → Np.lookup2 (Np.data m') i j = Some x' →
     x' = (x * a)%R) →
  vertical m' npts xint = Np.map (λ v, (v * a)%R) <$> vertical m npts xint.
Proof.
  intros Hm Hm' Hmask Hshape Ha Hrel.
  destruct (vertical_scaled a Ha m m' Hm Hm' Hmask Hshape Hrel npts xint) as [dz dz' Hdz|];
    [|reflexivity].
  cbn [fmap option_fmap option_map]. f_equal. by apply scaled_re_map.
Qed.

Lemma vertical_homogeneous_witness :
  let msk := Np.mk 2 3 [[false; false; false]; [false; true; false]] in
  let m := Np.mkma (Np.mk 2 3 [[1; 2; 4]; [0; 9; 5]]%R) msk in
  let m' := Np.mkma (Np.mk 2 3 [[1 * 3; 2 * 3; 4 * 3]; [0 * 3; 7; 5 * 3]]%R) msk in
  vertical m' None 1 = Np.map (λ v, (v * 3)%R) <$> vertical m None 1.
Proof.
  intros msk m m'.
  assert (Np.wfma m) as Hm.
  { split; [|split; [|split; reflexivity]]; (split; [reflexivity|repeat constructor]). }
  assert (Np.wfma m') as Hm'.
  { split; [|split; [|split; reflexivity]]; (split; [reflexivity|repeat constructor]). }
  apply (vertical_homogeneous m m' 3 None 1 Hm Hm');
    [reflexivity|split; reflexivity|lra|].
  intros i j x x' Hb Hx Hx'.
  destruct i as [|[|i]]; [destruct j as [|[|[|j]]]..|]; simpl in Hb, Hx, Hx';
    try discriminate; injection Hx as <-; injection Hx' as <-; reflexivity.
Defined.

(** ** The taper *)

Lemma for_id {S X : Type} (xs : list X) (body : X → S → option S) (s : S) :
  (∀ x, x ∈ xs → body x s = Some s) → Py.for_ xs body s = Some s.
Proof.
  induction xs as [|x xs IH]; intros Hb; [reflexivity|]. simpl.
  rewrite Hb by left. simpl. apply IH. intros y Hy. apply Hb. by right.
Qed.

(** Writing into a cell the value it holds changes nothing. *)
Lemma set_same {A : Type} (a : Np.ndarray A) (i j : Z) (x : A) :
  Np.get a i j = Some x → Np.set a i j x = Some a.
Proof.
  unfold Np.get, Np.set.
  destruct (Py.norm (Np.nrows a) i) as [r|]; [|discriminate]. cbn [mbind option_bind].
  destruct (Py.norm (Np.ncols a) j) as [k|]; [|discriminate]. cbn [mbind option_bind].
  intros (row & Hrow & Hx)%bind_Some. f_equal. destruct a as [nr nc rows]. simpl in *.
  f_equal. apply list_eq. intros n. destruct (decide (n = r)) as [->|Hne].
  - rewrite list_lookup_alter_eq, Hrow. simpl. f_equal. by apply list_insert_id.
  - by rewrite list_lookup_alter_ne.
Qed.

(** The mean-free block set into an array of zeros, lines 694-696. *)
Lemma assign_block_zeros (v : Np.ndarray R) (npts rdiff cdiff : Z) :
  Np.wf v → (0 ≤ rdiff)%Z → (0 ≤ cdiff)%Z →
  (rdiff + Z.of_nat (Np.nrows v) ≤ npts)%Z → (cdiff + Z.of_nat (Np.ncols v) ≤ npts)%Z →
  ∃ b, assign_block (Np.full npts npts 0%R) v
         rdiff (rdiff + Z.of_nat (Np.nrows v)) cdiff (cdiff + Z.of_nat (Np.ncols v))
       = Some b
    ∧ Np.wf b ∧ Np.nrows b = Z.to_nat npts ∧ Np.ncols b = Z.to_nat npts
    ∧ ∀ i j : nat, (i < Z.to_nat npts)%nat → (j < Z.to_nat npts)%nat →
        ((Z.to_nat rdiff ≤ i < Z.to_nat rdiff + Np.nrows v)%nat
         ∧ (Z.to_nat cdiff ≤ j < Z.to_nat cdiff + Np.ncols v)%nat →
         ∃ x, Np.lookup2 v (i - Z.to_nat rdiff) (j - Z.to_nat cdiff) = Some x
              ∧ Np.lookup2 b i j = Some x)
        ∧ (¬ ((Z.to_nat rdiff ≤ i < Z.to_nat rdiff + Np.nrows v)%nat
              ∧ (Z.to_nat cdiff ≤ j < Z.to_nat cdiff + Np.ncols v)%nat) →
           Np.lookup2 b i j = Some 0%R).
Proof.
  intros Hv Hr0 Hc0 Hr1 Hc1. unfold assign_block. cbv zeta.
  change (Np.nrows (Np.full npts npts 0%R)) with (Z.to_nat npts).
  change (Np.ncols (Np.full npts npts 0%R)) with (Z.to_nat npts).
  assert (Py.clip (Z.to_nat npts) rdiff = Z.to_nat rdiff) as ->.
  { unfold Py.clip. rewrite (proj2 (Z.leb_le _ _)) by lia. lia. }
  assert (Py.clip (Z.to_nat npts) cdiff = Z.to_nat cdiff) as ->.
  { unfold Py.clip. rewrite (proj2 (Z.leb_le _ _)) by lia. lia. }
  assert (Py.clip (Z.to_nat npts) (rdiff + Z.of_nat (Np.nrows v))
          = (Z.to_nat rdiff + Np.nrows v)%nat) as ->.
  { unfold Py.clip. rewrite (proj2 (Z.leb_le _ _)) by lia. lia. }
  assert (Py.clip (Z.to_nat npts) (cdiff + Z.of_nat (Np.ncols v))
          = (Z.to_nat cdiff + Np.ncols v)%nat) as ->.
  { unfold Py.clip. rewrite (proj2 (Z.leb_le _ _)) by lia. lia. }
  replace (Z.to_nat rdiff + Np.nrows v - Z.to_nat rdiff)%nat with (Np.nrows v) by lia.
  replace (Z.to_nat cdiff + Np.ncols v - Z.to_nat cdiff)%nat with (Np.ncols v) by lia.
  rewrite !Nat.eqb_refl. cbn [orb andb]. eexists. split; [reflexivity|].
  cbn [Np.full Np.cells Np.nrows Np.ncols].
  split; [|split; [reflexivity|split; [reflexivity|]]].
  - split; cbn [Np.cells Np.nrows Np.ncols]; [by rewrite length_imap, length_replicate|].
    rewrite Forall_lookup. intros i row. rewrite list_lookup_imap.
    intros (row0 & [-> _]%lookup_replicate & ->)%fmap_Some.
    by rewrite length_imap, length_replicate.
  - intros i j Hi Hj.
    match goal with
    | |- context [Np.lookup2 ?b i j] =>
        assert (Np.lookup2 b i j
                = Some (if (Z.to_nat rdiff <=? i)%nat && (i <? Z.to_nat rdiff + Np.nrows v)%nat
                           && (Z.to_nat cdiff <=? j)%nat
                           && (j <? Z.to_nat cdiff + Np.ncols v)%nat
                        then default 0%R
                               (Np.lookup2 v
                                  (if (Np.nrows v =? 1)%nat then 0 else i - Z.to_nat rdiff)%nat
                                  (if (Np.ncols v =? 1)%nat then 0 else j - Z.to_nat cdiff)%nat)
                        else 0%R)) as Hcell
    end.
    { unfold Np.lookup2 at 1. cbn [Np.cells].
      rewrite list_lookup_imap, lookup_replicate_2 by exact Hi.
      cbn [fmap option_fmap option_map mbind option_bind].
      rewrite list_lookup_imap, lookup_replicate_2 by exact Hj. reflexivity. }
    rewrite Hcell. clear Hcell. split.
    + intros [[Hi1 Hi2] [Hj1 Hj2]].
      rewrite (proj2 (Nat.leb_le _ _) Hi1), (proj2 (Nat.ltb_lt _ _) Hi2),
              (proj2 (Nat.leb_le _ _) Hj1), (proj2 (Nat.ltb_lt _ _) Hj2). cbn [andb].
      destruct (lookup2_is_Some v (i - Z.to_nat rdiff) (j - Z.to_nat cdiff) Hv)
        as [x Hx]; [lia..|].
      exists x. split; [exact Hx|]. f_equal.
      replace (if (Np.nrows v =? 1)%nat then 0%nat else (i - Z.to_nat rdiff)%nat)
        with (i - Z.to_nat rdiff)%nat by (destruct (Nat.eqb_spec (Np.nrows v) 1); lia).
      replace (if (Np.ncols v =? 1)%nat then 0%nat else (j - Z.to_nat cdiff)%nat)
        with (j - Z.to_nat cdiff)%nat by (destruct (Nat.eqb_spec (Np.ncols v) 1); lia).
      by rewrite Hx.
    + intros Hout. f_equal.
      destruct (Nat.leb_spec (Z.to_nat rdiff) i), (Nat.ltb_spec i (Z.to_nat rdiff + Np.nrows v)),
               (Nat.leb_spec (Z.to_nat cdiff) j), (Nat.ltb_spec j (Z.to_nat cdiff + Np.ncols v));
        cbn [andb]; try reflexivity; exfalso; apply Hout; lia.
Qed.

Lemma for_good {S X : Type} (Good : S → Prop) (xs : list X) (body : X → S → option S) :
  (∀ x s, x ∈ xs → Good s → ∃ s', body x s = Some s' ∧ Good s') →
  ∀ s, Good s → ∃ s', Py.for_ xs body s = Some s' ∧ Good s'.
Proof.
  induction xs as [|x xs IH]; intros Hb s Hs; simpl; [by exists s|].
  destruct (Hb x s) as (s' & -> & Hs'); [by left|exact Hs|]. simpl.
  apply IH; [|exact Hs']. intros y t Hy. apply Hb. by right.
Qed.

Section taper_facts.
Variables (v : Np.ndarray R) (N rd cd : nat).

(** The block of [v] sits at rows [rd..] and columns [cd..] of an [N x N]
    array; each of its cells has been multiplied by a factor between 0 and
    1, and the cells around it hold 0. *)
Local Notation "'in_block' i j" :=
  ((rd ≤ i < rd + Np.nrows v)%nat ∧ (cd ≤ j < cd + Np.ncols v)%nat)
  (at level 10, i at level 9, j at level 9).
Local Notation "'tapered' gf" :=
  (Np.wf gf ∧ Np.nrows gf = N ∧ Np.ncols gf = N
   ∧ ∀ i j : nat, (i < N)%nat → (j < N)%nat →
       (in_block i j →
        ∃ x f, Np.lookup2 v (i - rd) (j - cd) = Some x ∧ (0 <= f <= 1)%R
               ∧ Np.lookup2 gf i j = Some (x * f)%R)
       ∧ (¬ in_block i j → Np.lookup2 gf i j = Some 0%R))
  (at level 10, gf at level 9).

(** One assignment [gf[i, j] = gf[i, j]*tmp]. *)
Lemma taper_cell (gf : Np.ndarray R) (i j : Z) (tmp : R) :
  tapered gf → (0 ≤ i < Z.of_nat N)%Z → (0 ≤ j < Z.of_nat N)%Z → (0 <= tmp <= 1)%R →
  ∃ gf', (x ← Np.get gf i j; Np.set gf i j (x * tmp)%R) = Some gf' ∧ tapered gf'.
Proof.
  intros (Hw & Hr & Hc & Hcells) Hi Hj Ht.
  destruct (get_is_Some gf i j Hw) as [x Hx]; [lia..|]. rewrite Hx.
  cbn [mbind option_bind].
  destruct (set_spec gf i j (x * tmp)%R Hw) as (gf' & Hset & Hw' & Hr' & Hc' & Hlook);
    [lia..|].
  exists gf'. split; [exact Hset|]. split; [exact Hw'|].
  split; [congruence|]. split; [congruence|].
  rewrite get_nonneg in Hx by lia.
  intros i' j' Hi' Hj'. rewrite Hlook. destruct (Hcells i' j' Hi' Hj') as [Hin Hout].
  destruct (decide (i' = Z.to_nat i ∧ j' = Z.to_nat j)) as [[-> ->]|Hne];
    [|by split].
  split.
  - intros Hb. destruct (Hin Hb) as (y & f & Hy & Hf & Hgf).
    rewrite Hx in Hgf. apply (inj Some) in Hgf. subst x.
    exists y, (f * tmp)%R. split; [exact Hy|]. split; [nra|]. f_equal. ring.
  - intros Hb. rewrite (Hout Hb) in Hx. apply (inj Some) in Hx. subst x.
    f_equal. ring.
Qed.

(** The two loops of lines 698-702, when their indices are in range. *)
Lemma taper_loops (gf : Np.ndarray R) (npts cdiff rdiff r : Z) :
  tapered gf → Z.of_nat N = npts →
  (0 ≤ cdiff ≤ npts)%Z → (0 ≤ rdiff)%Z → (rdiff + r ≤ npts)%Z →
  ∃ gf',
    Py.for_ (Py.range 0 cdiff) (λ i gf,
      let tmp := ((1 + sin (- PI / 2 + IZR i * PI / IZR cdiff)) * 0.5)%R in
      Py.for_ (Py.range rdiff (rdiff + r)) (λ j gf,
        x ← Np.get gf i j;
        gf ← Np.set gf i j (x * tmp)%R;
        y ← Np.get gf (npts - 1 - i) j;
        Np.set gf (npts - 1 - i) j (y * tmp)%R) gf) gf = Some gf'
    ∧ tapered gf'.
Proof.
  intros Hgf HN Hcd Hrd Hr.
  apply (for_good (λ gf, tapered gf)); [|exact Hgf].
  intros i s Hi%elem_of_range Hs. cbv zeta.
  set (tmp := ((1 + sin (- PI / 2 + IZR i * PI / IZR cdiff)) * 0.5)%R).
  assert (0 <= tmp <= 1)%R as Htmp.
  { pose proof (SIN_bound (- PI / 2 + IZR i * PI / IZR cdiff)) as [H1 H2].
    unfold tmp. lra. }
  apply (for_good (λ gf, tapered gf)); [|exact Hs].
  intros j t Hj%elem_of_range Ht.
  destruct (taper_cell t i j tmp Ht) as (t1 & Ht1 & Hg1); [lia|lia|exact Htmp|].
  apply bind_Some in Ht1 as (x & Hx & Hset). rewrite Hx. cbn [mbind option_bind].
  rewrite Hset. cbn [mbind option_bind].
  exact (taper_cell t1 (npts - 1 - i) j tmp Hg1 ltac:(lia) ltac:(lia) Htmp).
Qed.

End taper_facts.

(** When the rows that the loops touch lie outside the block, they hold 0
    and the loops change nothing. *)
Lemma taper_loops_id (b : Np.ndarray R) (npts cdiff rdiff r : Z) :
  Np.wf b → Z.of_nat (Np.nrows b) = npts → Z.of_nat (Np.ncols b) = npts →
  (0 ≤ cdiff ≤ rdiff)%Z → (rdiff + r + cdiff ≤ npts)%Z →
  (∀ i j : nat, (i < Z.to_nat npts)%nat → (j < Z.to_nat npts)%nat →
     ¬ (Z.to_nat rdiff ≤ i < Z.to_nat (rdiff + r))%nat → Np.lookup2 b i j = Some 0%R) →
  Py.for_ (Py.range 0 cdiff) (λ i gf,
    let tmp := ((1 + sin (- PI / 2 + IZR i * PI / IZR cdiff)) * 0.5)%R in
    Py.for_ (Py.range rdiff (rdiff + r)) (λ j gf,
      x ← Np.get gf i j;
      gf ← Np.set gf i j (x * tmp)%R;
      y ← Np.get gf (npts - 1 - i) j;
      Np.set gf (npts - 1 - i) j (y * tmp)%R) gf) b = Some b.
Proof.
  intros Hw Hr Hc Hcd Hfit Hzero.
  apply for_id. intros i Hi%elem_of_range. cbv zeta.
  apply for_id. intros j Hj%elem_of_range.
  assert (∀ k : Z, (0 ≤ k < rdiff ∨ rdiff + r ≤ k < npts)%Z → Np.get b k j = Some 0%R)
    as Hget.
  { intros k Hk. rewrite get_nonneg by lia. apply Hzero; lia. }
  rewrite (Hget i) by lia. cbn [mbind option_bind]. rewrite Rmult_0_l.
  rewrite (set_same b i j 0%R) by (apply Hget; lia). cbn [mbind option_bind].
  rewrite (Hget (npts - 1 - i)%Z) by lia. cbn [mbind option_bind]. rewrite Rmult_0_l.
  apply set_same, Hget. lia.
Qed.

(** X19.  [__taper2d] on a block that fits: it returns the mean-free block
    set at rows [rdiff..] and columns [cdiff..] of an [npts x npts] array of
    zeros, each cell of the block multiplied by a factor between 0 and 1.
    The loops run over rows [0..cdiff) and [npts-cdiff..npts): when
    [cdiff <= rdiff] and [rdiff + r + cdiff <= npts] these rows lie outside
    the block, and the taper changes nothing. *)
Theorem taper2d_spec (g : Np.ndarray R) (npts cdiff rdiff : Z) :
  Np.wf g → (0 ≤ rdiff)%Z → (0 ≤ cdiff)%Z →
  (rdiff + Z.of_nat (Np.nrows g) ≤ npts)%Z → (cdiff + Z.of_nat (Np.ncols g) ≤ npts)%Z →
  ∃ gf,
    __taper2d g npts (Z.of_nat (Np.ncols g)) (Z.of_nat (Np.nrows g)) cdiff rdiff = Some gf
    ∧ Np.wf gf ∧ Np.shape gf = (npts, npts)
    ∧ ∀ i j : nat, (i < Z.to_nat npts)%nat → (j < Z.to_nat npts)%nat →
        ((Z.to_nat rdiff ≤ i < Z.to_nat rdiff + Np.nrows g)%nat
         ∧ (Z.to_nat cdiff ≤ j < Z.to_nat cdiff + Np.ncols g)%nat →
         ∃ x f, Np.lookup2 g (i - Z.to_nat rdiff) (j - Z.to_nat cdiff) = Some x
                ∧ (0 <= f <= 1)%R
                ∧ ((cdiff ≤ rdiff)%Z
                   ∧ (rdiff + Z.of_nat (Np.nrows g) + cdiff ≤ npts)%Z → f = 1%R)
                ∧ Np.lookup2 gf i j = Some ((x - np_mean g) * f)%R)
        ∧ (¬ ((Z.to_nat rdiff ≤ i < Z.to_nat rdiff + Np.nrows g)%nat
              ∧ (Z.to_nat cdiff ≤ j < Z.to_nat cdiff + Np.ncols g)%nat) →
           Np.lookup2 gf i j = Some 0%R).
Proof.
  intros Hg Hrd Hcd Hr Hc. unfold __taper2d. cbv zeta.
  rewrite (proj2 (Z.ltb_ge npts 0)) by lia.
  set (v := Np.map (λ x : R, (x - np_mean g)%R) g).
  destruct (wf_map (λ x : R, (x - np_mean g)%R) g Hg) as [Hv [Hv1 Hv2]]. fold v in Hv, Hv1, Hv2.
  change (Np.nrows g) with (Np.nrows v) in *. change (Np.ncols g) with (Np.ncols v) in *.
  destruct (assign_block_zeros v npts rdiff cdiff Hv Hrd Hcd Hr Hc)
    as (b & Hb & Hwb & Hb1 & Hb2 & Hcells).
  rewrite Hb. cbn [mbind option_bind].
  assert (∀ x', Np.lookup2 v (x'.1) (x'.2) = None ∨
                ∃ x, Np.lookup2 g (x'.1) (x'.2) = Some x
                     ∧ Np.lookup2 v (x'.1) (x'.2) = Some (x - np_mean g)%R) as Hvg.
  { intros [p q]. cbn [fst snd]. destruct (Np.lookup2 v p q) as [y|] eqn:Hy; [|by left].
    right. apply lookup2_map in Hy as (x & Hx & ->). by exists x. }
  destruct (decide ((cdiff ≤ rdiff)%Z ∧ (rdiff + Z.of_nat (Np.nrows v) + cdiff ≤ npts)%Z))
    as [[Hle Hfit]|Hno].
  - rewrite taper_loops_id; [|exact Hwb|lia|lia|lia|exact Hfit|].
    2:{ intros i j Hi Hj Hout. apply (Hcells i j Hi Hj). lia. }
    exists b. split; [reflexivity|]. split; [exact Hwb|].
    split; [unfold Np.shape; f_equal; lia|].
    intros i j Hi Hj. destruct (Hcells i j Hi Hj) as [Hin Hout]. split; [|exact Hout].
    intros Hblock. destruct (Hin Hblock) as (y & Hy & Hby).
    destruct (Hvg (i - Z.to_nat rdiff, j - Z.to_nat cdiff)%nat) as [Hn|(x & Hx & Hvx)];
      cbn [fst snd] in *; [congruence|].
    rewrite Hy in Hvx. apply (inj Some) in Hvx. subst y.
    exists x, 1%R. split; [exact Hx|]. split; [lra|]. split; [reflexivity|].
    rewrite Hby. f_equal. ring.
  - destruct (taper_loops v (Z.to_nat npts) (Z.to_nat rdiff) (Z.to_nat cdiff) b
                npts cdiff rdiff (Z.of_nat (Np.nrows v)))
      as (gf & Hgf & Hwgf & Hg1 & Hg2 & Hgcells); [|lia..|].
    { split; [exact Hwb|]. split; [exact Hb1|]. split; [exact Hb2|].
      intros i j Hi Hj. destruct (Hcells i j Hi Hj) as [Hin Hout]. split; [|exact Hout].
      intros Hblock. destruct (Hin Hblock) as (y & Hy & Hby).
      exists y, 1%R. split; [exact Hy|]. split; [lra|]. rewrite Hby. f_equal. ring. }
    exists gf. split; [exact Hgf|]. split; [exact Hwgf|].
    split; [unfold Np.shape; f_equal; lia|].
    intros i j Hi Hj. destruct (Hgcells i j Hi Hj) as [Hin Hout]. split; [|exact Hout].
    intros Hblock. destruct (Hin Hblock) as (y & f & Hy & Hf & Hgy).
    destruct (Hvg (i - Z.to_nat rdiff, j - Z.to_nat cdiff)%nat) as [Hn|(x & Hx & Hvx)];
      cbn [fst snd] in *; [congruence|].
    rewrite Hy in Hvx. apply (inj Some) in Hvx. subst y.
    exists x, f. split; [exact Hx|]. split; [exact Hf|]. split; [|exact Hgy].
    intros Hyes. by destruct Hno.
Qed.

Lemma taper2d_spec_witness :
  let g := Np.mk 2 3 [[1; 2; 4]; [0; 3; 5]]%R in
  ∃ gf,
    __taper2d g 6 (Z.of_nat 3) (Z.of_nat 2) 2 1 = Some gf
    ∧ Np.wf gf ∧ Np.shape gf = (6%Z, 6%Z)
    ∧ ∀ i j : nat, (i < Z.to_nat 6)%nat → (j < Z.to_nat 6)%nat →
        ((Z.to_nat 1 ≤ i < Z.to_nat 1 + 2)%nat ∧ (Z.to_nat 2 ≤ j < Z.to_nat 2 + 3)%nat →
         ∃ x f, Np.lookup2 g (i - Z.to_nat 1) (j - Z.to_nat 2) = Some x
                ∧ (0 <= f <= 1)%R
                ∧ ((2 ≤ 1)%Z ∧ (1 + Z.of_nat 2 + 2 ≤ 6)%Z → f = 1%R)
                ∧ Np.lookup2 gf i j = Some ((x - np_mean g) * f)%R)
        ∧ (¬ ((Z.to_nat 1 ≤ i < Z.to_nat 1 + 2)%nat
              ∧ (Z.to_nat 2 ≤ j < Z.to_nat 2 + 3)%nat) →
           Np.lookup2 gf i j = Some 0%R).
Proof.
  intros g.
  assert (Np.wf g) as Hg by (split; [reflexivity|repeat constructor]).
  apply (taper2d_spec g 6 2 1 Hg); simpl; lia.
Defined.

(** ** The signs of the tilt angles *)

(** A cell that [np.ma.arctan(a/b)] leaves unmasked: both operands are
    unmasked there, the division is safe, and the cell holds the arctangent
    of the quotient. *)
Lemma atan_ratio_cell (a b : Np.marray R) (i j : nat) (v : R) :
  Np.lookup2 (Np.data (Ma.lift1 (Ma.unary atan) (Ma.lift2 Ma.true_divide a b))) i j
    = Some v →
  Np.lookup2 (Np.mask (Ma.lift1 (Ma.unary atan) (Ma.lift2 Ma.true_divide a b))) i j
    = Some false →
  ∃ x y, Np.lookup2 (Ma.cells a) i j = Some (x, false)
         ∧ Np.lookup2 (Ma.cells b) i j = Some (y, false)
         ∧ Ma.unsafe x y = false ∧ v = atan (x / y).
Proof.
  intros Hv Hb. unfold Ma.lift1 at 1 in Hv. unfold Ma.lift1 at 1 in Hb.
  pose proof (lookup2_of_cells _ _ _ _ _ Hv Hb) as Hc.
  apply lookup2_map in Hc as (q & Hq & Hvq). rewrite cells_lift2 in Hq.
  apply lookup2_zip_with in Hq as ([x bx] & [y by_] & Hx & Hy & ->).
  unfold Ma.unary, Ma.true_divide in Hvq. cbn [fst snd] in Hvq.
  destruct bx; [discriminate|]. destruct by_; [discriminate|]. cbn [orb] in Hvq.
  destruct (Ma.unsafe x y) eqn:Hu; [discriminate|].
  injection Hvq as ->. by exists x, y.
Qed.

(** A cell that [np.ma.sqrt] leaves unmasked is not negative. *)
Lemma sqrt_cell_nonneg (a : Np.marray R) (i j : nat) (y : R) :
  Np.lookup2 (Ma.cells (Ma.lift1 Ma.sqrt a)) i j = Some (y, false) → (0 <= y)%R.
Proof.
  rewrite cells_lift1. intros ([x b] & _ & Hs)%lookup2_map.
  unfold Ma.sqrt in Hs. cbn [fst snd] in Hs. destruct b; [discriminate|]. cbn [orb] in Hs.
  destruct (Rlt_dec x 0); [discriminate|]. injection Hs as ->. apply sqrt_pos.
Qed.

Lemma unmasked_cell (a : Np.ndarray R) (i j : nat) (x : R) (b : bool) :
  Np.lookup2 (Ma.cells (unmasked a)) i j = Some (x, b) → Np.lookup2 a i j = Some x.
Proof.
  unfold Ma.cells, unmasked. cbn [Np.data Np.mask].
  by intros (x' & b' & Hx & _ & [= -> ->])%lookup2_zip_with.
Qed.

(** A safe division has a divisor that is not 0. *)
Lemma safe_divisor (x y : R) : Ma.unsafe x y = false → y ≠ 0%R.
Proof.
  unfold Ma.unsafe. destruct (Rle_dec (Rabs y) (Rabs x * Ma.tiny)) as [|Hn]; [discriminate|].
  intros _ ->. apply Hn. rewrite Rabs_R0.
  apply Rmult_le_pos; [apply Rabs_pos|]. pose proof tiny_pos. lra.
Qed.

Lemma atan_sign (x : R) :
  ((0 < atan x ↔ 0 < x) ∧ (atan x < 0 ↔ x < 0) ∧ (atan x = 0 ↔ x = 0))%R.
Proof.
  destruct (Rtotal_order x 0) as [Hx|[->|Hx]].
  - pose proof (atan_increasing x 0 Hx) as H. rewrite atan_0 in H. repeat split; lra.
  - rewrite atan_0. repeat split; lra.
  - pose proof (atan_increasing 0 x Hx) as H. rewrite atan_0 in H. repeat split; lra.
Qed.

Lemma quotient_sign (x y : R) :
  (0 < y → (0 < x / y ↔ 0 < x) ∧ (x / y < 0 ↔ x < 0) ∧ (x / y = 0 ↔ x = 0))%R.
Proof.
  intros Hy. pose proof (Rinv_0_lt_compat y Hy) as Hi. unfold Rdiv.
  repeat split; intros H; nra.
Qed.

(** X20.  Where the standard tilt angle is defined it has the sign of the
    vertical derivative of the smoothed grid, and is 0 exactly where that
    derivative is 0; the total-derivative angle is never negative. *)
Theorem tilt1_signs (arctanh_re : Np.marray R → Np.marray R)
    (m : Np.marray R) (azi : R) (s : Z) :
  Np.wfma m →
  (Z.max 1 s + 1 ≤ Z.of_nat (Np.nrows (Np.data m)))%Z →
  (Z.max 1 s + 1 ≤ Z.of_nat (Np.ncols (Np.data m)))%Z →
  ∃ d dz out,
    smoothed m s = Some d
    ∧ vertical d (Some (pow2 (nextpow2 (Z.max (Z.of_nat (Np.nrows (Np.data d)))
                                              (Z.of_nat (Np.ncols (Np.data d))))))) 1
      = Some dz
    ∧ tilt1 arctanh_re m azi s = Some out
    ∧ (∀ i j v,
         Np.lookup2 (Np.data (t1 out)) i j = Some v →
         Np.lookup2 (Np.mask (t1 out)) i j = Some false →
         ∃ z, Np.lookup2 dz i j = Some z
              ∧ ((0 < v ↔ 0 < z) ∧ (v < 0 ↔ z < 0) ∧ (v = 0 ↔ z = 0))%R)
    ∧ (∀ i j v,
         Np.lookup2 (Np.data (tdx out)) i j = Some v →
         Np.lookup2 (Np.mask (tdx out)) i j = Some false →
         (0 <= v < PI / 2)%R).
Proof.
  intros Hm Hnr Hnc.
  destruct (tilt_angles_spec arctanh_re m azi s Hm Hnr Hnc)
    as (d & r & Hsm & Hang & _ & (_ & _ & _ & Hxq) & _).
  exists d. unfold tilt1. rewrite Hang. cbn [mbind option_bind].
  unfold tilt_angles in Hang. rewrite Hsm in Hang. cbn [mbind option_bind] in Hang.
  cbv zeta in Hang. unfold ma_gradient in Hang.
  destruct (gradient (Ma.binary Rminus) (λ x c, Ma.true_divide x (c, false)) (Ma.cells d))
    as [[d0 d1]|]; [|discriminate].
  cbn [mbind option_bind fst snd] in Hang.
  destruct (vertical d _ 1) as [dz|] eqn:Hv in Hang; [|discriminate].
  cbn [mbind option_bind] in Hang.
  destruct (gradient Rminus Rdiv _) as [ds|] in Hang; [|discriminate].
  cbn [mbind option_bind] in Hang.
  destruct (vertical (unmasked _) _ 1) as [dzs|] in Hang; [|discriminate].
  cbn [mbind option_bind] in Hang. apply (inj Some) in Hang. subst r.
  exists dz. eexists. split; [exact Hsm|]. split; [exact Hv|]. split; [reflexivity|].
  cbn [t1 tdx] in Hxq |- *. split.
  - intros i j v Hval Hmask.
    destruct (atan_ratio_cell _ _ i j v Hval Hmask) as (z & q & Hz & Hq & Hsafe & ->).
    apply unmasked_cell in Hz. apply sqrt_cell_nonneg in Hq.
    pose proof (safe_divisor z q Hsafe) as Hq0.
    exists z. split; [exact Hz|].
    destruct (atan_sign (z / q)) as (A1 & A2 & A3).
    destruct (quotient_sign z q ltac:(lra)) as (Q1 & Q2 & Q3).
    split; [by rewrite A1, Q1|]. split; [by rewrite A2, Q2|by rewrite A3, Q3].
  - intros i j v Hval Hmask. split; [|exact (proj2 (Hxq i j v Hval Hmask))].
    destruct (atan_ratio_cell _ _ i j v Hval Hmask) as (q & z & Hq & Hz & Hsafe & ->).
    apply unmasked_cell in Hz. apply lookup2_map in Hz as (z0 & _ & ->).
    apply sqrt_cell_nonneg in Hq.
    pose proof (safe_divisor q (Rabs z0) Hsafe) as Hz0.
    pose proof (Rabs_pos z0) as Hpos.
    destruct (Req_dec q 0) as [->|Hq0].
    + unfold Rdiv. rewrite Rmult_0_l, atan_0. lra.
    + destruct (atan_sign (q / Rabs z0)) as (A1 & _ & _).
      destruct (quotient_sign q (Rabs z0) ltac:(lra)) as (Q1 & _ & _).
      apply Rlt_le, A1, Q1. lra.
Qed.

Lemma tilt1_signs_witness :
  let m := unmasked (Np.mk 2 2 [[1; 2]; [3; 5]]%R) in
  ∃ d dz out,
    smoothed m 0 = Some d
    ∧ vertical d (Some (pow2 (nextpow2 (Z.max (Z.of_nat (Np.nrows (Np.data d)))
                                              (Z.of_nat (Np.ncols (Np.data d))))))) 1
      = Some dz
    ∧ tilt1 (λ x, x) m 0 0 = Some out
    ∧ (∀ i j v,
         Np.lookup2 (Np.data (t1 out)) i j = Some v →
         Np.lookup2 (Np.mask (t1 out)) i j = Some false →
         ∃ z, Np.lookup2 dz i j = Some z
              ∧ ((0 < v ↔ 0 < z) ∧ (v < 0 ↔ z < 0) ∧ (v = 0 ↔ z = 0))%R)
    ∧ (∀ i j v,
         Np.lookup2 (Np.data (tdx out)) i j = Some v →
         Np.lookup2 (Np.mask (tdx out)) i j = Some false →
         (0 <= v < PI / 2)%R).
Proof.
  intros m.
  assert (Np.wfma m) as Hm.
  { split; [|split; [apply wf_full|split; reflexivity]].
    split; [reflexivity|]. repeat constructor. }
  apply (tilt1_signs (λ x, x) m 0 0 Hm); simpl; lia.
Defined.
